(* ===== verification/_CoqProject ===== *)
-Q . S2P
Prelude.v
GoStrings.v
ParseUint.v
TlsPolicy.v
GoHeap.v
Base64.v
Json.v
JsonDecode.v
DecodeInvariant.v
JsonRoundTrip.v
TlsConfig.v
Http.v
HttpProofs.v
Responders.v
Concurrent.v
Interference.v
ConcurrentProofs.v
