(* ===== verification/Prelude.v ===== *)
(** * A verification development of cbauth's [convenience.go]

    The repository is one Go file, [src/convenience.go], of the Couchbase
    [cbauth] package.  It has two independent halves.

    - The HTTP half.  [SetRequestAuthVia] (and its shorthand
      [SetRequestAuth]) asks an [Authenticator] for the credentials of the
      request's [URL.Host] and stores them as a Basic-Auth header of the
      request; [dupRequest] (with [dupHeaders] and
      [duplicateStringsSlice]) copies a request together with its header
      and trailer maps and every value slice of them; the
      [cbauthRoundTripper] built by [WrapHTTPTransport] duplicates each
      outbound request, signs the duplicate and hands it to the wrapped
      transport.  [SendUnauthorized], [ForbiddenJSON] and [SendForbidden]
      write 401 and 403 answers.
    - The TLS half.  [getTLSConfig] reads the environment variable
      [CBAUTH_TLS_CONFIG] and decodes it as JSON (panicking when decoding
      fails); [CipherSuites] expands its [Ciphers] entries ("high",
      "medium", or a 16-bit number parsed by [strconv.ParseUint]) and falls
      back to [ciphersHigh]; [MinTLSVersion] maps [MinTLSVersion] to a TLS
      version constant, TLS 1.0 by default.

    ** Files, in dependency order

    - [Prelude] (this file): the [result] type of Go's [(value, error)]
      returns with stdpp's monad notation, string and byte helpers shared
      by every component, the [cbauth] hint database and tactics.
    - [GoStrings]: the parts of Go's [unicode/utf8] and [strings] packages
      the code calls: [DecodeRune], [DecodeLastRune], [unicode.IsSpace],
      [TrimLeftFunc], [TrimRightFunc], [TrimSpace], [EqualFold] and
      [ToLower].  They are library code, modelled from Go's sources.
    - [ParseUint]: [strconv.ParseUint], with base prefixes, underscores,
      the 64-bit cut-off and the [bitSize] bound, and its theorems: the
      bound on the result, the range error above [2^bitSize - 1], and the
      round trip with decimal, octal (after a leading [0]) and
      hexadecimal (after [0x]) printing.
    - [TlsPolicy]: [ciphersHigh], [ciphersMedium], [tlsConfig], the loop of
      [CipherSuites] and the switch of [MinTLSVersion], with the properties
      of §4.5 and §8 of the spec (never empty, fall back to [ciphersHigh],
      order of expansion, case-insensitivity, no truncation by [uint16]
      (every identifier is a tier's or exactly what [ParseUint] read at
      16 bits), duplicates kept, decimal and octal entries read back, a
      version with leading white space never recognised).

    - [GoHeap]: a heap of Go objects (a [gmap] from locations with the next
      free location), slices as windows [arr]/[off]/[len]/[cap] on heap
      arrays, and [append]: in place within capacity, else a new array of
      capacity [grow cap needed] for any runtime policy [grow] that makes
      room (a Section hypothesis).  Lemmas: what [append] shows, which
      objects it keeps, that it keeps every array's length.
    - [Base64]: [base64.StdEncoding.EncodeToString] (groups of three
      bytes by shifts and masks, padded remainder) and the decoding of
      padded input; [decode (EncodeToString bs) = Some bs] for every byte
      list, by well-founded induction on its length.
    - [Http]: the code of lines 27-90.  A [Store] holds three heaps:
      backing arrays of header values, header maps ([gmap] from keys to
      slices), and [http.Request] structs, whose [Header] and [Trailer]
      are references.  Go code runs in the monad [M] (store to value and
      store, or a [Panic]: nil-map write, index out of range, dangling
      pointer).  [Header_Set] and its siblings, [CanonicalMIMEHeaderKey],
      [basicAuth], [SetBasicAuth]; [Authenticator] and [RoundTripper] are
      records of the one method the code calls; [WithAuthenticator],
      [SetRequestAuthVia], [SetRequestAuth], [duplicateStringsSlice],
      [dupHeaders] (its loop [dup_entries]), [dupRequest], [RoundTrip],
      [WrapHTTPTransport]; the server's [parseBasicAuth].  The runtime's
      [grow], Go's random map iteration order [range] and [Default] are
      parameters of the Section.
    - [HttpProofs]: a total-correctness [wp] for [M], frames ([sframe b st
      st']: every object older than the snapshot [b] unchanged), the
      well-formedness [store_wf] (references allocated, slices valid), the
      view of a header map as a [gmap] to value lists, and the contract
      [transport_law] of a delegate transport (it may write only objects
      newer than those its request reaches), and the stronger promise
      [keeps_caller] of a wrapper (its own request is left as it was;
      [sign_in_place_breaks_caller] shows a wrapper signing in place
      breaks it).  Specifications of each
      function, then the theorems: [RoundTrip] leaves the caller's
      request, header, trailer and every older object unchanged; it hands
      the delegate a fresh request whose header is the caller's plus
      [Authorization: Basic ...]; a credential error is returned without
      calling the delegate; [WrapHTTPTransport] of a lawful transport
      keeps [transport_law] and [keeps_caller], so wrappers stack; [SetRequestAuthVia] signs in place, changes nothing
      on error, and panics on a nil [Header]; the server reads the
      credentials back when the user name has no [':'], and otherwise
      reads the user cut at its first [':'] with the rest of it in front
      of the password.  Witnesses
      run on a concrete store with [grow c n = max (2c) n] and the sorted
      iteration order.

    - [Json]: the encoder of Go's [encoding/json] that [ForbiddenJSON]
      reaches: [appendString] with HTML escaping (control bytes, the
      quote, the backslash, [<], [>], [&], invalid UTF-8 as [\ufffd],
      U+2028/U+2029), arrays, maps with sorted keys, [Marshal]; every
      byte of an encoded string is HTML-safe, whatever the input.
    - [JsonDecode]: the decoder [getTLSConfig] reaches.  Module [scanner]
      is [scanner.go] state for state (a constructor of [stepfn] per
      [state*] function, the parse stack with its depth limit 10000,
      [eof], [checkValid]); module [decode] has [unquoteBytes] (escapes,
      surrogate pairs, invalid UTF-8 replaced) and the walk of
      [decode.go] over the scanner's op codes, [document], giving a
      [jvalue] tree.  Theorems: [unquote_loop] never runs out of fuel;
      for an ASCII string, [appendString] output passes [checkValid] and
      decodes back to the string.
    - [DecodeInvariant]: the invariant [Inv] between a scanner state and
      the walk's builder (open arrays and objects against the parse
      stack, the literal being read against the scanner state inside
      it, escapes included); [step_inv] (one byte keeps it), [run_inv]
      (a run keeps it) and [document_total]: on every input
      [checkValid] accepts, [document] yields a value, so the "phase
      error" of [Unmarshal] is unreachable.
    - [JsonRoundTrip]: the encoder against the decoder, for every Go
      value of ASCII strings, arrays and string-keyed maps
      ([json.goval]): [reads]/[fails] say what the scanner and the
      walk make of the bytes of one value from any state that expects
      one; byte-level lemmas for each piece of [Marshal]'s output and
      an induction over values ([goval_ind']) give [Marshal_roundtrip]
      (nested at most 10000 deep, [checkValid] accepts the output and
      [document] gives the value back, map entries in key order) and
      [Marshal_too_deep] (deeper, [checkValid] fails with the "exceeded
      max depth" error).
    - [TlsConfig]: [Unmarshal] into [tlsConfig] (keys matched by exact
      name, then by [foldName] with the Unicode folds that reach ASCII;
      [null], type errors, and slices decoded into their own backing
      array, modelled as elements plus spare capacity), [getTLSConfig]
      over an environment function [Getenv] with the panic as [Err],
      and [CipherSuites] and [MinTLSVersion] composed with it.
      Theorems: a blank variable gives the defaults; a member of the
      wrong kind makes [getTLSConfig] panic, and its only errors are
      the syntax error of [checkValid] or a type error; a configuration
      [json.Marshal] writes is read back exactly
      ([getTLSConfig_Marshal]), also under any ASCII keys [EqualFold]
      to the field names ([getTLSConfig_folded_keys]); a repeated
      [Ciphers] key of [n] nulls exposes the first [n] entries the
      first array left in the slice ([getTLSConfig_null_reuse]); a text nested deeper than 10000 makes
      [getTLSConfig] panic, whatever the keys ([getTLSConfig_too_deep]).
    - [Responders]: the code of lines 92-118, written once against a
      [ResponseWriter] record ([Header().Set]/[Del], [WriteHeader],
      [Write]) with [http.Error]; instantiated with Go's server response
      ([server]: the header snapshot at [WriteHeader], ignored second
      [WriteHeader], 1xx interim answers, [bodyAllowedForStatus], the
      implicit 200 of [Write]) and with a call recorder ([trace]).
      Theorems: what the client receives from [SendUnauthorized] and
      [SendForbidden] on a fresh response and on one already written;
      the 401 stays whatever the handler does next; the order of the
      calls; against any writer, [SendForbidden] makes exactly the
      calls set, [WriteHeader(403)], [Write] of the body, and returns
      nil (its [Marshal] error branch is dead); the 403 body is
      HTML-safe and decodes back to the message and the permission (a
      corollary of [Marshal_roundtrip]).

    - [Concurrent]: the code of lines 32-80 cut at its atomic steps
      ([prog]: [Act] runs one operation of [Http.v]'s monad, [Call]
      hands a request to the delegate), so that the [RoundTrip]s of
      several goroutines interleave over one shared [Store]: [cstep]
      lets the scheduler run any goroutine one step, a panic stops the
      process, [steps] records the delegate calls.  [RoundTrip_p_run]:
      run alone, [RoundTrip_p] is [Http.v]'s [RoundTrip] (an equivalence
      of monadic programs up to [M_equiv], which checks that the cut
      keeps the operations and their order); [cnext_wf]: every
      interleaving is finite, the induction principle of the liveness
      theorem.
    - [Interference]: footprints, the [rely] and [guar] of one goroutine
      and the judgment [wpr] over [prog]; [pool_steps_inv]: goroutines
      each verified against its [rely], with disjoint footprints, stay
      so along every interleaving, and each delegate call meets its
      goroutine's condition.
    - [ConcurrentProofs]: the contract of a delegate in a concurrent
      program (class [ConcurrentTransport]: it writes only what its
      request reaches, or new objects), the [wpr] specification of each
      function of [Concurrent], and the theorems on a pool of
      [RoundTrip]s that may share one template request: along every
      interleaving no object older than the start changes and each
      delegate receives its own fresh request whose header is the
      template's plus its own credentials ([RoundTrip_concurrent]);
      along every interleaving one always can run until every
      goroutine has returned its credential error or its delegate's
      answer
      ([RoundTrip_concurrent_returns]).  A witness runs three
      goroutines on one template under a round-robin schedule.

    ** Bounds, fuel and assumptions

    The [utf8] decoders read at most [UTFMax = 4] bytes, so the backward
    scan [scan_back] of [DecodeLastRuneInString] runs at most three times
    and gets fuel 4; [digits_rev] gets fuel [n + 1], enough since each
    step divides [n >= base >= 2] by the base.  The loops over a string
    that advance by one UTF-8 sequence ([string_body], [unquote_loop],
    [fold_loop]) get one more than the length as fuel, since each round
    consumes at least one byte; [unquote_loop_fuel] shows that more fuel
    changes nothing.  The JSON scanner and the walk over its op codes
    recurse on the input and need no fuel.  The HTTP theorems hold for
    every growth policy with [n <= grow c n] and every iteration order
    that is a permutation of the map's entries; the JSON round trips
    hold up to the scanner's own bound [maxNestingDepth] = 10000 levels
    of nesting, and [Marshal_too_deep] shows the bound is exact; the
    concurrent theorems
    need no fuel (the interleavings are finite by [cnext_wf]) and their
    witness uses a schedule of 90 steps, more than the three goroutines
    take; the roundtrip theorems
    of the JSON encoder and decoder are stated for ASCII strings.

    ** Not modelled

    - The authenticator's own state (credential cache, refresh): the
      [Authenticator] interface is implemented outside [src/], so its
      method is a function of the host, the same for every call.  The
      delegate transport and the package's [Default] authenticator are
      likewise outside [src/]: the delegate is modelled by its
      contract ([transport_law], [ConcurrentTransport]); its own call is
      one atomic step of an interleaving.
    - Go's memory model below sequential consistency: the goroutines of
      [Concurrent] interleave whole operations of [Http.v]'s monad (a
      map insert, a slice append), which the code's data-race freedom
      on objects it owns justifies.
    - Hijacked connections, the automatic [100 Continue] and the byte
      count against a declared [Content-Length] in the server's response.
    - The text of JSON error messages (the byte, context and offset are
      kept) and the conversion of JSON numbers (no field of [tlsConfig]
      is numeric: a number is only ever a type error).
*)

From Stdlib Require Export ZArith String Ascii Lia.
From stdpp Require Export base list gmap strings.

Declare Scope go_scope.
Delimit Scope go_scope with go.
Open Scope Z_scope.

Create HintDb cbauth discriminated.
Create Rewrite HintDb cbauth_rw.

(** ** Go's [(value, error)] returns *)

(** A Go call that returns a value and an error is a [result]: [Ok] when
    the error is [nil], [Err] otherwise.  A Go panic is an [Err] of a
    panic type. *)
Inductive result (E A : Type) : Type :=
| Ok (a : A)
| Err (e : E).
Arguments Ok {E A} a.
Arguments Err {E A} e.

#[export] Instance result_ret {E} : MRet (result E) := λ A a, Ok a.
#[export] Instance result_bind {E} : MBind (result E) :=
  λ A B f r, match r with Ok a => f a | Err e => Err e end.
#[export] Instance result_fmap {E} : FMap (result E) :=
  λ A B f r, match r with Ok a => Ok (f a) | Err e => Err e end.

Definition is_ok {E A} (r : result E A) : bool :=
  match r with Ok _ => true | Err _ => false end.

Lemma result_bind_Ok {E A B} (a : A) (f : A → result E B) :
  (Ok a ≫= f) = f a.
Proof. reflexivity. Qed.

Lemma result_bind_Err {E A B} (e : E) (f : A → result E B) :
  (Err e ≫= f) = Err e.
Proof. reflexivity. Qed.

Lemma result_bind_eq_Ok {E A B} (r : result E A) (f : A → result E B) b :
  (r ≫= f) = Ok b ↔ ∃ a, r = Ok a ∧ f a = Ok b.
Proof.
  destruct r as [a|e]; simpl; split.
  - intros H. by exists a.
  - by intros (a' & [= ->] & ?).
  - done.
  - by intros (? & ? & ?).
Qed.

#[export] Hint Rewrite @result_bind_Ok @result_bind_Err : cbauth_rw.

(** An error of a bind is an error of its first call or of its second. *)
Lemma result_bind_Err_inv {E A B} (P : E → Prop) (r : result E A) (f : A → result E B) e :
  (∀ e', r = Err e' → P e') → (∀ a e', f a = Err e' → P e') → (r ≫= f) = Err e → P e.
Proof. destruct r; cbn; [eauto|]. intros H _ [= ->]. by apply H. Qed.

(** ** Bytes of Go strings

    A Go [string] is a sequence of bytes; Rocq's [string] is a sequence of
    8-bit [ascii] characters, so one models the other exactly.  A byte is
    read as its value [0 <= b < 256] in [Z]. *)

Definition bv (c : ascii) : Z := Z.of_N (N_of_ascii c).
Definition chr (z : Z) : ascii := ascii_of_N (Z.to_N z).

Lemma bv_range c : 0 <= bv c < 256.
Proof.
  unfold bv. pose proof (N_ascii_bounded c). lia.
Qed.

Lemma chr_bv c : chr (bv c) = c.
Proof. unfold chr, bv. rewrite N2Z.id. apply ascii_N_embedding. Qed.

Lemma bv_chr z : 0 <= z < 256 → bv (chr z) = z.
Proof.
  intros H. unfold chr, bv. rewrite N_ascii_embedding; [lia|].
  apply N2Z.inj_lt. rewrite Z2N.id; lia.
Qed.

Lemma bv_inj c1 c2 : bv c1 = bv c2 → c1 = c2.
Proof. intros H. rewrite <- (chr_bv c1), <- (chr_bv c2), H. reflexivity. Qed.

#[export] Hint Resolve bv_range : cbauth.
#[export] Hint Rewrite chr_bv : cbauth_rw.

(** [s[n:]] of Go, for [n <= len(s)]. *)
Fixpoint sdrop (n : nat) (s : string) : string :=
  match n, s with
  | O, _ => s
  | S n', String _ s' => sdrop n' s'
  | S _, EmptyString => EmptyString
  end.

(** [s[:n]] of Go, for [n <= len(s)]. *)
Fixpoint stake (n : nat) (s : string) : string :=
  match n, s with
  | O, _ => EmptyString
  | S n', String c s' => String c (stake n' s')
  | S _, EmptyString => EmptyString
  end.

Lemma sdrop_length n s : String.length (sdrop n s) = (String.length s - n)%nat.
Proof. revert s; induction n; destruct s; simpl; auto with lia. Qed.

Lemma stake_length n s : String.length (stake n s) = Nat.min n (String.length s).
Proof. revert s; induction n; destruct s; simpl; auto with lia. Qed.

Lemma stake_sdrop n s : (stake n s +:+ sdrop n s)%string = s.
Proof.
  revert s; induction n; intros [|c s]; try reflexivity.
  exact (f_equal (String c) (IHn s)).
Qed.

(** The bytes of a string as a list of values. *)
Fixpoint bytes (s : string) : list Z :=
  match s with
  | EmptyString => []
  | String c s' => bv c :: bytes s'
  end.

Lemma bytes_app s1 s2 : bytes (s1 +:+ s2) = bytes s1 ++ bytes s2.
Proof. induction s1; simpl; f_equal; auto. Qed.

Lemma bytes_inj s1 s2 : bytes s1 = bytes s2 → s1 = s2.
Proof.
  revert s2; induction s1; destruct s2; simpl; intros H; try discriminate; auto.
  injection H as H1 H2. f_equal; auto using bv_inj.
Qed.

(** ** Bit operations on disjoint fields *)

(** A value whose low [n] bits are zero and a value below [2^n] share no
    bit: their [lor] is their sum. *)
Lemma land_low_zero x b n :
  0 <= n → x mod 2 ^ n = 0 → 0 <= b < 2 ^ n → Z.land x b = 0.
Proof.
  intros Hn Hx Hb. apply Z.bits_inj_0. intros i. rewrite Z.land_spec.
  destruct (Z.lt_ge_cases i 0); [by rewrite Z.testbit_neg_r|].
  destruct (Z.lt_ge_cases i n).
  - rewrite <- Z.mod_pow2_bits_low with (n := n) by lia. by rewrite Hx, Z.bits_0.
  - rewrite <- (Z.mod_small b (2 ^ n)) by lia.
    rewrite Z.mod_pow2_bits_high by lia. apply andb_false_r.
Qed.

Lemma lor_low_add x b n :
  0 <= n → x mod 2 ^ n = 0 → 0 <= b < 2 ^ n → Z.lor x b = x + b.
Proof.
  intros Hn Hx Hb. pose proof (Z.add_lor_land x b) as H.
  rewrite (land_low_zero x b n) in H by done. lia.
Qed.

(** [a << n | b] is [a * 2^n + b] when [b] fits in [n] bits. *)
Lemma lor_shiftl_add a b n :
  0 <= n → 0 <= b < 2 ^ n → Z.lor (Z.shiftl a n) b = a * 2 ^ n + b.
Proof.
  intros Hn Hb. rewrite Z.shiftl_mul_pow2 by done. apply (lor_low_add _ _ n); [done | | done].
  apply Z_mod_mult.
Qed.

(** [(v >> n) & (2^k - 1)] is the [k]-bit field of [v] at [n]. *)
Lemma shiftr_land_field v n k :
  0 <= n → 0 <= k → Z.land (Z.shiftr v n) (Z.ones k) = (v / 2 ^ n) mod 2 ^ k.
Proof. intros. rewrite Z.land_ones, Z.shiftr_div_pow2 by lia. done. Qed.

(** ** Tactics *)

(** Case on every [match] and [if] of the goal and the hypotheses, then
    clean up the equations: the step shared by the branch-by-branch
    proofs of the components. *)
Ltac go_cases :=
  repeat (case_match; simplify_eq/=); try done.

(** Replace the value [bv c] of every character literal [c] of the goal
    by its number, for [lia]. *)
Ltac bv_lits :=
  repeat match goal with
  | |- context [bv (Ascii ?a ?b ?c ?d ?e ?f ?g ?h)] =>
    let v := eval vm_compute in (bv (Ascii a b c d e f g h)) in
    change (bv (Ascii a b c d e f g h)) with v
  end.

(** Case on every comparison [<?], [=?], [<=?] of integers in the goal
    and the hypotheses, turning each into its proposition, for [lia]. *)
Ltac zbool := repeat match goal with
  | |- context [?a <? ?b] => destruct (Z.ltb_spec a b)
  | |- context [?a =? ?b] => destruct (Z.eqb_spec a b)
  | |- context [?a <=? ?b] => destruct (Z.leb_spec a b)
  | H : context [?a <? ?b] |- _ => destruct (Z.ltb_spec a b)
  | H : context [?a =? ?b] |- _ => destruct (Z.eqb_spec a b)
  | H : context [?a <=? ?b] |- _ => destruct (Z.leb_spec a b)
  end; cbn in *.

(** Unfold a component's definitions and evaluate a concrete run. *)
Ltac go_run := vm_compute; reflexivity.
