(* ===== verification/GoStrings.v ===== *)
(** * The Go string functions [convenience.go] calls

    [strings.TrimSpace] (in [getTLSConfig] and [CipherSuites]),
    [strings.EqualFold] (in [CipherSuites]) and [strings.ToLower] (in
    [MinTLSVersion]) work on UTF-8: they decode runes with
    [utf8.DecodeRuneInString] / [utf8.DecodeLastRuneInString] and classify
    them with [unicode.IsSpace].  This file models those functions from
    Go's sources, one Module per Go package, on Rocq [string]s (byte
    strings, as Go's).  Loops over a string carry a fuel equal to its length,
    which is enough because each iteration consumes at least one byte
    ([DecodeRuneInString_size_pos]).

    Two tables of Go's [unicode] package are modelled only where the code
    can observe them: [unicode.SimpleFold] on the ASCII orbits (with the
    Kelvin sign and the long s, the two non-ASCII runes that fold to ASCII
    letters) and [unicode.ToLower] on the runes whose lower case is ASCII.
    Hence [strings.EqualFold s t] is exact whenever one of [s], [t] is ASCII,
    and [strings.ToLower s = t] is decided exactly for every ASCII [t]: the
    only uses the code makes of them. *)

From S2P Require Import Prelude.

Module utf8.

Definition RuneError : Z := 0xFFFD.
Definition RuneSelf : Z := 0x80.
Definition UTFMax : Z := 4.
Definition MaxRune : Z := 0x10FFFF.

(** The [first] table of [utf8.go]: for a lead byte, the length of the
    sequence and the accepted range of the second byte; [None] for an
    invalid lead byte ([0x80]-[0xC1], [0xF5]-[0xFF]).  ASCII bytes are
    handled before the table is consulted. *)
Definition first (p0 : Z) : option (nat * Z * Z) :=
  if (0xC2 <=? p0) && (p0 <=? 0xDF) then Some (2%nat, 0x80, 0xBF)
  else if p0 =? 0xE0 then Some (3%nat, 0xA0, 0xBF)
  else if (0xE1 <=? p0) && (p0 <=? 0xEC) then Some (3%nat, 0x80, 0xBF)
  else if p0 =? 0xED then Some (3%nat, 0x80, 0x9F)
  else if (0xEE <=? p0) && (p0 <=? 0xEF) then Some (3%nat, 0x80, 0xBF)
  else if p0 =? 0xF0 then Some (4%nat, 0x90, 0xBF)
  else if (0xF1 <=? p0) && (p0 <=? 0xF3) then Some (4%nat, 0x80, 0xBF)
  else if p0 =? 0xF4 then Some (4%nat, 0x80, 0x8F)
  else None.

Definition is_cont (b : Z) : bool := (0x80 <=? b) && (b <=? 0xBF).

(** [utf8.DecodeRuneInString]: the first rune of [s] and its width;
    [(RuneError, 1)] on an invalid or truncated sequence,
    [(RuneError, 0)] on the empty string. *)
Definition DecodeRuneInString (s : string) : Z * nat :=
  match s with
  | EmptyString => (RuneError, 0%nat)
  | String c0 s0 =>
    let p0 := bv c0 in
    if p0 <? RuneSelf then (p0, 1%nat) else
    match first p0 with
    | None => (RuneError, 1%nat)
    | Some (sz, lo, hi) =>
      match s0 with
      | EmptyString => (RuneError, 1%nat)
      | String c1 s1 =>
        let b1 := bv c1 in
        if (b1 <? lo) || (hi <? b1) then (RuneError, 1%nat) else
        if (sz =? 2)%nat then
          (Z.lor (Z.shiftl (Z.land p0 0x1F) 6) (Z.land b1 0x3F), 2%nat) else
        match s1 with
        | EmptyString => (RuneError, 1%nat)
        | String c2 s2 =>
          let b2 := bv c2 in
          if negb (is_cont b2) then (RuneError, 1%nat) else
          if (sz =? 3)%nat then
            (Z.lor (Z.lor (Z.shiftl (Z.land p0 0x0F) 12)
                          (Z.shiftl (Z.land b1 0x3F) 6)) (Z.land b2 0x3F), 3%nat) else
          match s2 with
          | EmptyString => (RuneError, 1%nat)
          | String c3 _ =>
            let b3 := bv c3 in
            if negb (is_cont b3) then (RuneError, 1%nat) else
            (Z.lor (Z.lor (Z.shiftl (Z.land p0 0x07) 18)
                          (Z.shiftl (Z.land b1 0x3F) 12))
                   (Z.lor (Z.shiftl (Z.land b2 0x3F) 6) (Z.land b3 0x3F)), 4%nat)
          end
        end
      end
    end
  end.

(** [utf8.RuneStart]: the byte is not a continuation byte. *)
Definition RuneStart (b : Z) : bool := negb (Z.land b 0xC0 =? 0x80).

(** The byte [s[i]] (0 out of range, which the callers never read). *)
Definition byte_at (s : string) (i : Z) : Z :=
  match String.get (Z.to_nat i) s with Some c => bv c | None => 0 end.

(** The loop [for start--; start >= lim; start-- { if RuneStart(s[start])
    { break } }] of [DecodeLastRuneInString], entered with [start]
    already decremented.  Since [lim >= end - UTFMax], it runs at most
    three times; fuel 4 is enough. *)
Fixpoint scan_back (fuel : nat) (s : string) (start lim : Z) : Z :=
  match fuel with
  | O => start
  | S fuel' =>
    if start <? lim then start
    else if RuneStart (byte_at s start) then start
    else scan_back fuel' s (start - 1) lim
  end.

(** [utf8.DecodeLastRuneInString]: the last rune of [s] and its width. *)
Definition DecodeLastRuneInString (s : string) : Z * nat :=
  let end_ := Z.of_nat (String.length s) in
  if end_ =? 0 then (RuneError, 0%nat) else
  let r := byte_at s (end_ - 1) in
  if r <? RuneSelf then (r, 1%nat) else
  let lim := Z.max (end_ - UTFMax) 0 in
  let start := Z.max (scan_back 4 s (end_ - 2) lim) 0 in
  let '(r, size) := DecodeRuneInString (sdrop (Z.to_nat start) s) in
  if start + Z.of_nat size =? end_ then (r, size) else (RuneError, 1%nat).

(** [utf8.EncodeRune] (as used by [strings.Builder.WriteRune]). *)
Definition EncodeRune (r : Z) : list Z :=
  if (0 <=? r) && (r <? 0x80) then [r]
  else if (0 <=? r) && (r <? 0x800) then
    [Z.lor 0xC0 (Z.shiftr r 6); Z.lor 0x80 (Z.land r 0x3F)]
  else if (r <? 0) || (MaxRune <? r) || ((0xD800 <=? r) && (r <=? 0xDFFF)) then
    [0xEF; 0xBF; 0xBD]
  else if r <? 0x10000 then
    [Z.lor 0xE0 (Z.shiftr r 12); Z.lor 0x80 (Z.land (Z.shiftr r 6) 0x3F);
     Z.lor 0x80 (Z.land r 0x3F)]
  else
    [Z.lor 0xF0 (Z.shiftr r 18); Z.lor 0x80 (Z.land (Z.shiftr r 12) 0x3F);
     Z.lor 0x80 (Z.land (Z.shiftr r 6) 0x3F); Z.lor 0x80 (Z.land r 0x3F)].

End utf8.

Module unicode.

(** [unicode.IsSpace]: the Latin-1 spaces, then the [White_Space] table
    above Latin-1. *)
Definition IsSpace (r : Z) : bool :=
  if (0 <=? r) && (r <=? 0xFF) then
    (r =? 0x09) || (r =? 0x0A) || (r =? 0x0B) || (r =? 0x0C) ||
    (r =? 0x0D) || (r =? 0x20) || (r =? 0x85) || (r =? 0xA0)
  else
    (r =? 0x1680) || ((0x2000 <=? r) && (r <=? 0x200A)) ||
    (r =? 0x2028) || (r =? 0x2029) || (r =? 0x202F) || (r =? 0x205F) ||
    (r =? 0x3000).

Definition is_upper (r : Z) : bool := (0x41 <=? r) && (r <=? 0x5A).
Definition is_lower (r : Z) : bool := (0x61 <=? r) && (r <=? 0x7A).

(** [unicode.SimpleFold] on the orbits of ASCII letters: [A -> a -> A]
    except [K -> k -> U+212A -> K] and [S -> s -> U+017F -> S]. *)
Definition SimpleFold (r : Z) : Z :=
  if r =? 0x6B then 0x212A
  else if r =? 0x212A then 0x4B
  else if r =? 0x73 then 0x17F
  else if r =? 0x17F then 0x53
  else if is_upper r then r + 32
  else if is_lower r then r - 32
  else r.

(** [unicode.ToLower] on the runes whose lower case is ASCII: the ASCII
    capitals, U+0130 (dotted capital I) and U+212A (Kelvin sign). *)
Definition ToLower (r : Z) : Z :=
  if is_upper r then r + 32
  else if r =? 0x130 then 0x69
  else if r =? 0x212A then 0x6B
  else r.

End unicode.

Module strings.
Import utf8.

(** [indexFunc s f truth]: the byte index of the first rune [r] of [s]
    (decoded as [for i, r := range s] does) with [f r = truth], or -1. *)
Fixpoint index_from (fuel : nat) (f : Z → bool) (truth : bool) (s : string) (i : nat) : Z :=
  match fuel, s with
  | O, _ | _, EmptyString => -1
  | S fuel', _ =>
    let '(r, size) := DecodeRuneInString s in
    if Bool.eqb (f r) truth then Z.of_nat i
    else index_from fuel' f truth (sdrop size s) (i + size)
  end.

Definition indexFunc (s : string) (f : Z → bool) (truth : bool) : Z :=
  index_from (String.length s) f truth s 0.

(** [lastIndexFunc s f truth]: [for i := len(s); i > 0; ] decode the
    last rune of [s[0:i]], step back over it, stop when [f r = truth]. *)
Fixpoint last_from (fuel : nat) (f : Z → bool) (truth : bool) (s : string) (i : nat) : Z :=
  match fuel, i with
  | O, _ | _, O => -1
  | S fuel', _ =>
    let '(r, size) := DecodeLastRuneInString (stake i s) in
    let i' := (i - size)%nat in
    if Bool.eqb (f r) truth then Z.of_nat i' else last_from fuel' f truth s i'
  end.

Definition lastIndexFunc (s : string) (f : Z → bool) (truth : bool) : Z :=
  last_from (String.length s) f truth s (String.length s).

(** [strings.TrimLeftFunc]. *)
Definition TrimLeftFunc (s : string) (f : Z → bool) : string :=
  let i := indexFunc s f false in
  if i =? -1 then EmptyString else sdrop (Z.to_nat i) s.

(** [strings.TrimRightFunc]: after the last rune that is kept, step over
    its width, decoded forwards. *)
Definition TrimRightFunc (s : string) (f : Z → bool) : string :=
  let i := lastIndexFunc s f false in
  let i :=
    if (0 <=? i) && (RuneSelf <=? byte_at s i)
    then i + Z.of_nat (snd (DecodeRuneInString (sdrop (Z.to_nat i) s)))
    else i + 1 in
  stake (Z.to_nat i) s.

(** [strings.TrimFunc]. *)
Definition TrimFunc (s : string) (f : Z → bool) : string :=
  TrimRightFunc (TrimLeftFunc s f) f.

(** [strings.TrimSpace]: Go's ASCII fast path returns the slice that
    [TrimFunc s unicode.IsSpace] returns; the model is the latter. *)
Definition TrimSpace (s : string) : string := TrimFunc s unicode.IsSpace.

(** One rune comparison of [strings.EqualFold]: equal runes, an ASCII
    case pair, or runes of one [SimpleFold] orbit (the loop
    [r := SimpleFold(sr); for r != sr && r < tr { r = SimpleFold(r) }],
    unrolled over the three-element orbits modelled). *)
Definition fold_eq (sr tr : Z) : bool :=
  let '(sr, tr) := if tr <? sr then (tr, sr) else (sr, tr) in
  if tr =? sr then true
  else if tr <? RuneSelf then unicode.is_upper sr && (tr =? sr + 32)
  else
    let r1 := unicode.SimpleFold sr in
    if (r1 =? sr) || (tr <=? r1) then r1 =? tr
    else
      let r2 := unicode.SimpleFold r1 in
      if (r2 =? sr) || (tr <=? r2) then r2 =? tr
      else unicode.SimpleFold r2 =? tr.

(** The loop [for _, sr := range s] of [strings.EqualFold]. *)
Fixpoint equal_fold_from (fuel : nat) (s t : string) : bool :=
  match fuel, s with
  | _, EmptyString => String.eqb t EmptyString
  | O, _ => false
  | S fuel', _ =>
    match t with
    | EmptyString => false
    | _ =>
      let '(sr, ssize) := DecodeRuneInString s in
      let '(tr, tsize) := DecodeRuneInString t in
      fold_eq sr tr && equal_fold_from fuel' (sdrop ssize s) (sdrop tsize t)
    end
  end.

(** [strings.EqualFold]: equality under simple Unicode case folding. *)
Definition EqualFold (s t : string) : bool :=
  equal_fold_from (String.length s) s t.

Definition is_ascii (s : string) : bool :=
  forallb (λ b, b <? RuneSelf) (bytes s).

Fixpoint string_of_bytes (l : list Z) : string :=
  match l with
  | [] => EmptyString
  | b :: l' => String (chr b) (string_of_bytes l')
  end.

(** [strings.Map]: each rune of [s] (an invalid byte decodes to
    [RuneError]) replaced by the encoding of its image. *)
Fixpoint map_from (fuel : nat) (mapping : Z → Z) (s : string) : list Z :=
  match fuel, s with
  | O, _ | _, EmptyString => []
  | S fuel', _ =>
    let '(r, size) := DecodeRuneInString s in
    let m := mapping r in
    (if 0 <=? m then EncodeRune m else []) ++ map_from fuel' mapping (sdrop size s)
  end.

Definition Map (mapping : Z → Z) (s : string) : string :=
  string_of_bytes (map_from (String.length s) mapping s).

(** [strings.ToLower]: the ASCII path lowers the capitals byte by byte;
    any other string goes through [Map unicode.ToLower]. *)
Definition lower_ascii_byte (c : Z) : Z := if unicode.is_upper c then c + 32 else c.

Definition ToLower (s : string) : string :=
  if is_ascii s then string_of_bytes (map lower_ascii_byte (bytes s))
  else Map unicode.ToLower s.

End strings.

(** ** Lemmas *)

Module GoStringsFacts.
Import utf8 strings.

Lemma DecodeRuneInString_ascii c s :
  bv c < RuneSelf → DecodeRuneInString (String c s) = (bv c, 1%nat).
Proof. intros H. simpl. by rewrite (proj2 (Z.ltb_lt _ _) H). Qed.

Lemma DecodeRuneInString_size_pos c s : (1 <= snd (DecodeRuneInString (String c s)))%nat.
Proof. unfold DecodeRuneInString. repeat case_match; simpl; lia. Qed.

Lemma get_bytes k s c : String.get k s = Some c → nth_error (bytes s) k = Some (bv c).
Proof.
  revert k; induction s as [|c' s IH]; intros [|k] H; simpl in *; try discriminate.
  - by simplify_eq.
  - by apply IH.
Qed.

Lemma get_lt k s : (k < String.length s)%nat → ∃ c, String.get k s = Some c.
Proof.
  revert k; induction s as [|c' s IH]; intros [|k] H; simpl in *; [lia | lia | eauto |].
  apply IH. lia.
Qed.

Lemma stake_full s : stake (String.length s) s = s.
Proof. induction s; simpl; by f_equal. Qed.

Lemma length_bytes s : length (bytes s) = String.length s.
Proof. induction s; simpl; auto. Qed.

Lemma bytes_string_of_bytes l :
  Forall (λ b, 0 <= b < 256) l → bytes (string_of_bytes l) = l.
Proof. induction 1; simpl; f_equal; auto using bv_chr. Qed.

(** A byte that is ASCII and not a space. *)
Definition plain_byte (b : Z) : Prop := b < RuneSelf ∧ unicode.IsSpace b = false.

(** The byte at an index of a string of plain bytes is plain. *)
Lemma byte_at_plain s k :
  Forall plain_byte (bytes s) → (k < String.length s)%nat →
  plain_byte (byte_at s (Z.of_nat k)).
Proof.
  intros Hs Hk. destruct (get_lt k s Hk) as [c Hc]. unfold byte_at.
  rewrite Nat2Z.id, Hc. apply get_bytes in Hc.
  rewrite Forall_forall in Hs. apply Hs. apply list_elem_of_In. eapply nth_error_In, Hc.
Qed.

(** [TrimSpace] leaves a string that starts and ends with plain bytes
    unchanged. *)
Lemma TrimSpace_ends c r :
  plain_byte (bv c) → plain_byte (byte_at (String c r) (Z.of_nat (String.length r))) →
  TrimSpace (String c r) = String c r.
Proof.
  intros [Hc1 Hc2] Hlast. set (s := String c r) in *.
  unfold TrimSpace, TrimFunc, TrimLeftFunc, indexFunc.
  assert (index_from (String.length s) unicode.IsSpace false s 0 = 0) as ->.
  { subst s. cbn [index_from String.length]. rewrite DecodeRuneInString_ascii, Hc2 by done.
    reflexivity. }
  simpl. unfold TrimRightFunc, lastIndexFunc.
  assert (Hl : String.length s = S (String.length r)) by done.
  set (k := String.length r) in *. clearbody s k.
  destruct Hlast as [Hb1 Hb2].
  rewrite Hl. cbn [last_from]. rewrite <- Hl, stake_full.
  unfold DecodeLastRuneInString. rewrite Hl.
  replace (Z.of_nat (S k) - 1) with (Z.of_nat k) by lia.
  rewrite (proj2 (Z.eqb_neq _ 0)) by lia.
  rewrite (proj2 (Z.ltb_lt _ _) Hb1), Hb2. simpl.
  replace (k - 0)%nat with k by lia.
  rewrite (proj2 (Z.leb_gt _ _) Hb1), andb_false_r.
  replace (Z.to_nat (Z.of_nat k + 1)) with (String.length s) by lia.
  apply stake_full.
Qed.

(** In particular a string of plain bytes. *)
Lemma TrimSpace_plain s : Forall plain_byte (bytes s) → TrimSpace s = s.
Proof.
  intros Hs. destruct s as [|c r]; [reflexivity|].
  apply TrimSpace_ends; [by inversion Hs|].
  apply (byte_at_plain (String c r) (String.length r) Hs). cbn. lia.
Qed.

(** [EqualFold] on two non-empty strings starting with ASCII bytes
    compares the first bytes with [fold_eq], then the rests. *)
Lemma EqualFold_cons_ascii c s c' t :
  bv c < RuneSelf → bv c' < RuneSelf →
  EqualFold (String c s) (String c' t) = fold_eq (bv c) (bv c') && EqualFold s t.
Proof.
  intros H H'. unfold EqualFold. cbn [equal_fold_from String.length].
  rewrite !DecodeRuneInString_ascii by done. reflexivity.
Qed.

(** A decimal digit folds only to itself. *)
Lemma fold_eq_digit d r :
  0x30 <= d <= 0x39 → 0 <= r < RuneSelf → d ≠ r → fold_eq d r = false.
Proof.
  intros Hd Hr Hne. unfold fold_eq, unicode.is_upper, RuneSelf in *.
  destruct (Z.ltb_spec r d); simpl.
  - rewrite (proj2 (Z.eqb_neq _ _)) by lia. rewrite (proj2 (Z.ltb_lt d 128)) by lia.
    destruct (Z.leb_spec 0x41 r), (Z.leb_spec r 0x5A); simpl; try done.
    apply Z.eqb_neq. lia.
  - rewrite (proj2 (Z.eqb_neq _ _)) by lia. rewrite (proj2 (Z.ltb_lt r 128)) by lia.
    destruct (Z.leb_spec 0x41 d), (Z.leb_spec d 0x5A); simpl; try done; lia.
Qed.

Lemma string_of_bytes_bytes s : string_of_bytes (bytes s) = s.
Proof. induction s; simpl; f_equal; auto using chr_bv. Qed.

Lemma is_ascii_Forall s : is_ascii s = true ↔ Forall (λ b, b < RuneSelf) (bytes s).
Proof.
  unfold is_ascii. rewrite forallb_forall, Forall_forall.
  setoid_rewrite Z.ltb_lt. setoid_rewrite list_elem_of_In. done.
Qed.

(** [ToLower s] is the ASCII string [t] exactly when lowering the ASCII
    capitals of [s] gives [t]. *)
Lemma ToLower_ascii_eq s t :
  is_ascii t = true → map lower_ascii_byte (bytes s) = bytes t → ToLower s = t.
Proof.
  intros Ht Hst. apply is_ascii_Forall in Ht.
  assert (is_ascii s = true) as Hs.
  { apply is_ascii_Forall. rewrite <- Hst in Ht. clear Hst.
    induction (bytes s) as [|b l IH]; [done|]. inversion Ht; subst.
    constructor; [|by apply IH]. unfold lower_ascii_byte in *.
    destruct (unicode.is_upper b); lia. }
  unfold ToLower. rewrite Hs, Hst. apply string_of_bytes_bytes.
Qed.

Lemma ToLower_ascii s :
  is_ascii s = true → ToLower s = string_of_bytes (map lower_ascii_byte (bytes s)).
Proof. intros H. unfold ToLower. by rewrite H. Qed.

Lemma bytes_lower_ascii s :
  bytes (string_of_bytes (map lower_ascii_byte (bytes s))) = map lower_ascii_byte (bytes s).
Proof.
  apply bytes_string_of_bytes. induction s as [|c s IH]; simpl; constructor; [|done].
  pose proof (bv_range c). unfold lower_ascii_byte, unicode.is_upper.
  destruct (Z.leb_spec 0x41 (bv c)), (Z.leb_spec (bv c) 0x5A); simpl; lia.
Qed.

Lemma IsSpace_printable b : 0x21 <= b <= 0x7E → unicode.IsSpace b = false.
Proof.
  intros Hb. unfold unicode.IsSpace.
  rewrite (proj2 (Z.leb_le 0 b)), (proj2 (Z.leb_le b 0xFF)) by lia. simpl.
  repeat rewrite (proj2 (Z.eqb_neq b _)) by lia. reflexivity.
Qed.

(** [ToLower] keeps a leading ASCII byte that is not a capital, on the
    ASCII path and on the [Map] path alike. *)
Lemma ToLower_cons c s :
  bv c < RuneSelf → unicode.is_upper (bv c) = false → ∃ r, ToLower (String c s) = String c r.
Proof.
  intros Hc Hu. unfold ToLower. destruct (is_ascii (String c s)).
  - cbn [bytes map string_of_bytes]. unfold lower_ascii_byte. rewrite Hu, chr_bv. by eexists.
  - unfold Map. cbn [String.length map_from]. rewrite DecodeRuneInString_ascii by done.
    unfold unicode.ToLower. rewrite Hu.
    pose proof (bv_range c). unfold RuneSelf in Hc.
    rewrite (proj2 (Z.eqb_neq (bv c) 0x130)), (proj2 (Z.eqb_neq (bv c) 0x212A)) by lia.
    rewrite (proj2 (Z.leb_le 0 (bv c))) by lia. unfold EncodeRune.
    rewrite (proj2 (Z.leb_le 0 (bv c))), (proj2 (Z.ltb_lt (bv c) 0x80)) by lia.
    cbn [app string_of_bytes andb]. rewrite chr_bv. by eexists.
Qed.

End GoStringsFacts.
