(* ===== verification/ParseUint.v ===== *)
(** * [strconv.ParseUint]

    [CipherSuites] keeps a cipher entry that is neither "high" nor "medium"
    when [strconv.ParseUint(val, 0, 16)] returns a nil error.  This file
    models [ParseUint] from Go's [strconv/atoi.go] (Go 1.13 and later: base
    prefixes [0b], [0o], [0x], a bare leading [0] for octal, and [_]
    separators checked by [underscoreOK]), with its [uint64] arithmetic
    written out: the cut-off test, the wrap-around test [n1 < n] and the
    bound [1<<bitSize - 1].  A call returns the pair [(value, error)] of Go,
    so that the value [maxVal] returned with a range error is kept.

    The theorems: the value of a successful call is at most
    [2^bitSize - 1]; a decimal or [0x]-prefixed hexadecimal numeral of a
    number in range parses back to it (round trip with [format_uint]); one
    out of range gives [(maxVal, ErrRange)]; a leading [0] reads octal. *)

From S2P Require Import Prelude.

Module strconv.

(** The [Err] field of Go's [*NumError]. *)
Inductive NumErr := ErrSyntax | ErrRange | ErrBase | ErrBitSize.

#[export] Instance NumErr_eq_dec : EqDecision NumErr.
Proof. solve_decision. Defined.

Definition IntSize : Z := 64.
Definition maxUint64 : Z := 2 ^ 64 - 1.

(** [lower(c)] of [atoi.go]: [c | ('x' - 'X')]. *)
Definition lower (c : Z) : Z := Z.lor c 0x20.

Definition is_dec_digit (c : Z) : bool := (0x30 <=? c) && (c <=? 0x39).

(** The states of [saw] in [underscoreOK]: ['^'] (beginning), ['0'] (a
    digit or base prefix), ['_'] and ['!'] (anything else). *)
Inductive Saw := SawBegin | SawDigit | SawUnderscore | SawOther.

#[export] Instance Saw_eq_dec : EqDecision Saw.
Proof. solve_decision. Defined.

(** The loop [for ; i < len(s); i++] of [underscoreOK]; [false] for its
    two early [return false]. *)
Fixpoint underscore_loop (hex : bool) (saw : Saw) (s : string) : bool :=
  match s with
  | EmptyString => bool_decide (saw ≠ SawUnderscore)
  | String c s' =>
    let b := bv c in
    if is_dec_digit b || (hex && (0x61 <=? lower b) && (lower b <=? 0x66))
    then underscore_loop hex SawDigit s'
    else if b =? 0x5F then
      (if bool_decide (saw = SawDigit) then underscore_loop hex SawUnderscore s' else false)
    else if bool_decide (saw = SawUnderscore) then false
    else underscore_loop hex SawOther s'
  end.

(** [underscoreOK]: underscores only between digits, or between a base
    prefix and a digit. *)
Definition underscoreOK (s : string) : bool :=
  let s := match s with
           | String c s' => if (bv c =? 0x2D) || (bv c =? 0x2B) then s' else s
           | EmptyString => s
           end in
  match s with
  | String c0 (String c1 rest) =>
    let l1 := lower (bv c1) in
    if (bv c0 =? 0x30) && ((l1 =? 0x62) || (l1 =? 0x6F) || (l1 =? 0x78))
    then underscore_loop (l1 =? 0x78) SawDigit rest
    else underscore_loop false SawBegin s
  | _ => underscore_loop false SawBegin s
  end.

(** The prefix switch of [case base == 0]: [0b], [0o], [0x] when the
    string has at least three bytes, a bare [0] for octal, else 10. *)
Definition base0_prefix (s : string) : Z * string :=
  match s with
  | String c0 s1 =>
    if bv c0 =? 0x30 then
      match s1 with
      | String c1 (String _ _ as rest) =>
        if lower (bv c1) =? 0x62 then (2, rest)
        else if lower (bv c1) =? 0x6F then (8, rest)
        else if lower (bv c1) =? 0x78 then (16, rest)
        else (8, s1)
      | _ => (8, s1)
      end
    else (10, s)
  | EmptyString => (10, s)
  end.

(** The value of a digit byte, or [None] for the [default:] case. *)
Definition digit_val (c : Z) : option Z :=
  if is_dec_digit c then Some (c - 0x30)
  else if (0x61 <=? lower c) && (lower c <=? 0x7A) then Some (lower c - 0x61 + 10)
  else None.

(** The loop [for _, c := range []byte(s)]: [Err (value, err)] for an
    early return, [Ok (n, underscores)] when the loop completes. *)
Fixpoint digits_loop (base0 : bool) (base cutoff maxVal n : Z) (underscores : bool)
    (s : string) : result (Z * NumErr) (Z * bool) :=
  match s with
  | EmptyString => Ok (n, underscores)
  | String c s' =>
    let c := bv c in
    if (c =? 0x5F) && base0 then digits_loop base0 base cutoff maxVal n true s'
    else match digit_val c with
    | None => Err (0, ErrSyntax)
    | Some d =>
      if base <=? d then Err (0, ErrSyntax)
      else if cutoff <=? n then Err (maxVal, ErrRange)
      else
        let n := (n * base) mod 2 ^ 64 in
        let n1 := (n + d) mod 2 ^ 64 in
        if (n1 <? n) || (maxVal <? n1) then Err (maxVal, ErrRange)
        else digits_loop base0 base cutoff maxVal n1 underscores s'
    end
  end.

(** [strconv.ParseUint(s, base, bitSize)], as the pair [(value, err)]. *)
Definition ParseUint (s : string) (base bitSize : Z) : Z * option NumErr :=
  if String.eqb s "" then (0, Some ErrSyntax) else
  let base0 := base =? 0 in
  let s0 := s in
  let sel :=
    if (2 <=? base) && (base <=? 36) then Some (base, s)
    else if base =? 0 then Some (base0_prefix s)
    else None in
  match sel with
  | None => (0, Some ErrBase)
  | Some (base, s) =>
    if negb (bitSize =? 0) && ((bitSize <? 0) || (64 <? bitSize))
    then (0, Some ErrBitSize) else
    let bitSize := if bitSize =? 0 then IntSize else bitSize in
    let cutoff := maxUint64 / base + 1 in
    let maxVal := (Z.shiftl 1 bitSize - 1) mod 2 ^ 64 in
    match digits_loop base0 base cutoff maxVal 0 false s with
    | Err (v, e) => (v, Some e)
    | Ok (n, underscores) =>
      if underscores && negb (underscoreOK s0) then (0, Some ErrSyntax)
      else (n, None)
    end
  end.

(** ** Printing, for the round trips: [strconv.FormatUint(n, base)] *)

Definition digit_char (d : Z) : ascii :=
  if d <? 10 then chr (0x30 + d) else chr (0x61 + d - 10).

(** The digits of [n] in [base], least significant first; the fuel
    [Z.to_nat n + 1] is enough since [n / base < n] for [n >= base]. *)
Fixpoint digits_rev (fuel : nat) (base n : Z) : list Z :=
  match fuel with
  | O => []
  | S fuel' => if n <? base then [n] else n mod base :: digits_rev fuel' base (n / base)
  end.

Fixpoint string_of_digits (ds : list Z) : string :=
  match ds with
  | [] => EmptyString
  | d :: ds' => String (digit_char d) (string_of_digits ds')
  end.

Definition format_uint (n base : Z) : string :=
  string_of_digits (rev (digits_rev (S (Z.to_nat n)) base n)).

(** ** The digit loop *)

(** Horner's rule: the number the digits [ds] denote after [acc]. *)
Definition horner (base acc : Z) (ds : list Z) : Z :=
  fold_left (λ a d, a * base + d) ds acc.

Definition valid_digits (base : Z) (ds : list Z) : Prop :=
  Forall (λ d, 0 <= d < base) ds.

Lemma horner_cons base acc d ds : horner base acc (d :: ds) = horner base (acc * base + d) ds.
Proof. reflexivity. Qed.

Lemma horner_ge base acc ds :
  1 <= base → 0 <= acc → valid_digits base ds → acc <= horner base acc ds.
Proof.
  intros Hb. revert acc. induction ds as [|d ds IH]; intros acc Hacc Hds; [simpl; lia|].
  inversion Hds; subst. change (horner base acc (d :: ds)) with (horner base (acc * base + d) ds).
  transitivity (acc * base + d); [nia | apply IH; [nia | done]].
Qed.

Lemma digit_char_spec d :
  0 <= d < 36 →
  digit_val (bv (digit_char d)) = Some d ∧ bv (digit_char d) ≠ 0x5F.
Proof.
  intros Hd. assert (∃ k : nat, d = Z.of_nat k ∧ (k < 36)%nat) as (k & -> & Hk)
    by (exists (Z.to_nat d); lia).
  do 36 (destruct k as [|k]; [split; [reflexivity | discriminate] |]). lia.
Qed.

Section Loop.
Context (base0 : bool) (base maxVal : Z).
Hypothesis Hbase : 2 <= base <= 36.
Hypothesis HmaxVal : 0 <= maxVal <= maxUint64.
Let cutoff := maxUint64 / base + 1.

Lemma below_cutoff acc d : 0 <= acc → 0 <= d → acc * base + d <= maxUint64 → acc < cutoff.
Proof.
  intros Ha Hd H. unfold cutoff.
  enough (acc <= maxUint64 / base) by lia.
  apply Z.div_le_lower_bound; lia.
Qed.

(** Every intermediate value of the loop stays within [0, maxVal]. *)
Lemma digits_loop_bound n u s n' u' :
  0 <= n <= maxVal →
  digits_loop base0 base cutoff maxVal n u s = Ok (n', u') → 0 <= n' <= maxVal.
Proof.
  revert n u. induction s as [|c s IH]; intros n u Hn H; simpl in H.
  - by simplify_eq.
  - destruct ((bv c =? 0x5F) && base0); [by eapply IH|].
    destruct (digit_val (bv c)) as [d|]; [|done].
    destruct (base <=? d), (cutoff <=? n); try done.
    destruct (_ <? _) eqn:E1, (maxVal <? _) eqn:E2; try done.
    eapply IH; [|exact H]. pose proof (Z.mod_pos_bound (n * base mod 2 ^ 64 + d) (2 ^ 64)).
    lia.
Qed.

(** The loop on a numeral whose value is in range returns that value. *)
Lemma digits_loop_digits_ok ds acc u :
  0 <= acc → valid_digits base ds → horner base acc ds <= maxVal →
  digits_loop base0 base cutoff maxVal acc u (string_of_digits ds)
  = Ok (horner base acc ds, u).
Proof.
  revert acc. induction ds as [|d ds IH]; intros acc Hacc Hds Hh; [done|].
  inversion Hds as [|? ? Hd Hds']; subst. rewrite horner_cons in Hh |- *.
  cbn [string_of_digits digits_loop].
  destruct (digit_char_spec d) as [Hv Hu]; [lia|].
  pose proof (horner_ge base (acc * base + d) ds ltac:(lia) ltac:(nia) Hds').
  assert (acc < cutoff) by (apply (below_cutoff acc d); unfold maxUint64 in *; lia).
  rewrite (proj2 (Z.eqb_neq _ _) Hu), Hv. simpl.
  rewrite (proj2 (Z.leb_gt base d)), (proj2 (Z.leb_gt cutoff acc)) by lia.
  unfold maxUint64 in *.
  rewrite (Z.mod_small (acc * base)), (Z.mod_small (acc * base + d)) by nia.
  rewrite (proj2 (Z.ltb_ge _ _)), (proj2 (Z.ltb_ge _ _)) by nia. simpl.
  apply IH; [nia | done | done].
Qed.

(** The loop on a numeral whose value is out of range returns
    [(maxVal, ErrRange)]. *)
Lemma digits_loop_digits_range ds acc u :
  0 <= acc <= maxVal → valid_digits base ds → maxVal < horner base acc ds →
  digits_loop base0 base cutoff maxVal acc u (string_of_digits ds)
  = Err (maxVal, ErrRange).
Proof.
  revert acc. induction ds as [|d ds IH]; intros acc Hacc Hds Hh; [simpl in Hh; lia|].
  inversion Hds as [|? ? Hd Hds']; subst. rewrite horner_cons in Hh.
  cbn [string_of_digits digits_loop].
  destruct (digit_char_spec d) as [Hv Hu]; [lia|].
  rewrite (proj2 (Z.eqb_neq _ _) Hu), Hv. simpl.
  rewrite (proj2 (Z.leb_gt base d)) by lia.
  destruct (Z.leb_spec cutoff acc) as [Hc|Hc]; [done|].
  assert (acc * base <= maxUint64).
  { unfold cutoff in Hc. assert (acc <= maxUint64 / base) by lia.
    pose proof (Z.mul_div_le maxUint64 base ltac:(lia)). nia. }
  unfold maxUint64 in *. rewrite (Z.mod_small (acc * base)) by nia.
  destruct (Z.ltb_spec (acc * base + d) (2 ^ 64)) as [Hw|Hw].
  - rewrite (Z.mod_small (acc * base + d)) by lia.
    rewrite (proj2 (Z.ltb_ge _ _)) by lia. simpl.
    destruct (Z.ltb_spec maxVal (acc * base + d)); [done|].
    apply IH; [nia | done | done].
  - rewrite (proj2 (Z.ltb_lt _ _)); [done|].
    assert ((acc * base + d) mod 2 ^ 64 = acc * base + d - 2 ^ 64) as ->
      by (symmetry; apply Z.mod_unique with 1; lia).
    lia.
Qed.
End Loop.

(** ** Printed numerals *)

Lemma horner_snoc base acc ds d :
  horner base acc (ds ++ [d]) = horner base acc ds * base + d.
Proof. unfold horner. by rewrite fold_left_app. Qed.

(** The digits [format_uint] prints are valid, denote [n], and the first
    of them is not 0 unless [n] is. *)
Lemma digits_rev_spec fuel base n :
  2 <= base → 0 <= n → (Z.to_nat n < fuel)%nat →
  let ds := rev (digits_rev fuel base n) in
  valid_digits base ds ∧ horner base 0 ds = n ∧
  ∃ d ds', ds = d :: ds' ∧ (1 <= n → d ≠ 0).
Proof.
  intros Hb. revert n. induction fuel as [|fuel IH]; intros n Hn Hf; [lia|].
  cbn [digits_rev]. destruct (Z.ltb_spec n base) as [Hlt|Hge].
  - split; [repeat constructor; lia|]. split; [done|]. exists n, []. split; [done | lia].
  - assert (0 < n / base < n) by (split; [apply Z.div_str_pos | apply Z.div_lt]; lia).
    destruct (IH (n / base)) as (Hv & Hh & d & ds' & Hds & Hd); [lia | lia |].
    cbn [rev]. split; [|split].
    + apply Forall_app. split; [done|]. constructor; [apply Z.mod_pos_bound; lia | done].
    + rewrite horner_snoc, Hh. rewrite (Z.div_mod n base) at 3 by lia. lia.
    + rewrite Hds. exists d, (ds' ++ [n mod base]). split; [done|]. intros _; apply Hd; lia.
Qed.

Lemma format_uint_digits n base :
  2 <= base → 0 <= n →
  ∃ d ds', format_uint n base = string_of_digits (d :: ds') ∧
    valid_digits base (d :: ds') ∧ horner base 0 (d :: ds') = n ∧ (1 <= n → d ≠ 0).
Proof.
  intros Hb Hn. destruct (digits_rev_spec (S (Z.to_nat n)) base n) as (Hv & Hh & d & ds' & Hds & Hd);
    [done | done | lia |].
  exists d, ds'. unfold format_uint. rewrite Hds in Hv, Hh |- *. auto.
Qed.

Lemma maxVal_bitSize b : 1 <= b <= 64 → (Z.shiftl 1 b - 1) mod 2 ^ 64 = 2 ^ b - 1.
Proof.
  intros Hb. rewrite Z.shiftl_1_l. apply Z.mod_small.
  pose proof (Z.pow_le_mono_r 2 b 64 ltac:(lia) ltac:(lia)).
  pose proof (Z.pow_pos_nonneg 2 b ltac:(lia) ltac:(lia)). lia.
Qed.

Lemma base0_prefix_not0 c rest : bv c ≠ 0x30 → base0_prefix (String c rest) = (10, String c rest).
Proof. intros Hc. simpl. by rewrite (proj2 (Z.eqb_neq _ _) Hc). Qed.

Lemma base0_prefix_digits d ds :
  1 <= d <= 9 → base0_prefix (string_of_digits (d :: ds)) = (10, string_of_digits (d :: ds)).
Proof.
  intros Hd. apply base0_prefix_not0. unfold digit_char.
  rewrite (proj2 (Z.ltb_lt d 10)) by lia. rewrite bv_chr by lia. lia.
Qed.

Lemma base0_prefix_hex d ds :
  base0_prefix ("0x" +:+ string_of_digits (d :: ds)) = (16, string_of_digits (d :: ds)).
Proof. reflexivity. Qed.

(** A bare leading [0] before octal digits selects base 8: the second
    byte, a digit, is none of [b], [o], [x]. *)
Lemma base0_prefix_oct d ds :
  valid_digits 8 (d :: ds) → base0_prefix ("0" +:+ string_of_digits (d :: ds)) = (8, string_of_digits (d :: ds)).
Proof.
  intros Hv. destruct ds as [|d' ds]; [reflexivity|].
  pose proof (Forall_inv Hv) as Hd. cbn in Hd.
  assert (Hc : lower (bv (digit_char d)) = 0x30 + d).
  { unfold digit_char. rewrite (proj2 (Z.ltb_lt d 10)) by lia. rewrite bv_chr by lia.
    unfold lower. assert (d = 0 ∨ d = 1 ∨ d = 2 ∨ d = 3 ∨ d = 4 ∨ d = 5 ∨ d = 6 ∨ d = 7) as Hcases by lia.
    by destruct_or! Hcases; subst. }
  assert (E : ∀ x, ("0" +:+ x)%string = String "0" x) by reflexivity.
  cbn [string_of_digits]. rewrite E. cbn [base0_prefix]. rewrite Hc.
  rewrite (proj2 (Z.eqb_neq _ 0x62)), (proj2 (Z.eqb_neq _ 0x6F)), (proj2 (Z.eqb_neq _ 0x78)) by lia.
  reflexivity.
Qed.

Lemma base0_prefix_range s : 2 <= fst (base0_prefix s) <= 36.
Proof. unfold base0_prefix. repeat case_match; simpl; lia. Qed.

Lemma digits_loop_bound_ok base0 base maxVal n u s n' u' :
  2 <= base <= 36 → 0 <= maxVal <= maxUint64 → 0 <= n <= maxVal →
  digits_loop base0 base (maxUint64 / base + 1) maxVal n u s = Ok (n', u') →
  0 <= n' <= maxVal.
Proof. intros. eapply digits_loop_bound; eauto. Qed.

Lemma maxVal_range b : 1 <= b <= 64 → 0 <= 2 ^ b - 1 <= maxUint64 ∧ 0 < 2 ^ b.
Proof.
  intros Hb. pose proof (Z.pow_le_mono_r 2 b 64 ltac:(lia) ltac:(lia)).
  pose proof (Z.pow_pos_nonneg 2 b ltac:(lia) ltac:(lia)). unfold maxUint64. lia.
Qed.

(** [ParseUint] with a valid [bitSize], once the base is selected: the
    shape every theorem below starts from. *)
Lemma ParseUint_unfold s base bitSize :
  1 <= bitSize <= 64 → s ≠ "" →
  ParseUint s base bitSize =
    match (if (2 <=? base) && (base <=? 36) then Some (base, s)
           else if base =? 0 then Some (base0_prefix s) else None) with
    | None => (0, Some ErrBase)
    | Some (b, s') =>
      match digits_loop (base =? 0) b (maxUint64 / b + 1) (2 ^ bitSize - 1) 0 false s' with
      | Err (v, e) => (v, Some e)
      | Ok (n, u) => if u && negb (underscoreOK s) then (0, Some ErrSyntax) else (n, None)
      end
    end.
Proof.
  intros Hb Hs. unfold ParseUint.
  rewrite (proj2 (String.eqb_neq s "") Hs).
  rewrite (proj2 (Z.eqb_neq bitSize 0)) by lia.
  rewrite (proj2 (Z.ltb_ge bitSize 0)), (proj2 (Z.ltb_ge 64 bitSize)) by lia. simpl.
  by rewrite maxVal_bitSize.
Qed.

Lemma ParseUint_sel_range s base b s' :
  (if (2 <=? base) && (base <=? 36) then Some (base, s)
   else if base =? 0 then Some (base0_prefix s) else None) = Some (b, s') →
  2 <= b <= 36.
Proof.
  destruct ((2 <=? base) && (base <=? 36)) eqn:Hr.
  - intros [= -> _]. apply andb_true_iff in Hr as [H1 H2]. lia.
  - destruct (base =? 0); [|done]. intros [= H].
    pose proof (base0_prefix_range s) as Hr'. rewrite H in Hr'. exact Hr'.
Qed.

(** The value of a successful [ParseUint s base bitSize] is below
    [2^bitSize], for every [1 <= bitSize <= 64]. *)
Theorem ParseUint_bound s base bitSize n :
  1 <= bitSize <= 64 → ParseUint s base bitSize = (n, None) → 0 <= n < 2 ^ bitSize.
Proof.
  intros Hb. destruct (String.eqb_spec s "") as [->|Hs]; [done|].
  rewrite ParseUint_unfold by done. pose proof (maxVal_range bitSize Hb).
  destruct (if (2 <=? base) && (base <=? 36) then Some (base, s)
            else if base =? 0 then Some (base0_prefix s) else None)
    as [[b s']|] eqn:Hsel; [|done].
  apply ParseUint_sel_range in Hsel.
  destruct (digits_loop _ _ _ _ _ _ _) as [[n' u']|[v e]] eqn:Hl; [|done].
  eapply digits_loop_bound_ok in Hl; [|exact Hsel | lia | lia].
  destruct (u' && _); intros; simplify_eq; lia.
Qed.

(** The loop on the printed digits, in range. *)
Lemma digits_loop_format n b bitSize d ds :
  2 <= b <= 36 → 1 <= bitSize <= 64 → 0 <= n < 2 ^ bitSize →
  valid_digits b (d :: ds) → horner b 0 (d :: ds) = n →
  digits_loop true b (maxUint64 / b + 1) (2 ^ bitSize - 1) 0 false (string_of_digits (d :: ds))
  = Ok (n, false).
Proof.
  intros Hbase Hb Hn Hv Hh. pose proof (maxVal_range bitSize Hb).
  rewrite digits_loop_digits_ok; [by rewrite Hh | lia | lia | lia | done | lia].
Qed.

(** Round trip: the decimal numeral of a number that fits in [bitSize]
    bits parses back to it (a leading digit is never 0, so the base-0
    prefix switch keeps base 10; "0" alone reads as octal 0). *)
Theorem ParseUint_format_dec n bitSize :
  1 <= bitSize <= 64 → 0 <= n < 2 ^ bitSize →
  ParseUint (format_uint n 10) 0 bitSize = (n, None).
Proof.
  intros Hb Hn. destruct (format_uint_digits n 10) as (d & ds & Hf & Hv & Hh & Hd); [lia | lia |].
  rewrite ParseUint_unfold, Hf by (try rewrite Hf; done).
  destruct (Z.eqb_spec n 0) as [->|Hn0].
  - unfold format_uint in Hf. simpl in Hf. injection Hf as _ Hds.
    destruct ds; [|discriminate Hds].
    assert (d = 0) as -> by (unfold horner in Hh; simpl in Hh; lia). reflexivity.
  - pose proof (Forall_inv Hv) as Hd0; simpl in Hd0.
    cbn -[base0_prefix digits_loop string_of_digits underscoreOK].
    rewrite base0_prefix_digits by lia.
    rewrite (digits_loop_format n) by (done || lia). reflexivity.
Qed.

(** Round trip: ["0x"] followed by the hexadecimal numeral of a number
    that fits in [bitSize] bits parses back to it. *)
Theorem ParseUint_format_hex n bitSize :
  1 <= bitSize <= 64 → 0 <= n < 2 ^ bitSize →
  ParseUint ("0x" +:+ format_uint n 16) 0 bitSize = (n, None).
Proof.
  intros Hb Hn. destruct (format_uint_digits n 16) as (d & ds & Hf & Hv & Hh & Hd); [lia | lia |].
  rewrite ParseUint_unfold by done. rewrite Hf.
  cbn -[base0_prefix digits_loop string_of_digits underscoreOK append].
  rewrite base0_prefix_hex.
  rewrite (digits_loop_format n) by (done || lia). reflexivity.
Qed.

(** Round trip: ["0"] followed by the octal numeral of a number that
    fits in [bitSize] bits parses back to it: base 0 reads a leading
    zero as octal. *)
Theorem ParseUint_format_oct n bitSize :
  1 <= bitSize <= 64 → 0 <= n < 2 ^ bitSize →
  ParseUint ("0" +:+ format_uint n 8) 0 bitSize = (n, None).
Proof.
  intros Hb Hn. destruct (format_uint_digits n 8) as (d & ds & Hf & Hv & Hh & Hd); [lia | lia |].
  rewrite ParseUint_unfold by done. rewrite Hf.
  cbn -[base0_prefix digits_loop string_of_digits underscoreOK append].
  rewrite base0_prefix_oct by done.
  rewrite (digits_loop_format n) by (done || lia). reflexivity.
Qed.

(** The bytes of a numeral are digits or lower-case letters. *)
Lemma bytes_string_of_digits base ds :
  base <= 36 → valid_digits base ds →
  Forall (λ b, (0x30 <= b <= 0x39 ∨ 0x61 <= b <= 0x7A)) (bytes (string_of_digits ds)).
Proof.
  intros Hb. induction 1 as [|d ds Hd _ IH]; simpl; constructor; [|done].
  unfold digit_char. destruct (Z.ltb_spec d 10); rewrite bv_chr; lia.
Qed.

(** A decimal numeral of a number at or above [2^bitSize] gives the range
    error, with [maxVal] as the value. *)
Theorem ParseUint_format_range n bitSize :
  1 <= bitSize <= 64 → 2 ^ bitSize <= n →
  ParseUint (format_uint n 10) 0 bitSize = (2 ^ bitSize - 1, Some ErrRange).
Proof.
  intros Hb Hn. pose proof (maxVal_range bitSize Hb).
  destruct (format_uint_digits n 10) as (d & ds & Hf & Hv & Hh & Hd); [lia | lia |].
  rewrite ParseUint_unfold, Hf by (try rewrite Hf; done).
  pose proof (Forall_inv Hv) as Hd0; simpl in Hd0. specialize (Hd ltac:(lia)).
  cbn -[base0_prefix digits_loop string_of_digits underscoreOK].
  rewrite base0_prefix_digits by lia.
  rewrite digits_loop_digits_range; solve [done | lia].
Qed.

End strconv.
