(* ===== verification/TlsPolicy.v ===== *)
(** * The TLS policy resolver: [CipherSuites] and [MinTLSVersion]

    [convenience.go] lines 120-184.  The two tables [ciphersHigh] and
    [ciphersMedium] hold [crypto/tls] cipher-suite constants; [tlsConfig]
    is the shape [getTLSConfig] decodes.  This file models what the two
    functions do with a decoded configuration: [cipherSuitesOf] is the loop
    and fallback of [CipherSuites] (lines 152-169), [minTLSVersionOf] the
    switch of [MinTLSVersion] (lines 175-184).  The composition with
    [getTLSConfig] (reading and decoding the environment variable) is in
    [TlsConfig].

    The theorems: the result of [cipherSuitesOf] is never empty and is
    [ciphersHigh] when no entry is recognised; it is the concatenation, in
    order, of the expansion of each entry; a case variant of "high" puts
    the whole high tier in it; every element is a tier's or exactly the
    16-bit number [ParseUint] read from an entry, so [uint16] never
    truncates; duplicates are kept; a decimal, octal or hexadecimal entry
    in range yields exactly its number.  For an ASCII value the version
    is the spec's case-insensitive match of TLS 1.0, 1.1, 1.2, and TLS 1.0
    for anything else (including "tlsv1.3" and a value with leading
    white space). *)

From S2P Require Import Prelude GoStrings ParseUint.

(** The constants of Go's [crypto/tls] the code names. *)
Module tls.
Definition TLS_RSA_WITH_AES_128_CBC_SHA : Z := 0x002f.
Definition TLS_RSA_WITH_AES_256_CBC_SHA : Z := 0x0035.
Definition TLS_ECDHE_ECDSA_WITH_AES_128_CBC_SHA : Z := 0xc009.
Definition TLS_ECDHE_ECDSA_WITH_AES_256_CBC_SHA : Z := 0xc00a.
Definition TLS_ECDHE_RSA_WITH_AES_128_CBC_SHA : Z := 0xc013.
Definition TLS_ECDHE_RSA_WITH_AES_256_CBC_SHA : Z := 0xc014.
Definition TLS_ECDHE_ECDSA_WITH_AES_128_GCM_SHA256 : Z := 0xc02b.
Definition TLS_ECDHE_RSA_WITH_AES_128_GCM_SHA256 : Z := 0xc02f.
Definition VersionTLS10 : Z := 0x0301.
Definition VersionTLS11 : Z := 0x0302.
Definition VersionTLS12 : Z := 0x0303.
End tls.

(** [var ciphersHigh = []uint16{...}] *)
Definition ciphersHigh : list Z :=
  [tls.TLS_RSA_WITH_AES_128_CBC_SHA;
   tls.TLS_RSA_WITH_AES_256_CBC_SHA;
   tls.TLS_ECDHE_ECDSA_WITH_AES_256_CBC_SHA;
   tls.TLS_ECDHE_RSA_WITH_AES_256_CBC_SHA;
   tls.TLS_ECDHE_RSA_WITH_AES_128_GCM_SHA256;
   tls.TLS_ECDHE_ECDSA_WITH_AES_128_GCM_SHA256].

(** [var ciphersMedium = []uint16{...}] *)
Definition ciphersMedium : list Z :=
  [tls.TLS_ECDHE_ECDSA_WITH_AES_128_CBC_SHA;
   tls.TLS_ECDHE_RSA_WITH_AES_128_CBC_SHA;
   tls.TLS_ECDHE_RSA_WITH_AES_128_GCM_SHA256].

(** [type tlsConfig struct { MinTLSVersion string; Ciphers []string }]; a
    nil [Ciphers] slice is the empty list (ranging over it does nothing). *)
Module tlsConfig.
Record tlsConfig := mk { MinTLSVersion : string; Ciphers : list string }.
(** [tlsConfig{}]. *)
Definition zero : tlsConfig := mk "" [].
End tlsConfig.

(** One iteration of [for _, val := range config.Ciphers]: trim, then
    "high", "medium" (any case), or a number [strconv.ParseUint(val, 0, 16)]
    accepts, converted with [uint16(cipherId)]; anything else is skipped. *)
Definition cipher_step (ciphers : list Z) (val : string) : list Z :=
  let val := strings.TrimSpace val in
  if strings.EqualFold val "high" then ciphers ++ ciphersHigh
  else if strings.EqualFold val "medium" then ciphers ++ ciphersMedium
  else match strconv.ParseUint val 0 16 with
       | (cipherId, None) => ciphers ++ [cipherId mod 2 ^ 16]
       | (_, Some _) => ciphers
       end.

(** The loop, from [var ciphers []uint16] (nil). *)
Definition cipher_loop (vals : list string) : list Z :=
  fold_left cipher_step vals [].

(** [CipherSuites] after [config := getTLSConfig()]: the loop, then
    [ciphersHigh] when it produced nothing. *)
Definition cipherSuitesOf (config : tlsConfig.tlsConfig) : list Z :=
  let ciphers := cipher_loop (tlsConfig.Ciphers config) in
  if bool_decide (0 < length ciphers)%nat then ciphers else ciphersHigh.

(** [MinTLSVersion] after [config := getTLSConfig()]: the [switch] on
    [strings.ToLower(config.MinTLSVersion)]. *)
Definition minTLSVersionOf (config : tlsConfig.tlsConfig) : Z :=
  let v := strings.ToLower (tlsConfig.MinTLSVersion config) in
  if String.eqb v "tlsv1" then tls.VersionTLS10
  else if String.eqb v "tlsv1.1" then tls.VersionTLS11
  else if String.eqb v "tlsv1.2" then tls.VersionTLS12
  else tls.VersionTLS10.

(** ** The cipher list *)

Import GoStringsFacts.

(** The ciphers one entry contributes. *)
Definition expand (val : string) : list Z := cipher_step [] val.

Lemma cipher_step_app acc val : cipher_step acc val = acc ++ expand val.
Proof. unfold expand, cipher_step. cbv zeta. repeat case_match; by rewrite ?app_nil_r. Qed.

Lemma fold_cipher_step vals acc :
  fold_left cipher_step vals acc = acc ++ concat (map expand vals).
Proof.
  revert acc. induction vals as [|v vals IH]; intros acc; simpl; [by rewrite app_nil_r|].
  by rewrite IH, cipher_step_app, app_assoc.
Qed.

(** The spec's reading of the loop: the expansions of the entries, in
    order, or [ciphersHigh] when they are all empty. *)
Definition cipher_suites_spec (vals : list string) : list Z :=
  match concat (map expand vals) with
  | [] => ciphersHigh
  | l => l
  end.

Lemma cipherSuitesOf_concat config :
  cipherSuitesOf config = cipher_suites_spec (tlsConfig.Ciphers config).
Proof.
  unfold cipherSuitesOf, cipher_loop, cipher_suites_spec. rewrite fold_cipher_step. simpl.
  by destruct (concat _).
Qed.

(** The expansions of a list of entries, split at its appends. *)
Ltac flatten_expand := repeat (progress (rewrite ?map_app, ?concat_app; cbn [map concat])).

Lemma cipher_suites_spec_elem vals x :
  x ∈ concat (map expand vals) → cipher_suites_spec vals = concat (map expand vals).
Proof. unfold cipher_suites_spec. destruct (concat _); [by intros ?%not_elem_of_nil | done]. Qed.

(** C13: the loop of [CipherSuites] (appending to one accumulator) computes
    the concatenation of the expansions of its entries, in order, and the
    fallback replaces an empty result by [ciphersHigh]. *)
Theorem cipherSuitesOf_spec config :
  cipherSuitesOf config = cipher_suites_spec (tlsConfig.Ciphers config).
Proof. apply cipherSuitesOf_concat. Qed.

(** C12: [CipherSuites] never returns an empty list. *)
Theorem cipherSuitesOf_nonempty config : cipherSuitesOf config ≠ [].
Proof. rewrite cipherSuitesOf_concat. unfold cipher_suites_spec. by destruct (concat _). Qed.

(** An entry the loop does not recognise. *)
Definition unrecognised (val : string) : Prop :=
  strings.EqualFold (strings.TrimSpace val) "high" = false ∧
  strings.EqualFold (strings.TrimSpace val) "medium" = false ∧
  snd (strconv.ParseUint (strings.TrimSpace val) 0 16) ≠ None.

Lemma expand_unrecognised val : unrecognised val → expand val = [].
Proof.
  intros (H1 & H2 & H3). unfold expand, cipher_step. rewrite H1, H2.
  destruct (strconv.ParseUint _ _ _) as [? [e|]]; simpl in *; congruence.
Qed.

(** C14: when no entry is recognised (in particular when there is none),
    [CipherSuites] returns exactly the high tier. *)
Theorem cipherSuitesOf_unrecognised config :
  Forall unrecognised (tlsConfig.Ciphers config) → cipherSuitesOf config = ciphersHigh.
Proof.
  intros Hall. rewrite cipherSuitesOf_concat. unfold cipher_suites_spec.
  enough (concat (map expand (tlsConfig.Ciphers config)) = []) as -> by done.
  induction Hall as [|v vs Hv _ IH]; [done|]. simpl. by rewrite expand_unrecognised, IH.
Qed.

(** C15: an entry that is "high" in any case, with any surrounding white
    space, puts the whole high tier, in order, into the result. *)
Theorem cipherSuitesOf_high_infix config val :
  val ∈ tlsConfig.Ciphers config →
  strings.EqualFold (strings.TrimSpace val) "high" = true →
  ∃ l1 l2, cipherSuitesOf config = l1 ++ ciphersHigh ++ l2.
Proof.
  intros Hin Hh. rewrite cipherSuitesOf_concat. unfold cipher_suites_spec.
  apply list_elem_of_split in Hin as (vs1 & vs2 & ->).
  assert (expand val = ciphersHigh) as Hx by (unfold expand, cipher_step; by rewrite Hh).
  rewrite map_app, concat_app. simpl. rewrite Hx.
  exists (concat (map expand vs1)), (concat (map expand vs2)).
  by destruct (concat (map expand vs1)).
Qed.

(** C22: [CipherSuites] keeps duplicates: when two entries at different
    positions both contribute an identifier (the same tier twice, the
    high and the medium tiers, which share
    [TLS_ECDHE_RSA_WITH_AES_128_GCM_SHA256], or two numerals of one
    number), that identifier appears twice in the result. *)
Theorem cipherSuitesOf_duplicate m vs1 v1 vs2 v2 vs3 x :
  x ∈ expand v1 → x ∈ expand v2 →
  ¬ NoDup (cipherSuitesOf (tlsConfig.mk m (vs1 ++ v1 :: vs2 ++ v2 :: vs3))).
Proof.
  intros H1 H2. rewrite cipherSuitesOf_concat. cbn [tlsConfig.Ciphers].
  rewrite (cipher_suites_spec_elem _ x); flatten_expand; [|set_solver].
  rewrite !NoDup_app. intros (_ & _ & Hd & Hx & _). apply (Hx x H1). set_solver.
Qed.

(** Where an identifier of the result comes from: the fallback, or the
    expansion of one entry. *)
Lemma cipherSuitesOf_elem config x :
  x ∈ cipherSuitesOf config →
  x ∈ ciphersHigh ∨ ∃ val, val ∈ tlsConfig.Ciphers config ∧ x ∈ expand val.
Proof.
  rewrite cipherSuitesOf_concat. unfold cipher_suites_spec.
  destruct (concat _) as [|y l] eqn:E; [by left|]. rewrite <- E. intros Hx. right.
  apply list_elem_of_In, in_concat in Hx as (l' & Hl' & Hx).
  apply in_map_iff in Hl' as (v & <- & Hv). exists v. split; by apply list_elem_of_In.
Qed.

(** What one entry contributes: a tier, or the number [ParseUint] read
    from it at 16 bits, which [uint16] keeps as it is. *)
Lemma expand_origin val x :
  x ∈ expand val →
  x ∈ ciphersHigh ∨ x ∈ ciphersMedium ∨
  strconv.ParseUint (strings.TrimSpace val) 0 16 = (x, None).
Proof.
  unfold expand, cipher_step. cbv zeta.
  destruct (strings.EqualFold _ "high"); [by left|].
  destruct (strings.EqualFold _ "medium"); [by right; left|].
  destruct (strconv.ParseUint _ 0 16) as [n [e|]] eqn:Hp; cbn; [by intros ?%not_elem_of_nil|].
  intros ->%list_elem_of_singleton. right; right.
  rewrite Z.mod_small; [done|]. exact (strconv.ParseUint_bound _ 0 16 n ltac:(lia) Hp).
Qed.

Lemma tiers_bound x : x ∈ ciphersHigh ∨ x ∈ ciphersMedium → 0 <= x < 2 ^ 16.
Proof.
  intros Hx. assert (Hall : Forall (λ y, 0 <= y < 2 ^ 16) (ciphersHigh ++ ciphersMedium))
    by (apply (bool_decide_unpack _); vm_compute; reflexivity).
  rewrite Forall_forall in Hall. apply Hall, elem_of_app, Hx.
Qed.

(** C16: [uint16(cipherId)] never truncates: every identifier
    [CipherSuites] returns fits in 16 bits and is a member of one of the
    two tiers or exactly the number [ParseUint(val, 0, 16)] read from
    one of the trimmed entries. *)
Theorem cipherSuitesOf_bounds config x :
  x ∈ cipherSuitesOf config →
  0 <= x < 2 ^ 16 ∧
  (x ∈ ciphersHigh ∨ x ∈ ciphersMedium ∨
   ∃ val, val ∈ tlsConfig.Ciphers config ∧ strconv.ParseUint (strings.TrimSpace val) 0 16 = (x, None)).
Proof.
  intros [Hx | (val & Hin & Hx)]%cipherSuitesOf_elem.
  - split; [apply tiers_bound; by left | by left].
  - destruct (expand_origin val x Hx) as [H | [H | H]].
    + split; [apply tiers_bound; by left | by left].
    + split; [apply tiers_bound; by right | right; by left].
    + split; [exact (strconv.ParseUint_bound _ 0 16 x ltac:(lia) H)|]. right; right. by exists val.
Qed.

(** ** Numeric entries *)

Lemma plain_digits b : (0x30 <= b <= 0x39 ∨ 0x61 <= b <= 0x7A) → plain_byte b.
Proof. intros Hb. split; [unfold utf8.RuneSelf; lia | apply IsSpace_printable; lia]. Qed.

(** An entry that starts with a decimal digit and has only plain bytes is
    neither "high" nor "medium": it contributes what [ParseUint] accepts. *)
Lemma expand_digit_entry c r :
  0x30 <= bv c <= 0x39 → Forall plain_byte (bytes (String c r)) →
  expand (String c r) =
    match strconv.ParseUint (String c r) 0 16 with
    | (id, None) => [id mod 2 ^ 16]
    | (_, Some _) => []
    end.
Proof.
  intros Hc Hs. unfold expand, cipher_step. rewrite TrimSpace_plain by done.
  rewrite !EqualFold_cons_ascii by (unfold utf8.RuneSelf; bv_lits; lia).
  bv_lits. rewrite !fold_eq_digit by (unfold utf8.RuneSelf; lia).
  simpl.
  by destruct (strconv.ParseUint _ _ _) as [? []].
Qed.

Lemma format_dec_entry n :
  0 <= n →
  ∃ c r, strconv.format_uint n 10 = String c r ∧ 0x30 <= bv c <= 0x39 ∧
    Forall plain_byte (bytes (String c r)).
Proof.
  intros Hn. destruct (strconv.format_uint_digits n 10) as (d & ds & Hf & Hv & _); [lia | lia |].
  pose proof (strconv.bytes_string_of_digits 10 (d :: ds) ltac:(lia) Hv) as Hb.
  rewrite <- Hf in Hb. destruct (strconv.format_uint n 10) as [|c r]; [done|].
  exists c, r. split; [done|]. split; [|by eapply Forall_impl; [exact Hb|]; intros; apply plain_digits].
  rewrite Hf in Hb. inversion Hb; subst. pose proof (Forall_inv Hv). simpl in *.
  unfold strconv.digit_char in *. rewrite (proj2 (Z.ltb_lt d 10)) in * by lia.
  injection Hf as -> _. rewrite bv_chr by lia. lia.
Qed.

Lemma cipherSuitesOf_single m val l :
  expand val = l → l ≠ [] → cipherSuitesOf (tlsConfig.mk m [val]) = l.
Proof.
  intros Hx Hl. rewrite cipherSuitesOf_concat. unfold cipher_suites_spec. simpl.
  rewrite Hx, app_nil_r. by destruct l.
Qed.

(** C17: round trip through the configuration: an entry that is the decimal
    numeral of a 16-bit number yields exactly that cipher identifier. *)
Theorem cipherSuitesOf_decimal m n :
  0 <= n < 2 ^ 16 →
  cipherSuitesOf (tlsConfig.mk m [strconv.format_uint n 10]) = [n].
Proof.
  intros Hn. apply cipherSuitesOf_single; [|done].
  destruct (format_dec_entry n) as (c & r & Hf & Hc & Hs); [lia|].
  pose proof (strconv.ParseUint_format_dec n 16 ltac:(lia) Hn) as Hp.
  rewrite Hf in Hp |- *. rewrite expand_digit_entry, Hp by done.
  by rewrite Z.mod_small.
Qed.

(** The bytes of a numeral are plain. *)
Lemma format_uint_plain n base :
  2 <= base <= 36 → 0 <= n → Forall plain_byte (bytes (strconv.format_uint n base)).
Proof.
  intros Hb Hn. destruct (strconv.format_uint_digits n base) as (d & ds & Hf & Hv & _); [lia | lia |].
  rewrite Hf. eapply Forall_impl; [apply (strconv.bytes_string_of_digits base); [lia | exact Hv]|].
  intros; by apply plain_digits.
Qed.

(** Round trip through the configuration: ["0x"] and the hexadecimal
    numeral of a 16-bit number yield exactly that cipher identifier. *)
Lemma cipherSuitesOf_hex m n :
  0 <= n < 2 ^ 16 →
  cipherSuitesOf (tlsConfig.mk m ["0x" +:+ strconv.format_uint n 16]) = [n].
Proof.
  intros Hn. apply cipherSuitesOf_single; [|done].
  pose proof (strconv.ParseUint_format_hex n 16 ltac:(lia) Hn) as Hp.
  change ("0x" +:+ strconv.format_uint n 16)
    with (String "0" (String "x" (strconv.format_uint n 16))) in Hp |- *.
  rewrite expand_digit_entry, Hp; [by rewrite Z.mod_small | bv_lits; lia |].
  repeat constructor; [apply plain_digits; bv_lits; lia .. | apply format_uint_plain; lia].
Qed.

(** C20: base 0 of [ParseUint] reads an entry with a leading [0] as
    octal: ["0"] followed by the octal numeral of a 16-bit number yields
    that number, so "0100" is the cipher 64, not 100. *)
Theorem cipherSuitesOf_octal m n :
  0 <= n < 2 ^ 16 →
  cipherSuitesOf (tlsConfig.mk m ["0" +:+ strconv.format_uint n 8]) = [n].
Proof.
  intros Hn. apply cipherSuitesOf_single; [|done].
  pose proof (strconv.ParseUint_format_oct n 16 ltac:(lia) Hn) as Hp.
  change ("0" +:+ strconv.format_uint n 8) with (String "0" (strconv.format_uint n 8)) in Hp |- *.
  rewrite expand_digit_entry, Hp; [by rewrite Z.mod_small | bv_lits; lia |].
  constructor; [apply plain_digits; bv_lits; lia | apply format_uint_plain; lia].
Qed.

(** C18: a decimal entry at or above [2^16] is out of range for
    [ParseUint(val, 0, 16)] and is skipped: alone, it leaves the high
    tier. *)
Theorem cipherSuitesOf_out_of_range m n :
  2 ^ 16 <= n →
  cipherSuitesOf (tlsConfig.mk m [strconv.format_uint n 10]) = ciphersHigh.
Proof.
  intros Hn. rewrite cipherSuitesOf_concat. unfold cipher_suites_spec. simpl.
  destruct (format_dec_entry n) as (c & r & Hf & Hc & Hs); [lia|].
  pose proof (strconv.ParseUint_format_range n 16 ltac:(lia) Hn) as Hp.
  rewrite Hf in Hp |- *. by rewrite expand_digit_entry, Hp.
Qed.

(** ** The minimum version *)

(** ASCII case-insensitive equality with a lower-case literal. *)
Definition ascii_ci_eq (v t : string) : bool :=
  bool_decide (map strings.lower_ascii_byte (bytes v) = bytes t).

(** What §4.5 of the spec promises for [MinTLSVersion]: a case-insensitive
    match of "tlsv1", "tlsv1.1", "tlsv1.2", TLS 1.0 otherwise. *)
Definition min_version_spec (v : string) : Z :=
  if ascii_ci_eq v "tlsv1.1" then tls.VersionTLS11
  else if ascii_ci_eq v "tlsv1.2" then tls.VersionTLS12
  else tls.VersionTLS10.

Lemma eqb_lower_ascii v t :
  String.eqb (strings.string_of_bytes (map strings.lower_ascii_byte (bytes v))) t = ascii_ci_eq v t.
Proof.
  unfold ascii_ci_eq.
  destruct (String.eqb_spec (strings.string_of_bytes (map strings.lower_ascii_byte (bytes v))) t)
    as [Heq|Hne]; case_bool_decide as Hb; try done.
  - rewrite <- Heq, bytes_lower_ascii in Hb. done.
  - rewrite Hb, string_of_bytes_bytes in Hne. done.
Qed.

(** C19: for an ASCII value, [MinTLSVersion]'s switch on [ToLower] is the
    spec's case-insensitive match, with TLS 1.0 for every other value. *)
Theorem minTLSVersionOf_spec v cs :
  strings.is_ascii v = true → minTLSVersionOf (tlsConfig.mk v cs) = min_version_spec v.
Proof.
  intros Hv. unfold minTLSVersionOf, min_version_spec. simpl.
  rewrite ToLower_ascii, !eqb_lower_ascii by done. unfold ascii_ci_eq.
  repeat case_bool_decide; try done; exfalso;
    match goal with H1 : ?l = _, H2 : ?l = _ |- _ => rewrite H1 in H2; vm_compute in H2; simplify_eq end.
Qed.

(** C21: [MinTLSVersion] does not trim its value, as [CipherSuites] trims
    its entries: a value that starts with white space is never
    recognised and gives TLS 1.0, whatever follows it. *)
Theorem minTLSVersionOf_padded c v cs :
  unicode.IsSpace (bv c) = true → bv c < utf8.RuneSelf →
  minTLSVersionOf (tlsConfig.mk (String c v) cs) = tls.VersionTLS10.
Proof.
  intros Hs Ha. pose proof (bv_range c).
  assert (Hu : unicode.is_upper (bv c) = false).
  { unfold unicode.IsSpace in Hs. unfold unicode.is_upper.
    repeat (case_bool_decide || case_match); try lia; cbn in Hs; repeat rewrite orb_true_iff in Hs;
      rewrite ?Z.eqb_eq in Hs; apply andb_false_iff; lia. }
  destruct (ToLower_cons c v Ha Hu) as [r Hr].
  assert (Hne : ∀ t, String.eqb (String c r) (String "t" t) = false).
  { intros t. destruct (String.eqb_spec (String c r) (String "t" t)) as [E|]; [|done].
    injection E as -> _. by vm_compute in Hs. }
  unfold minTLSVersionOf. cbn [tlsConfig.MinTLSVersion]. rewrite Hr, !Hne. done.
Qed.

(** ** Concrete configurations *)

(** The spec's example: ["medium", "999"] gives the medium tier, then
    the identifier 999, in that order. *)
Example cipherSuitesOf_medium_999 :
  cipherSuitesOf (tlsConfig.mk "" ["medium"; "999"]) = ciphersMedium ++ [999].
Proof. vm_compute. reflexivity. Qed.

(** ** Witnesses *)

Lemma cipherSuitesOf_unrecognised_witness :
  Forall unrecognised ["bogus"; "70000"] ∧
  cipherSuitesOf (tlsConfig.mk "" ["bogus"; "70000"]) = ciphersHigh.
Proof.
  assert (Forall unrecognised ["bogus"; "70000"]) as H
    by (repeat constructor; vm_compute; congruence).
  split; [exact H | exact (cipherSuitesOf_unrecognised (tlsConfig.mk "" ["bogus"; "70000"]) H)].
Defined.

Lemma cipherSuitesOf_high_infix_witness :
  ∃ l1 l2, cipherSuitesOf (tlsConfig.mk "" ["7"; " HiGh "]) = l1 ++ ciphersHigh ++ l2.
Proof.
  apply (cipherSuitesOf_high_infix _ " HiGh ").
  - apply list_elem_of_further, list_elem_of_here.
  - vm_compute. reflexivity.
Defined.

Lemma cipherSuitesOf_decimal_witness :
  cipherSuitesOf (tlsConfig.mk "" [strconv.format_uint 49199 10]) = [49199].
Proof. apply cipherSuitesOf_decimal. lia. Defined.

Lemma cipherSuitesOf_octal_witness :
  cipherSuitesOf (tlsConfig.mk "" ["0100"]) = [64] ∧ cipherSuitesOf (tlsConfig.mk "" ["0999"]) = ciphersHigh.
Proof.
  split; [|vm_compute; reflexivity].
  change "0100"%string with ("0" +:+ strconv.format_uint 64 8)%string. apply cipherSuitesOf_octal. lia.
Defined.

Lemma cipherSuitesOf_out_of_range_witness :
  cipherSuitesOf (tlsConfig.mk "" [strconv.format_uint 70000 10]) = ciphersHigh.
Proof. apply cipherSuitesOf_out_of_range. lia. Defined.

Lemma minTLSVersionOf_spec_witness :
  minTLSVersionOf (tlsConfig.mk "TLSv1.2" []) = min_version_spec "TLSv1.2" ∧
  min_version_spec "TLSv1.2" = tls.VersionTLS12 ∧
  minTLSVersionOf (tlsConfig.mk "TLSv1.3" []) = min_version_spec "TLSv1.3" ∧
  min_version_spec "TLSv1.3" = tls.VersionTLS10.
Proof.
  split_and!; [apply minTLSVersionOf_spec; reflexivity | vm_compute; reflexivity |
               apply minTLSVersionOf_spec; reflexivity | vm_compute; reflexivity].
Defined.

Lemma minTLSVersionOf_padded_witness :
  minTLSVersionOf (tlsConfig.mk " tlsv1.2" []) = tls.VersionTLS10 ∧
  cipherSuitesOf (tlsConfig.mk "" [" medium "]) = ciphersMedium.
Proof. split; [apply minTLSVersionOf_padded; reflexivity | vm_compute; reflexivity]. Defined.

Lemma cipherSuitesOf_nonempty_witness :
  cipherSuitesOf tlsConfig.zero ≠ [] ∧ cipherSuitesOf tlsConfig.zero = ciphersHigh.
Proof. split; [apply cipherSuitesOf_nonempty | vm_compute; reflexivity]. Defined.

Lemma cipherSuitesOf_bounds_witness :
  4464 ∈ cipherSuitesOf (tlsConfig.mk "" [" 4464"; "70000"]) ∧ 0 <= 4464 < 2 ^ 16 ∧
  ∃ val, val ∈ [" 4464"; "70000"] ∧ strconv.ParseUint (strings.TrimSpace val) 0 16 = (4464, None).
Proof.
  assert (4464 ∈ cipherSuitesOf (tlsConfig.mk "" [" 4464"; "70000"])) as H.
  { vm_compute. apply list_elem_of_here. }
  destruct (cipherSuitesOf_bounds _ _ H) as [Hb [Ht | [Ht | Hv]]]; [exfalso .. | exact (conj H (conj Hb Hv))];
    vm_compute in Ht; repeat (apply elem_of_cons in Ht as [Ht|Ht]; [lia|]); by apply not_elem_of_nil in Ht.
Defined.

Lemma cipherSuitesOf_duplicate_witness :
  tls.TLS_ECDHE_RSA_WITH_AES_128_GCM_SHA256 ∈ expand "high" ∧
  tls.TLS_ECDHE_RSA_WITH_AES_128_GCM_SHA256 ∈ expand "medium" ∧
  ¬ NoDup (cipherSuitesOf (tlsConfig.mk "" ([] ++ "high" :: [] ++ "medium" :: []))) ∧
  47 ∈ expand " 47" ∧ 47 ∈ expand "0x2F" ∧
  ¬ NoDup (cipherSuitesOf (tlsConfig.mk "" (["7"] ++ " 47" :: ["high"] ++ "0x2F" :: []))).
Proof.
  assert (H1 : tls.TLS_ECDHE_RSA_WITH_AES_128_GCM_SHA256 ∈ expand "high")
    by (vm_compute; do 4 apply list_elem_of_further; apply list_elem_of_here).
  assert (H2 : tls.TLS_ECDHE_RSA_WITH_AES_128_GCM_SHA256 ∈ expand "medium")
    by (vm_compute; do 2 apply list_elem_of_further; apply list_elem_of_here).
  assert (H3 : 47 ∈ expand " 47") by (vm_compute; apply list_elem_of_here).
  assert (H4 : 47 ∈ expand "0x2F") by (vm_compute; apply list_elem_of_here).
  split_and!; [exact H1 | exact H2 | exact (cipherSuitesOf_duplicate "" [] "high" [] "medium" [] _ H1 H2) |
               exact H3 | exact H4 | exact (cipherSuitesOf_duplicate "" ["7"] " 47" ["high"] "0x2F" [] _ H3 H4)].
Defined.
