(* ===== verification/GoHeap.v ===== *)
(** * Go objects in a heap: allocation, slices and [append]

    [dupRequest] exists because Go's maps and slices are references: a
    struct copy [rv := *req] shares [req.Header] with the original, and a
    slice copy shares its backing array.  The HTTP model therefore keeps Go
    objects in heaps: a [heap V] maps locations to objects of type [V] and
    allocates at [next], which grows.  A slice is a window
    [(arr, off, len, cap)] on a backing array; [append] writes in place when
    the capacity allows and otherwise copies into a new array whose capacity
    is chosen by the runtime's growth policy [grow], of which the theorems
    only assume that it is large enough.

    The lemmas say what each operation leaves unchanged ([unchanged_below]:
    every object older than a location bound) and what it reads back. *)

From S2P Require Import Prelude.

Local Open Scope nat_scope.

(** Locations of allocated objects. *)
Abbreviation loc := positive.

Record heap (V : Type) := mkHeap { cells : gmap loc V; next : loc }.
Arguments mkHeap {V} cells next.
Arguments cells {V} h.
Arguments next {V} h.

Section Heap.
Context {V : Type}.

Definition heap_empty : heap V := mkHeap ∅ 1%positive.

Definition load (l : loc) (h : heap V) : option V := cells h !! l.

(** A new object at [next]. *)
Definition alloc (v : V) (h : heap V) : loc * heap V :=
  (next h, mkHeap (<[next h := v]> (cells h)) (Pos.succ (next h))).

Definition write (l : loc) (v : V) (h : heap V) : heap V :=
  mkHeap (<[l := v]> (cells h)) (next h).

(** Every allocated location lies below [next]. *)
Definition heap_wf (h : heap V) : Prop :=
  ∀ l, is_Some (cells h !! l) → (l < next h)%positive.

(** [h'] has every object of [h] below [n] as it was. *)
Definition unchanged_below (n : loc) (h h' : heap V) : Prop :=
  ∀ l, (l < n)%positive → load l h' = load l h.

Lemma load_alloc_eq v h : load (fst (alloc v h)) (snd (alloc v h)) = Some v.
Proof. apply lookup_insert_eq. Qed.

Lemma load_alloc_next v h : load (next h) (snd (alloc v h)) = Some v.
Proof. apply lookup_insert_eq. Qed.

Lemma load_alloc_ne v h l : l ≠ next h → load l (snd (alloc v h)) = load l h.
Proof. intros. by apply lookup_insert_ne. Qed.

Lemma load_write_eq l v h : load l (write l v h) = Some v.
Proof. apply lookup_insert_eq. Qed.

Lemma load_write_ne l l' v h : l ≠ l' → load l' (write l v h) = load l' h.
Proof. intros. by apply lookup_insert_ne. Qed.

Lemma next_alloc v h : next (snd (alloc v h)) = Pos.succ (next h).
Proof. reflexivity. Qed.

Lemma next_write l v h : next (write l v h) = next h.
Proof. reflexivity. Qed.

Lemma alloc_fresh h : heap_wf h → load (next h) h = None.
Proof.
  intros Hwf. unfold load. destruct (cells h !! next h) eqn:E; [|done].
  specialize (Hwf (next h) ltac:(by eexists)). lia.
Qed.

Lemma alloc_wf v h : heap_wf h → heap_wf (snd (alloc v h)).
Proof.
  intros Hwf l. simpl. rewrite lookup_insert. case_decide; [lia|].
  intros Hl. specialize (Hwf l Hl). lia.
Qed.

Lemma write_wf l v h : heap_wf h → (l < next h)%positive → heap_wf (write l v h).
Proof.
  intros Hwf Hl l'. simpl. rewrite lookup_insert. case_decide; [subst; done|].
  apply Hwf.
Qed.

Lemma write_write l v w h : write l v (write l w h) = write l v h.
Proof. unfold write. simpl. by rewrite insert_insert_eq. Qed.

Lemma write_id l v h : load l h = Some v → write l v h = h.
Proof. unfold write, load. intros Hl. rewrite insert_id by done. by destruct h. Qed.

(** An allocated object lies below [next]; allocation keeps it. *)
Lemma load_lt l v h : heap_wf h → load l h = Some v → (l < next h)%positive.
Proof. intros Hwf Hl. apply Hwf. unfold load in Hl. by rewrite Hl. Qed.

Lemma load_alloc_old l v w h : heap_wf h → load l h = Some v → load l (snd (alloc w h)) = Some v.
Proof. intros Hwf Hl. rewrite load_alloc_ne; [done|]. intros ->. by rewrite alloc_fresh in Hl. Qed.

Lemma unchanged_below_refl n h : unchanged_below n h h.
Proof. by intros l _. Qed.

Lemma unchanged_below_trans n h1 h2 h3 :
  unchanged_below n h1 h2 → unchanged_below n h2 h3 → unchanged_below n h1 h3.
Proof. intros H12 H23 l Hl. by rewrite H23, H12. Qed.

Lemma unchanged_below_mono n n' h h' :
  (n' ≤ n)%positive → unchanged_below n h h' → unchanged_below n' h h'.
Proof. intros Hn H l Hl. apply H. lia. Qed.

Lemma alloc_unchanged n v h : (n ≤ next h)%positive → unchanged_below n h (snd (alloc v h)).
Proof. intros Hn l Hl. apply load_alloc_ne. lia. Qed.

Lemma write_unchanged n l v h : (n ≤ l)%positive → unchanged_below n h (write l v h).
Proof. intros Hn l' Hl'. apply load_write_ne. lia. Qed.

End Heap.

#[export] Hint Resolve unchanged_below_refl alloc_wf write_wf : cbauth.

(** ** Slices *)

(** A non-nil slice: a window of [len] elements at offset [off] of the
    array at [arr], which has room for [cap] elements from [off]. *)
Record slice := mkSlice { arr : loc; off : nat; len : nat; cap : nat }.

#[export] Instance slice_eq_dec : EqDecision slice.
Proof. solve_decision. Defined.

(** [len(s)] and [cap(s)] of a Go slice value ([None] is the nil slice). *)
Definition slice_len (s : option slice) : nat := match s with Some sl => len sl | None => 0 end.
Definition slice_cap (s : option slice) : nat := match s with Some sl => cap sl | None => 0 end.

(** [copy] of [xs] into [a] at index [i]. *)
Definition list_write {E} (a : list E) (i : nat) (xs : list E) : list E :=
  take i a ++ xs ++ drop (i + length xs) a.

Lemma length_list_write {E} (a xs : list E) i :
  i + length xs ≤ length a → length (list_write a i xs) = length a.
Proof. intros H. unfold list_write. rewrite !length_app, length_take, length_drop. lia. Qed.

Section Slices.
Context {E : Type} (zero : E).

(** The elements a slice shows, when its array exists and holds the
    window; [None] for a dangling or ill-formed slice. *)
Definition slice_view (h : heap (list E)) (s : option slice) : option (list E) :=
  match s with
  | None => Some []
  | Some sl =>
    a ← load (arr sl) h;
    if decide (len sl ≤ cap sl ∧ off sl + cap sl ≤ length a)
    then Some (take (len sl) (drop (off sl) a)) else None
  end.

(** The runtime's choice of a new capacity [grow oldcap needed]. *)
Context (grow : nat → nat → nat).
Hypothesis grow_enough : ∀ c n, n ≤ grow c n.

(** The [growslice] path of [append]: a new array of capacity [c] holding
    the [n] elements [old ++ xs], then zero values. *)
Definition regrow (h : heap (list E)) (old xs : list E) (n c : nat)
    : heap (list E) * option slice :=
  let p := alloc (old ++ xs ++ replicate (c - n) zero) h in
  (snd p, Some (mkSlice (fst p) 0 n c)).

(** [append(s, xs...)]: unchanged for no element; in place when
    [len + |xs| <= cap]; else a new array of capacity [grow cap needed]
    holding the old elements, [xs], and zero values. *)
Definition append (h : heap (list E)) (s : option slice) (xs : list E)
    : option (heap (list E) * option slice) :=
  let n := slice_len s + length xs in
  let regrow_path :=
    old ← slice_view h s; Some (regrow h old xs n (grow (slice_cap s) n)) in
  match xs, s with
  | [], _ => Some (h, s)
  | _, Some sl =>
    if decide (n ≤ cap sl) then
      a ← load (arr sl) h;
      if decide (off sl + cap sl ≤ length a) then
        Some (write (arr sl) (list_write a (off sl + len sl) xs) h,
              Some (mkSlice (arr sl) (off sl) n (cap sl)))
      else None
    else regrow_path
  | _, None => regrow_path
  end.

(** The array a slice value uses, if any. *)
Definition slice_arr (s : option slice) : option loc := arr <$> s.

Lemma list_write_window (a xs : list E) o n :
  o + n + length xs ≤ length a →
  take (n + length xs) (drop o (list_write a (o + n) xs)) = take n (drop o a) ++ xs.
Proof.
  intros H. unfold list_write.
  rewrite drop_app_le by (rewrite length_take; lia).
  rewrite (take_app_add' _ _ n (length xs)) by (rewrite length_drop, length_take; lia).
  rewrite take_app_length' by done. by rewrite take_drop_commute.
Qed.

Lemma slice_view_len h s v : slice_view h s = Some v → slice_len s = length v.
Proof.
  destruct s as [sl|]; simpl; [|by intros [= <-]].
  destruct (load (arr sl) h) as [a|]; simpl; [|done].
  case_decide; intros; simplify_eq. rewrite length_take, length_drop. lia.
Qed.

(** The new array of the regrowing path shows the old elements and [xs]. *)
Lemma regrow_view h old xs n c h' s' :
  Some (regrow h old xs n c) = Some (h', s') → n = length old + length xs → n ≤ c →
  slice_view h' s' = Some (old ++ xs).
Proof.
  unfold regrow. intros [= <- <-] -> Hc. unfold slice_view, load. simpl.
  rewrite lookup_insert_eq. simpl.
  rewrite decide_True by (rewrite !length_app, length_replicate; lia).
  rewrite drop_0, app_assoc, take_app_length' by (rewrite length_app; lia). done.
Qed.

(** [append] shows the old elements followed by [xs]. *)
Lemma append_view h s xs v h' s' :
  slice_view h s = Some v → append h s xs = Some (h', s') → slice_view h' s' = Some (v ++ xs).
Proof.
  intros Hv Ha. pose proof (slice_view_len h s v Hv) as Hlen.
  destruct xs as [|x xs']; [unfold append in Ha; simpl in Ha; simplify_eq; by rewrite app_nil_r|].
  destruct s as [sl|].
  - pose proof Hv as Hv'. simpl in Hv, Hlen.
    destruct (load (arr sl) h) as [a|] eqn:Ea; simpl in Hv; [|done].
    case_decide as Hd; simplify_eq.
    unfold append in Ha. cbn [slice_len] in Ha. case_decide as Hc.
    + rewrite Ea in Ha. cbn [mbind option_bind] in Ha. case_decide; [|done]. simplify_eq.
      cbn [slice_view arr off len cap]. rewrite load_write_eq. cbn [mbind option_bind].
      rewrite length_list_write by lia. rewrite decide_True by lia.
      by rewrite list_write_window by lia.
    + rewrite Hv' in Ha. cbn [mbind option_bind] in Ha. 
      eapply regrow_view; [exact Ha | rewrite <- Hlen; done | apply grow_enough].
  - simpl in Hv. simplify_eq. unfold append in Ha. cbn [slice_view mbind option_bind] in Ha.
    eapply regrow_view; [exact Ha | done | apply grow_enough].
Qed.

(** Among the objects of [h], [append] changes at most the array of [s];
    the new slice uses the array of [s] or the new location [next h]. *)
Lemma append_frame h s xs h' s' :
  append h s xs = Some (h', s') →
  (next h ≤ next h')%positive ∧
  (∀ l, (l < next h)%positive → Some l ≠ slice_arr s → load l h' = load l h) ∧
  (slice_arr s' = slice_arr s ∨ slice_arr s' = Some (next h)).
Proof.
  intros Ha. unfold append in Ha.
  destruct xs as [|x xs']; [simplify_eq; split; [lia | split; [done | by left]]|].
  assert (∀ old n c, Some (regrow h old (x :: xs') n c) = Some (h', s') →
    (next h ≤ next h')%positive ∧
    (∀ l, (l < next h)%positive → Some l ≠ slice_arr s → load l h' = load l h) ∧
    (slice_arr s' = slice_arr s ∨ slice_arr s' = Some (next h))) as Hre.
  { unfold regrow. intros old n c [= <- <-]. simpl. split; [lia|]. split; [|by right].
    intros l Hl _. apply load_alloc_ne. lia. }
  destruct s as [sl|].
  - cbn [slice_len] in Ha. case_decide.
    + destruct (load (arr sl) h) as [a|]; cbn [mbind option_bind] in Ha; [|done].
      case_decide; [|done]. simplify_eq. split; [simpl; lia|]. split; [|by left].
      intros l _ Hne. apply load_write_ne. intros Heq. apply Hne. simpl. by rewrite Heq.
    + destruct (slice_view h (Some sl)); cbn [mbind option_bind] in Ha; [|done]. eauto.
  - cbn [slice_view mbind option_bind] in Ha. eauto.
Qed.

(** An [append] on a slice whose array is not older than [n] leaves every
    object older than [n] unchanged. *)
Lemma append_unchanged n h s xs h' s' :
  (n ≤ next h)%positive → (∀ a, slice_arr s = Some a → (n ≤ a)%positive) →
  append h s xs = Some (h', s') → unchanged_below n h h'.
Proof.
  intros Hn Hs Ha. destruct (append_frame h s xs h' s' Ha) as (_ & Hfr & _).
  intros l Hl. apply Hfr; [lia|]. intros Heq. specialize (Hs l (eq_sym Heq)). lia.
Qed.

(** [append] keeps the heap well formed. *)
Lemma append_wf h s xs h' s' :
  heap_wf h → append h s xs = Some (h', s') → heap_wf h'.
Proof.
  intros Hwf Ha. unfold append in Ha.
  destruct xs as [|x xs']; [by simplify_eq|].
  assert (∀ old n c, Some (regrow h old (x :: xs') n c) = Some (h', s') → heap_wf h') as Hre
    by (unfold regrow; intros old n c [= <- _]; by apply alloc_wf).
  destruct s as [sl|].
  - cbn [slice_len] in Ha. case_decide.
    + destruct (load (arr sl) h) as [a|] eqn:Ea; cbn [mbind option_bind] in Ha; [|done].
      case_decide; [|done]. simplify_eq. apply write_wf; [done|].
      apply Hwf. unfold load in Ea. by rewrite Ea.
    + destruct (slice_view h (Some sl)); cbn [mbind option_bind] in Ha; [|done]. eauto.
  - cbn [slice_view mbind option_bind] in Ha. eauto.
Qed.

(** [append] succeeds on a slice that shows its elements. *)
Lemma append_some h s xs : is_Some (slice_view h s) → is_Some (append h s xs).
Proof.
  intros [v Hv]. unfold append. destruct xs as [|x xs']; [done|].
  destruct s as [sl|]; [|by rewrite Hv].
  cbn [slice_len]. case_decide; [|by rewrite Hv].
  simpl in Hv. destruct (load (arr sl) h); [|done]. cbn [mbind option_bind] in *.
  case_decide; [|done]. by rewrite decide_True by lia.
Qed.

(** [append] keeps the length of every array of the heap. *)
Lemma append_lengths h s xs h' s' l a :
  heap_wf h → append h s xs = Some (h', s') → load l h = Some a →
  ∃ a', load l h' = Some a' ∧ length a' = length a.
Proof.
  intros Hwf Ha Hl. unfold append in Ha.
  destruct xs as [|x xs']; [simplify_eq; eauto|].
  assert (∀ old n c, Some (regrow h old (x :: xs') n c) = Some (h', s') →
    ∃ a', load l h' = Some a' ∧ length a' = length a) as Hre.
  { unfold regrow. intros old n c [= <- _]. exists a. split; [|done]. rewrite <- Hl. apply load_alloc_ne.
    intros ->. by rewrite alloc_fresh in Hl. }
  destruct s as [sl|].
  - cbn [slice_len] in Ha. case_decide as Hn.
    + destruct (load (arr sl) h) as [a0|] eqn:Ea; cbn [mbind option_bind] in Ha; [|done].
      case_decide; [|done]. simplify_eq.
      destruct (decide (l = arr sl)) as [->|Hne].
      * rewrite load_write_eq. rewrite Ea in Hl. simplify_eq.
        eexists; split; [done|]. apply length_list_write. simpl in *. lia.
      * rewrite load_write_ne by done. eauto.
    + destruct (slice_view h (Some sl)); cbn [mbind option_bind] in Ha; [|done]. eauto.
  - cbn [slice_view mbind option_bind] in Ha. eauto.
Qed.

(** Whether a slice shows its elements depends only on the lengths of
    the arrays. *)
Lemma slice_view_lengths h h' s :
  (∀ l a, load l h = Some a → ∃ a', load l h' = Some a' ∧ length a' = length a) →
  is_Some (slice_view h s) → is_Some (slice_view h' s).
Proof.
  intros Hl [v Hv]. destruct s as [sl|]; [|done]. simpl in *.
  destruct (load (arr sl) h) as [a|] eqn:Ea; [|done]. destruct (Hl _ _ Ea) as (a' & -> & Hlen).
  cbn [mbind option_bind] in *. case_decide; [|done]. by rewrite decide_True by lia.
Qed.

End Slices.
