(* ===== verification/Base64.v ===== *)
(** * Base64: the Basic-Auth credentials on the wire

    [req.SetBasicAuth(user, pwd)] stores
    ["Basic " + base64.StdEncoding.EncodeToString([]byte(user + ":" + pwd))].
    This file models [EncodeToString] of Go's [encoding/base64] with the
    standard alphabet and padding (the loop of [Encoding.Encode], three
    bytes to four characters with shifts and masks, then the padded
    remainder), and a decoder of padded encodings: what
    [base64.StdEncoding.DecodeString] returns on them, as a server's
    [Request.BasicAuth] does.  The round trip [decode (encode bs) = bs]
    holds for every byte list. *)

From S2P Require Import Prelude.

Module base64.

Definition encodeStd : string :=
  "ABCDEFGHIJKLMNOPQRSTUVWXYZabcdefghijklmnopqrstuvwxyz0123456789+/".

Definition StdPadding : ascii := "=".

(** [enc.encode[v]] for a 6-bit index. *)
Definition enc (v : Z) : ascii :=
  match String.get (Z.to_nat v) encodeStd with Some c => c | None => StdPadding end.

(** The four characters of a 24-bit group: [encode[val>>18&0x3F]], ...,
    [encode[val&0x3F]]. *)
Definition enc_at (val k : Z) : ascii := enc (Z.land (Z.shiftr val k) 0x3F).

(** [Encoding.Encode]: groups of three bytes, then the remaining one or
    two bytes padded with ['=']. *)
Fixpoint encode (src : list Z) : string :=
  match src with
  | b0 :: b1 :: b2 :: rest =>
    let val := Z.lor (Z.lor (Z.shiftl b0 16) (Z.shiftl b1 8)) b2 in
    String (enc_at val 18) (String (enc_at val 12) (String (enc_at val 6)
      (String (enc_at val 0) (encode rest))))
  | [b0; b1] =>
    let val := Z.lor (Z.shiftl b0 16) (Z.shiftl b1 8) in
    String (enc_at val 18) (String (enc_at val 12) (String (enc_at val 6)
      (String StdPadding EmptyString)))
  | [b0] =>
    let val := Z.shiftl b0 16 in
    String (enc_at val 18) (String (enc_at val 12) (String StdPadding
      (String StdPadding EmptyString)))
  | [] => EmptyString
  end.

(** [base64.StdEncoding.EncodeToString]. *)
Definition EncodeToString (src : list Z) : string := encode src.

(** ** Decoding padded encodings *)

(** The index of a character in the alphabet. *)
Fixpoint index_of (c : ascii) (s : string) (i : Z) : option Z :=
  match s with
  | EmptyString => None
  | String c' s' => if ascii_dec c c' then Some i else index_of c s' (i + 1)
  end.

Definition dec (c : ascii) : option Z := index_of c encodeStd 0.

Definition quantum (d0 d1 d2 d3 : Z) : Z := d0 * 2 ^ 18 + d1 * 2 ^ 12 + d2 * 2 ^ 6 + d3.

(** Four characters to three bytes; ["xx=="] and ["xxx="] at the end. *)
Fixpoint decode (s : string) : option (list Z) :=
  match s with
  | EmptyString => Some []
  | String c0 (String c1 (String c2 (String c3 rest))) =>
    d0 ← dec c0; d1 ← dec c1;
    if Ascii.eqb c2 StdPadding then
      if Ascii.eqb c3 StdPadding && String.eqb rest "" then
        Some [quantum d0 d1 0 0 / 2 ^ 16]
      else None
    else
      d2 ← dec c2;
      if Ascii.eqb c3 StdPadding then
        if String.eqb rest "" then
          let v := quantum d0 d1 d2 0 in Some [v / 2 ^ 16; (v / 2 ^ 8) mod 2 ^ 8]
        else None
      else
        d3 ← dec c3;
        let v := quantum d0 d1 d2 d3 in
        bs ← decode rest;
        Some ([v / 2 ^ 16; (v / 2 ^ 8) mod 2 ^ 8; v mod 2 ^ 8] ++ bs)
  | _ => None
  end.

(** ** The round trip *)

Lemma dec_enc v : 0 <= v < 64 → dec (enc v) = Some v.
Proof.
  intros Hv. assert (∃ k : nat, v = Z.of_nat k ∧ (k < 64)%nat) as (k & -> & Hk)
    by (exists (Z.to_nat v); lia).
  do 64 (destruct k as [|k]; [reflexivity|]). lia.
Qed.

Lemma enc_not_pad v : 0 <= v < 64 → enc v ≠ StdPadding.
Proof.
  intros Hv. assert (∃ k : nat, v = Z.of_nat k ∧ (k < 64)%nat) as (k & -> & Hk)
    by (exists (Z.to_nat v); lia).
  do 64 (destruct k as [|k]; [discriminate|]). lia.
Qed.

(** The character at bit [k] of a 24-bit group is the 6-bit field there. *)
Lemma enc_at_field val k :
  0 <= k → enc_at val k = enc ((val / 2 ^ k) mod 64) ∧ 0 <= (val / 2 ^ k) mod 64 < 64.
Proof.
  intros Hk. unfold enc_at. change 0x3F with (Z.ones 6).
  rewrite shiftr_land_field by lia. split; [done|]. apply Z.mod_pos_bound. lia.
Qed.

Definition is_byte (b : Z) : Prop := 0 <= b < 256.

Lemma group3_val b0 b1 b2 :
  is_byte b1 → is_byte b2 →
  Z.lor (Z.lor (Z.shiftl b0 16) (Z.shiftl b1 8)) b2 = b0 * 2 ^ 16 + b1 * 2 ^ 8 + b2.
Proof.
  unfold is_byte. intros H1 H2.
  rewrite (Z.shiftl_mul_pow2 b1) by lia.
  rewrite lor_shiftl_add by lia.
  apply (lor_low_add _ _ 8); [lia | | lia].
  rewrite Z.add_mod, Z_mod_mult by lia. change (2 ^ 16) with (2 ^ 8 * 2 ^ 8).
  rewrite Z.mul_assoc, Z_mod_mult. reflexivity.
Qed.

(** The four 6-bit fields of a 24-bit value recompose it. *)
Lemma quantum_fields v :
  0 <= v < 2 ^ 24 →
  quantum ((v / 2 ^ 18) mod 64) ((v / 2 ^ 12) mod 64) ((v / 2 ^ 6) mod 64) ((v / 2 ^ 0) mod 64) = v.
Proof. intros H. unfold quantum. simpl (2 ^ _) in *. Z.div_mod_to_equations. lia. Qed.

(** The three bytes of a 24-bit group read back. *)
Lemma group_bytes b0 b1 b2 :
  is_byte b0 → is_byte b1 → is_byte b2 →
  let v := b0 * 2 ^ 16 + b1 * 2 ^ 8 + b2 in
  [v / 2 ^ 16; (v / 2 ^ 8) mod 2 ^ 8; v mod 2 ^ 8] = [b0; b1; b2].
Proof.
  unfold is_byte. intros. simpl (2 ^ _). repeat f_equal; Z.div_mod_to_equations; lia.
Qed.

Lemma eqb_enc_pad v : 0 <= v < 64 → Ascii.eqb (enc v) StdPadding = false.
Proof. intros Hv. apply Ascii.eqb_neq, enc_not_pad, Hv. Qed.

(** Shared by the three cases: name the 6-bit fields the characters
    encode, unfold the decoder once, and read the fields back. *)
Ltac b64_fields :=
  repeat match goal with
  | |- context [enc_at ?val ?k] =>
    let H := fresh "Hf" in
    destruct (enc_at_field val k ltac:(lia)) as [-> H]
  end;
  cbn [decode];
  repeat match goal with
  | H : 0 <= ?f < 64 |- context [dec (enc ?f)] => rewrite (dec_enc f H)
  | H : 0 <= ?f < 64 |- context [Ascii.eqb (enc ?f) StdPadding] => rewrite (eqb_enc_pad f H)
  end;
  cbn [mbind option_bind Ascii.eqb StdPadding andb String.eqb].

Lemma decode_encode_group3 b0 b1 b2 rest :
  Forall is_byte [b0; b1; b2] →
  decode (encode (b0 :: b1 :: b2 :: rest)) = (bs ← decode (encode rest); Some ([b0; b1; b2] ++ bs)).
Proof.
  intros Hb. apply Forall_cons in Hb as [Hb0 Hb]. apply Forall_cons in Hb as [Hb1 Hb].
  apply Forall_cons in Hb as [Hb2 _]. unfold is_byte in *.
  cbn [encode]. rewrite group3_val by done. b64_fields.
  destruct (decode (encode rest)); [|done]. cbn [mbind option_bind].
  rewrite quantum_fields by (simpl (2 ^ _); lia). by rewrite group_bytes.
Qed.

Lemma decode_encode_group2 b0 b1 :
  is_byte b0 → is_byte b1 → decode (encode [b0; b1]) = Some [b0; b1].
Proof.
  unfold is_byte. intros H0 H1. cbn [encode].
  rewrite (Z.shiftl_mul_pow2 b1), lor_shiftl_add by lia. b64_fields.
  unfold quantum. simpl (2 ^ _). repeat f_equal; Z.div_mod_to_equations; lia.
Qed.

Lemma decode_encode_group1 b0 : is_byte b0 → decode (encode [b0]) = Some [b0].
Proof.
  unfold is_byte. intros H0. cbn [encode].
  rewrite Z.shiftl_mul_pow2 by lia. b64_fields.
  unfold quantum. simpl (2 ^ _). repeat f_equal; Z.div_mod_to_equations; lia.
Qed.

(** Round trip: decoding the encoding of any byte string gives it back. *)
Theorem decode_encode src : Forall is_byte src → decode (EncodeToString src) = Some src.
Proof.
  unfold EncodeToString. intros Hall.
  remember (length src) as n eqn:Hn. revert src Hn Hall.
  induction n as [n IH] using (well_founded_induction lt_wf).
  intros [|b0 [|b1 [|b2 rest]]] Hn Hall; [done | | |].
  - inversion Hall. by apply decode_encode_group1.
  - inversion Hall as [|? ? ? Hall']. inversion Hall'. by apply decode_encode_group2.
  - assert (Forall is_byte [b0; b1; b2] ∧ Forall is_byte rest) as [H3 Hr]
      by (change (b0 :: b1 :: b2 :: rest) with ([b0; b1; b2] ++ rest) in Hall;
          by apply Forall_app in Hall).
    rewrite decode_encode_group3 by done.
    rewrite (IH (length rest)) by (simpl in Hn; lia || done). done.
Qed.

End base64.
