(* ===== verification/Json.v ===== *)
(** * [encoding/json]: the encoder of the 403 body and the decoder of the TLS policy

    [ForbiddenJSON] marshals a [map[string]interface{}] holding a string
    and a [[1]string]; [getTLSConfig] unmarshals the environment variable
    into a [tlsConfig].  This file models the parts of Go's
    [encoding/json] (Go 1.22) those two calls reach.

    - The encoder: [appendString] with HTML escaping (bytes below [0x20],
      the double quote, the backslash, ['<'], ['>'], ['&'] escaped, invalid UTF-8 replaced by
      [\ufffd], U+2028 and U+2029 escaped), arrays, and maps with their
      keys sorted; [Marshal] of a value it cannot encode is an error.
    - The decoder (further down): a scanner over the bytes with fuel
      bounded by the input length, giving a [json] value or a syntax
      error, and the rules of [Unmarshal] into a struct.

    The double quote character is built from its code ([dq]): a Rocq
    string literal cannot hold it without doubling it. *)

From S2P Require Import Prelude GoStrings.

Local Set Warnings "-register-all".

Module json.

(** The double quote, and the one-character strings. *)
Definition dq : ascii := ascii_of_nat 34.
Definition str1 (c : ascii) : string := String c EmptyString.

(** [hex] of [encode.go]. *)
Definition hex : string := "0123456789abcdef".

Definition hex_digit (v : Z) : ascii :=
  match String.get (Z.to_nat v) hex with Some c => c | None => "0"%char end.

(** [htmlSafeSet]: the ASCII bytes copied as they are when HTML is
    escaped: from [0x20] to [0x7F] except the double quote, the
    backslash, ['<'], ['>'] and ['&']. *)
Definition htmlSafe (b : Z) : bool :=
  (0x20 <=? b) && (b <? 0x80) && negb (existsb (Z.eqb b) [0x22; 0x5C; 0x3C; 0x3E; 0x26]).

(** The [switch] of [appendString] on an ASCII byte outside [htmlSafeSet]. *)
Definition escape_byte (b : Z) : string :=
  if (b =? 0x5C) || (b =? 0x22) then String "\" (str1 (chr b))
  else if b =? 0x08 then "\b"
  else if b =? 0x0C then "\f"
  else if b =? 0x0A then "\n"
  else if b =? 0x0D then "\r"
  else if b =? 0x09 then "\t"
  else "\u00" +:+ String (hex_digit (Z.shiftr b 4)) (str1 (hex_digit (Z.land b 0xF))).

(** The loop of [appendString], one step per ASCII byte or UTF-8
    sequence; each step consumes at least one byte, so the length of the
    input is enough fuel. *)
Fixpoint string_body (fuel : nat) (s : string) : string :=
  match fuel with
  | O => EmptyString
  | S fuel' =>
    match s with
    | EmptyString => EmptyString
    | String c s' =>
      let b := bv c in
      if b <? utf8.RuneSelf then
        (if htmlSafe b then str1 c else escape_byte b) +:+ string_body fuel' s'
      else
        let '(r, size) := utf8.DecodeRuneInString s in
        if (r =? utf8.RuneError) && (size =? 1)%nat then "\ufffd" +:+ string_body fuel' s'
        else if (r =? 0x2028) || (r =? 0x2029) then
          ("\u202" +:+ str1 (hex_digit (Z.land r 0xF))) +:+ string_body fuel' (sdrop size s)
        else stake size s +:+ string_body fuel' (sdrop size s)
    end
  end.

(** [appendString(dst, s, true)]: the quoted, escaped string. *)
Definition appendString (s : string) : string :=
  str1 dq +:+ string_body (String.length s) s +:+ str1 dq.

(** The Go values [ForbiddenJSON] can hand to [Marshal]: strings, arrays
    and slices, [map[string]...], and values the encoder refuses
    (channels, functions, complex numbers: [UnsupportedTypeError]). *)
Inductive goval :=
  | GString (s : string)
  | GArray (xs : list goval)
  | GMap (kvs : list (string * goval))
  | GUnsupported (type_name : string).

Inductive MarshalError := UnsupportedTypeError (type_name : string).

(** [strings.Join(xs, ",")]. *)
Fixpoint join_comma (xs : list string) : string :=
  match xs with
  | [] => EmptyString
  | [x] => x
  | x :: xs' => x +:+ "," +:+ join_comma xs'
  end.

(** Insertion of an encoded entry by its key, in byte order. *)
Fixpoint insert_entry (kv : string * string) (kvs : list (string * string)) : list (string * string) :=
  match kvs with
  | [] => [kv]
  | kv' :: kvs' => if String.ltb kv'.1 kv.1 then kv' :: insert_entry kv kvs' else kv :: kv' :: kvs'
  end.

(** [mapEncoder]: the keys sorted ([slices.SortFunc] by
    [strings.Compare]). *)
Definition sort_entries (kvs : list (string * string)) : list (string * string) :=
  fold_right insert_entry [] kvs.

(** The encoding of a list of values, stopping at the first error. *)
Fixpoint all_ok (rs : list (result MarshalError string)) : result MarshalError (list string) :=
  match rs with
  | [] => Ok []
  | Ok x :: rs' => xs ← all_ok rs'; Ok (x :: xs)
  | Err e :: _ => Err e
  end.

(** [Marshal] with HTML escaping, as [encodeState.marshal] does it. *)
Fixpoint marshal (v : goval) : result MarshalError string :=
  match v with
  | GString s => Ok (appendString s)
  | GArray xs =>
    es ← all_ok (map marshal xs); Ok ("[" +:+ join_comma es +:+ "]")
  | GMap kvs =>
    es ← all_ok (map (λ kv, e ← marshal kv.2; Ok (appendString kv.1 +:+ ":" +:+ e)) kvs);
    let ks := map (λ kv, kv.1) kvs in
    Ok ("{" +:+ join_comma (map snd (sort_entries (zip ks es))) +:+ "}")
  | GUnsupported t => Err (UnsupportedTypeError t)
  end.

(** [json.Marshal]. *)
Definition Marshal (v : goval) : result MarshalError string := marshal v.

(** A byte that may appear in JSON served to a browser: no control
    byte, no ['<'], ['>'] or ['&']. *)
Definition html_safe_byte (b : Z) : Prop := 0x20 <= b ∧ b ≠ 0x3C ∧ b ≠ 0x3E ∧ b ≠ 0x26.

(** ** The escaping of strings *)

(** A literal byte is safe. *)
Ltac safe_lit := unfold html_safe_byte, bv; simpl; lia.
Lemma hex_digit_safe v : html_safe_byte (bv (hex_digit v)).
Proof.
  unfold hex_digit. destruct (String.get _ hex) as [c|] eqn:Hc; [|safe_lit].
  revert Hc. generalize (Z.to_nat v) as k. intros k.
  do 16 (destruct k as [|k]; [intros [= <-]; safe_lit|]). by destruct k.
Qed.
Lemma escape_byte_safe b : Forall html_safe_byte (bytes (escape_byte b)).
Proof.
  unfold escape_byte.
  destruct ((b =? 0x5C) || (b =? 0x22))%bool eqn:E.
  - cbn [bytes str1]. rewrite bv_chr by (apply orb_true_iff in E as [E|E]; apply Z.eqb_eq in E; lia).
    repeat constructor; (safe_lit) || (apply orb_true_iff in E as [E|E]; apply Z.eqb_eq in E; lia).
  - repeat case_match; rewrite ?bytes_app; repeat (apply Forall_app_2 || apply Forall_cons_2);
      try apply Forall_nil_2; try apply hex_digit_safe; safe_lit.
Qed.
Lemma htmlSafe_safe b : htmlSafe b = true → html_safe_byte b.
Proof.
  unfold htmlSafe. intros H. apply andb_prop in H as [H H3]. apply andb_prop in H as [H1 H2].
  apply Z.leb_le in H1. apply negb_true_iff in H3. cbn in H3.
  repeat (apply orb_false_iff in H3 as [? H3]). unfold html_safe_byte.
  repeat match goal with H : (_ =? _) = false |- _ => apply Z.eqb_neq in H end. lia.
Qed.

Lemma first_range p0 sz lo hi :
  utf8.first p0 = Some (sz, lo, hi) → 0x80 <= lo ∧ hi <= 0xBF.
Proof. unfold utf8.first. repeat case_match; intros; simplify_eq; lia. Qed.
(** Close a case of [DecodeRuneInString]: its span is the bytes read. *)
Ltac fin := simplify_eq; cbn [stake bytes]; repeat (apply Forall_cons_2; [lia|]); apply Forall_nil_2.
(** The bytes a step of [DecodeRuneInString] spans, from a non-ASCII lead
    byte, are all non-ASCII. *)
Lemma DecodeRune_span_high c s r size :
  0x80 <= bv c → utf8.DecodeRuneInString (String c s) = (r, size) →
  Forall (λ b, 0x80 <= b) (bytes (stake size (String c s))).
Proof.
  intros Hc Hd. unfold utf8.DecodeRuneInString, utf8.RuneSelf, utf8.is_cont in Hd.
  rewrite (proj2 (Z.ltb_ge _ _) Hc) in Hd.
  destruct (utf8.first (bv c)) as [[[sz lo] hi]|] eqn:Hf.
  2: fin.
  apply first_range in Hf as Hlh.
  destruct s as [|c1 s1]; [fin|].
  destruct ((bv c1 <? lo) || (hi <? bv c1))%bool eqn:E1; [fin|].
  apply orb_false_iff in E1 as [E1 E1']. apply Z.ltb_ge in E1, E1'.
  destruct (sz =? 2)%nat; [fin|].
  destruct s1 as [|c2 s2]; [fin|].
  destruct (negb _) eqn:E2; [fin|]. apply negb_false_iff, andb_prop in E2 as [E2 E2'].
  apply Z.leb_le in E2, E2'.
  destruct (sz =? 3)%nat; [fin|].
  destruct s2 as [|c3 s3]; [fin|].
  destruct (negb _) eqn:E3; [fin|]. apply negb_false_iff, andb_prop in E3 as [E3 E3'].
  apply Z.leb_le in E3, E3'. fin.
Qed.

(** Every byte of the escaped string is safe, whatever the input,
    invalid UTF-8 included. *)
Lemma string_body_safe fuel s : Forall html_safe_byte (bytes (string_body fuel s)).
Proof.
  revert s. induction fuel as [|fuel IH]; intros s; [constructor|].
  destruct s as [|c s']; [constructor|]. cbn [string_body].
  destruct (bv c <? utf8.RuneSelf) eqn:Ha.
  - rewrite bytes_app. apply Forall_app_2; [|apply IH].
    destruct (htmlSafe (bv c)) eqn:Hs; [|apply escape_byte_safe].
    constructor; [by apply htmlSafe_safe | constructor].
  - destruct (utf8.DecodeRuneInString (String c s')) as [r size] eqn:Hd.
    repeat case_match; rewrite !bytes_app; repeat apply Forall_app_2; try apply IH;
      try (repeat (apply Forall_cons_2; [safe_lit|]); apply Forall_nil_2).
    + cbn [bytes str1]. constructor; [apply hex_digit_safe | constructor].
    + eapply Forall_impl; [eapply DecodeRune_span_high; [|exact Hd]|].
      * unfold utf8.RuneSelf in Ha. apply Z.ltb_ge in Ha. lia.
      * unfold html_safe_byte. intros; lia.
Qed.

Lemma appendString_safe s : Forall html_safe_byte (bytes (appendString s)).
Proof.
  unfold appendString. rewrite !bytes_app. repeat apply Forall_app_2; try apply string_body_safe;
    cbn [bytes str1 dq]; repeat (apply Forall_cons_2; [safe_lit|]); apply Forall_nil_2.
Qed.

End json.
