(* ===== verification/JsonDecode.v ===== *)
(** * [encoding/json] decoding: the scanner, the literals and the value tree

    [getTLSConfig] hands the environment variable to [json.Unmarshal].
    [Unmarshal] first runs [checkValid]: the scanner of [scanner.go]
    over every byte, then its [eof]; a syntax error anywhere fails the
    call before anything is stored.  This file translates that scanner
    (Go 1.22) state for state: each [state*] function of the source is a
    constructor of [stepfn] and a case of [step]; the parse stack,
    [endTop], the error and the byte count are the fields of [scanner].
    The scanner runs by structural recursion over the bytes.

    The decoder of [decode.go] walks the same bytes again with the same
    scanner, driven by its op codes; here that walk is [build]: the op
    codes of the scanner, fed to a stack of open arrays and objects, give
    the tree of the document ([jvalue]), its string literals unquoted
    by [unquote] ([unquoteBytes] of [decode.go]).  Storing the tree into
    a Go value is in [TlsConfig.v].

    Not modelled: the text of a syntax error's message (its offending
    byte, context and offset are kept), and number conversion (the
    target struct has no numeric field: a number is only ever a type
    error). *)

From S2P Require Import Prelude GoStrings Json.

Local Set Warnings "-register-all".

Module scanner.

(** The op codes [step] returns. *)
Inductive scanop :=
  | scanContinue | scanBeginLiteral | scanBeginObject | scanObjectKey
  | scanObjectValue | scanEndObject | scanBeginArray | scanArrayValue
  | scanEndArray | scanSkipSpace | scanEnd | scanError.

(** The entries of the parse stack. *)
Inductive parse := parseObjectKey | parseObjectValue | parseArrayValue.

(** The step functions of the scanner. *)
Inductive stepfn :=
  | stateBeginValueOrEmpty | stateBeginValue | stateBeginStringOrEmpty | stateBeginString
  | stateEndValue | stateEndTop
  | stateInString | stateInStringEsc | stateInStringEscU | stateInStringEscU1
  | stateInStringEscU12 | stateInStringEscU123
  | stateNeg | state1 | state0 | stateDot | stateDot0 | stateE | stateESign | stateE0
  | stateT | stateTr | stateTru | stateF | stateFa | stateFal | stateFals
  | stateN | stateNu | stateNul | stateError.

(** [SyntaxError]: the offending byte ([None] at the end of the input),
    the context of the message, and the offset. *)
Record SyntaxError := mkSyntaxError { char : option Z; context : string; Offset : Z }.

Definition maxNestingDepth : Z := 10000.

(** The scanner; the parse stack has its top at the head. *)
Record scanner := mk {
  step : stepfn;
  endTop : bool;
  parseState : list parse;
  err : option SyntaxError;
  bytes : Z }.

Definition set_step (f : stepfn) (s : scanner) : scanner :=
  mk f (endTop s) (parseState s) (err s) (bytes s).
Definition set_parseState (ps : list parse) (s : scanner) : scanner :=
  mk (step s) (endTop s) ps (err s) (bytes s).

(** [reset]. *)
Definition reset : scanner := mk stateBeginValue false [] None 0.

(** [s.error(c, context)]. *)
Definition error (s : scanner) (c : Z) (context : string) : scanop * scanner :=
  (scanError, mk stateError (endTop s) (parseState s)
                 (Some (mkSyntaxError (Some c) context (bytes s))) (bytes s)).

(** [isSpace]: the four white-space bytes of JSON. *)
Definition isSpace (c : Z) : bool := (c =? 0x20) || (c =? 0x09) || (c =? 0x0D) || (c =? 0x0A).

Definition is_digit (c : Z) : bool := (0x30 <=? c) && (c <=? 0x39).
Definition is_hex (c : Z) : bool :=
  is_digit c || ((0x61 <=? c) && (c <=? 0x66)) || ((0x41 <=? c) && (c <=? 0x46)).

(** [pushParseState]. *)
Definition pushParseState (s : scanner) (c : Z) (newParseState : parse) (successState : scanop)
    : scanop * scanner :=
  let s := set_parseState (newParseState :: parseState s) s in
  if Z.of_nat (length (parseState s)) <=? maxNestingDepth then (successState, s)
  else error s c "exceeded max depth".

(** [popParseState]. *)
Definition popParseState (s : scanner) : scanner :=
  match parseState s with
  | [] | [_] => mk stateEndTop true [] (err s) (bytes s)
  | _ :: ps => mk stateEndValue (endTop s) ps (err s) (bytes s)
  end.

(** [stateEndTop]. *)
Definition EndTop (s : scanner) (c : Z) : scanop * scanner :=
  if negb (isSpace c) then (scanEnd, snd (error s c "after top-level value")) else (scanEnd, s).

(** [stateEndValue]. *)
Definition EndValue (s : scanner) (c : Z) : scanop * scanner :=
  match parseState s with
  | [] => EndTop (mk stateEndTop true [] (err s) (bytes s)) c
  | ps :: rest =>
    if isSpace c then (scanSkipSpace, set_step stateEndValue s)
    else match ps with
    | parseObjectKey =>
      if c =? 0x3A then (scanObjectKey, set_step stateBeginValue (set_parseState (parseObjectValue :: rest) s))
      else error s c "after object key"
    | parseObjectValue =>
      if c =? 0x2C then (scanObjectValue, set_step stateBeginString (set_parseState (parseObjectKey :: rest) s))
      else if c =? 0x7D then (scanEndObject, popParseState s)
      else error s c "after object key:value pair"
    | parseArrayValue =>
      if c =? 0x2C then (scanArrayValue, set_step stateBeginValue s)
      else if c =? 0x5D then (scanEndArray, popParseState s)
      else error s c "after array element"
    end
  end.

(** [stateBeginValue]. *)
Definition BeginValue (s : scanner) (c : Z) : scanop * scanner :=
  if isSpace c then (scanSkipSpace, s)
  else if c =? 0x7B then pushParseState (set_step stateBeginStringOrEmpty s) c parseObjectKey scanBeginObject
  else if c =? 0x5B then pushParseState (set_step stateBeginValueOrEmpty s) c parseArrayValue scanBeginArray
  else if c =? 0x22 then (scanBeginLiteral, set_step stateInString s)
  else if c =? 0x2D then (scanBeginLiteral, set_step stateNeg s)
  else if c =? 0x30 then (scanBeginLiteral, set_step state0 s)
  else if c =? 0x74 then (scanBeginLiteral, set_step stateT s)
  else if c =? 0x66 then (scanBeginLiteral, set_step stateF s)
  else if c =? 0x6E then (scanBeginLiteral, set_step stateN s)
  else if (0x31 <=? c) && (c <=? 0x39) then (scanBeginLiteral, set_step state1 s)
  else error s c "looking for beginning of value".

(** [stateBeginString]. *)
Definition BeginString (s : scanner) (c : Z) : scanop * scanner :=
  if isSpace c then (scanSkipSpace, s)
  else if c =? 0x22 then (scanBeginLiteral, set_step stateInString s)
  else error s c "looking for beginning of object key string".

(** [stateBeginStringOrEmpty]: on ['}'] the top of the stack becomes
    [parseObjectValue] before [stateEndValue] runs. *)
Definition BeginStringOrEmpty (s : scanner) (c : Z) : scanop * scanner :=
  if isSpace c then (scanSkipSpace, s)
  else if c =? 0x7D then EndValue (set_parseState (parseObjectValue :: tail (parseState s)) s) c
  else BeginString s c.

(** [state0], [state1], [stateDot0], [stateE0], [stateESign], [stateE]. *)
Definition Zero (s : scanner) (c : Z) : scanop * scanner :=
  if c =? 0x2E then (scanContinue, set_step stateDot s)
  else if (c =? 0x65) || (c =? 0x45) then (scanContinue, set_step stateE s)
  else EndValue s c.

Definition ESign (s : scanner) (c : Z) : scanop * scanner :=
  if is_digit c then (scanContinue, set_step stateE0 s)
  else error s c "in exponent of numeric literal".

(** A byte that must be [expected] to go on to [next]. *)
Definition expect (s : scanner) (c expected : Z) (next : stepfn) (context : string) : scanop * scanner :=
  if c =? expected then (scanContinue, set_step next s) else error s c context.

(** [s.step(s, c)]. *)
Definition step_fn (s : scanner) (c : Z) : scanop * scanner :=
  match step s with
  | stateBeginValueOrEmpty =>
    if isSpace c then (scanSkipSpace, s) else if c =? 0x5D then EndValue s c else BeginValue s c
  | stateBeginValue => BeginValue s c
  | stateBeginStringOrEmpty => BeginStringOrEmpty s c
  | stateBeginString => BeginString s c
  | stateEndValue => EndValue s c
  | stateEndTop => EndTop s c
  | stateInString =>
    if c =? 0x22 then (scanContinue, set_step stateEndValue s)
    else if c =? 0x5C then (scanContinue, set_step stateInStringEsc s)
    else if c <? 0x20 then error s c "in string literal"
    else (scanContinue, s)
  | stateInStringEsc =>
    if existsb (Z.eqb c) [0x62; 0x66; 0x6E; 0x72; 0x74; 0x5C; 0x2F; 0x22] then
      (scanContinue, set_step stateInString s)
    else if c =? 0x75 then (scanContinue, set_step stateInStringEscU s)
    else error s c "in string escape code"
  | stateInStringEscU =>
    if is_hex c then (scanContinue, set_step stateInStringEscU1 s) else error s c "in \u hexadecimal character escape"
  | stateInStringEscU1 =>
    if is_hex c then (scanContinue, set_step stateInStringEscU12 s) else error s c "in \u hexadecimal character escape"
  | stateInStringEscU12 =>
    if is_hex c then (scanContinue, set_step stateInStringEscU123 s) else error s c "in \u hexadecimal character escape"
  | stateInStringEscU123 =>
    if is_hex c then (scanContinue, set_step stateInString s) else error s c "in \u hexadecimal character escape"
  | stateNeg =>
    if c =? 0x30 then (scanContinue, set_step state0 s)
    else if (0x31 <=? c) && (c <=? 0x39) then (scanContinue, set_step state1 s)
    else error s c "in numeric literal"
  | state1 => if is_digit c then (scanContinue, set_step state1 s) else Zero s c
  | state0 => Zero s c
  | stateDot =>
    if is_digit c then (scanContinue, set_step stateDot0 s)
    else error s c "after decimal point in numeric literal"
  | stateDot0 =>
    if is_digit c then (scanContinue, s)
    else if (c =? 0x65) || (c =? 0x45) then (scanContinue, set_step stateE s)
    else EndValue s c
  | stateE => if (c =? 0x2B) || (c =? 0x2D) then (scanContinue, set_step stateESign s) else ESign s c
  | stateESign => ESign s c
  | stateE0 => if is_digit c then (scanContinue, s) else EndValue s c
  | stateT => expect s c 0x72 stateTr "in literal true (expecting 'r')"
  | stateTr => expect s c 0x75 stateTru "in literal true (expecting 'u')"
  | stateTru => expect s c 0x65 stateEndValue "in literal true (expecting 'e')"
  | stateF => expect s c 0x61 stateFa "in literal false (expecting 'a')"
  | stateFa => expect s c 0x6C stateFal "in literal false (expecting 'l')"
  | stateFal => expect s c 0x73 stateFals "in literal false (expecting 's')"
  | stateFals => expect s c 0x65 stateEndValue "in literal false (expecting 'e')"
  | stateN => expect s c 0x75 stateNu "in literal null (expecting 'u')"
  | stateNu => expect s c 0x6C stateNul "in literal null (expecting 'l')"
  | stateNul => expect s c 0x6C stateEndValue "in literal null (expecting 'l')"
  | stateError => (scanError, s)
  end.

(** One byte of [checkValid]'s loop: count it, then step. *)
Definition feed (s : scanner) (c : Z) : scanop * scanner :=
  step_fn (mk (step s) (endTop s) (parseState s) (err s) (bytes s + 1)) c.

(** [s.eof()]. *)
Definition eof (s : scanner) : scanop * scanner :=
  match err s with
  | Some _ => (scanError, s)
  | None =>
    if endTop s then (scanEnd, s)
    else let s := snd (step_fn s 0x20) in
    if endTop s then (scanEnd, s)
    else match err s with
    | Some _ => (scanError, s)
    | None => (scanError, mk (step s) (endTop s) (parseState s)
                 (Some (mkSyntaxError None "unexpected end of JSON input" (bytes s))) (bytes s))
    end
  end.

(** The loop of [checkValid] from a scanner state: the op codes of the
    bytes read, stopping at the first [scanError]. *)
Fixpoint run (s : scanner) (data : list Z) : list (Z * scanop) * scanner :=
  match data with
  | [] => ([], s)
  | c :: data' =>
    let '(op, s') := feed s c in
    match op with
    | scanError => ([(c, op)], s')
    | _ => let '(ops, s'') := run s' data' in ((c, op) :: ops, s'')
    end
  end.

(** [checkValid]. *)
Definition checkValid (data : list Z) : option SyntaxError :=
  let '(ops, s) := run reset data in
  match err s with
  | Some e => Some e
  | None => match eof s with (scanError, s') => err s' | _ => None end
  end.

End scanner.

Module decode.
Import scanner.

(** ** [unquoteBytes] *)

(** [getu4]: the rune of a [\uXXXX] escape at the head, or [-1]. *)
Definition hexval (c : Z) : Z :=
  if is_digit c then c - 0x30
  else if (0x61 <=? c) && (c <=? 0x66) then c - 0x61 + 10
  else if (0x41 <=? c) && (c <=? 0x46) then c - 0x41 + 10
  else -1.

Definition getu4 (s : list Z) : Z :=
  match s with
  | b0 :: b1 :: h1 :: h2 :: h3 :: h4 :: _ =>
    if negb ((b0 =? 0x5C) && (b1 =? 0x75)) then -1
    else if existsb (λ h, hexval h <? 0) [h1; h2; h3; h4] then -1
    else ((hexval h1 * 16 + hexval h2) * 16 + hexval h3) * 16 + hexval h4
  | _ => -1
  end.

(** [utf16.IsSurrogate] and [utf16.DecodeRune]. *)
Definition IsSurrogate (r : Z) : bool := (0xD800 <=? r) && (r <? 0xE000).

Definition DecodeRune16 (r1 r2 : Z) : Z :=
  if (0xD800 <=? r1) && (r1 <? 0xDC00) && (0xDC00 <=? r2) && (r2 <? 0xE000) then
    Z.lor (Z.shiftl (r1 - 0xD800) 10) (r2 - 0xDC00) + 0x10000
  else utf8.RuneError.

(** [utf8.DecodeRune] on bytes. *)
Definition DecodeRune (s : list Z) : Z * nat := utf8.DecodeRuneInString (strings.string_of_bytes s).

(** The byte an escape [\e] stands for, for the one-byte escapes. *)
Definition simple_escape (e : Z) : option Z :=
  if (e =? 0x22) || (e =? 0x5C) || (e =? 0x2F) || (e =? 0x27) then Some e
  else if e =? 0x62 then Some 0x08
  else if e =? 0x66 then Some 0x0C
  else if e =? 0x6E then Some 0x0A
  else if e =? 0x72 then Some 0x0D
  else if e =? 0x74 then Some 0x09
  else None.

(** The loop of [unquoteBytes] over the bytes between the quotes; each
    round consumes at least one byte, so one more than the length is
    enough fuel. *)
Fixpoint unquote_loop (fuel : nat) (s : list Z) : option (list Z) :=
  match fuel with
  | O => None
  | S fuel' =>
    match s with
    | [] => Some []
    | c :: s' =>
      if c =? 0x5C then
        match s' with
        | [] => None
        | e :: s'' =>
          match simple_escape e with
          | Some b => cons b <$> unquote_loop fuel' s''
          | None =>
            if negb (e =? 0x75) then None
            else
              let rr := getu4 s in
              if rr <? 0 then None
              else let s6 := drop 6 s in
              if IsSurrogate rr then
                let dec := DecodeRune16 rr (getu4 s6) in
                if negb (dec =? utf8.RuneError) then app (utf8.EncodeRune dec) <$> unquote_loop fuel' (drop 6 s6)
                else app (utf8.EncodeRune utf8.RuneError) <$> unquote_loop fuel' s6
              else app (utf8.EncodeRune rr) <$> unquote_loop fuel' s6
          end
        end
      else if (c =? 0x22) || (c <? 0x20) then None
      else if c <? utf8.RuneSelf then cons c <$> unquote_loop fuel' s'
      else
        let '(rr, size) := DecodeRune s in
        app (utf8.EncodeRune rr) <$> unquote_loop fuel' (drop size s)
    end
  end.

(** [unquoteBytes]: the literal with its quotes. *)
Definition unquoteBytes (s : list Z) : option (list Z) :=
  match s with
  | 0x22 :: s' =>
    match last s' with
    | Some 0x22 => let body := removelast s' in unquote_loop (S (length body)) body
    | _ => None
    end
  | _ => None
  end.

(** ** The tree of a document *)

Inductive jvalue :=
  | JNull
  | JBool (b : bool)
  | JNumber (literal : list Z)
  | JString (s : list Z)
  | JArray (xs : list jvalue)
  | JObject (kvs : list (list Z * jvalue)).

(** The dispatch of [literalStore] on the first byte of a literal. *)
Definition literal (item : list Z) : option jvalue :=
  match item with
  | [] => None
  | c :: _ =>
    if c =? 0x6E then Some JNull
    else if (c =? 0x74) || (c =? 0x66) then Some (JBool (c =? 0x74))
    else if c =? 0x22 then JString <$> unquoteBytes item
    else if (c =? 0x2D) || is_digit c then Some (JNumber item)
    else None
  end.

(** ** The walk of [decode.go] over the op codes

    An open array holds its elements so far, an open object its members
    so far and the key read last.  [lit] is the literal being read (its
    bytes in reverse order); [last] is the value completed last, waiting
    for the op code that places it.  A literal ends at the first op code
    other than [scanContinue], as [rescanLiteral] finds it. *)
Inductive frame :=
  | FArray (elems : list jvalue)
  | FObject (members : list (list Z * jvalue)) (key : option (list Z)).

Record builder := mkBuilder { stack : list frame; lit : option (list Z); last : option jvalue }.

(** Close the literal being read, if any. *)
Definition close_lit (b : builder) : option builder :=
  match lit b with
  | None => Some b
  | Some rev_item => v ← literal (rev rev_item); Some (mkBuilder (stack b) None (Some v))
  end.

(** Place the completed value into the innermost open array or object. *)
Definition place (b : builder) : option builder :=
  match stack b, last b with
  | FArray es :: st, Some v => Some (mkBuilder (FArray (v :: es) :: st) None None)
  | FObject ms (Some k) :: st, Some v => Some (mkBuilder (FObject ((k, v) :: ms) None :: st) None None)
  | _, None => Some b
  | _, _ => None
  end.

(** Close the innermost array or object. *)
Definition close_frame (b : builder) : option builder :=
  match stack b with
  | FArray es :: st => Some (mkBuilder st None (Some (JArray (rev es))))
  | FObject ms None :: st => Some (mkBuilder st None (Some (JObject (rev ms))))
  | _ => None
  end.

(** One byte with its op code. *)
Definition build_step (b : builder) (c : Z) (op : scanop) : option builder :=
  match op with
  | scanContinue =>
    match lit b with Some l => Some (mkBuilder (stack b) (Some (c :: l)) (last b)) | None => Some b end
  | _ =>
    b ← close_lit b;
    match op with
    | scanBeginLiteral => Some (mkBuilder (stack b) (Some [c]) (last b))
    | scanBeginObject => Some (mkBuilder (FObject [] None :: stack b) None None)
    | scanBeginArray => Some (mkBuilder (FArray [] :: stack b) None None)
    | scanObjectKey =>
      match stack b, last b with
      | FObject ms None :: st, Some (JString k) => Some (mkBuilder (FObject ms (Some k) :: st) None None)
      | _, _ => None
      end
    | scanObjectValue | scanArrayValue => place b
    | scanEndObject | scanEndArray => place b ≫= close_frame
    | _ => Some b
    end
  end.

Fixpoint build (b : builder) (ops : list (Z * scanop)) : option builder :=
  match ops with
  | [] => Some b
  | (c, op) :: ops' => b' ← build_step b c op; build b' ops'
  end.

(** The document a checked input holds: the walk over its op codes,
    with the literal that runs to the end of the input closed last. *)
Definition document (data : list Z) : option jvalue :=
  let '(ops, _) := run reset data in
  b ← build (mkBuilder [] None None) ops;
  b ← close_lit b;
  match stack b with [] => last b | _ => None end.

(** ** Reading back what the encoder writes *)

(** The op codes of bytes inside a literal, and the scanner moved on by
    [n] bytes. *)
Definition conts (l : list Z) : list (Z * scanop) := map (λ c, (c, scanContinue)) l.
Definition bump (n : Z) (s : scanner) : scanner := mk (step s) (endTop s) (parseState s) (err s) (bytes s + n).

Lemma DecodeRune_size_pos c s : (1 ≤ snd (DecodeRune (c :: s)))%nat.
Proof. apply GoStringsFacts.DecodeRuneInString_size_pos. Qed.

(** [unquote_loop] terminates within its fuel: any fuel above the
    length of the input gives the same result as one more than the
    length, the fuel [unquoteBytes] passes; the fuel never runs out. *)
Theorem unquote_loop_fuel (n m : nat) s :
  (length s < n)%nat → (n ≤ m)%nat → unquote_loop n s = unquote_loop m s.
Proof.
  revert m s. induction n as [|n IH]; intros m s Hs Hm; [lia|].
  destruct m as [|m]; [lia|]. destruct s as [|c s']; [done|]. cbn [unquote_loop].
  pose proof (DecodeRune_size_pos c s').
  repeat case_match; simplify_eq/=; try done; f_equal; apply IH; try lia;
    rewrite ?length_drop; cbn in *; lia.
Qed.

Lemma run_app s a b ops s' :
  run s a = (ops, s') → Forall (λ x, x.2 ≠ scanError) ops →
  run s (a ++ b) = (ops ++ (run s' b).1, (run s' b).2).
Proof.
  revert s ops. induction a as [|c a IH]; intros s ops Hr Hok; cbn in *.
  - injection Hr as H1 H2. subst. match goal with |- context [run ?x b] => by destruct (run x b) end.
  - destruct (feed s c) as [op s1]. destruct op;
      try (destruct (run s1 a) as [ops1 s2] eqn:E; injection Hr as H1 H2; subst;
           apply Forall_cons in Hok as [_ Hok]; rewrite (IH _ _ E Hok); by destruct (run s' b)).
    injection Hr as H1 H2; subst. by inversion Hok.
Qed.

Lemma bump_bump m n s : bump m (bump n s) = bump (n + m) s.
Proof. unfold bump. cbn. f_equal. lia. Qed.

Lemma run_safe b s : json.htmlSafe b = true → step s = stateInString →
  run s [b] = (conts [b], bump 1 s).
Proof.
  intros Hb Hs. destruct s as [st et ps er bc]; cbn in Hs; subst st.
  unfold json.htmlSafe in Hb. apply andb_prop in Hb as [Hb H3]. apply andb_prop in Hb as [H1 H2].
  apply negb_true_iff in H3. cbn in H3. repeat (apply orb_false_iff in H3 as [? H3]).
  cbn. rewrite H, H0. apply Z.leb_le in H1. rewrite (proj2 (Z.ltb_ge b 0x20)) by lia. done.
Qed.

(** Case analysis on an ASCII byte, as a number below 128. *)
Lemma ascii_cases b : 0 <= b < 0x80 → ∃ k : nat, (k < 128)%nat ∧ b = Z.of_nat k.
Proof. intros Hb. exists (Z.to_nat b). lia. Qed.

Ltac enum_ascii H tac :=
  let k := fresh "k" in let Hk := fresh "Hk" in
  destruct (ascii_cases _ H) as (k & Hk & ->);
  do 128 (destruct k as [|k]; [tac|]); lia.

Lemma run_escape b s : 0 <= b < 0x80 → json.htmlSafe b = false → step s = stateInString →
  run s (Prelude.bytes (json.escape_byte b)) =
    (conts (Prelude.bytes (json.escape_byte b)), bump (Z.of_nat (length (Prelude.bytes (json.escape_byte b)))) s).
Proof.
  intros Hb Hh Hs. destruct s as [st et ps er bc]; cbn in Hs; subst st.
  enum_ascii Hb ltac:(vm_compute in Hh; try discriminate; cbv -[Z.add]; f_equal; try reflexivity; f_equal; lia).
Qed.

Lemma conts_ok l : Forall (λ x : Z * scanop, x.2 ≠ scanError) (conts l).
Proof. induction l; by constructor. Qed.

Lemma run_conts s a b :
  run s a = (conts a, bump (Z.of_nat (length a)) s) →
  run (bump (Z.of_nat (length a)) s) b = (conts b, bump (Z.of_nat (length b)) (bump (Z.of_nat (length a)) s)) →
  run s (a ++ b) = (conts (a ++ b), bump (Z.of_nat (length (a ++ b))) s).
Proof.
  intros Ha Hb. rewrite (run_app _ _ _ _ _ Ha (conts_ok a)), Hb. cbn.
  unfold conts. rewrite map_app, bump_bump, length_app. do 3 f_equal. lia.
Qed.

(** The scanner reads the escaped bytes of an ASCII string inside the
    string literal: every byte continues it. *)
Lemma run_string_body p s :
  Forall (λ b, b < 0x80) (Prelude.bytes p) → step s = stateInString →
  run s (Prelude.bytes (json.string_body (String.length p) p)) =
    (conts (Prelude.bytes (json.string_body (String.length p) p)),
     bump (Z.of_nat (length (Prelude.bytes (json.string_body (String.length p) p)))) s).
Proof.
  revert s. induction p as [|c p IH]; intros s Hp Hs.
  - cbn. destruct s; cbn in *. unfold bump. cbn. do 2 f_equal. lia.
  - cbn [Prelude.bytes] in Hp. apply Forall_cons in Hp as [Hc Hp].
    cbn [String.length json.string_body]. rewrite (proj2 (Z.ltb_lt (bv c) utf8.RuneSelf) Hc). rewrite bytes_app.
    pose proof (bv_range c).
    apply run_conts; [|apply IH; [done|by destruct s]].
    destruct (json.htmlSafe (bv c)) eqn:Hh.
    + by apply run_safe.
    + apply run_escape; [lia|done|done].
Qed.

Lemma unquote_safe b n rest : json.htmlSafe b = true →
  unquote_loop (S n) (b :: rest) = cons b <$> unquote_loop n rest.
Proof.
  intros Hb. unfold json.htmlSafe in Hb. apply andb_prop in Hb as [Hb H3]. apply andb_prop in Hb as [H1 H2].
  apply negb_true_iff in H3. cbn in H3. repeat (apply orb_false_iff in H3 as [? H3]).
  cbn [unquote_loop]. rewrite H0, H. apply Z.leb_le in H1. apply Z.ltb_lt in H2.
  rewrite (proj2 (Z.ltb_ge b 0x20)) by lia. by rewrite (proj2 (Z.ltb_lt b utf8.RuneSelf) H2).
Qed.

Lemma unquote_escape b n rest : 0 <= b < 0x80 → json.htmlSafe b = false →
  unquote_loop (S n) (Prelude.bytes (json.escape_byte b) ++ rest) = cons b <$> unquote_loop n rest.
Proof.
  intros Hb Hh.
  enum_ascii Hb ltac:(vm_compute in Hh; try discriminate; cbn [unquote_loop]; cbv -[unquote_loop];
    destruct (unquote_loop n rest); reflexivity).
Qed.

Lemma escape_byte_nonempty b : (1 ≤ length (Prelude.bytes (json.escape_byte b)))%nat.
Proof. unfold json.escape_byte. repeat case_match; rewrite ?bytes_app, ?length_app; cbn; lia. Qed.

(** [unquote] undoes the escaping of an ASCII string. *)
Lemma unquote_string_body p (n : nat) :
  Forall (λ b, b < 0x80) (Prelude.bytes p) →
  (length (Prelude.bytes (json.string_body (String.length p) p)) < n)%nat →
  unquote_loop n (Prelude.bytes (json.string_body (String.length p) p)) = Some (Prelude.bytes p).
Proof.
  revert n. induction p as [|c p IH]; intros n Hp Hn.
  - destruct n; [cbn in Hn; lia|done].
  - cbn [Prelude.bytes] in Hp. apply Forall_cons in Hp as [Hc Hp]. pose proof (bv_range c).
    cbn [String.length json.string_body] in *. rewrite (proj2 (Z.ltb_lt (bv c) utf8.RuneSelf) Hc) in *.
    rewrite bytes_app in *. rewrite length_app in Hn. destruct n as [|n]; [lia|].
    destruct (json.htmlSafe (bv c)) eqn:Hh.
    + cbn [json.str1 Prelude.bytes app] in *. rewrite unquote_safe by done.
      rewrite IH; [done|done|cbn in Hn; lia].
    + pose proof (escape_byte_nonempty (bv c)).
      rewrite unquote_escape by (done || lia). rewrite IH by (done || lia). done.
Qed.

Lemma run_quoted s body rest :
  run s body = (conts body, bump (Z.of_nat (length body)) s) → step s = stateInString →
  run s (body ++ 0x22 :: rest) =
    ((conts body ++ [(0x22, scanContinue)]) ++ (run (set_step stateEndValue (bump (Z.of_nat (length body) + 1) s)) rest).1,
     (run (set_step stateEndValue (bump (Z.of_nat (length body) + 1) s)) rest).2).
Proof.
  intros Hb Hs. rewrite (run_app _ _ _ _ _ Hb (conts_ok body)). cbn -[run].
  change (0x22 :: rest) with ([0x22] ++ rest).
  assert (Hq : run (bump (Z.of_nat (length body)) s) [0x22] =
            ([(0x22, scanContinue)], set_step stateEndValue (bump (Z.of_nat (length body) + 1) s))).
  { destruct s as [st et ps er bc]; cbn in Hs; subst st. cbn. unfold set_step, bump; cbn. by rewrite Z.add_assoc. }
  rewrite (run_app _ _ _ _ _ Hq); [|by repeat constructor].
  by rewrite <- app_assoc.
Qed.

Lemma build_app b o1 o2 : build b (o1 ++ o2) = (b' ← build b o1; build b' o2).
Proof.
  revert b. induction o1 as [|[c op] o1 IH]; intros b; [done|]. cbn.
  destruct (build_step b c op); [apply IH|done].
Qed.

Lemma build_conts st l lst a :
  build (mkBuilder st (Some l) lst) (conts a) = Some (mkBuilder st (Some (rev a ++ l)) lst).
Proof.
  revert l. induction a as [|c a IH]; intros l; [done|]. cbn. rewrite IH. cbn.
  by rewrite <- app_assoc.
Qed.

(** The literal of an escaped ASCII string is that string. *)
Lemma literal_appendString s :
  Forall (λ b, b < 0x80) (Prelude.bytes s) →
  literal (0x22 :: Prelude.bytes (json.string_body (String.length s) s) ++ [0x22]) = Some (JString (Prelude.bytes s)).
Proof.
  intros Hs. cbn [literal]. cbn -[unquoteBytes]. unfold unquoteBytes.
  rewrite last_snoc, removelast_last. rewrite unquote_string_body by (done || lia). done.
Qed.

Lemma rev_quoted body : rev (rev body ++ [0x22]) ++ [0x22] = 0x22 :: body ++ [0x22].
Proof. by rewrite rev_app_distr, rev_involutive. Qed.

(** The decoder reads back what the encoder writes: for an ASCII
    string, the quoted, escaped string [appendString] produces passes
    [checkValid] and decodes to the string itself. *)
Theorem appendString_roundtrip s :
  Forall (λ b, b < 0x80) (Prelude.bytes s) →
  checkValid (Prelude.bytes (json.appendString s)) = None ∧
  document (Prelude.bytes (json.appendString s)) = Some (JString (Prelude.bytes s)).
Proof.
  intros Hs. unfold json.appendString. rewrite !bytes_app. cbn [json.str1 json.dq Prelude.bytes].
  set (body := Prelude.bytes (json.string_body (String.length s) s)).
  change (bv json.dq) with 0x22.
  set (s1 := mk stateInString false [] None 1).
  assert (H0 : run reset [0x22] = ([(0x22, scanBeginLiteral)], s1)) by reflexivity.
  pose proof (run_string_body s s1 Hs eq_refl) as Hb. fold body in Hb.
  unfold checkValid, document. rewrite (run_app _ _ _ _ _ H0) by (repeat constructor; discriminate).
  rewrite (run_quoted _ _ _ Hb eq_refl). cbn [run fst snd]. split; [reflexivity|].
  rewrite ?app_nil_r, build_app. cbn [build build_step close_lit lit stack last mbind option_bind].
  rewrite build_app, build_conts. cbn. rewrite rev_quoted. unfold body. by rewrite literal_appendString.
Qed.

(** ** Witnesses *)

Lemma unquote_loop_fuel_witness : unquote_loop 3 [0x5C; 0x6E] = unquote_loop 5 [0x5C; 0x6E].
Proof. apply (unquote_loop_fuel 3 5); cbn; lia. Defined.

Lemma appendString_roundtrip_witness :
  checkValid (Prelude.bytes (json.appendString "<a&b>")) = None ∧
  document (Prelude.bytes (json.appendString "<a&b>")) = Some (JString (Prelude.bytes "<a&b>")).
Proof. apply appendString_roundtrip. repeat constructor. Defined.

End decode.
