(* ===== verification/DecodeInvariant.v ===== *)
(** * The decoder's invariant: what the scanner accepts, the walk reads

    [Unmarshal] runs the scanner twice over its input: [checkValid]
    first, then the walk of [decode.go] ([decode.document] here), which
    trusts the scanner and reports a "phase error" when its own reading
    of the op codes goes wrong.  This file proves that the walk never
    does so: the invariant [Inv] ties each state of the scanner
    ([scanner.step], its parse stack, [endTop]) to the builder of the
    walk (the open arrays and objects, the literal being read, the last
    value completed); [step_inv] shows that one byte of input keeps it,
    [run_inv] that a run does, and [document_total] that at the end of
    an accepted input the walk holds exactly one complete value.

    The string literals carry their own part of the invariant: the bytes
    read so far after the opening quote are well formed ([str_ok]) and
    the scanner state says how far into an escape the last of them is
    ([str_state]); [unquote_ok] shows that [unquoteBytes] accepts every
    such literal.  All bytes are in [0, 256) ([in_range]), as the bytes
    of a Go string are. *)
From S2P Require Import Prelude GoStrings Json JsonDecode.
Import decode.

Definition in_range (b : Z) : Prop := 0 <= b < 256.

Fixpoint str_ok (s : list Z) : bool :=
  match s with
  | [] => true
  | c :: s' =>
    if c =? 0x5C then
      match s' with
      | e :: s'' =>
        if existsb (Z.eqb e) [0x62; 0x66; 0x6E; 0x72; 0x74; 0x5C; 0x2F; 0x22] then str_ok s''
        else if e =? 0x75 then
          match s'' with
          | h1 :: h2 :: h3 :: h4 :: r => scanner.is_hex h1 && scanner.is_hex h2 && scanner.is_hex h3 && scanner.is_hex h4 && str_ok r
          | _ => false
          end
        else false
      | [] => false
      end
    else (0x20 <=? c) && negb (c =? 0x22) && str_ok s'
  end.


(** The pending bytes of an escape in the string states. *)
Definition str_state (f : scanner.stepfn) (p : list Z) : Prop :=
  match f with
  | scanner.stateInString => p = []
  | scanner.stateInStringEsc => p = [0x5C]
  | scanner.stateInStringEscU => p = [0x5C; 0x75]
  | scanner.stateInStringEscU1 => ∃ h1, p = [0x5C; 0x75; h1] ∧ scanner.is_hex h1 = true
  | scanner.stateInStringEscU12 => ∃ h1 h2, p = [0x5C; 0x75; h1; h2] ∧ scanner.is_hex h1 && scanner.is_hex h2 = true
  | scanner.stateInStringEscU123 => ∃ h1 h2 h3, p = [0x5C; 0x75; h1; h2; h3] ∧
                                    scanner.is_hex h1 && scanner.is_hex h2 && scanner.is_hex h3 = true
  | _ => False
  end.

Definition frame_rel (p : scanner.parse) (f : frame) : Prop :=
  match p, f with
  | scanner.parseArrayValue, FArray _ => True
  | scanner.parseObjectKey, FObject _ None => True
  | scanner.parseObjectValue, FObject _ (Some _) => True
  | _, _ => False
  end.

(** The parse stack and the open arrays and objects agree; only the top
    of the parse stack can wait for a key. *)
Definition stack_rel (ps : list scanner.parse) (fs : list frame) : Prop :=
  Forall2 frame_rel ps fs ∧ Forall (λ p, p ≠ scanner.parseObjectKey) (tail ps).

Definition not_key (ps : list scanner.parse) : Prop := head ps ≠ Some scanner.parseObjectKey.

Definition key_ok (ps : list scanner.parse) (v : jvalue) : Prop :=
  match ps with scanner.parseObjectKey :: _ => ∃ k, v = JString k | _ => True end.

(** A value is complete: placed in [last], or a literal that closes. *)
Definition complete (ps : list scanner.parse) (b : builder) : Prop :=
  (lit b = None ∧ ∃ v, last b = Some v ∧ key_ok ps v) ∨
  (last b = None ∧ ∃ l v, lit b = Some l ∧ literal (rev l) = Some v ∧ key_ok ps v).

(** The invariant of the walk: the builder after the op codes of a prefix
    the scanner accepted, against the scanner's state. *)
Definition Inv (s : scanner.scanner) (b : builder) : Prop :=
  scanner.err s = None ∧ (scanner.endTop s = true → scanner.step s = scanner.stateEndTop) ∧
  stack_rel (scanner.parseState s) (stack b) ∧
  match scanner.step s with
  | scanner.stateBeginValue => lit b = None ∧ last b = None ∧ not_key (scanner.parseState s)
  | scanner.stateBeginValueOrEmpty =>
    lit b = None ∧ last b = None ∧ head (scanner.parseState s) = Some scanner.parseArrayValue
  | scanner.stateBeginStringOrEmpty | scanner.stateBeginString =>
    lit b = None ∧ last b = None ∧ head (scanner.parseState s) = Some scanner.parseObjectKey
  | scanner.stateEndValue => complete (scanner.parseState s) b
  | scanner.stateEndTop => scanner.parseState s = [] ∧ lit b = None ∧ is_Some (last b)
  | scanner.stateInString | scanner.stateInStringEsc | scanner.stateInStringEscU
  | scanner.stateInStringEscU1 | scanner.stateInStringEscU12 | scanner.stateInStringEscU123 =>
    last b = None ∧ ∃ l c p, lit b = Some l ∧ rev l = 0x22 :: c ++ p ∧ str_ok c = true ∧
      Forall in_range c ∧ str_state (scanner.step s) p
  | scanner.stateError => False
  | _ => last b = None ∧ not_key (scanner.parseState s) ∧
    ∃ l x r, lit b = Some l ∧ rev l = x :: r ∧ x ≠ 0x22 ∧ is_Some (literal (x :: r))
  end.

(** What one step of the scanner asks of the walk: when no error arose,
    the walk takes the op code and the invariant holds after it. *)
Definition step_ok (b : builder) (c : Z) (r : scanner.scanop * scanner.scanner) : Prop :=
  scanner.err r.2 = None → ∃ b', build_step b c r.1 = Some b' ∧ Inv r.2 b'.

(** The states inside a number or a [true], [false], [null] literal. *)
Definition numish (f : scanner.stepfn) : bool :=
  match f with
  | scanner.stateNeg | scanner.state1 | scanner.state0 | scanner.stateDot | scanner.stateDot0
  | scanner.stateE | scanner.stateESign | scanner.stateE0
  | scanner.stateT | scanner.stateTr | scanner.stateTru | scanner.stateF | scanner.stateFa
  | scanner.stateFal | scanner.stateFals | scanner.stateN | scanner.stateNu | scanner.stateNul => true
  | _ => false
  end.

Lemma bytes_stake k s : Prelude.bytes (stake k s) = take k (Prelude.bytes s).
Proof. revert s. induction k as [|k IH]; intros [|c s]; cbn; rewrite ?IH; done. Qed.

(** The bytes a non-ASCII step of [DecodeRune] spans are non-ASCII. *)
Lemma DecodeRune_span c s : in_range c → Forall in_range s → 0x80 <= c →
  Forall (λ b, 0x80 <= b) (take (snd (DecodeRune (c :: s))) (c :: s)).
Proof.
  intros Hc Hs H. unfold DecodeRune. cbn [strings.string_of_bytes].
  destruct (utf8.DecodeRuneInString _) as [r size] eqn:E.
  apply json.DecodeRune_span_high in E; [|by rewrite bv_chr].
  rewrite bytes_stake in E. cbn [Prelude.bytes] in E.
  rewrite bv_chr, GoStringsFacts.bytes_string_of_bytes in E by done. done.
Qed.

Lemma str_ok_drop_high k s : Forall (λ b, 0x80 <= b) (take k s) → str_ok s = true → str_ok (drop k s) = true.
Proof.
  revert s. induction k as [|k IH]; intros [|c s] Hk Hs; cbn in *; try done.
  apply Forall_cons in Hk as [Hc Hk]. apply IH; [done|].
  rewrite (proj2 (Z.eqb_neq c 0x5C)) in Hs by lia.
  apply andb_prop in Hs as [_ Hs]. done.
Qed.

Ltac hex_cases h :=
  unfold hexval, scanner.is_hex, scanner.is_digit;
  destruct (Z.leb_spec 0x30 h), (Z.leb_spec h 0x39), (Z.leb_spec 0x61 h), (Z.leb_spec h 0x66),
    (Z.leb_spec 0x41 h), (Z.leb_spec h 0x46); cbn; intros; try discriminate; lia.

Lemma hexval_range h : scanner.is_hex h = true → 0 <= hexval h < 16.
Proof. hex_cases h. Qed.

Lemma hexval_is_hex h : 0 <= hexval h → scanner.is_hex h = true.
Proof. hex_cases h. Qed.

Lemma getu4_hex a b c d r :
  scanner.is_hex a && scanner.is_hex b && scanner.is_hex c && scanner.is_hex d = true →
  0 <= getu4 (0x5C :: 0x75 :: a :: b :: c :: d :: r).
Proof.
  intros H. repeat (apply andb_prop in H as [H ?]).
  pose proof (hexval_range a H). pose proof (hexval_range b H2). pose proof (hexval_range c H1).
  pose proof (hexval_range d H0). cbn.
  rewrite !(proj2 (Z.ltb_ge _ 0)) by lia. cbn. lia.
Qed.

Lemma getu4_shape s : 0 <= getu4 s →
  ∃ a b c d r, s = 0x5C :: 0x75 :: a :: b :: c :: d :: r ∧
    scanner.is_hex a && scanner.is_hex b && scanner.is_hex c && scanner.is_hex d = true.
Proof.
  unfold getu4. destruct s as [|b0 [|b1 [|h1 [|h2 [|h3 [|h4 r]]]]]]; try lia.
  destruct (negb _) eqn:E; [lia|]. apply negb_false_iff, andb_prop in E as [E0 E1].
  apply Z.eqb_eq in E0, E1. subst. destruct (existsb _ _) eqn:E; [lia|]. intros _.
  exists h1, h2, h3, h4, r. split; [done|]. cbn in E. repeat (apply orb_false_iff in E as [? E]).
  repeat match goal with H : (_ <? 0) = false |- _ => apply Z.ltb_ge in H end.
  rewrite !hexval_is_hex by assumption. done.
Qed.

Lemma DecodeRune16_low r1 r2 : DecodeRune16 r1 r2 ≠ utf8.RuneError → 0xDC00 <= r2.
Proof. unfold DecodeRune16. repeat case_match; rewrite ?andb_true_iff, ?Z.leb_le, ?Z.ltb_lt in *; intuition lia. Qed.

Lemma simple_escape_ok e :
  existsb (Z.eqb e) [0x62; 0x66; 0x6E; 0x72; 0x74; 0x5C; 0x2F; 0x22] = true → ∃ b, simple_escape e = Some b.
Proof.
  cbn. intros H. repeat (apply orb_true_iff in H as [H|H]); try discriminate; apply Z.eqb_eq in H; subst; by eexists.
Qed.

Ltac rec_call IH := let H := fresh in intros H; apply fmap_None in H; revert H; apply IH.

(** [unquote] succeeds on every string body the scanner accepts. *)
Lemma unquote_ok (n : nat) s :
  (length s < n)%nat → str_ok s = true → Forall in_range s → unquote_loop n s ≠ None.
Proof.
  revert s. induction n as [|n IH]; intros s Hn Hs Hr; [lia|].
  destruct s as [|c s']; [done|]. pose proof Hs as Hs0. cbn [unquote_loop]. cbn [str_ok] in Hs.
  pose proof Hr as Hr0. apply Forall_cons in Hr as [Hc Hr'].
  destruct (c =? 0x5C) eqn:Hbs.
  - apply Z.eqb_eq in Hbs; subst c.
    destruct s' as [|e s'']; [done|]. apply Forall_cons in Hr' as [He Hr''].
    destruct (existsb _ _) eqn:Hsimple.
    + destruct (simple_escape_ok e Hsimple) as [b Hb]. rewrite Hb.
      rec_call IH; [cbn in Hn; lia|done|done].
    + destruct (e =? 0x75) eqn:Hu; [|done]. apply Z.eqb_eq in Hu; subst e.
      destruct s'' as [|h1 [|h2 [|h3 [|h4 r]]]]; try done.
      apply andb_prop in Hs as [Hhex Hrs].
      pose proof (getu4_hex _ _ _ _ r Hhex) as Hg.
      change (simple_escape 0x75) with (@None Z). cbn [negb Z.eqb Pos.eqb].
      rewrite (proj2 (Z.ltb_ge _ 0) Hg). change (drop 6 (0x5C :: 0x75 :: h1 :: h2 :: h3 :: h4 :: r)) with r.
      do 4 apply Forall_cons in Hr'' as [_ Hr''].
      cbn in Hn. destruct (IsSurrogate _); [destruct (negb _) eqn:Hd|].
      * apply negb_true_iff, Z.eqb_neq, DecodeRune16_low in Hd.
        destruct (getu4_shape r) as (a & b & c & d & r' & -> & Hhex'); [lia|].
        change (drop 6 (0x5C :: 0x75 :: a :: b :: c :: d :: r')) with r'.
        cbn in Hrs. rewrite Hhex' in Hrs.
        rec_call IH; [cbn in Hn; lia|done|by do 6 apply Forall_cons in Hr'' as [_ Hr'']].
      * rec_call IH; [lia|done|done].
      * rec_call IH; [lia|done|done].
  - apply Z.eqb_neq in Hbs. apply andb_prop in Hs as [Hs Hrs]. apply andb_prop in Hs as [H20 Hq].
    apply Z.leb_le in H20. apply negb_true_iff in Hq. rewrite Hq, (proj2 (Z.ltb_ge c 0x20) H20). cbn [orb].
    destruct (c <? utf8.RuneSelf) eqn:Ha; [rec_call IH; [cbn in Hn; lia|done|done]|].
    apply Z.ltb_ge in Ha. pose proof (DecodeRune_span c s' Hc Hr' Ha) as Hspan.
    pose proof (DecodeRune_size_pos c s') as Hpos.
    destruct (DecodeRune (c :: s')) as [rr size] eqn:Hd. cbn in Hspan, Hpos.
    rec_call IH.
    + rewrite length_drop. cbn in *. lia.
    + by apply str_ok_drop_high.
    + by apply Forall_drop.
Qed.

Lemma build_step_close b c op :
  op ≠ scanner.scanContinue → build_step b c op = (b1 ← close_lit b; build_step b1 c op).
Proof.
  intros Hop. assert (Hc : ∀ b1, close_lit b = Some b1 → close_lit b1 = Some b1).
  { destruct b as [st [l|] lst]; cbn; [|by intros ? [= <-]].
    destruct (literal (rev l)); cbn; [by intros ? [= <-]|done]. }
  destruct op; try done; cbn [build_step]; destruct (close_lit b) as [b1|] eqn:E; cbn; try done;
    by rewrite (Hc b1 eq_refl).
Qed.

Lemma close_complete ps b : complete ps b →
  ∃ v, close_lit b = Some (mkBuilder (stack b) None (Some v)) ∧ key_ok ps v.
Proof.
  intros [(Hl & v & Hv & Hk)|(Hv & l & v & Hl & Hlit & Hk)]; exists v; split; try done.
  - destruct b; cbn in *; subst. done.
  - destruct b; cbn in *; subst. cbn. by rewrite Hlit.
Qed.

Lemma pop_inv s p rest st v :
  scanner.err s = None → scanner.endTop s = false → scanner.parseState s = p :: rest →
  Forall2 frame_rel rest st → Forall (λ q, q ≠ scanner.parseObjectKey) rest →
  Inv (scanner.popParseState s) (mkBuilder st None (Some v)).
Proof.
  intros He Ht Hps Hf Hk. unfold scanner.popParseState. rewrite Hps.
  destruct rest as [|q rest].
  - apply Forall2_nil_inv_l in Hf as ->. repeat split; try done; by eexists.
  - cbn. apply Forall_cons in Hk as [Hq Hk]. repeat split; try done.
    + cbn. by rewrite Ht.
    + cbn. left. split; [done|]. exists v. split; [done|]. by destruct q.
Qed.


Lemma error_ok b s c ctx : step_ok b c (scanner.error s c ctx).
Proof. by intros ?. Qed.

Ltac fin_inv Ht Hps :=
  repeat split; cbn; try done; try rewrite Ht; try done; try rewrite Hps; cbn; try done;
  try (by constructor); try (match goal with H : Forall _ (tail _) |- _ => exact H end).

Lemma EndValue_inv s b c :
  scanner.err s = None → scanner.endTop s = false →
  stack_rel (scanner.parseState s) (stack b) → complete (scanner.parseState s) b →
  step_ok b c (scanner.EndValue s c).
Proof.
  intros He Ht [Hf Htl] Hc. destruct (close_complete _ _ Hc) as (v & Hcl & Hk).
  unfold scanner.EndValue. destruct (scanner.parseState s) as [|p rest] eqn:Hps.
  - apply Forall2_nil_inv_l in Hf. unfold scanner.EndTop. destruct (scanner.isSpace c); cbn; [|by intros ?].
    intros _. rewrite build_step_close, Hcl by done. cbn. eexists. split; [done|].
    repeat split; try done; try (by rewrite Hf); by eexists.
  - destruct (scanner.isSpace c) eqn:Hsp.
    { intros _. cbn [fst snd]. rewrite build_step_close, Hcl by done. eexists. split; [done|].
      repeat split; cbn; try done; try (by rewrite ?Ht, ?Hps). rewrite Hps. left. eauto. }
    apply Forall2_cons_inv_l in Hf as (f & st & Hfr & Hf & Hst).
    destruct p; cbn in Hfr.
    + destruct (c =? 0x3A); [|apply error_ok]. intros _. cbn [fst snd].
      rewrite build_step_close, Hcl by done. cbn. rewrite Hst.
      destruct f as [|ms [k'|]]; try done. destruct Hk as [k ->]. eexists. split; [done|].
      fin_inv Ht Hps.
    + destruct (c =? 0x2C); [|destruct (c =? 0x7D); [|apply error_ok]].
      * intros _. cbn [fst snd]. rewrite build_step_close, Hcl by done. cbn. rewrite Hst.
        destruct f as [|ms [k|]]; try done. eexists. split; [done|].
        fin_inv Ht Hps.
      * intros _. cbn [fst snd]. rewrite build_step_close, Hcl by done. cbn. rewrite Hst.
        destruct f as [|ms [k|]]; try done. cbn. eexists. split; [done|].
        apply (pop_inv _ scanner.parseObjectValue rest); try done; by rewrite Hps in Htl.
    + destruct (c =? 0x2C); [|destruct (c =? 0x5D); [|apply error_ok]].
      * intros _. cbn [fst snd]. rewrite build_step_close, Hcl by done. cbn. rewrite Hst.
        destruct f as [es|]; try done. eexists. split; [done|].
        fin_inv Ht Hps.
      * intros _. cbn [fst snd]. rewrite build_step_close, Hcl by done. cbn. rewrite Hst.
        destruct f as [es|]; try done. cbn. eexists. split; [done|].
        apply (pop_inv _ scanner.parseArrayValue rest); try done; by rewrite Hps in Htl.
Qed.

Lemma close_none b : lit b = None → close_lit b = Some b.
Proof. destruct b; cbn. by intros ->. Qed.

Lemma not_key_Forall ps : not_key ps → Forall (λ p, p ≠ scanner.parseObjectKey) (tail ps) →
  Forall (λ p, p ≠ scanner.parseObjectKey) ps.
Proof. destruct ps as [|p ps]; cbn; [done|]. intros Hp Hf. constructor; [|done]. intros ->. done. Qed.

Lemma literal_first c r : (c =? 0x2D) || scanner.is_digit c || (c =? 0x74) || (c =? 0x66) || (c =? 0x6E) = true →
  c ≠ 0x22 ∧ is_Some (literal (c :: r)).
Proof.
  intros H. cbn [literal].
  repeat (apply orb_true_iff in H as [H|H]);
    try (apply Z.eqb_eq in H; subst; split; [done|]; cbn; by eexists).
  unfold scanner.is_digit in H. apply andb_prop in H as [H1 H2]. apply Z.leb_le in H1, H2.
  split; [lia|]. repeat (rewrite (proj2 (Z.eqb_neq c _)) by lia). cbn.
  unfold scanner.is_digit. rewrite (proj2 (Z.leb_le 0x30 c)), (proj2 (Z.leb_le c 0x39)) by lia. cbn.
  destruct (c =? 0x2D); by eexists.
Qed.

(** A literal starts: its first byte alone. *)
Ltac lit_start He Ht Hsr Hnk :=
  intros _; cbn [fst snd]; cbn; eexists; split; [done|];
  split; [done|]; split; [cbn; by rewrite Ht|]; split; [exact Hsr|]; cbn;
  split; [done|]; split; [exact Hnk|];
  do 3 eexists; split; [done|]; split; [reflexivity|]; apply literal_first; cbn; try reflexivity.

Lemma BeginValue_inv s b c :
  Inv s b → scanner.endTop s = false → lit b = None → last b = None → not_key (scanner.parseState s) →
  step_ok b c (scanner.BeginValue s c).
Proof.
  intros HI Ht Hl Hla Hnk. pose proof HI as (He & _ & Hsr & _).
  destruct b as [st l la]; cbn in Hl, Hla, Hsr; subst l la.
  unfold scanner.BeginValue.
  destruct (scanner.isSpace c) eqn:Hsp.
  { intros _. cbn [fst snd]. cbn.
    eexists; split; [reflexivity|exact HI]. }
  destruct (c =? 0x7B) eqn:E1.
  { unfold scanner.pushParseState. destruct (_ <=? _); [|apply error_ok].
    intros _. cbn [fst snd]. cbn. cbn.
    eexists. split; [done|]. destruct Hsr as [Hf Htl].
    split_and!; cbn; try done; try (by rewrite Ht); split; [by constructor|by apply not_key_Forall]. }
  destruct (c =? 0x5B) eqn:E2.
  { unfold scanner.pushParseState. destruct (_ <=? _); [|apply error_ok].
    intros _. cbn [fst snd]. cbn. cbn.
    eexists. split; [done|]. destruct Hsr as [Hf Htl].
    split_and!; cbn; try done; try (by rewrite Ht); split; [by constructor|by apply not_key_Forall]. }
  destruct (c =? 0x22) eqn:E3.
  { apply Z.eqb_eq in E3. subst c. intros _. cbn [fst snd]. rewrite build_step_close by done.
    rewrite close_none by done. cbn. eexists. split; [done|].
    split_and!; cbn; try done; try (by rewrite Ht). split; [done|]. exists [0x22], [], []. done. }
  destruct (c =? 0x2D) eqn:E4; [lit_start He Ht Hsr Hnk; by rewrite E4|].
  destruct (c =? 0x30) eqn:E5; [apply Z.eqb_eq in E5; subst c; lit_start He Ht Hsr Hnk|].
  destruct (c =? 0x74) eqn:E6; [lit_start He Ht Hsr Hnk; by rewrite E6, !orb_true_r|].
  destruct (c =? 0x66) eqn:E7; [lit_start He Ht Hsr Hnk; by rewrite E7, !orb_true_r|].
  destruct (c =? 0x6E) eqn:E8; [lit_start He Ht Hsr Hnk; by rewrite E8, !orb_true_r|].
  destruct ((0x31 <=? c) && (c <=? 0x39)) eqn:E9; [|apply error_ok].
  apply andb_prop in E9 as [E9 E9']. apply Z.leb_le in E9, E9'.
  lit_start He Ht Hsr Hnk. unfold scanner.is_digit.
  rewrite (proj2 (Z.leb_le 48 c)), (proj2 (Z.leb_le c 57)) by lia. cbn. by rewrite orb_true_r.
Qed.

Lemma str_ok_app a b : str_ok a = true → str_ok b = true → str_ok (a ++ b) = true.
Proof.
  intros Ha Hb. remember (length a) as n eqn:Hn. revert a Ha Hn.
  induction n as [n IH] using lt_wf_ind. intros [|c a] Ha Hn; [done|]. cbn [str_ok app length] in *.
  destruct (c =? 0x5C); [|apply andb_prop in Ha as [Ha1 Ha2]; rewrite Ha1; apply (IH (length a)); auto; lia].
  destruct a as [|e a]; [done|]. cbn [str_ok app length] in *.
  destruct (existsb _ _); [apply (IH (length a)); auto; lia|].
  destruct (e =? 0x75); [|done].
  destruct a as [|h1 [|h2 [|h3 [|h4 r]]]]; try done. cbn [str_ok app length] in *.
  apply andb_prop in Ha as [Hh Hr]. rewrite Hh. apply (IH (length r)); auto. lia.
Qed.

Lemma literal_extend x r r' : x ≠ 0x22 → is_Some (literal (x :: r)) → is_Some (literal (x :: r')).
Proof.
  cbn. intros Hx. rewrite (proj2 (Z.eqb_neq x 0x22) Hx). repeat case_match; done.
Qed.

Lemma key_ok_string ps k : key_ok ps (JString k).
Proof. destruct ps as [|[] ?]; cbn; eauto. Qed.

Lemma key_ok_not_key ps v : not_key ps → key_ok ps v.
Proof. destruct ps as [|[] ?]; cbn; try done. Qed.

(** The literal of a closed string: its quotes around an accepted body. *)
Lemma literal_string c : str_ok c = true → Forall in_range c →
  ∃ k, literal (0x22 :: c ++ [0x22]) = Some (JString k).
Proof.
  intros Hc Hr. cbn [literal]. cbn -[unquoteBytes]. unfold unquoteBytes.
  rewrite last_snoc, removelast_last.
  destruct (unquote_loop _ c) as [k|] eqn:E; [by exists k|].
  exfalso. revert E. apply unquote_ok; [lia|done|done].
Qed.

Lemma is_hex_range h : scanner.is_hex h = true → in_range h.
Proof. intros H. pose proof (hexval_range h H). revert H. unfold in_range. hex_cases h. Qed.

Ltac range_tac :=
  repeat (apply Forall_cons; split); try (by apply Forall_nil); try (unfold in_range; lia); try done;
  try (by apply is_hex_range).

Lemma str_state_inv s f st l cc p :
  scanner.err s = None → scanner.endTop s = false → stack_rel (scanner.parseState s) st →
  rev l = 0x22 :: cc ++ p → str_ok cc = true → Forall in_range cc → str_state f p →
  Inv (scanner.set_step f s) (mkBuilder st (Some l) None).
Proof.
  intros He Ht Hsr Hl Hc Hr Hp. split_and!; cbn; try done; [by rewrite Ht|].
  destruct f; try done; split; try done; by exists l, cc, p.
Qed.

Lemma rev_snoc_str l cc p c : rev l = 0x22 :: cc ++ p → rev (c :: l) = 0x22 :: cc ++ p ++ [c].
Proof. intros H. cbn. rewrite H. cbn. by rewrite <- app_assoc. Qed.

(** One byte inside a string literal, with the literal read so far. *)
Section string_step.
Context (s : scanner.scanner) (b : builder) (c : Z) (l cc p : list Z).
Hypotheses (He : scanner.err s = None) (Ht : scanner.endTop s = false)
  (Hsr : stack_rel (scanner.parseState s) (stack b)) (Hla : last b = None) (Hl : lit b = Some l)
  (Hrev : rev l = 0x22 :: cc ++ p) (Hok : str_ok cc = true) (Hr : Forall in_range cc) (Hc : in_range c).

(** The byte extends the literal, and the scanner stays inside it. *)
Lemma string_continue f cc' p' :
  cc ++ p ++ [c] = cc' ++ p' → str_ok cc' = true → Forall in_range cc' → str_state f p' →
  step_ok b c (scanner.scanContinue, scanner.set_step f s).
Proof.
  intros Heq Hok' Hr' Hp' _. cbn [fst snd]. exists (mkBuilder (stack b) (Some (c :: l)) None).
  split; [destruct b; cbn in *; by subst|].
  apply (str_state_inv _ _ _ _ cc' p'); try done. rewrite <- Heq. by apply rev_snoc_str.
Qed.

(** The closing quote: the literal is a complete string value. *)
Lemma string_close : p = [] → c = 0x22 →
  step_ok b c (scanner.scanContinue, scanner.set_step scanner.stateEndValue s).
Proof.
  intros -> -> _. cbn [fst snd]. exists (mkBuilder (stack b) (Some (0x22 :: l)) None).
  split; [destruct b; cbn in *; by subst|].
  split_and!; cbn; try done; [by rewrite Ht|]. right. split; [done|].
  destruct (literal_string cc Hok Hr) as [k Hk]. exists (0x22 :: l), (JString k).
  split; [done|]. cbn. rewrite Hrev, app_nil_r. split; [done|apply key_ok_string].
Qed.

Lemma string_step_inv : str_state (scanner.step s) p → step_ok b c (scanner.step_fn s c).
Proof using All.
  intros Hp. unfold scanner.step_fn. destruct (scanner.step s) eqn:Hst; try done; cbn in Hp.
  - (* stateInString *) destruct (c =? 0x22) eqn:E1; [apply Z.eqb_eq in E1; by apply string_close|].
    destruct (c =? 0x5C) eqn:E2.
    { apply Z.eqb_eq in E2. apply (string_continue _ cc [0x5C]); try done. by subst. }
    destruct (c <? 0x20) eqn:E3; [apply error_ok|].
    apply (string_continue _ (cc ++ [c]) []); try done.
    + subst. by rewrite app_nil_r.
    + apply str_ok_app; [done|]. cbn. rewrite E2. apply Z.ltb_ge in E3.
      rewrite (proj2 (Z.leb_le 32 c)) by lia. by rewrite E1.
    + apply Forall_app. split; [done|]. by constructor.
    + change (str_state (scanner.step s) []). by rewrite Hst.
  - (* stateInStringEsc *) destruct (existsb _ _) eqn:E1.
    { apply (string_continue _ (cc ++ [0x5C; c]) []); try done.
      + subst. by rewrite app_nil_r.
      + apply str_ok_app; [done|]. cbn [str_ok]. by rewrite E1.
      + apply Forall_app. split; [done|]. range_tac. }
    destruct (c =? 0x75) eqn:E2; [|apply error_ok]. apply Z.eqb_eq in E2.
    apply (string_continue _ cc [0x5C; 0x75]); try done. by subst.
  - (* stateInStringEscU *) destruct (scanner.is_hex c) eqn:E1; [|apply error_ok].
    apply (string_continue _ cc [0x5C; 0x75; c]); try done; [by subst|by exists c].
  - destruct Hp as (h1 & Hp & H1). destruct (scanner.is_hex c) eqn:E1; [|apply error_ok].
    apply (string_continue _ cc [0x5C; 0x75; h1; c]); try done; [by subst|].
    exists h1, c. by rewrite H1, E1.
  - destruct Hp as (h1 & h2 & Hp & H12). destruct (scanner.is_hex c) eqn:E1; [|apply error_ok].
    apply (string_continue _ cc [0x5C; 0x75; h1; h2; c]); try done; [by subst|].
    exists h1, h2, c. by rewrite H12, E1.
  - destruct Hp as (h1 & h2 & h3 & Hp & H123). destruct (scanner.is_hex c) eqn:E1; [|apply error_ok].
    apply andb_prop in H123 as [[H1 H2]%andb_prop H3].
    apply (string_continue _ (cc ++ [0x5C; 0x75; h1; h2; h3; c]) []); try done.
    + subst. by rewrite app_nil_r.
    + apply str_ok_app; [done|]. cbn -[scanner.is_hex]. by rewrite H1, H2, H3, E1.
    + apply Forall_app. split; [done|]. range_tac.
Qed.

End string_step.


Lemma num_inv s' st l x r :
  scanner.err s' = None → scanner.endTop s' = false → stack_rel (scanner.parseState s') st →
  not_key (scanner.parseState s') → numish (scanner.step s') = true →
  rev l = x :: r → x ≠ 0x22 → is_Some (literal (x :: r)) →
  Inv s' (mkBuilder st (Some l) None).
Proof.
  intros He Ht Hsr Hnk Hn Hl Hx Hlit. split_and!; try done; [by rewrite Ht|].
  destruct (scanner.step s'); try discriminate; cbn; split_and!; try done; by exists l, x, r.
Qed.

Lemma num_step_inv s b c l x r :
  scanner.err s = None → scanner.endTop s = false → stack_rel (scanner.parseState s) (stack b) →
  not_key (scanner.parseState s) → numish (scanner.step s) = true →
  last b = None → lit b = Some l → rev l = x :: r → x ≠ 0x22 → is_Some (literal (x :: r)) →
  step_ok b c (scanner.step_fn s c).
Proof.
  intros He Ht Hsr Hnk Hn Hla Hl Hrev Hx Hlit.
  assert (Hb : build_step b c scanner.scanContinue = Some (mkBuilder (stack b) (Some (c :: l)) None)).
  { destruct b; cbn in *. by subst. }
  assert (Hrev' : rev (c :: l) = x :: r ++ [c]) by (cbn; by rewrite Hrev).
  assert (Hlit' : is_Some (literal (x :: r ++ [c]))) by (by eapply literal_extend).
  assert (Hend : step_ok b c (scanner.EndValue s c)).
  { apply EndValue_inv; try done. right. destruct Hlit as [v Hv]. split; [done|].
    exists l, v. rewrite Hrev. split_and!; try done. by apply key_ok_not_key. }
  unfold scanner.step_fn. destruct (scanner.step s) eqn:Hst; try discriminate;
    unfold scanner.Zero, scanner.ESign, scanner.expect; repeat case_match;
    first [ apply error_ok | exact Hend
          | intros _; cbn [fst snd]; rewrite Hb; eexists; split; [done|];
            first [ apply (num_inv _ _ _ x (r ++ [c])); cbn; try done; by rewrite ?Hst, ?Ht
                  | split_and!; cbn; try done; [by rewrite Ht|]; right; split; [done|];
                    destruct Hlit' as [v Hv]; exists (c :: l), v; rewrite Hrev';
                    split_and!; try done; by apply key_ok_not_key ] ].
Qed.

(** A byte the scanner skips leaves the walk as it is. *)
Lemma skip_ok s b c op : Inv s b → lit b = None → op ≠ scanner.scanContinue →
  (∀ b, build_step b c op = (b1 ← close_lit b; Some b1)) → step_ok b c (op, s).
Proof.
  intros HI Hl Hop Hstep _. cbn [fst snd]. rewrite Hstep, close_none by done. eauto.
Qed.

Lemma build_skip b c : build_step b c scanner.scanSkipSpace = (b1 ← close_lit b; Some b1).
Proof. done. Qed.

Lemma build_end b c : build_step b c scanner.scanEnd = (b1 ← close_lit b; Some b1).
Proof. done. Qed.

(** The invariant is kept by every byte the scanner accepts. *)
Lemma Inv_endTop s b : Inv s b → scanner.step s ≠ scanner.stateEndTop → scanner.endTop s = false.
Proof. intros (_ & Ht & _) Hne. destruct (scanner.endTop s); [by specialize (Ht eq_refl)|done]. Qed.

(** The opening quote of a key (spaces skipped before it). *)
Lemma BeginString_inv s b c : Inv s b → scanner.step s ≠ scanner.stateEndTop →
  lit b = None → last b = None → step_ok b c (scanner.BeginString s c).
Proof.
  intros HI Hne Hl Hla. pose proof (Inv_endTop s b HI Hne) as Ht. pose proof HI as (He & _ & Hsr & _).
  unfold scanner.BeginString. destruct (scanner.isSpace c) eqn:Hsp; [apply skip_ok; auto using build_skip|].
  destruct (c =? 0x22) eqn:E3; [|apply error_ok]. apply Z.eqb_eq in E3. subst c.
  intros _. cbn [fst snd]. destruct b; cbn in *; subst. cbn. eexists. split; [done|].
  split_and!; cbn; try done; [by rewrite Ht|]. split; [done|]. by exists [0x22], [], [].
Qed.

Lemma step_inv s b c : Inv s b → in_range c → step_ok b c (scanner.step_fn s c).
Proof.
  intros HI Hc. pose proof HI as (He & Ht & Hsr & Hm).
  pose proof (Inv_endTop s b HI) as Ht'.
  destruct (scanner.step s) eqn:Hst; cbn in Hm; try done.
  all: try (destruct Hm as (Hla & l & cc & p & Hl & Hrev & Hok & Hr & Hp);
             refine (string_step_inv s b c l cc p He _ Hsr Hla Hl Hrev Hok Hr Hc _);
             [by apply Ht'|rewrite Hst; exact Hp]).
  all: try (destruct Hm as (Hla & Hnk & l & x & r & Hl & Hrev & Hx & Hlit);
             refine (num_step_inv s b c l x r He _ Hsr Hnk _ Hla Hl Hrev Hx Hlit);
             [by apply Ht'|by rewrite Hst]).
  - (* stateBeginValueOrEmpty *) unfold scanner.step_fn; rewrite Hst. destruct Hm as (Hl & Hla & Hnk).
    destruct (scanner.isSpace c) eqn:Hsp; [apply skip_ok; auto using build_skip|].
    destruct (c =? 0x5D) eqn:E; [|apply BeginValue_inv; auto; unfold not_key; by rewrite Hnk].
    unfold scanner.EndValue. destruct Hsr as [Hf Htl].
    destruct (scanner.parseState s) as [|p rest] eqn:Hps; [done|]. cbn in Hnk. injection Hnk as ->.
    rewrite Hsp. apply Forall2_cons_inv_l in Hf as (f & st & Hfr & Hf & Hsb).
    destruct f as [es|]; [|done].
    rewrite (proj2 (Z.eqb_neq c 0x2C)) by (apply Z.eqb_eq in E; lia). rewrite E.
    intros _. cbn [fst snd]. destruct b; cbn in *; subst. cbn.
    eexists. split; [done|]. apply (pop_inv _ scanner.parseArrayValue rest); auto.
  - (* stateBeginValue *) unfold scanner.step_fn; rewrite Hst. destruct Hm as (Hl & Hla & Hnk). apply BeginValue_inv; auto.
  - (* stateBeginStringOrEmpty *) unfold scanner.step_fn; rewrite Hst. destruct Hm as (Hl & Hla & Hk).
    unfold scanner.BeginStringOrEmpty.
    destruct (scanner.isSpace c) eqn:Hsp; [apply skip_ok; auto using build_skip|].
    destruct (c =? 0x7D) eqn:E.
    + unfold scanner.EndValue. cbn [scanner.parseState scanner.set_parseState]. rewrite Hsp.
      rewrite (proj2 (Z.eqb_neq c 0x2C)) by (apply Z.eqb_eq in E; lia). rewrite E.
      destruct Hsr as [Hf Htl].
      destruct (scanner.parseState s) as [|p rest] eqn:Hps; [done|]. cbn in Hk. injection Hk as ->.
      apply Forall2_cons_inv_l in Hf as (f & st & Hfr & Hf & Hsb).
      destruct f as [|ms [k|]]; try done.
      intros _. cbn [fst snd]. destruct b; cbn in Hl, Hla, Hsb; subst.
      eexists. split; [reflexivity|]. apply (pop_inv _ scanner.parseObjectValue rest); cbn; auto.
    + apply BeginString_inv; [done|by rewrite Hst|done|done].
  - (* stateBeginString *) unfold scanner.step_fn; rewrite Hst. destruct Hm as (Hl & Hla & _).
    apply BeginString_inv; [done|by rewrite Hst|done|done].
  - (* stateEndValue *) unfold scanner.step_fn; rewrite Hst. apply EndValue_inv; auto.
  - (* stateEndTop *) unfold scanner.step_fn; rewrite Hst. destruct Hm as (Hps & Hl & Hla).
    unfold scanner.EndTop. destruct (scanner.isSpace c) eqn:Hsp; [|by intros ?]. cbn [negb].
    apply skip_ok; auto using build_end.
Qed.

(** An error, once there, stays. *)
Lemma step_err s c : scanner.err s ≠ None → scanner.err (scanner.step_fn s c).2 ≠ None.
Proof.
  destruct s as [st et ps [e|] bc]; [intros _|done].
  unfold scanner.step_fn, scanner.EndValue, scanner.BeginValue, scanner.BeginString,
    scanner.BeginStringOrEmpty, scanner.EndTop, scanner.Zero, scanner.ESign, scanner.expect,
    scanner.pushParseState, scanner.popParseState, scanner.error.
  cbn. destruct st;
    repeat (first [ progress (unfold scanner.BeginString, scanner.EndValue, scanner.EndTop,
                               scanner.popParseState, scanner.error; cbn)
                  | case_match; cbn ]); done.
Qed.

Lemma Inv_bump s b n :
  Inv s b → Inv (scanner.mk (scanner.step s) (scanner.endTop s) (scanner.parseState s) (scanner.err s) n) b.
Proof. by destruct s. Qed.

Lemma run_err s data : scanner.err s ≠ None → scanner.err (scanner.run s data).2 ≠ None.
Proof.
  revert s. induction data as [|c data IH]; intros s He; [done|]. cbn.
  unfold scanner.feed. pose proof (step_err (scanner.mk (scanner.step s) (scanner.endTop s)
    (scanner.parseState s) (scanner.err s) (scanner.bytes s + 1)) c He) as H1.
  destruct (scanner.step_fn _ c) as [op s1]. cbn in H1.
  destruct op; try done; destruct (scanner.run s1 data) as [ops s2] eqn:E; cbn;
    specialize (IH s1 H1); by rewrite E in IH.
Qed.

Lemma run_inv data s b :
  Inv s b → Forall in_range data → scanner.err (scanner.run s data).2 = None →
  ∃ b', build b (scanner.run s data).1 = Some b' ∧ Inv (scanner.run s data).2 b'.
Proof.
  revert s b. induction data as [|c data IH]; intros s b HI Hr He; [by exists b|].
  apply Forall_cons in Hr as [Hc Hr]. cbn in *. unfold scanner.feed in *.
  pose proof (step_inv _ b c (Inv_bump s b (scanner.bytes s + 1) HI) Hc) as Hstep.
  destruct (scanner.step_fn _ c) as [op s1]. unfold step_ok in Hstep. cbn [fst snd] in Hstep.
  assert (He1 : scanner.err s1 = None).
  { destruct (scanner.err s1) eqn:E; [|done]. exfalso.
    pose proof (run_err s1 data ltac:(by rewrite E)) as Hr1.
    destruct op; cbn in He; try congruence;
      destruct (scanner.run s1 data) as [ops s2]; cbn in *; congruence. }
  destruct (Hstep He1) as (b1 & Hb1 & HI1).
  destruct (scanner.run s1 data) as [ops s2] eqn:E.
  assert (He2 : op ≠ scanner.scanError → scanner.err s2 = None).
  { intros Hop. destruct op; try done; cbn in He; by rewrite E in He. }
  destruct op; cbn [fst snd build]; rewrite Hb1; cbn [mbind option_bind build]; try (by exists b1);
    (destruct (IH s1 b1 HI1 Hr) as (b2 & Hb2 & HI2); [rewrite E; by apply He2|];
     rewrite E in Hb2, HI2; by exists b2).
Qed.

(** At the end of the input, [eof] feeds a space: when that ends the
    top-level value, it does so without an error and with [scanEnd]. *)
Lemma space_end s : scanner.err s = None → scanner.endTop s = false →
  scanner.endTop (scanner.step_fn s 0x20).2 = true →
  (scanner.step_fn s 0x20).1 = scanner.scanEnd ∧ scanner.err (scanner.step_fn s 0x20).2 = None.
Proof.
  destruct s as [st et ps er bc]; cbn. intros -> ->.
  unfold scanner.step_fn; cbn. destruct st;
    repeat (first [ progress (unfold scanner.BeginString, scanner.BeginValue, scanner.EndValue, scanner.EndTop,
                               scanner.popParseState, scanner.error, scanner.Zero, scanner.ESign,
                               scanner.expect, scanner.BeginStringOrEmpty; cbn)
                  | case_match; cbn ]); done.
Qed.

Lemma Inv_reset : Inv scanner.reset (mkBuilder [] None None).
Proof. split_and!; cbn; try done; constructor. Qed.

Lemma Inv_end s b : Inv s b → scanner.endTop s = true →
  close_lit b ≫= (λ b1, match stack b1 with [] => last b1 | _ => None end) ≠ None.
Proof.
  intros (He & Ht & [Hf _] & Hm) Hend. specialize (Ht Hend). rewrite Ht in Hm.
  destruct Hm as (Hps & Hl & [v Hv]). rewrite Hps in Hf. apply Forall2_nil_inv_l in Hf.
  rewrite close_none by done. cbn. by rewrite Hf, Hv.
Qed.

(** The walk never fails on an input the scanner accepts: [document]
    gives a value whenever [checkValid] finds no error. *)
Theorem document_total data :
  Forall in_range data → scanner.checkValid data = None → is_Some (document data).
Proof.
  intros Hr Hc. unfold scanner.checkValid in Hc. unfold document.
  destruct (scanner.run scanner.reset data) as [ops s] eqn:E.
  destruct (scanner.err s) eqn:He; [discriminate|].
  destruct (run_inv data _ _ Inv_reset Hr) as (b & Hb & HI); [by rewrite E|].
  rewrite E in Hb, HI. cbn in Hb. rewrite Hb. cbn [mbind option_bind].
  apply not_eq_None_Some.
  unfold scanner.eof in Hc. rewrite He in Hc.
  destruct (scanner.endTop s) eqn:Ht; [by apply (Inv_end s b)|].
  destruct (scanner.endTop (scanner.step_fn s 0x20).2) eqn:Ht1.
  - destruct (space_end s He Ht Ht1) as [Hop He1].
    pose proof (step_inv s b 0x20 HI ltac:(unfold in_range; lia) He1) as (b1 & Hb1 & HI1).
    rewrite Hop in Hb1. cbn in Hb1. destruct (close_lit b) as [b2|] eqn:Hcl; [|done].
    injection Hb1 as <-. pose proof (Inv_end _ _ HI1 Ht1) as Hend.
    rewrite close_none in Hend; [|by destruct HI1 as (_ & Ht2 & _ & Hm); rewrite (Ht2 Ht1) in Hm; apply Hm].
    cbn in Hend. cbn. exact Hend.
  - revert Hc. cbv zeta. repeat case_match; simplify_eq; cbn; congruence.
Qed.

Lemma bytes_in_range s : Forall in_range (Prelude.bytes s).
Proof. induction s; constructor; [apply bv_range|done]. Qed.
