(* ===== verification/JsonRoundTrip.v ===== *)
(** * The encoder and the decoder of [encoding/json] against each other

    [ForbiddenJSON] writes with [json.Marshal] ([Json.v]) and
    [getTLSConfig] reads with [json.Unmarshal] ([JsonDecode.v]); this
    file puts the two together for every value the encoder can be given
    whose strings are ASCII: strings, arrays, and maps with string keys
    ([json.goval]), nested to any depth.

    - [to_jvalue]: the document a value should decode to (a map's
      members in key order, the order [mapEncoder] sorts them in);
      [depth]: how deep arrays and maps nest.
    - [reads e v d]: from every scanner state that expects a value, with
      [d] more levels of nesting within [maxNestingDepth], the scanner
      runs over the bytes [e] without error and ends after the value,
      and the walk of [decode.go] over its op codes completes [v].
      [fails e d]: with more than the limit, the scanner stops inside
      [e] on the "exceeded max depth" error.
    - Byte-level lemmas for each piece of the encoder's output (a
      quoted string, [[], [,], []], [{], a key and [:], [}]) and the
      induction over values ([goval_ind']) give [marshal_reads] and
      [marshal_fails].

    Theorems: [Marshal_roundtrip] (within the limit, [checkValid]
    accepts the output of [Marshal] and [document] gives back the
    value) and [Marshal_too_deep] (beyond it, [checkValid] rejects the
    output with the depth error, though [Marshal] accepted the value). *)
From S2P Require Import Prelude GoStrings Json JsonDecode.
Import decode.

(** ** The values the encoder writes and the decoder reads *)

(** [json.Marshal] writes the entries of a map ordered by key; the
    decoded object lists its members in that order. *)
Fixpoint insert_by_key {A} (kv : string * A) (kvs : list (string * A)) : list (string * A) :=
  match kvs with
  | [] => [kv]
  | kv' :: kvs' => if String.ltb kv'.1 kv.1 then kv' :: insert_by_key kv kvs' else kv :: kv' :: kvs'
  end.

Definition sort_by_key {A} (kvs : list (string * A)) : list (string * A) :=
  fold_right insert_by_key [] kvs.

(** The document a Go value should decode to. *)
Fixpoint to_jvalue (g : json.goval) : jvalue :=
  match g with
  | json.GString s => JString (bytes s)
  | json.GArray xs => JArray (map to_jvalue xs)
  | json.GMap kvs =>
    JObject (map (λ kv, (bytes kv.1, kv.2)) (sort_by_key (map (λ kv, (kv.1, to_jvalue kv.2)) kvs)))
  | json.GUnsupported _ => JNull
  end.

(** The nesting depth of arrays and maps. *)
Fixpoint depth (g : json.goval) : nat :=
  match g with
  | json.GArray xs => S (list_max (map depth xs))
  | json.GMap kvs => S (list_max (map (λ kv, depth kv.2) kvs))
  | _ => 0
  end.

Definition ascii_str (s : string) : bool := forallb (λ b, b <? 0x80) (bytes s).

Lemma ascii_str_Forall s : ascii_str s = true ↔ Forall (λ b, b < 0x80) (bytes s).
Proof.
  unfold ascii_str. induction (bytes s) as [|b l IH]; cbn; [split; by constructor|].
  rewrite andb_true_iff, Z.ltb_lt, IH, Forall_cons. done.
Qed.

(** A value the encoder accepts whose strings and keys are ASCII. *)
Fixpoint encodable (g : json.goval) : bool :=
  match g with
  | json.GString s => ascii_str s
  | json.GArray xs => forallb encodable xs
  | json.GMap kvs => forallb (λ kv, ascii_str kv.1 && encodable kv.2) kvs
  | json.GUnsupported _ => false
  end.

(** A value nested [n] arrays deep. *)
Definition nested (n : nat) (g : json.goval) : json.goval := Nat.iter n (λ x, json.GArray [x]) g.

(** Induction on Go values, with the hypothesis for every element of
    an array and every value of a map. *)
Lemma goval_ind' (P : json.goval → Prop) :
  (∀ s, P (json.GString s)) →
  (∀ xs, Forall P xs → P (json.GArray xs)) →
  (∀ kvs, Forall (λ kv, P kv.2) kvs → P (json.GMap kvs)) →
  (∀ t, P (json.GUnsupported t)) →
  ∀ g, P g.
Proof.
  intros Hs Ha Hm Hu. fix IH 1. intros [s|xs|kvs|t].
  - apply Hs.
  - apply Ha. induction xs as [|x xs IHxs]; constructor; [apply IH | apply IHxs].
  - apply Hm. induction kvs as [|kv kvs IHkvs]; constructor; [apply IH | apply IHkvs].
  - apply Hu.
Qed.

(** [sort_entries] of the encoder is [sort_by_key], and sorting by key
    commutes with a change of the entries that keeps their keys. *)
Lemma insert_entry_by_key kv l : json.insert_entry kv l = insert_by_key kv l.
Proof. induction l as [|kv' l IH]; cbn; [done|]. by rewrite IH. Qed.

Lemma sort_entries_by_key kvs : json.sort_entries kvs = sort_by_key kvs.
Proof.
  unfold json.sort_entries, sort_by_key. induction kvs as [|kv kvs IH]; [done|].
  cbn. by rewrite IH, insert_entry_by_key.
Qed.

Lemma sort_by_key_map {A B} (F : string * A → B) L :
  sort_by_key (map (λ t, (t.1, F t)) L) = map (λ t, (t.1, F t)) (sort_by_key L).
Proof.
  unfold sort_by_key. induction L as [|t L IH]; [done|]. cbn. rewrite IH.
  generalize (fold_right insert_by_key [] L). intros l. induction l as [|t' l IHl]; cbn; [done|].
  destruct (String.ltb t'.1 t.1); cbn; by rewrite ?IHl.
Qed.

Lemma sort_by_key_Forall {A} (P : string * A → Prop) L : Forall P L → Forall P (sort_by_key L).
Proof.
  unfold sort_by_key. induction 1 as [|t L Ht HL IH]; cbn; [done|].
  revert IH. generalize (fold_right insert_by_key [] L). intros l Hl. induction Hl; cbn; [by constructor|].
  destruct (String.ltb _ _); constructor; auto.
Qed.

(** ** Scanner states around one value *)

Definition value_state (f : scanner.stepfn) : Prop :=
  f = scanner.stateBeginValue ∨ f = scanner.stateBeginValueOrEmpty.

Definition string_state (f : scanner.stepfn) : Prop :=
  value_state f ∨ f = scanner.stateBeginString ∨ f = scanner.stateBeginStringOrEmpty.

Definition no_error (ops : list (Z * scanner.scanop)) : Prop :=
  Forall (λ x, x.2 ≠ scanner.scanError) ops.

(** After a value: no error, the same parse stack, and the scanner
    waits for what follows the value (or, at the top, has ended). *)
Definition ended_at (ps : list scanner.parse) (s' : scanner.scanner) : Prop :=
  scanner.err s' = None ∧ scanner.parseState s' = ps ∧
  (scanner.step s' = scanner.stateEndValue ∨
   ps = [] ∧ scanner.step s' = scanner.stateEndTop ∧ scanner.endTop s' = true).

Definition ended (s s' : scanner.scanner) : Prop := ended_at (scanner.parseState s) s'.

(** The walk over [ops] leaves the value [v] completed, not yet placed. *)
Definition yields (ops : list (Z * scanner.scanop)) (v : jvalue) : Prop :=
  ∀ b, lit b = None → last b = None →
  ∃ b', build b ops = Some b' ∧ close_lit b' = Some (mkBuilder (stack b) None (Some v)).

(** The bytes [e] are read as the value [v] from every state that
    expects a value, when [d] more levels of nesting fit. *)
Definition reads (e : list Z) (v : jvalue) (d : nat) : Prop :=
  ∀ s, value_state (scanner.step s) → scanner.err s = None →
  Z.of_nat (length (scanner.parseState s) + d) <= scanner.maxNestingDepth →
  ∃ ops s', scanner.run s e = (ops, s') ∧ no_error ops ∧ ended s s' ∧ yields ops v.

Lemma reads_mono e v d d' : reads e v d → (d ≤ d')%nat → reads e v d'.
Proof. intros H Hd s Hs He Hl. apply H; [done | done | lia]. Qed.

Lemma no_error_app o1 o2 : no_error o1 → no_error o2 → no_error (o1 ++ o2).
Proof. apply Forall_app_2. Qed.

(** ** Strings *)

Lemma run_appendString x s :
  ascii_str x = true → string_state (scanner.step s) → scanner.err s = None →
  ∃ ops s', scanner.run s (bytes (json.appendString x)) = (ops, s') ∧ no_error ops ∧
    scanner.err s' = None ∧ scanner.parseState s' = scanner.parseState s ∧
    scanner.step s' = scanner.stateEndValue ∧ yields ops (JString (bytes x)).
Proof.
  intros Hx Hs He. apply ascii_str_Forall in Hx as Hx'.
  unfold json.appendString. rewrite !bytes_app. cbn [json.str1 json.dq bytes]. change (bv _) with 0x22.
  set (body := bytes (json.string_body (String.length x) x)).
  set (s1 := scanner.mk scanner.stateInString (scanner.endTop s) (scanner.parseState s) (scanner.err s)
               (scanner.bytes s + 1)).
  assert (H0 : scanner.run s [0x22] = ([(0x22, scanner.scanBeginLiteral)], s1)).
  { destruct s as [st et ps er bc]; cbn in *.
    destruct Hs as [[-> | ->] | [-> | ->]]; reflexivity. }
  pose proof (run_string_body x s1 Hx' eq_refl) as Hb. fold body in Hb.
  rewrite (run_app _ _ _ _ _ H0) by (repeat constructor; discriminate).
  rewrite (run_quoted _ _ _ Hb eq_refl). cbn [scanner.run fst snd].
  eexists _, _. split_and!; [reflexivity | | done | done | done |].
  - constructor; [discriminate|]. rewrite app_nil_r.
    apply no_error_app; [apply conts_ok | repeat constructor; discriminate].
  - intros [st [l|] lst] Hl Hlast; cbn in Hl, Hlast; [done|]. subst lst. rewrite app_nil_r.
    cbn [build build_step close_lit lit stack last mbind option_bind].
    rewrite build_app. cbn [build build_step close_lit lit stack last mbind option_bind app].
    rewrite build_app, build_conts. cbn. eexists. split; [reflexivity|]. cbn.
    rewrite rev_quoted. unfold body. by rewrite literal_appendString.
Qed.

Lemma reads_string x d : ascii_str x = true → reads (bytes (json.appendString x)) (JString (bytes x)) d.
Proof.
  intros Hx s Hs He _. destruct (run_appendString x s Hx (or_introl Hs) He) as (ops & s' & ? & ? & ? & ? & ? & ?).
  exists ops, s'. split_and!; [done | done | | done]. split_and!; [done | done | by left].
Qed.

(** The literal [null], which [json.Marshal] does not write for these
    values but a configuration may hold. *)
Lemma reads_null d : reads (bytes "null") JNull d.
Proof.
  intros [st et ps er bc] Hs He Hd. cbn in Hs, He. subst er.
  destruct Hs as [-> | ->]; (eexists _, _; split_and!;
    [reflexivity | repeat constructor; discriminate | split_and!; [done | done | by left] |]);
    intros [stk l lst] Hl Hlast; cbn in Hl, Hlast; subst; eexists; split; reflexivity.
Qed.

(** ** Arrays and objects, byte by byte *)

Lemma run_seq s a b o1 s1 o2 s2 :
  scanner.run s a = (o1, s1) → no_error o1 → scanner.run s1 b = (o2, s2) →
  scanner.run s (a ++ b) = (o1 ++ o2, s2).
Proof. intros H1 Hn H2. by rewrite (run_app _ _ _ _ _ H1 Hn), H2. Qed.

Lemma ended_pop ps s :
  scanner.err s = None → (∃ p, scanner.parseState s = p :: ps) → ended_at ps (scanner.popParseState s).
Proof.
  intros He [p Hp]. unfold scanner.popParseState. rewrite Hp.
  destruct ps as [|p' ps]; cbn; split_and!; auto.
Qed.

Lemma ended_value p ps s : ended_at (p :: ps) s → scanner.step s = scanner.stateEndValue.
Proof. by intros (_ & _ & [? | (? & _)]). Qed.

(** One byte after a value inside an array: [','] or [']']. *)
Lemma run_array_comma s ps :
  scanner.step s = scanner.stateEndValue → scanner.parseState s = scanner.parseArrayValue :: ps →
  scanner.run s [0x2C] = ([(0x2C, scanner.scanArrayValue)],
    scanner.mk scanner.stateBeginValue (scanner.endTop s) (scanner.parseState s) (scanner.err s) (scanner.bytes s + 1)).
Proof. destruct s as [st et pst er bc]; cbn; intros -> ->. reflexivity. Qed.

Lemma run_array_close s ps :
  scanner.step s = scanner.stateEndValue ∨ scanner.step s = scanner.stateBeginValueOrEmpty →
  scanner.parseState s = scanner.parseArrayValue :: ps →
  scanner.run s [0x5D] = ([(0x5D, scanner.scanEndArray)], scanner.popParseState (bump 1 s)).
Proof. destruct s as [st et pst er bc]; cbn; intros [-> | ->] ->; reflexivity. Qed.

Lemma run_open_array s :
  value_state (scanner.step s) →
  Z.of_nat (S (length (scanner.parseState s))) <= scanner.maxNestingDepth →
  scanner.run s [0x5B] = ([(0x5B, scanner.scanBeginArray)],
    scanner.mk scanner.stateBeginValueOrEmpty (scanner.endTop s) (scanner.parseArrayValue :: scanner.parseState s)
      (scanner.err s) (scanner.bytes s + 1)).
Proof.
  destruct s as [st et pst er bc]; cbn. intros Hs Hd.
  destruct Hs as [-> | ->]; cbn; unfold scanner.pushParseState; cbn;
    by rewrite (proj2 (Z.leb_le _ _) Hd).
Qed.

(** The walk places a completed element and closes the array. *)
Lemma build_place_array b acc st v :
  close_lit b = Some (mkBuilder (FArray acc :: st) None (Some v)) →
  build b [(0x2C, scanner.scanArrayValue)] = Some (mkBuilder (FArray (v :: acc) :: st) None None) ∧
  build b [(0x5D, scanner.scanEndArray)] = Some (mkBuilder st None (Some (JArray (rev acc ++ [v])))).
Proof. intros Hb. cbn. rewrite Hb. done. Qed.

Section Elements.
Context (d : nat).

Lemma read_elems xs es :
  Forall2 (λ x e, reads (bytes e) (to_jvalue x) d) xs es → es ≠ [] →
  ∀ s ps, value_state (scanner.step s) → scanner.parseState s = scanner.parseArrayValue :: ps →
  scanner.err s = None → Z.of_nat (length (scanner.parseArrayValue :: ps) + d) <= scanner.maxNestingDepth →
  ∃ ops s', scanner.run s (bytes (json.join_comma es) ++ [0x5D]) = (ops, s') ∧ no_error ops ∧
    ended_at ps s' ∧
    ∀ st acc, build (mkBuilder (FArray acc :: st) None None) ops =
      Some (mkBuilder st None (Some (JArray (rev acc ++ map to_jvalue xs)))).
Proof.
  induction 1 as [|x e xs es Hxe Hrest IH]; intros Hne s ps Hs Hps He Hd; [done|].
  rewrite <- Hps in Hd. destruct (Hxe s Hs He Hd) as (o1 & s1 & Hr1 & Hn1 & Hend1 & Hy1).
  unfold ended in Hend1. rewrite Hps in Hend1.
  pose proof (ended_value _ _ _ Hend1) as Hstep1. destruct Hend1 as (He1 & Hps1 & _).
  destruct es as [|e' es].
  - inversion Hrest; subst. cbn [json.join_comma].
    rewrite (run_seq _ _ _ _ _ _ _ Hr1 Hn1 (run_array_close _ _ (or_introl Hstep1) Hps1)).
    eexists _, _. split_and!; [reflexivity | apply no_error_app; [done | repeat constructor; discriminate] | |].
    + apply ended_pop; [by destruct s1 | exists scanner.parseArrayValue; by destruct s1].
    + intros st acc. rewrite build_app. destruct (Hy1 (mkBuilder (FArray acc :: st) None None) eq_refl eq_refl) as (b' & -> & Hb'). cbn [mbind option_bind].
      by rewrite (proj2 (build_place_array _ _ _ _ Hb')).
  - change (json.join_comma (e :: e' :: es)) with (e +:+ "," +:+ json.join_comma (e' :: es)).
    rewrite !bytes_app. change (bytes ",") with [0x2C].
    rewrite <- !app_assoc.
    set (t2 := scanner.mk scanner.stateBeginValue (scanner.endTop s1) (scanner.parseState s1) (scanner.err s1)
                 (scanner.bytes s1 + 1)).
    destruct (IH ltac:(done) t2 ps ltac:(by left) Hps1 He1 ltac:(rewrite <- Hps; exact Hd))
      as (o2 & s2 & Hr2 & Hn2 & Hend2 & Hy2).
    rewrite (run_seq _ _ _ _ _ _ _ Hr1 Hn1
               (run_seq _ [0x2C] _ _ _ _ _ (run_array_comma _ _ Hstep1 Hps1) ltac:(repeat constructor; discriminate) Hr2)).
    eexists _, _. split_and!; [reflexivity | | done |].
    + apply no_error_app; [done|]. constructor; [discriminate | done].
    + intros st acc. rewrite build_app. destruct (Hy1 (mkBuilder (FArray acc :: st) None None) eq_refl eq_refl) as (b' & -> & Hb'). cbn [mbind option_bind].
      change ((0x2C, scanner.scanArrayValue) :: o2) with ([(0x2C, scanner.scanArrayValue)] ++ o2).
      rewrite build_app, (proj1 (build_place_array _ _ _ _ Hb')). cbn [mbind option_bind].
      rewrite Hy2. cbn. by rewrite <- app_assoc.
Qed.
(** One member of an object: its key, [':'] and its value. *)
Lemma read_entry k v e s ps :
  ascii_str k = true → reads (bytes e) v d →
  scanner.step s = scanner.stateBeginString ∨ scanner.step s = scanner.stateBeginStringOrEmpty →
  scanner.parseState s = scanner.parseObjectKey :: ps → scanner.err s = None →
  Z.of_nat (length (scanner.parseObjectKey :: ps) + d) <= scanner.maxNestingDepth →
  ∃ ops s', scanner.run s (bytes (json.appendString k +:+ ":" +:+ e)) = (ops, s') ∧ no_error ops ∧
    ended_at (scanner.parseObjectValue :: ps) s' ∧
    ∀ st ms, ∃ b', build (mkBuilder (FObject ms None :: st) None None) ops = Some b' ∧
      close_lit b' = Some (mkBuilder (FObject ms (Some (bytes k)) :: st) None (Some v)).
Proof.
  intros Hk Hv Hs Hps He Hd.
  destruct (run_appendString k s Hk ltac:(unfold string_state; tauto) He)
    as (o1 & s1 & Hr1 & Hn1 & He1 & Hps1 & Hst1 & Hy1).
  rewrite Hps in Hps1.
  set (t2 := scanner.mk scanner.stateBeginValue (scanner.endTop s1) (scanner.parseObjectValue :: ps)
               (scanner.err s1) (scanner.bytes s1 + 1)).
  assert (Hc : scanner.run s1 [0x3A] = ([(0x3A, scanner.scanObjectKey)], t2)).
  { unfold t2. destruct s1 as [st et pst er bc]; cbn in *. by subst. }
  destruct (Hv t2 ltac:(by left) He1 ltac:(exact Hd)) as (o2 & s2 & Hr2 & Hn2 & Hend2 & Hy2).
  rewrite !bytes_app. change (bytes ":") with [0x3A].
  rewrite (run_seq _ _ _ _ _ _ _ Hr1 Hn1 (run_seq _ [0x3A] _ _ _ _ _ Hc ltac:(repeat constructor; discriminate) Hr2)).
  eexists _, _. split_and!; [reflexivity | | exact Hend2 |].
  - apply no_error_app; [done|]. constructor; [discriminate | done].
  - intros st ms. rewrite build_app. destruct (Hy1 (mkBuilder (FObject ms None :: st) None None) eq_refl eq_refl)
      as (b1 & -> & Hb1). cbn [mbind option_bind].
    change ((0x3A, scanner.scanObjectKey) :: o2) with ([(0x3A, scanner.scanObjectKey)] ++ o2).
    rewrite build_app. cbn [build build_step]. rewrite Hb1. cbn [mbind option_bind stack last].
    exact (Hy2 (mkBuilder (FObject ms (Some (bytes k)) :: st) None None) eq_refl eq_refl).
Qed.

Lemma run_object_next s ps :
  scanner.step s = scanner.stateEndValue → scanner.parseState s = scanner.parseObjectValue :: ps →
  scanner.run s [0x2C] = ([(0x2C, scanner.scanObjectValue)],
    scanner.mk scanner.stateBeginString (scanner.endTop s) (scanner.parseObjectKey :: ps) (scanner.err s)
      (scanner.bytes s + 1)) ∧
  scanner.run s [0x7D] = ([(0x7D, scanner.scanEndObject)], scanner.popParseState (bump 1 s)).
Proof. destruct s as [st et pst er bc]; cbn; intros -> ->. split; reflexivity. Qed.

(** The walk places a completed member and closes the object. *)
Lemma build_place_object b ms k st v :
  close_lit b = Some (mkBuilder (FObject ms (Some k) :: st) None (Some v)) →
  build b [(0x2C, scanner.scanObjectValue)] = Some (mkBuilder (FObject ((k, v) :: ms) None :: st) None None) ∧
  build b [(0x7D, scanner.scanEndObject)] = Some (mkBuilder st None (Some (JObject (rev ms ++ [(k, v)])))).
Proof. intros Hb. cbn. rewrite Hb. done. Qed.

Definition entry_text (t : string * (json.goval * string)) : string := json.appendString t.1 +:+ ":" +:+ t.2.2.

Lemma read_members S :
  Forall (λ t, ascii_str t.1 = true ∧ reads (bytes t.2.2) (to_jvalue t.2.1) d) S → S ≠ [] →
  ∀ s ps, scanner.step s = scanner.stateBeginString ∨ scanner.step s = scanner.stateBeginStringOrEmpty →
  scanner.parseState s = scanner.parseObjectKey :: ps →
  scanner.err s = None → Z.of_nat (length (scanner.parseObjectKey :: ps) + d) <= scanner.maxNestingDepth →
  ∃ ops s', scanner.run s (bytes (json.join_comma (map entry_text S)) ++ [0x7D]) = (ops, s') ∧ no_error ops ∧
    ended_at ps s' ∧
    ∀ st ms, build (mkBuilder (FObject ms None :: st) None None) ops =
      Some (mkBuilder st None (Some (JObject (rev ms ++ map (λ t, (bytes t.1, to_jvalue t.2.1)) S)))).
Proof.
  induction 1 as [|t S [Hk Ht] Hrest IH]; intros Hne s ps Hs Hps He Hd; [done|].
  destruct (read_entry t.1 (to_jvalue t.2.1) t.2.2 s ps Hk Ht Hs Hps He Hd) as (o1 & s1 & Hr1 & Hn1 & Hend1 & Hy1).
  fold (entry_text t) in Hr1.
  pose proof (ended_value _ _ _ Hend1) as Hst1. destruct Hend1 as (He1 & Hps1 & _).
  destruct (run_object_next s1 ps Hst1 Hps1) as [Hcomma Hclose].
  destruct S as [|t' S].
  - cbn [map json.join_comma].
    rewrite (run_seq _ _ _ _ _ _ _ Hr1 Hn1 Hclose).
    eexists _, _. split_and!; [reflexivity | apply no_error_app; [done | repeat constructor; discriminate] | |].
    + apply ended_pop; [by destruct s1 | exists scanner.parseObjectValue; by destruct s1].
    + intros st ms. rewrite build_app. destruct (Hy1 st ms) as (b' & -> & Hb'). cbn [mbind option_bind].
      by rewrite (proj2 (build_place_object _ _ _ _ _ Hb')).
  - change (json.join_comma (map entry_text (t :: t' :: S)))
      with (entry_text t +:+ "," +:+ json.join_comma (map entry_text (t' :: S))).
    rewrite !bytes_app. change (bytes ",") with [0x2C]. rewrite <- !app_assoc.
    set (t2 := scanner.mk scanner.stateBeginString (scanner.endTop s1) (scanner.parseObjectKey :: ps)
                 (scanner.err s1) (scanner.bytes s1 + 1)).
    destruct (IH ltac:(done) t2 ps ltac:(by left) eq_refl He1 Hd) as (o2 & s2 & Hr2 & Hn2 & Hend2 & Hy2).
    rewrite (run_seq _ _ _ _ _ _ _ Hr1 Hn1
               (run_seq _ [0x2C] _ _ _ _ _ Hcomma
                  ltac:(repeat constructor; discriminate) Hr2)).
    eexists _, _. split_and!; [reflexivity | | done |].
    + apply no_error_app; [done|]. constructor; [discriminate | done].
    + intros st ms. rewrite build_app. destruct (Hy1 st ms) as (b' & -> & Hb'). cbn [mbind option_bind].
      change ((0x2C, scanner.scanObjectValue) :: o2) with ([(0x2C, scanner.scanObjectValue)] ++ o2).
      rewrite build_app, (proj1 (build_place_object _ _ _ _ _ Hb')). cbn [mbind option_bind].
      rewrite Hy2. cbn. by rewrite <- app_assoc.
Qed.
End Elements.

Lemma run_open_object s :
  value_state (scanner.step s) →
  Z.of_nat (S (length (scanner.parseState s))) <= scanner.maxNestingDepth →
  scanner.run s [0x7B] = ([(0x7B, scanner.scanBeginObject)],
    scanner.mk scanner.stateBeginStringOrEmpty (scanner.endTop s) (scanner.parseObjectKey :: scanner.parseState s)
      (scanner.err s) (scanner.bytes s + 1)).
Proof.
  destruct s as [st et pst er bc]; cbn. intros Hs Hd.
  destruct Hs as [-> | ->]; cbn; unfold scanner.pushParseState; cbn;
    by rewrite (proj2 (Z.leb_le _ _) Hd).
Qed.

Lemma run_object_empty s ps :
  scanner.step s = scanner.stateBeginStringOrEmpty → scanner.parseState s = scanner.parseObjectKey :: ps →
  scanner.run s [0x7D] = ([(0x7D, scanner.scanEndObject)],
    scanner.popParseState (scanner.set_parseState (scanner.parseObjectValue :: ps) (bump 1 s))).
Proof. destruct s as [st et pst er bc]; cbn; intros -> ->. reflexivity. Qed.

(** An array of values each read back is read back. *)
Lemma reads_array xs es d :
  Forall2 (λ x e, reads (bytes e) (to_jvalue x) d) xs es →
  reads (bytes ("[" +:+ json.join_comma es +:+ "]")) (JArray (map to_jvalue xs)) (S d).
Proof.
  intros Hxs s Hs He Hd. rewrite !bytes_app. change (bytes "[") with [0x5B]. change (bytes "]") with [0x5D].
  assert (Ho := run_open_array s Hs ltac:(lia)).
  set (s1 := scanner.mk scanner.stateBeginValueOrEmpty _ _ _ _) in Ho.
  destruct es as [|e es].
  - inversion Hxs; subst. change (bytes (json.join_comma [])) with (@nil Z). rewrite app_nil_l.
    rewrite (run_seq _ [0x5B] _ _ _ _ _ Ho ltac:(repeat constructor; discriminate)
               (run_array_close s1 _ (or_intror eq_refl) eq_refl)).
    eexists _, _. split_and!; [reflexivity | repeat constructor; discriminate | |].
    + apply ended_pop; [done | by eexists].
    + intros b Hl Hlast. destruct b as [st l lst]; cbn in Hl, Hlast; subst.
      eexists. split; [reflexivity | done].
  - destruct (read_elems d xs (e :: es) Hxs ltac:(done) s1 (scanner.parseState s) ltac:(by right) eq_refl He
                ltac:(cbn in Hd |- *; lia)) as (o & s' & Hr & Hn & Hend & Hy).
    rewrite (run_seq _ [0x5B] _ _ _ _ _ Ho ltac:(repeat constructor; discriminate) Hr).
    eexists _, _. split_and!; [reflexivity | constructor; [discriminate | done] | exact Hend |].
    intros b Hl Hlast. destruct b as [st l lst]; cbn in Hl, Hlast; subst.
    rewrite build_app. cbn [build build_step close_lit lit stack mbind option_bind]. rewrite Hy.
    eexists. split; [reflexivity | done].
Qed.

(** An object of members each read back is read back. *)
Lemma reads_object ms d :
  Forall (λ t, ascii_str t.1 = true ∧ reads (bytes t.2.2) (to_jvalue t.2.1) d) ms →
  reads (bytes ("{" +:+ json.join_comma (map entry_text ms) +:+ "}"))
        (JObject (map (λ t, (bytes t.1, to_jvalue t.2.1)) ms)) (S d).
Proof.
  intros HS s Hs He Hd. rewrite !bytes_app. change (bytes "{") with [0x7B]. change (bytes "}") with [0x7D].
  assert (Ho := run_open_object s Hs ltac:(lia)).
  set (s1 := scanner.mk scanner.stateBeginStringOrEmpty _ _ _ _) in Ho.
  destruct ms as [|t ms].
  - change (bytes (json.join_comma (map entry_text []))) with (@nil Z). rewrite app_nil_l.
    rewrite (run_seq _ [0x7B] _ _ _ _ _ Ho ltac:(repeat constructor; discriminate)
               (run_object_empty s1 _ eq_refl eq_refl)).
    eexists _, _. split_and!; [reflexivity | repeat constructor; discriminate | |].
    + apply ended_pop; [done | by eexists].
    + intros b Hl Hlast. destruct b as [st l lst]; cbn in Hl, Hlast; subst.
      eexists. split; [reflexivity | done].
  - destruct (read_members d (t :: ms) HS ltac:(done) s1 (scanner.parseState s) ltac:(by right) eq_refl He
                ltac:(cbn in Hd |- *; lia)) as (o & s' & Hr & Hn & Hend & Hy).
    rewrite (run_seq _ [0x7B] _ _ _ _ _ Ho ltac:(repeat constructor; discriminate) Hr).
    eexists _, _. split_and!; [reflexivity | constructor; [discriminate | done] | exact Hend |].
    intros b Hl Hlast. destruct b as [st l lst]; cbn in Hl, Hlast; subst.
    rewrite build_app. cbn [build build_step close_lit lit stack mbind option_bind]. rewrite Hy.
    eexists. split; [reflexivity | done].
Qed.

(** ** The encoder's output is read back *)

Lemma list_max_elem {A} (f : A → nat) l : Forall (λ x, f x ≤ list_max (map f l))%nat l.
Proof.
  induction l as [|x l IH]; [constructor|]. constructor; cbn; [apply Nat.le_max_l|].
  eapply Forall_impl; [exact IH|]. intros y Hy. etransitivity; [exact Hy | apply Nat.le_max_r].
Qed.

Lemma all_ok_Forall2 {A} (f : A → result json.MarshalError string) xs es :
  json.all_ok (map f xs) = Ok es → Forall2 (λ x e, f x = Ok e) xs es.
Proof.
  revert es. induction xs as [|x xs IH]; intros es H; cbn in H; [by injection H as <-|].
  destruct (f x) as [e|] eqn:Hf; [|done]. destruct (json.all_ok (map f xs)) as [es'|] eqn:Hes; [|done].
  injection H as <-. constructor; [done | by apply IH].
Qed.

Lemma all_ok_succeeds {A} (f : A → result json.MarshalError string) xs :
  Forall (λ x, ∃ e, f x = Ok e) xs → ∃ es, json.all_ok (map f xs) = Ok es.
Proof. induction 1 as [|x xs [e He] _ [es Hes]]; [by exists []|]. exists (e :: es). cbn. by rewrite He, Hes. Qed.

Lemma zip_fst_map {A B} (f : string * A → B) (L : list (string * A)) :
  zip (map fst L) (map f L) = map (λ t, (t.1, f t)) L.
Proof. induction L; cbn; by f_equal. Qed.

Lemma Forall2_with {A B} (P R : A → B → Prop) (Q : A → Prop) l k :
  Forall2 P l k → Forall Q l → (∀ x y, P x y → Q x → R x y) → Forall2 R l k.
Proof. induction 1; inversion 1; subst; constructor; eauto. Qed.

Lemma marshal_array_inv xs e :
  json.marshal (json.GArray xs) = Ok e →
  ∃ es, Forall2 (λ x e, json.marshal x = Ok e) xs es ∧ e = "[" +:+ json.join_comma es +:+ "]".
Proof.
  cbn. destruct (json.all_ok _) as [es|] eqn:Hes; [|done]. intros [= <-].
  exists es. split; [by apply all_ok_Forall2 | done].
Qed.

(** The entries of a map with their encodings, in key order. *)
Lemma marshal_map_inv kvs e :
  json.marshal (json.GMap kvs) = Ok e →
  ∃ L, map (λ t, (t.1, t.2.1)) L = kvs ∧ Forall (λ t, json.marshal t.2.1 = Ok t.2.2) L ∧
    e = "{" +:+ json.join_comma (map entry_text (sort_by_key L)) +:+ "}".
Proof.
  cbn -[json.appendString json.sort_entries].
  destruct (json.all_ok _) as [es|] eqn:Hes; [|done]. intros [= <-].
  apply all_ok_Forall2 in Hes.
  assert (∃ L, map (λ t, (t.1, t.2.1)) L = kvs ∧ Forall (λ t, json.marshal t.2.1 = Ok t.2.2) L ∧
            es = map entry_text L) as (L & <- & HL & ->).
  { induction Hes as [|kv x kvs es Hx _ (L & <- & HL & ->)]; [by exists []|].
    destruct (json.marshal kv.2) as [ev|] eqn:Hev; [|done]. injection Hx as <-.
    exists ((kv.1, (kv.2, ev)) :: L). split_and!; [by destruct kv | by constructor | done]. }
  exists L. split_and!; [done | done |].
  assert (Hk : map (λ kv : string * json.goval, kv.1) (map (λ t : string * (json.goval * string), (t.1, t.2.1)) L)
               = map (@fst string (json.goval * string)) L) by (rewrite map_map; reflexivity).
  by rewrite Hk, (zip_fst_map entry_text), sort_entries_by_key, (sort_by_key_map entry_text), map_map.
Qed.

Lemma to_jvalue_map (L : list (string * (json.goval * string))) :
  to_jvalue (json.GMap (map (λ t, (t.1, t.2.1)) L)) =
    JObject (map (λ t, (bytes t.1, to_jvalue t.2.1)) (sort_by_key L)).
Proof.
  cbn [to_jvalue].
  assert (E : map (λ kv : string * json.goval, (kv.1, to_jvalue kv.2)) (map (λ t, (t.1, t.2.1)) L) =
              map (λ t, (t.1, to_jvalue t.2.1)) L) by (rewrite map_map; by apply map_ext).
  by rewrite E, (sort_by_key_map (λ t, to_jvalue t.2.1)), map_map.
Qed.

Lemma marshal_ok g : encodable g = true → ∃ e, json.marshal g = Ok e.
Proof.
  induction g as [s|xs IH|kvs IH|t] using goval_ind'; cbn [encodable]; intros Hg; [by eexists | | | done];
    rewrite forallb_forall in Hg.
  - destruct (all_ok_succeeds json.marshal xs) as [es Hes].
    { rewrite Forall_forall in IH |- *. intros x Hx. apply IH; [done|]. apply Hg. by apply list_elem_of_In. }
    eexists. cbn. by rewrite Hes.
  - destruct (all_ok_succeeds (λ kv, e ← json.marshal kv.2; Ok (json.appendString kv.1 +:+ ":" +:+ e)) kvs)
      as [es Hes].
    { rewrite Forall_forall in IH |- *. intros kv Hkv. apply list_elem_of_In in Hkv as Hkv'.
      apply Hg, andb_true_iff in Hkv' as [_ Hv]. destruct (IH kv Hkv Hv) as [e He]. rewrite He. by eexists. }
    eexists. cbn -[json.appendString json.sort_entries]. by rewrite Hes.
Qed.

(** The hypotheses of a map's entries, carried to its entries in key order. *)
Lemma entries_Forall (P : json.goval → Prop) (Q : string * (json.goval * string) → Prop) L :
  Forall (λ t, json.marshal t.2.1 = Ok t.2.2) L →
  (∀ t, json.marshal t.2.1 = Ok t.2.2 → P t.2.1 → ascii_str t.1 = true → Q t) →
  Forall (λ kv, ascii_str kv.1 = true ∧ P kv.2) (map (λ t, (t.1, t.2.1)) L) →
  Forall Q (sort_by_key L).
Proof.
  intros HL HQ HP. apply sort_by_key_Forall. induction HL as [|t L Ht _ IH]; [done|].
  inversion HP as [|? ? [Hk Hv] HP']; subst. constructor; [by apply HQ | by apply IH].
Qed.

Lemma encodable_entries kvs : forallb (λ kv, ascii_str kv.1 && encodable kv.2) kvs = true →
  Forall (λ kv, ascii_str kv.1 = true ∧ encodable kv.2 = true) kvs.
Proof.
  rewrite forallb_forall. intros H. apply Forall_forall. intros kv Hkv.
  apply list_elem_of_In, H, andb_true_iff in Hkv. done.
Qed.

(** The hypotheses on the elements of an array or the values of a map,
    with the bound on their depth. *)
Lemma elems_bound {A} (f : A → json.goval) (P : json.goval → Prop) l :
  Forall (λ a, encodable (f a) = true → P (f a)) l → Forall (λ a, encodable (f a) = true) l →
  Forall (λ a, P (f a) ∧ (depth (f a) ≤ list_max (map (λ a, depth (f a)) l))%nat) l.
Proof.
  intros HP He. pose proof (list_max_elem (λ a, depth (f a)) l) as Hm.
  rewrite Forall_forall in HP, He, Hm |- *. intros a Ha. split; [by apply HP, He | by apply Hm].
Qed.

Lemma encodable_elems xs : forallb encodable xs = true → Forall (λ x, encodable x = true) xs.
Proof. rewrite forallb_forall. intros H. apply Forall_forall. intros x Hx. by apply H, list_elem_of_In. Qed.

Lemma marshal_reads g :
  encodable g = true → ∀ e, json.marshal g = Ok e → reads (bytes e) (to_jvalue g) (depth g).
Proof.
  induction g as [s|xs IH|kvs IH|t] using goval_ind'; cbn [encodable]; intros Hg e He; [| | |done].
  - injection He as <-. by apply reads_string.
  - destruct (marshal_array_inv xs e He) as (es & Hes & ->). cbn [depth map]. apply reads_array.
    pose proof (elems_bound id (λ v, ∀ e, json.marshal v = Ok e → reads (bytes e) (to_jvalue v) (depth v))
                  xs IH (encodable_elems xs Hg)) as Hb.
    eapply Forall2_with; [exact Hes | exact Hb|]. intros x ex Hx [Hr Hd]. eapply reads_mono; [exact (Hr _ Hx) | exact Hd].
  - destruct (marshal_map_inv kvs e He) as (L & <- & HL & ->). rewrite to_jvalue_map.
    cbn [depth]. apply reads_object.
    apply encodable_entries in Hg as Hg'. apply Forall_and in Hg' as [Hk Hv].
    pose proof (elems_bound snd (λ v, ∀ e, json.marshal v = Ok e → reads (bytes e) (to_jvalue v) (depth v))
                  _ IH Hv) as Hb.
    set (d := list_max (map (λ kv : string * json.goval, depth kv.2) (map (λ t, (t.1, t.2.1)) L))) in Hb |- *.
    apply (entries_Forall (λ v, (∀ e, json.marshal v = Ok e → reads (bytes e) (to_jvalue v) (depth v)) ∧
                                (depth v ≤ d)%nat));
      [done | | apply Forall_and; split; [exact Hk | exact Hb]].
    intros t Ht [Hr Hd] Hkt. split; [done|]. eapply reads_mono; [exact (Hr _ Ht) | exact Hd].
Qed.

Lemma eof_ended s : ended_at [] s → ∃ s', scanner.eof s = (scanner.scanEnd, s') ∧ scanner.err s' = None.
Proof.
  destruct s as [st et pst er bc]. intros (He & Hps & Hst); cbn in *; subst.
  unfold scanner.eof; cbn. destruct Hst as [-> | (_ & -> & ->)]; [destruct et|]; cbn; eauto.
Qed.

(** The decoder reads back what the encoder writes: for every Go
    value of ASCII strings, arrays and maps nested at most 10000 deep,
    [json.Marshal] succeeds, its output passes [checkValid], and the
    walk of [decode.go] over it gives the value's document, map entries
    in key order. *)
(** A text read as [v] from the start state, within the limit, is valid
    and decodes to [v]. *)
Lemma reads_document e v d :
  Z.of_nat d <= scanner.maxNestingDepth → reads e v d →
  scanner.checkValid e = None ∧ document e = Some v.
Proof.
  intros Hd Hr.
  destruct (Hr scanner.reset ltac:(by left) eq_refl Hd) as (ops & s' & Hrun & _ & Hend & Hy).
  unfold scanner.checkValid, document. rewrite Hrun.
  destruct (eof_ended s' Hend) as (s'' & -> & He'').
  destruct Hend as (-> & _). split; [done|].
  destruct (Hy (mkBuilder [] None None) eq_refl eq_refl) as (b' & -> & Hb'). cbn. by rewrite Hb'.
Qed.

Theorem Marshal_roundtrip g :
  encodable g = true → Z.of_nat (depth g) <= scanner.maxNestingDepth →
  ∃ e, json.Marshal g = Ok e ∧ scanner.checkValid (bytes e) = None ∧
    document (bytes e) = Some (to_jvalue g).
Proof.
  intros Hg Hd. destruct (marshal_ok g Hg) as [e He].
  exists e. split; [done|]. exact (reads_document _ _ _ Hd (marshal_reads g Hg e He)).
Qed.

(** ** Deeper than the scanner's limit *)

Definition too_deep (s : scanner.scanner) : Prop :=
  ∃ c off, scanner.err s = Some (scanner.mkSyntaxError (Some c) "exceeded max depth" off).

(** From every state within the limit that expects a value, with more
    than the limit of nesting, the scanner stops on the depth error
    inside [e]. *)
Definition fails (e : list Z) (d : nat) : Prop :=
  ∀ s rest, value_state (scanner.step s) → scanner.err s = None →
  Z.of_nat (length (scanner.parseState s)) <= scanner.maxNestingDepth →
  scanner.maxNestingDepth < Z.of_nat (length (scanner.parseState s) + d) →
  ∃ ops s', scanner.run s (e ++ rest) = (ops, s') ∧ too_deep s'.

Lemma run_open_deep s c rest :
  c = 0x5B ∨ c = 0x7B → value_state (scanner.step s) →
  scanner.maxNestingDepth < Z.of_nat (S (length (scanner.parseState s))) →
  ∃ s', scanner.run s (c :: rest) = ([(c, scanner.scanError)], s') ∧ too_deep s'.
Proof.
  destruct s as [st et pst er bc]; cbn. intros Hc Hs Hd.
  destruct Hc as [-> | ->]; destruct Hs as [-> | ->]; cbn; unfold scanner.pushParseState; cbn;
    rewrite (proj2 (Z.leb_gt _ _) Hd); cbn; eexists; (split; [reflexivity | by do 2 eexists]).
Qed.

Lemma list_max_Exists {A} (f : A → nat) l N k :
  N < Z.of_nat (k + list_max (map f l)) → Z.of_nat k <= N → Exists (λ x, N < Z.of_nat (k + f x)) l.
Proof.
  induction l as [|x l IH]; intros Hd Hk; [cbn in Hd; lia|].
  change (list_max (map f (x :: l))) with (Nat.max (f x) (list_max (map f l))) in Hd.
  destruct (Nat.max_spec (f x) (list_max (map f l))) as [[_ Heq] | [_ Heq]]; rewrite Heq in Hd;
    [right; by apply IH | left; lia].
Qed.

Lemma join_comma_split e es rest :
  ∃ tl, bytes (json.join_comma (e :: es)) ++ rest = bytes e ++ tl ∧
    (es = [] ∧ tl = rest ∨ ∃ e' es', es = e' :: es' ∧ tl = [0x2C] ++ bytes (json.join_comma es) ++ rest).
Proof.
  destruct es as [|e' es']; [exists rest; cbn; by split; [|left]|].
  change (json.join_comma (e :: e' :: es')) with (e +:+ "," +:+ json.join_comma (e' :: es')).
  eexists. rewrite !bytes_app, <- !app_assoc. split; [reflexivity|]. right. by do 2 eexists.
Qed.

Lemma fail_elems xs es :
  Forall2 (λ x e, reads (bytes e) (to_jvalue x) (depth x) ∧ fails (bytes e) (depth x)) xs es →
  ∀ s ps rest, value_state (scanner.step s) → scanner.parseState s = scanner.parseArrayValue :: ps →
  scanner.err s = None → Z.of_nat (length (scanner.parseArrayValue :: ps)) <= scanner.maxNestingDepth →
  Exists (λ x, scanner.maxNestingDepth < Z.of_nat (length (scanner.parseArrayValue :: ps) + depth x)) xs →
  ∃ ops s', scanner.run s (bytes (json.join_comma es) ++ rest) = (ops, s') ∧ too_deep s'.
Proof.
  induction 1 as [|x e xs es [Hr Hf] Hrest IH]; intros s ps rest Hs Hps He Hb Hex; [by inversion Hex|].
  destruct (join_comma_split e es rest) as (tl & -> & Htl).
  destruct (decide (scanner.maxNestingDepth < Z.of_nat (length (scanner.parseArrayValue :: ps) + depth x)))
    as [Hdeep|Hfit]; [apply (Hf s tl Hs He); by rewrite Hps|].
  destruct (Hr s Hs He ltac:(rewrite Hps; lia)) as (o1 & s1 & Hr1 & Hn1 & Hend1 & _).
  unfold ended in Hend1. rewrite Hps in Hend1.
  pose proof (ended_value _ _ _ Hend1) as Hst1. destruct Hend1 as (He1 & Hps1 & _).
  inversion Hex as [? ? Hx | ? ? Hex']; subst; [done|].
  destruct Htl as [[-> ->] | (e' & es' & -> & ->)]; [inversion Hrest; subst; by inversion Hex'|].
  set (t2 := scanner.mk scanner.stateBeginValue (scanner.endTop s1) (scanner.parseState s1) (scanner.err s1)
               (scanner.bytes s1 + 1)).
  destruct (IH t2 ps rest ltac:(by left) Hps1 He1 Hb Hex') as (o2 & s2 & Hr2 & Hdeep).
  eexists _, _. split; [|exact Hdeep].
  by rewrite (run_seq _ _ _ _ _ _ _ Hr1 Hn1
               (run_seq _ [0x2C] _ _ _ _ _ (run_array_comma _ _ Hst1 Hps1) ltac:(repeat constructor; discriminate) Hr2)).
Qed.

Lemma fail_entry k x e s ps rest :
  ascii_str k = true → fails (bytes e) (depth x) →
  scanner.step s = scanner.stateBeginString ∨ scanner.step s = scanner.stateBeginStringOrEmpty →
  scanner.parseState s = scanner.parseObjectKey :: ps → scanner.err s = None →
  Z.of_nat (length (scanner.parseObjectKey :: ps)) <= scanner.maxNestingDepth →
  scanner.maxNestingDepth < Z.of_nat (length (scanner.parseObjectKey :: ps) + depth x) →
  ∃ ops s', scanner.run s (bytes (json.appendString k +:+ ":" +:+ e) ++ rest) = (ops, s') ∧ too_deep s'.
Proof.
  intros Hk Hf Hs Hps He Hb Hd.
  destruct (run_appendString k s Hk ltac:(unfold string_state; tauto) He)
    as (o1 & s1 & Hr1 & Hn1 & He1 & Hps1 & Hst1 & _).
  rewrite Hps in Hps1.
  set (t2 := scanner.mk scanner.stateBeginValue (scanner.endTop s1) (scanner.parseObjectValue :: ps)
               (scanner.err s1) (scanner.bytes s1 + 1)).
  assert (Hc : scanner.run s1 [0x3A] = ([(0x3A, scanner.scanObjectKey)], t2)).
  { unfold t2. destruct s1 as [st et pst er bc]; cbn in *. by subst. }
  destruct (Hf t2 rest ltac:(by left) He1 Hb Hd) as (o2 & s2 & Hr2 & Hdeep).
  rewrite !bytes_app, <- !app_assoc. change (bytes ":") with [0x3A].
  eexists _, _. split; [|exact Hdeep].
  by rewrite (run_seq _ _ _ _ _ _ _ Hr1 Hn1 (run_seq _ [0x3A] _ _ _ _ _ Hc ltac:(repeat constructor; discriminate) Hr2)).
Qed.

Lemma fail_members (ms : list (string * (json.goval * string))) :
  Forall (λ t, ascii_str t.1 = true ∧ reads (bytes t.2.2) (to_jvalue t.2.1) (depth t.2.1) ∧
               fails (bytes t.2.2) (depth t.2.1)) ms →
  ∀ s ps rest, scanner.step s = scanner.stateBeginString ∨ scanner.step s = scanner.stateBeginStringOrEmpty →
  scanner.parseState s = scanner.parseObjectKey :: ps → scanner.err s = None →
  Z.of_nat (length (scanner.parseObjectKey :: ps)) <= scanner.maxNestingDepth →
  Exists (λ t, scanner.maxNestingDepth < Z.of_nat (length (scanner.parseObjectKey :: ps) + depth t.2.1)) ms →
  ∃ ops s', scanner.run s (bytes (json.join_comma (map entry_text ms)) ++ rest) = (ops, s') ∧ too_deep s'.
Proof.
  induction 1 as [|t ms (Hk & Hr & Hf) Hrest IH]; intros s ps rest Hs Hps He Hb Hex; [by inversion Hex|].
  cbn [map]. destruct (join_comma_split (entry_text t) (map entry_text ms) rest) as (tl & -> & Htl).
  destruct (decide (scanner.maxNestingDepth < Z.of_nat (length (scanner.parseObjectKey :: ps) + depth t.2.1)))
    as [Hdeep|Hfit]; [exact (fail_entry t.1 t.2.1 t.2.2 s ps tl Hk Hf Hs Hps He Hb Hdeep)|].
  destruct (read_entry _ t.1 (to_jvalue t.2.1) t.2.2 s ps Hk Hr Hs Hps He ltac:(lia))
    as (o1 & s1 & Hr1 & Hn1 & Hend1 & _).
  fold (entry_text t) in Hr1.
  pose proof (ended_value _ _ _ Hend1) as Hst1. destruct Hend1 as (He1 & Hps1 & _).
  inversion Hex as [? ? Hx | ? ? Hex']; subst; [done|].
  destruct Htl as [[Hnil ->] | (e' & es' & Hcons & ->)];
    [destruct ms; [by inversion Hex' | done]|].
  set (t2 := scanner.mk scanner.stateBeginString (scanner.endTop s1) (scanner.parseObjectKey :: ps)
               (scanner.err s1) (scanner.bytes s1 + 1)).
  destruct (IH t2 ps rest ltac:(by left) eq_refl He1 Hb Hex') as (o2 & s2 & Hr2 & Hdeep).
  eexists _, _. split; [|exact Hdeep].
  by rewrite (run_seq _ _ _ _ _ _ _ Hr1 Hn1
               (run_seq _ [0x2C] _ _ _ _ _ (proj1 (run_object_next s1 ps Hst1 Hps1))
                  ltac:(repeat constructor; discriminate) Hr2)).
Qed.

Lemma insert_by_key_Exists {A} (P : string * A → Prop) kv l :
  Exists P (insert_by_key kv l) ↔ P kv ∨ Exists P l.
Proof.
  induction l as [|kv' l IH]; cbn; [rewrite Exists_cons, Exists_nil; tauto|].
  destruct (String.ltb _ _); rewrite !Exists_cons; [rewrite IH|]; tauto.
Qed.

Lemma sort_by_key_Exists {A} (P : string * A → Prop) L : Exists P L → Exists P (sort_by_key L).
Proof.
  unfold sort_by_key. induction L as [|t L IH]; cbn; [done|].
  rewrite Exists_cons, insert_by_key_Exists. tauto.
Qed.

(** The hypotheses on a value's parts, to read it back and to fail on
    it when it is too deep. *)
Lemma parts_ok (x : json.goval) :
  encodable x = true → (encodable x = true → ∀ e, json.marshal x = Ok e → fails (bytes e) (depth x)) →
  ∀ e, json.marshal x = Ok e → reads (bytes e) (to_jvalue x) (depth x) ∧ fails (bytes e) (depth x).
Proof. intros Hx Hf e He. split; [by apply marshal_reads | by apply Hf]. Qed.

Lemma marshal_fails g :
  encodable g = true → ∀ e, json.marshal g = Ok e → fails (bytes e) (depth g).
Proof.
  induction g as [str|xs IH|kvs IH|t] using goval_ind'; cbn [encodable]; intros Hg e He s rest Hs Herr Hb Hd;
    [cbn in Hd; lia | | | done].
  - destruct (marshal_array_inv xs e He) as (es & Hes & ->).
    rewrite !bytes_app, <- !app_assoc. change (bytes "[") with [0x5B]. change (bytes "]") with [0x5D].
    destruct (decide (scanner.maxNestingDepth < Z.of_nat (S (length (scanner.parseState s))))) as [Hdeep|Hfit].
    { destruct (run_open_deep s 0x5B (bytes (json.join_comma es) ++ [0x5D] ++ rest) ltac:(by left) Hs Hdeep)
        as (s' & Hr & Ht). by eexists _, _. }
    assert (Ho := run_open_array s Hs ltac:(lia)).
    set (s1 := scanner.mk scanner.stateBeginValueOrEmpty _ _ _ _) in Ho.
    apply encodable_elems in Hg.
    assert (H2 : Forall2 (λ x e, reads (bytes e) (to_jvalue x) (depth x) ∧ fails (bytes e) (depth x)) xs es).
    { eapply Forall2_with; [exact Hes | apply Forall_and; split; [exact Hg | exact IH] |].
      intros x ex Hx [Henc Hf]. by apply parts_ok. }
    destruct (fail_elems xs es H2 s1 (scanner.parseState s) ([0x5D] ++ rest) ltac:(by right) eq_refl Herr
                ltac:(cbn; lia) ltac:(apply list_max_Exists; cbn in Hd |- *; lia)) as (o & s' & Hr & Ht).
    eexists _, _. split; [|exact Ht].
    by rewrite (run_seq _ [0x5B] _ _ _ _ _ Ho ltac:(repeat constructor; discriminate) Hr).
  - destruct (marshal_map_inv kvs e He) as (L & <- & HL & ->).
    rewrite !bytes_app, <- !app_assoc. change (bytes "{") with [0x7B]. change (bytes "}") with [0x7D].
    destruct (decide (scanner.maxNestingDepth < Z.of_nat (S (length (scanner.parseState s))))) as [Hdeep|Hfit].
    { destruct (run_open_deep s 0x7B (bytes (json.join_comma (map entry_text (sort_by_key L))) ++ [0x7D] ++ rest)
        ltac:(by right) Hs Hdeep) as (s' & Hr & Ht). by eexists _, _. }
    assert (Ho := run_open_object s Hs ltac:(lia)).
    set (s1 := scanner.mk scanner.stateBeginStringOrEmpty _ _ _ _) in Ho.
    apply encodable_entries in Hg.
    assert (HF : Forall (λ t, ascii_str t.1 = true ∧ reads (bytes t.2.2) (to_jvalue t.2.1) (depth t.2.1) ∧
                               fails (bytes t.2.2) (depth t.2.1)) (sort_by_key L)).
    { apply (entries_Forall (λ v, encodable v = true ∧
               (encodable v = true → ∀ e, json.marshal v = Ok e → fails (bytes e) (depth v)))); [done | |].
      - intros t Ht [Henc Hf] Hk. split; [done|]. by apply parts_ok.
      - eapply Forall_impl; [apply Forall_and; split; [exact Hg | exact IH]|]. cbn. tauto. }
    assert (Hex : Exists (λ t, scanner.maxNestingDepth <
                    Z.of_nat (length (scanner.parseObjectKey :: scanner.parseState s) + depth t.2.1)) (sort_by_key L)).
    { apply sort_by_key_Exists. cbn [depth] in Hd. rewrite map_map in Hd.
      apply (list_max_Exists (λ t : string * (json.goval * string), depth t.2.1)); cbn in Hd |- *; lia. }
    destruct (fail_members (sort_by_key L) HF s1 (scanner.parseState s) ([0x7D] ++ rest) ltac:(by right) eq_refl Herr
                ltac:(cbn; lia) Hex) as (o & s' & Hr & Ht).
    eexists _, _. split; [|exact Ht].
    by rewrite (run_seq _ [0x7B] _ _ _ _ _ Ho ltac:(repeat constructor; discriminate) Hr).
Qed.

(** The encoder nests as deep as the value goes, the scanner no
    deeper than [maxNestingDepth]: for every Go value of ASCII strings,
    arrays and maps nested deeper than 10000, [json.Marshal] succeeds
    but [checkValid] rejects its output with the "exceeded max depth"
    syntax error. *)
Theorem Marshal_too_deep g :
  encodable g = true → scanner.maxNestingDepth < Z.of_nat (depth g) →
  ∃ e, json.Marshal g = Ok e ∧
    ∃ c off, scanner.checkValid (bytes e) = Some (scanner.mkSyntaxError (Some c) "exceeded max depth" off).
Proof.
  intros Hg Hd. destruct (marshal_ok g Hg) as [e He]. exists e. split; [done|].
  destruct (marshal_fails g Hg e He scanner.reset [] ltac:(by left) eq_refl ltac:(unfold scanner.maxNestingDepth; cbn; lia) Hd)
    as (ops & s' & Hr & c & off & Herr).
  exists c, off. rewrite app_nil_r in Hr. unfold scanner.checkValid. by rewrite Hr, Herr.
Qed.
