(* ===== verification/TlsConfig.v ===== *)
(** * [getTLSConfig], and [CipherSuites] and [MinTLSVersion] on the environment

    [convenience.go] lines 133-185.  [getTLSConfig] reads
    [CBAUTH_TLS_CONFIG]; when it is blank after [strings.TrimSpace] the
    zero [tlsConfig] is used; else [json.Unmarshal] decodes it into
    [tlsConfig{}] and an error is a panic.  [CipherSuites] and
    [MinTLSVersion] call it on every call, then run the policy of
    [TlsPolicy.v].

    [Unmarshal] into [*tlsConfig] (Go 1.22 [decode.go]): [checkValid]
    first ([JsonDecode.v]); then the document is stored:
    - into the struct: [null] leaves it as it is; an object sets its
      members in order, each key matched to a field by its exact name,
      else by [foldName] (case-insensitive, with the Unicode folds that
      reach ASCII letters); a member of no field is skipped; any other
      value is a type error;
    - into the string [MinTLSVersion]: a string sets it, [null] leaves
      it, any other value is a type error;
    - into the slice [Ciphers]: [null] makes it nil; an array is
      decoded element by element into the slice's own backing array
      (elements within the length are decoded into, elements beyond it
      within the capacity are reused as they are), the length is then
      cut to the number of elements, and an empty array gives a new
      empty slice; any other value is a type error.
    [decode.go] goes on after a type error and returns the first one;
    nothing but that error is observable ([getTLSConfig] panics with it),
    so the store stops at the first one.

    The environment is a function from names to values ([os.Getenv],
    the empty string for an unset variable).

    The last theorems put [json.Marshal] in front ([JsonRoundTrip.v]):
    a configuration it writes is read back exactly, under the field
    names or any ASCII keys [EqualFold] to them; a repeated [Ciphers]
    key of nulls exposes what the first array left in the slice; and a
    text it writes nested deeper than the scanner's limit makes
    [getTLSConfig] panic. *)

From S2P Require Import Prelude GoStrings ParseUint TlsPolicy Json JsonDecode DecodeInvariant JsonRoundTrip.

Import decode.

(** The errors of [Unmarshal]: a syntax error, or an
    [UnmarshalTypeError] with the JSON kind, the Go type and the field. *)
Inductive UnmarshalError :=
  | SyntaxErr (e : scanner.SyntaxError)
  | UnmarshalTypeError (value type field : string)
  | PhaseError.

(** ** [foldName] *)

(** [unicode.ToUpper(unicode.ToLower(r))] on the non-ASCII runes whose
    image is an ASCII letter: U+017F (long s) to [S], U+212A (Kelvin
    sign) to [K], U+0130 and U+0131 (dotted capital and dotless i) to
    [I].  Every other non-ASCII rune has a non-ASCII image; it is kept
    here, since the folded names of the fields are ASCII and only
    whether the image is ASCII decides a lookup. *)
Definition fold_rune (r : Z) : Z :=
  if r =? 0x17F then 0x53
  else if r =? 0x212A then 0x4B
  else if (r =? 0x130) || (r =? 0x131) then 0x49
  else r.

(** [appendFoldedName]: ASCII lower-case letters to upper case, other
    runes through [fold_rune]; one more than the length is enough fuel. *)
Fixpoint fold_loop (fuel : nat) (s : list Z) : list Z :=
  match fuel with
  | O => []
  | S fuel' =>
    match s with
    | [] => []
    | c :: s' =>
      if c <? utf8.RuneSelf then
        (if (0x61 <=? c) && (c <=? 0x7A) then c - 32 else c) :: fold_loop fuel' s'
      else
        let '(r, n) := DecodeRune s in
        utf8.EncodeRune (fold_rune r) ++ fold_loop fuel' (drop n s)
    end
  end.

Definition foldName (s : list Z) : list Z := fold_loop (S (length s)) s.

(** ** The fields of [tlsConfig] *)

Inductive field := FMinTLSVersion | FCiphers.

Definition field_name (f : field) : string :=
  match f with FMinTLSVersion => "MinTLSVersion" | FCiphers => "Ciphers" end.

Definition list_Z_eqb (a b : list Z) : bool := bool_decide (a = b).

(** [fields.byExactName], then [fields.byFoldedName[foldName(key)]]. *)
Definition field_of (key : list Z) : option field :=
  if list_Z_eqb key (bytes "MinTLSVersion") then Some FMinTLSVersion
  else if list_Z_eqb key (bytes "Ciphers") then Some FCiphers
  else let k := foldName key in
  if list_Z_eqb k (foldName (bytes "MinTLSVersion")) then Some FMinTLSVersion
  else if list_Z_eqb k (foldName (bytes "Ciphers")) then Some FCiphers
  else None.

(** The JSON kind named in a type error. *)
Definition kind (v : jvalue) : string :=
  match v with
  | JNull => "null" | JBool _ => "bool" | JNumber _ => "number" | JString _ => "string"
  | JArray _ => "array" | JObject _ => "object"
  end.

(** The kinds a field accepts. *)
Definition accepts (f : field) (v : jvalue) : bool :=
  match f, v with
  | _, JNull => true
  | FMinTLSVersion, JString _ => true
  | FCiphers, JArray _ => true
  | _, _ => false
  end.

(** ** Storing a value *)

(** [literalStore] into a [string]. *)
Definition store_string (fld : string) (v : jvalue) (cur : string) : result UnmarshalError string :=
  match v with
  | JNull => Ok cur
  | JString s => Ok (strings.string_of_bytes s)
  | _ => Err (UnmarshalTypeError (kind v) "string" fld)
  end.

(** A [[]string] as its elements and the elements of its backing array
    beyond the length, within the capacity. *)
Record slice := mkSlice { elems : list string; spare : list string }.

Definition nil_slice : slice := mkSlice [] [].

(** The element loop of [d.array] from index [i]: an index within the
    length is decoded into; past it, the slice is extended by one
    ([SetLen]) onto the next spare element, or grown ([Grow]) onto a
    zero one. *)
Fixpoint array_loop (xs : list jvalue) (i : nat) (sl : slice) : result UnmarshalError slice :=
  match xs with
  | [] => Ok sl
  | x :: xs' =>
    match elems sl !! i with
    | Some cur =>
      s ← store_string "Ciphers" x cur;
      array_loop xs' (S i) (mkSlice (<[i := s]> (elems sl)) (spare sl))
    | None =>
      let '(cur, spare') := match spare sl with [] => (""%string, []) | y :: ys => (y, ys) end in
      s ← store_string "Ciphers" x cur;
      array_loop xs' (S i) (mkSlice (elems sl ++ [s]) spare')
    end
  end.

(** [d.array] into a slice: the loop, then [v.SetLen(i)] when fewer
    elements came, and a new empty slice when none came. *)
Definition store_array (xs : list jvalue) (sl : slice) : result UnmarshalError slice :=
  sl ← array_loop xs 0 sl;
  let i := length xs in
  if (i =? 0)%nat then Ok nil_slice
  else if (i <? length (elems sl))%nat then Ok (mkSlice (take i (elems sl)) (drop i (elems sl) ++ spare sl))
  else Ok sl.

(** A value into the [[]string]. *)
Definition store_slice (v : jvalue) (sl : slice) : result UnmarshalError slice :=
  match v with
  | JNull => Ok nil_slice
  | JArray xs => store_array xs sl
  | _ => Err (UnmarshalTypeError (kind v) "[]string" "Ciphers")
  end.

(** The struct as it is decoded: the string and the slice with its
    backing array. *)
Module target.
Record target := mk { MinTLSVersion : string; Ciphers : slice }.
End target.
Abbreviation target := target.target.

Definition store_member (t : target) (kv : list Z * jvalue) : result UnmarshalError target :=
  match field_of kv.1 with
  | Some FMinTLSVersion => s ← store_string "MinTLSVersion" kv.2 (target.MinTLSVersion t); Ok (target.mk s (target.Ciphers t))
  | Some FCiphers => sl ← store_slice kv.2 (target.Ciphers t); Ok (target.mk (target.MinTLSVersion t) sl)
  | None => Ok t
  end.

Fixpoint store_members (t : target) (kvs : list (list Z * jvalue)) : result UnmarshalError target :=
  match kvs with
  | [] => Ok t
  | kv :: kvs' => t ← store_member t kv; store_members t kvs'
  end.

(** [d.value] into the struct. *)
Definition store_struct (v : jvalue) (t : target) : result UnmarshalError target :=
  match v with
  | JNull => Ok t
  | JObject kvs => store_members t kvs
  | _ => Err (UnmarshalTypeError (kind v) "cbauth.tlsConfig" "")
  end.

Definition to_config (t : target) : tlsConfig.tlsConfig :=
  tlsConfig.mk (target.MinTLSVersion t) (elems (target.Ciphers t)).

(** [json.Unmarshal(data, &res)] with [res := tlsConfig{}]. *)
Definition Unmarshal (data : list Z) : result UnmarshalError tlsConfig.tlsConfig :=
  match scanner.checkValid data with
  | Some e => Err (SyntaxErr e)
  | None =>
    match document data with
    | None => Err PhaseError
    | Some v => t ← store_struct v (target.mk "" nil_slice); Ok (to_config t)
    end
  end.

Section Environment.
(** [os.Getenv]. *)
Context (Getenv : string → string).

(** [getTLSConfig]; [Err e] is [panic(e)]. *)
Definition getTLSConfig : result UnmarshalError tlsConfig.tlsConfig :=
  let v := Getenv "CBAUTH_TLS_CONFIG" in
  if negb (String.length (strings.TrimSpace v) =? 0)%nat then Unmarshal (bytes v)
  else Ok tlsConfig.zero.

(** [CipherSuites]. *)
Definition CipherSuites : result UnmarshalError (list Z) :=
  config ← getTLSConfig; Ok (cipherSuitesOf config).

(** [MinTLSVersion]. *)
Definition MinTLSVersion : result UnmarshalError Z :=
  config ← getTLSConfig; Ok (minTLSVersionOf config).

End Environment.

(** An environment holding [CBAUTH_TLS_CONFIG] only. *)
Definition env_of (v : string) : string → string :=
  λ k, if String.eqb k "CBAUTH_TLS_CONFIG" then v else ""%string.

(** The JSON text of an object from its members' encoded keys and values. *)
Definition json_object (kvs : list (string * string)) : string :=
  "{" +:+ json.join_comma (map (λ kv, json.appendString kv.1 +:+ ":" +:+ kv.2) kvs) +:+ "}".

(** A configuration as the Go value [map[string]any{"MinTLSVersion": ...,
    "Ciphers": [...]}] that [json.Marshal] is given to write it. *)
Definition config_json_keys (kM kC : string) (c : tlsConfig.tlsConfig) : json.goval :=
  json.GMap [(kM, json.GString (tlsConfig.MinTLSVersion c));
             (kC, json.GArray (map json.GString (tlsConfig.Ciphers c)))].

Definition config_json (c : tlsConfig.tlsConfig) : json.goval :=
  config_json_keys "MinTLSVersion" "Ciphers" c.

(** The folded name of an ASCII byte: [foldName] upper-cases the ASCII
    lower-case letters and keeps every other ASCII byte. *)
Definition upper_ascii (c : Z) : Z := if (0x61 <=? c) && (c <=? 0x7A) then c - 32 else c.

(** The errors [Unmarshal] reports after [checkValid]: an
    [*UnmarshalTypeError]. *)
Definition type_error (e : UnmarshalError) : Prop :=
  match e with UnmarshalTypeError _ _ _ => True | _ => False end.

(** ** The decoding of the configuration *)

(** C29: When [CBAUTH_TLS_CONFIG] is unset or blank ([strings.TrimSpace]
    leaves nothing), [getTLSConfig] returns the zero [tlsConfig] without
    decoding, and [CipherSuites] gives [ciphersHigh] and [MinTLSVersion]
    TLS 1.0. *)
Theorem getTLSConfig_blank Getenv :
  strings.TrimSpace (Getenv "CBAUTH_TLS_CONFIG") = ""%string →
  getTLSConfig Getenv = Ok tlsConfig.zero ∧ CipherSuites Getenv = Ok ciphersHigh ∧
  MinTLSVersion Getenv = Ok tls.VersionTLS10.
Proof. intros H. unfold MinTLSVersion, CipherSuites, getTLSConfig. rewrite H. done. Qed.

(** A member of a document stored without error was stored without error. *)
Lemma store_members_Ok t kvs t' kv :
  store_members t kvs = Ok t' → kv ∈ kvs → ∃ t0 t1, store_member t0 kv = Ok t1.
Proof.
  revert t. induction kvs as [|kv' kvs IH]; intros t; cbn; [intros _ []%elem_of_nil|].
  destruct (store_member t kv') as [t1|] eqn:E; cbn; [|done].
  intros Hs [->|Hin]%elem_of_cons; [by eauto|]. by eapply IH.
Qed.

Lemma store_member_reject t k v f :
  field_of k = Some f → accepts f v = false → ∃ e, store_member t (k, v) = Err e.
Proof. unfold store_member; cbn. intros -> Ha. destruct f, v; try done; eexists; reflexivity. Qed.

(** A member of a kind its field does not take makes [Unmarshal] fail. *)
Lemma Unmarshal_type_error data kvs k v f :
  scanner.checkValid data = None → document data = Some (JObject kvs) →
  (k, v) ∈ kvs → field_of k = Some f → accepts f v = false →
  ∃ e, Unmarshal data = Err e.
Proof.
  intros Hc Hd Hin Hf Ha. unfold Unmarshal. rewrite Hc, Hd. cbn.
  destruct (store_members _ kvs) as [t'|e] eqn:Hs; [|by eexists].
  destruct (store_members_Ok _ _ _ _ Hs Hin) as (t0 & t1 & Hm).
  destruct (store_member_reject t0 k v f Hf Ha) as [e He]. congruence.
Qed.

(** C33: A well-formed configuration in which a member of a field has a
    kind the field does not take (a number, a boolean, an array or an
    object for [MinTLSVersion]; anything but an array or [null] for
    [Ciphers]) makes [getTLSConfig] panic: a type mismatch is as fatal
    as a syntax error. *)
Theorem getTLSConfig_type_error Getenv kvs k v f :
  String.length (strings.TrimSpace (Getenv "CBAUTH_TLS_CONFIG")) ≠ 0%nat →
  scanner.checkValid (bytes (Getenv "CBAUTH_TLS_CONFIG")) = None →
  document (bytes (Getenv "CBAUTH_TLS_CONFIG")) = Some (JObject kvs) →
  (k, v) ∈ kvs → field_of k = Some f → accepts f v = false →
  ∃ e, getTLSConfig Getenv = Err e.
Proof.
  intros Hn Hc Hd Hin Hf Ha. unfold getTLSConfig.
  destruct (Nat.eqb_spec (String.length (strings.TrimSpace (Getenv "CBAUTH_TLS_CONFIG"))) 0); [done|].
  by eapply Unmarshal_type_error.
Qed.

(** Storing a value fails only with a type error. *)
Lemma store_string_type_error fld v cur e : store_string fld v cur = Err e → type_error e.
Proof. destruct v; cbn; intros; simplify_eq; done. Qed.

Lemma array_loop_type_error xs i sl e : array_loop xs i sl = Err e → type_error e.
Proof.
  revert i sl e. induction xs as [|x xs IH]; intros i sl e; cbn; [done|].
  destruct (elems sl !! i); [|destruct (spare sl)];
    apply result_bind_Err_inv; eauto using store_string_type_error.
Qed.

Lemma store_slice_type_error v sl e : store_slice v sl = Err e → type_error e.
Proof.
  destruct v; cbn; intros H; simplify_eq; try done.
  revert H. unfold store_array. apply result_bind_Err_inv; [by apply array_loop_type_error|].
  intros ? ?. by repeat case_match.
Qed.

Lemma store_struct_type_error v t e : store_struct v t = Err e → type_error e.
Proof.
  destruct v as [| | | | |kvs]; cbn; intros H; simplify_eq; try done. revert t e H.
  induction kvs as [|[k v] kvs IH]; intros t e; cbn; [done|].
  apply result_bind_Err_inv; [|intros ??; apply IH]. intros e'. unfold store_member; cbn.
  repeat case_match; try done; apply result_bind_Err_inv; try by intros ?? [=].
  all: intros ?; first [apply store_string_type_error | apply store_slice_type_error].
Qed.

(** C34: [getTLSConfig] panics only with the syntax error [checkValid]
    finds in [CBAUTH_TLS_CONFIG], or, on a well-formed value, with a
    type error of storing the document into [tlsConfig]: the decoder's
    walk never fails on a text the scanner accepted, so the phase error
    of [Unmarshal] is never reached. *)
Theorem getTLSConfig_errors Getenv e :
  getTLSConfig Getenv = Err e →
  (∃ se, scanner.checkValid (bytes (Getenv "CBAUTH_TLS_CONFIG")) = Some se ∧ e = SyntaxErr se) ∨
  (scanner.checkValid (bytes (Getenv "CBAUTH_TLS_CONFIG")) = None ∧ type_error e).
Proof.
  unfold getTLSConfig. case_match; [|done]. unfold Unmarshal.
  destruct (scanner.checkValid _) as [se|] eqn:Hc; intros Hu; [left; injection Hu; eauto|right].
  split; [done|]. destruct (document_total _ (bytes_in_range _) Hc) as [v Hv]. rewrite Hv in Hu.
  revert Hu. apply result_bind_Err_inv; [apply store_struct_type_error|by intros ?? [=]].
Qed.

Lemma array_loop_app xs ys i sl :
  array_loop (xs ++ ys) i sl = (sl' ← array_loop xs i sl; array_loop ys (i + length xs) sl').
Proof.
  revert i sl. induction xs as [|x xs IH]; intros i sl; cbn; [by rewrite Nat.add_0_r|].
  destruct (elems sl !! i); [|destruct (spare sl)]; cbn;
    (destruct (store_string _ x _); cbn; [rewrite IH; by rewrite Nat.add_succ_r|done]).
Qed.

(** Nulls decoded into elements within the length leave them. *)
Lemma array_loop_nulls_in (n i : nat) l sp :
  (i + n ≤ length l)%nat → array_loop (repeat JNull n) i (mkSlice l sp) = Ok (mkSlice l sp).
Proof.
  revert i. induction n as [|n IH]; intros i Hn; [done|]. cbn.
  destruct (l !! i) as [x|] eqn:Hx; [|apply lookup_ge_None in Hx; lia]. cbn.
  rewrite list_insert_id by done. apply IH. lia.
Qed.

(** Nulls past the length take the spare elements as they are. *)
Lemma array_loop_nulls_spare (n : nat) l sp :
  (n ≤ length sp)%nat → array_loop (repeat JNull n) (length l) (mkSlice l sp) = Ok (mkSlice (l ++ take n sp) (drop n sp)).
Proof.
  revert l sp. induction n as [|n IH]; intros l sp Hn; cbn; [by rewrite app_nil_r|].
  rewrite lookup_ge_None_2 by lia. destruct sp as [|y ys]; cbn in *; [lia|].
  replace (S (length l)) with (length (l ++ [y])) by (rewrite length_app; cbn; lia).
  rewrite IH by lia. by rewrite <- app_assoc.
Qed.

(** An array of [n] nulls decoded into a slice does not give [n]
    empty strings: it exposes the first [n] elements of the slice's
    backing array, elements an earlier decoding left there included. *)
Theorem store_array_nulls (n : nat) l sp :
  (0 < n ≤ length l + length sp)%nat →
  store_array (repeat JNull n) (mkSlice l sp) = Ok (mkSlice (take n (l ++ sp)) (drop n (l ++ sp))).
Proof.
  intros Hn. unfold store_array. rewrite repeat_length.
  destruct (decide (n ≤ length l)%nat) as [Hle|Hgt].
  - rewrite array_loop_nulls_in by lia. cbn [mbind result_bind elems spare].
    rewrite take_app_le, drop_app_le by lia.
    destruct (Nat.eqb_spec n 0); [lia|]. destruct (Nat.ltb_spec n (length l)); [done|].
    by rewrite take_ge, drop_ge by lia.
  - replace n with (length l + (n - length l))%nat at 1 by lia.
    rewrite repeat_app, array_loop_app, array_loop_nulls_in by lia. cbn [mbind result_bind elems spare].
    rewrite repeat_length, Nat.add_0_l, array_loop_nulls_spare by lia. cbn [mbind result_bind elems spare].
    destruct (Nat.eqb_spec n 0); [lia|]. rewrite length_app, length_take.
    destruct (Nat.ltb_spec n (length l + (n - length l) `min` length sp)); [lia|].
    by rewrite take_app_ge, drop_app_ge by lia.
Qed.

(** ** A configuration written by [json.Marshal] *)

Lemma array_loop_strings cs i l :
  length l = i → array_loop (map (λ c, JString (bytes c)) cs) i (mkSlice l []) = Ok (mkSlice (l ++ cs) []).
Proof.
  revert i l. induction cs as [|c cs IH]; intros i l Hl; cbn; [by rewrite app_nil_r|].
  rewrite (proj2 (lookup_ge_None _ _)) by lia. cbn. rewrite GoStringsFacts.string_of_bytes_bytes.
  rewrite IH by (rewrite length_app; cbn; lia). by rewrite <- app_assoc.
Qed.

Lemma store_slice_strings cs :
  store_slice (JArray (map (λ c, JString (bytes c)) cs)) nil_slice = Ok (mkSlice cs []).
Proof.
  unfold store_slice, store_array, nil_slice. rewrite (array_loop_strings cs 0 []) by done. rewrite length_map.
  destruct cs as [|c cs]; [done|]. cbn -[Nat.ltb]. rewrite Nat.ltb_irrefl. done.
Qed.

(** Trimming leaves the text of an array or an object as it is. *)
Lemma TrimSpace_enclosed (o c : ascii) x :
  GoStringsFacts.plain_byte (bv o) → GoStringsFacts.plain_byte (bv c) →
  strings.TrimSpace (String o (x +:+ String c EmptyString)) = String o (x +:+ String c EmptyString).
Proof.
  intros Ho Hc. apply GoStringsFacts.TrimSpace_ends; [done|].
  unfold utf8.byte_at. rewrite Nat2Z.id.
  assert (Hl : String.length (x +:+ String c EmptyString) = S (String.length x))
    by (induction x as [|a x IH]; [done | simpl; by rewrite IH]).
  rewrite Hl. cbn [String.get]. rewrite <- (Nat.add_0_l (String.length x)), <- String.append_correct2.
  exact Hc.
Qed.

Lemma TrimSpace_object x :
  strings.TrimSpace ("{" +:+ x +:+ "}") = ("{" +:+ x +:+ "}")%string.
Proof. apply TrimSpace_enclosed; (split; [unfold utf8.RuneSelf; bv_lits; lia | reflexivity]). Qed.

Lemma TrimSpace_array x :
  strings.TrimSpace ("[" +:+ x +:+ "]") = ("[" +:+ x +:+ "]")%string.
Proof. apply TrimSpace_enclosed; (split; [unfold utf8.RuneSelf; bv_lits; lia | reflexivity]). Qed.

(** The text [json.Marshal] writes for an array or a map is not blank. *)
Lemma Marshal_not_blank g b :
  (depth g ≠ 0)%nat → json.Marshal g = Ok b → String.length (strings.TrimSpace b) ≠ 0%nat.
Proof.
  intros Hd Hb. destruct g as [s|xs|kvs|t]; [done | | | done].
  - destruct (marshal_array_inv xs b Hb) as (es & _ & ->). by rewrite TrimSpace_array.
  - destruct (marshal_map_inv kvs b Hb) as (L & _ & _ & ->). by rewrite TrimSpace_object.
Qed.

Lemma strings_ok cs :
  Forall (λ x, ascii_str x = true) cs →
  encodable (json.GArray (map json.GString cs)) = true ∧ depth (json.GArray (map json.GString cs)) = 1%nat.
Proof.
  intros Hcs. split.
  - cbn [encodable]. induction Hcs as [|x cs Hx _ IH]; [done|]. cbn. by rewrite Hx, IH.
  - cbn [depth]. f_equal. apply Nat.le_0_r, list_max_le, Forall_forall. intros n Hn.
    apply list_elem_of_In, in_map_iff in Hn as (g & <- & Hg). apply in_map_iff in Hg as (x & <- & _). done.
Qed.

Lemma config_json_ok kM kC v cs :
  ascii_str kM = true → ascii_str kC = true →
  ascii_str v = true → Forall (λ x, ascii_str x = true) cs →
  encodable (config_json_keys kM kC (tlsConfig.mk v cs)) = true ∧
  depth (config_json_keys kM kC (tlsConfig.mk v cs)) = 2%nat.
Proof.
  intros HkM HkC Hv Hcs. destruct (strings_ok cs Hcs) as [He Hd]. cbn [encodable depth] in He, Hd.
  cbn [config_json_keys encodable depth forallb map list_max tlsConfig.MinTLSVersion tlsConfig.Ciphers fst snd].
  rewrite HkM, HkC, Hv, He, Hd. done.
Qed.

(** ** Keys matched by their folded names *)

Lemma fold_eq_upper a b :
  0 <= a < utf8.RuneSelf → 0 <= b < utf8.RuneSelf →
  strings.fold_eq a b = true → upper_ascii a = upper_ascii b.
Proof.
  intros Ha Hb. unfold strings.fold_eq, upper_ascii, unicode.is_upper, utf8.RuneSelf in *.
  destruct (Z.ltb_spec b a); cbn; zbool; try done; lia.
Qed.

Lemma fold_loop_ascii fuel s :
  (String.length s < fuel)%nat → ascii_str s = true →
  fold_loop fuel (bytes s) = map upper_ascii (bytes s).
Proof.
  revert fuel. induction s as [|c s IH]; intros [|fuel] Hf Ha; cbn in *; try done; [lia|].
  apply andb_true_iff in Ha as [Hc Ha]. apply Z.ltb_lt in Hc.
  rewrite (proj2 (Z.ltb_lt (bv c) utf8.RuneSelf)) by (unfold utf8.RuneSelf; lia).
  f_equal. apply IH; [lia | done].
Qed.

Lemma foldName_ascii s : ascii_str s = true → foldName (bytes s) = map upper_ascii (bytes s).
Proof. intros Ha. unfold foldName. apply fold_loop_ascii; [rewrite GoStringsFacts.length_bytes; lia | done]. Qed.

(** Two ASCII strings [EqualFold] reports equal have one folded name. *)
Lemma EqualFold_ascii_upper s t :
  ascii_str s = true → ascii_str t = true → strings.EqualFold s t = true →
  map upper_ascii (bytes s) = map upper_ascii (bytes t).
Proof.
  revert t. induction s as [|c s IH]; intros [|c' t] Hs Ht; try done.
  cbn in Hs, Ht. apply andb_true_iff in Hs as [Hc Hs], Ht as [Hc' Ht]. apply Z.ltb_lt in Hc, Hc'.
  pose proof (bv_range c). pose proof (bv_range c').
  rewrite GoStringsFacts.EqualFold_cons_ascii by (unfold utf8.RuneSelf; lia).
  intros [Hf He]%andb_true_iff. cbn. f_equal; [|by apply IH].
  apply fold_eq_upper; [unfold utf8.RuneSelf; lia .. | done].
Qed.

(** An ASCII key [EqualFold] to a field's name selects that field. *)
Lemma field_of_EqualFold k f :
  ascii_str k = true → strings.EqualFold k (field_name f) = true → field_of (bytes k) = Some f.
Proof.
  intros Hk Hf. assert (Hn : ascii_str (field_name f) = true) by (destruct f; reflexivity).
  assert (Hfold : foldName (bytes k) = foldName (bytes (field_name f)))
    by (rewrite (foldName_ascii k Hk), (foldName_ascii _ Hn), (EqualFold_ascii_upper k _ Hk Hn Hf); reflexivity).
  unfold field_of, list_Z_eqb. destruct f; cbn [field_name] in Hfold;
    repeat case_bool_decide; try done;
    match goal with
    | H : bytes k = _ |- _ => rewrite H in Hfold; vm_compute in Hfold; discriminate
    | H : foldName (bytes k) = _ |- _ => rewrite Hfold in H; vm_compute in H; discriminate
    end.
Qed.

(** A configuration [json.Marshal] writes under keys [EqualFold] to the
    field names is the one [getTLSConfig] reads back. *)
Lemma getTLSConfig_Marshal_keys kM kC v cs :
  ascii_str kM = true → ascii_str kC = true →
  strings.EqualFold kM "MinTLSVersion" = true → strings.EqualFold kC "Ciphers" = true →
  ascii_str v = true → Forall (λ x, ascii_str x = true) cs →
  ∃ b, json.Marshal (config_json_keys kM kC (tlsConfig.mk v cs)) = Ok b ∧
    getTLSConfig (env_of b) = Ok (tlsConfig.mk v cs).
Proof.
  intros HkM HkC HM HC Hv Hcs.
  apply (field_of_EqualFold kM FMinTLSVersion HkM) in HM. apply (field_of_EqualFold kC FCiphers HkC) in HC.
  destruct (config_json_ok kM kC v cs HkM HkC Hv Hcs) as [Henc Hd].
  destruct (Marshal_roundtrip _ Henc ltac:(rewrite Hd; unfold scanner.maxNestingDepth; lia)) as (b & Hb & Hcv & Hdoc).
  exists b. split; [done|].
  unfold getTLSConfig, env_of. rewrite String.eqb_refl.
  rewrite (proj2 (Nat.eqb_neq _ 0) (Marshal_not_blank _ b ltac:(by rewrite Hd) Hb)).
  cbn [negb]. unfold Unmarshal. rewrite Hcv, Hdoc.
  cbn [to_jvalue config_json_keys tlsConfig.MinTLSVersion tlsConfig.Ciphers map fst snd
       sort_by_key fold_right insert_by_key]. rewrite map_map. cbn [to_jvalue].
  destruct (String.ltb kC kM); cbn [map fst snd store_struct store_members]; unfold store_member;
    cbn [fst snd]; rewrite ?HM, ?HC; cbn [mbind result_bind store_string target.Ciphers target.MinTLSVersion];
    rewrite store_slice_strings; cbn; by rewrite GoStringsFacts.string_of_bytes_bytes.
Qed.

(** C30: A configuration written by [json.Marshal] is the configuration
    [getTLSConfig] reads back: for every minimum version and list of
    cipher entries in ASCII, with [CBAUTH_TLS_CONFIG] set to the JSON
    text [Marshal] writes for them, [getTLSConfig] returns exactly that
    version and that list, in order. *)
Theorem getTLSConfig_Marshal c :
  ascii_str (tlsConfig.MinTLSVersion c) = true → Forall (λ x, ascii_str x = true) (tlsConfig.Ciphers c) →
  ∃ b, json.Marshal (config_json c) = Ok b ∧ getTLSConfig (env_of b) = Ok c.
Proof. destruct c as [v cs]. apply getTLSConfig_Marshal_keys; reflexivity. Qed.

(** C31: [getTLSConfig] inherits the scanner's nesting limit: whatever
    Go value of ASCII strings, arrays and maps nested deeper than 10000
    levels [json.Marshal] writes into [CBAUTH_TLS_CONFIG], a
    configuration or not, [getTLSConfig] panics with the "exceeded max
    depth" syntax error, even when the deep part is under a key no
    field reads. *)
Theorem getTLSConfig_too_deep g :
  encodable g = true → scanner.maxNestingDepth < Z.of_nat (depth g) →
  ∃ b, json.Marshal g = Ok b ∧
    ∃ c off, getTLSConfig (env_of b) = Err (SyntaxErr (scanner.mkSyntaxError (Some c) "exceeded max depth" off)).
Proof.
  intros Hg Hd. destruct (Marshal_too_deep g Hg Hd) as (b & Hb & c & off & Hcv).
  exists b. split; [done|]. exists c, off.
  unfold getTLSConfig, env_of. rewrite String.eqb_refl.
  rewrite (proj2 (Nat.eqb_neq _ 0) (Marshal_not_blank g b ltac:(unfold scanner.maxNestingDepth in Hd; lia) Hb)).
  cbn [negb]. unfold Unmarshal. by rewrite Hcv.
Qed.

(** C35: [getTLSConfig] selects the fields by their names without
    regard to case: for all ASCII keys that [strings.EqualFold] finds
    equal to "MinTLSVersion" and "Ciphers" (mintlsversion, CIPHERS,
    ...), a configuration [json.Marshal] writes under those keys is read
    back exactly, whichever of the two keys sorts first. *)
Theorem getTLSConfig_folded_keys kM kC c :
  ascii_str kM = true → ascii_str kC = true →
  strings.EqualFold kM "MinTLSVersion" = true → strings.EqualFold kC "Ciphers" = true →
  ascii_str (tlsConfig.MinTLSVersion c) = true → Forall (λ x, ascii_str x = true) (tlsConfig.Ciphers c) →
  ∃ b, json.Marshal (config_json_keys kM kC c) = Ok b ∧ getTLSConfig (env_of b) = Ok c.
Proof. destruct c as [v cs]. apply getTLSConfig_Marshal_keys. Qed.

(** The members of a configuration whose [Ciphers] key comes twice: an
    array of strings, then an array of [n] nulls. *)
Definition repeated_ciphers (cs : list string) (b : string) (n : nat) :
    list (string * (json.goval * string)) :=
  [("Ciphers", (json.GArray (map json.GString cs), b));
   ("Ciphers", (json.GArray (repeat (json.GUnsupported "") n), "[" +:+ json.join_comma (repeat "null" n) +:+ "]"))].

Lemma reads_nulls (n : nat) d :
  reads (bytes ("[" +:+ json.join_comma (repeat "null" n) +:+ "]"))
        (JArray (map to_jvalue (repeat (json.GUnsupported "") n))) (S d).
Proof.
  apply reads_array. induction n as [|n IH]; cbn; constructor; [apply reads_null | exact IH].
Qed.

(** C36: A repeated [Ciphers] key decodes its second array into the slice
    the first one filled: for every ASCII list of entries written by
    [json.Marshal] and every [n] up to its length, a second [Ciphers] of
    [n] nulls leaves the first [n] entries, not [n] empty ones (so
    [medium, high] then [null] gives the medium tier, not the fallback). *)
Theorem getTLSConfig_null_reuse cs (n : nat) :
  Forall (λ x, ascii_str x = true) cs → (0 < n ≤ length cs)%nat →
  ∃ b, json.Marshal (json.GArray (map json.GString cs)) = Ok b ∧
    getTLSConfig (env_of (json_object [("Ciphers", b); ("Ciphers", "[" +:+ json.join_comma (repeat "null" n) +:+ "]")]))
      = Ok (tlsConfig.mk "" (take n cs)).
Proof.
  intros Hcs Hn.
  destruct (strings_ok cs Hcs) as [Henc Hd].
  destruct (marshal_ok _ Henc) as [b Hb]. exists b. split; [done|].
  assert (HF : Forall (λ t, ascii_str t.1 = true ∧ reads (bytes t.2.2) (to_jvalue t.2.1) 1)
                      (repeated_ciphers cs b n)).
  { repeat constructor; [|apply reads_nulls].
    apply reads_mono with (depth (json.GArray (map json.GString cs))); [by apply marshal_reads | lia]. }
  change (json_object _) with ("{" +:+ json.join_comma (map entry_text (repeated_ciphers cs b n)) +:+ "}")%string.
  destruct (reads_document _ _ 2 ltac:(unfold scanner.maxNestingDepth; lia) (reads_object _ 1 HF)) as [Hcv Hdoc].
  unfold getTLSConfig, env_of. rewrite String.eqb_refl, TrimSpace_object. cbn [negb String.length].
  unfold Unmarshal. rewrite Hcv, Hdoc. cbn [repeated_ciphers map fst snd to_jvalue store_struct store_members].
  unfold store_member. cbn [fst snd]. rewrite (field_of_EqualFold "Ciphers" FCiphers) by reflexivity.
  rewrite map_map. cbn [to_jvalue]. rewrite store_slice_strings. cbn [mbind result_bind store_slice target.Ciphers].
  rewrite map_repeat. cbn [to_jvalue]. rewrite store_array_nulls by (cbn; lia).
  cbn. by rewrite app_nil_r.
Qed.

(** ** Witnesses *)

Lemma getTLSConfig_blank_witness :
  getTLSConfig (env_of " ") = Ok tlsConfig.zero ∧ CipherSuites (env_of " ") = Ok ciphersHigh ∧
  MinTLSVersion (env_of " ") = Ok tls.VersionTLS10.
Proof. apply getTLSConfig_blank. reflexivity. Defined.

Lemma getTLSConfig_type_error_witness :
  ∃ e, getTLSConfig (env_of (json_object [("Ciphers", json.appendString "high")])) = Err e.
Proof.
  apply (getTLSConfig_type_error _ [(bytes "Ciphers", JString (bytes "high"))] (bytes "Ciphers")
           (JString (bytes "high")) FCiphers); try reflexivity; [discriminate|by constructor].
Defined.

Lemma getTLSConfig_errors_witness :
  let Getenv := env_of (json_object [("Ciphers", json.appendString "high")]) in
  getTLSConfig Getenv = Err (UnmarshalTypeError "string" "[]string" "Ciphers") ∧
  ((∃ se, scanner.checkValid (bytes (Getenv "CBAUTH_TLS_CONFIG")) = Some se ∧
          UnmarshalTypeError "string" "[]string" "Ciphers" = SyntaxErr se) ∨
   (scanner.checkValid (bytes (Getenv "CBAUTH_TLS_CONFIG")) = None ∧
    type_error (UnmarshalTypeError "string" "[]string" "Ciphers"))).
Proof.
  intros Getenv. assert (H : getTLSConfig Getenv = Err (UnmarshalTypeError "string" "[]string" "Ciphers"))
    by (vm_compute; reflexivity).
  split; [exact H|]. exact (getTLSConfig_errors Getenv _ H).
Defined.

Lemma getTLSConfig_Marshal_witness :
  ∃ b, json.Marshal (config_json (tlsConfig.mk "TLSv1.2" ["high"; " 0x002f "])) = Ok b ∧
    getTLSConfig (env_of b) = Ok (tlsConfig.mk "TLSv1.2" ["high"; " 0x002f "]).
Proof. apply getTLSConfig_Marshal; [reflexivity | repeat constructor]. Defined.

Lemma getTLSConfig_too_deep_witness :
  ∃ b, json.Marshal (json.GMap [("Ciphers", json.GArray [json.GString "high"]);
                                 ("x", nested (Z.to_nat 10000) (json.GString ""))]) = Ok b ∧
    ∃ c off, getTLSConfig (env_of b) = Err (SyntaxErr (scanner.mkSyntaxError (Some c) "exceeded max depth" off)).
Proof. apply getTLSConfig_too_deep; vm_compute; reflexivity. Defined.

Lemma getTLSConfig_folded_keys_witness :
  (∃ b, json.Marshal (config_json_keys "mintlsVERSION" "CIPHERS" (tlsConfig.mk "TLSv1.2" ["medium"])) = Ok b ∧
    getTLSConfig (env_of b) = Ok (tlsConfig.mk "TLSv1.2" ["medium"])) ∧
  (∃ b, json.Marshal (config_json_keys "MINTLSVERSION" "ciphers" (tlsConfig.mk "tlsv1.1" ["high"; "5"])) = Ok b ∧
    getTLSConfig (env_of b) = Ok (tlsConfig.mk "tlsv1.1" ["high"; "5"])).
Proof.
  split; apply getTLSConfig_folded_keys; try reflexivity; repeat constructor.
Defined.

Lemma getTLSConfig_null_reuse_witness :
  ∃ b, json.Marshal (json.GArray (map json.GString ["medium"; "high"])) = Ok b ∧
    getTLSConfig (env_of (json_object [("Ciphers", b); ("Ciphers", "[" +:+ json.join_comma (repeat "null" 1) +:+ "]")]))
      = Ok (tlsConfig.mk "" (take 1 ["medium"; "high"])).
Proof. apply getTLSConfig_null_reuse; [repeat constructor | cbn; lia]. Defined.

Lemma store_array_nulls_witness :
  store_array (repeat JNull 2) (mkSlice ["x"] ["b"]) = Ok (mkSlice ["x"; "b"] []).
Proof. rewrite (store_array_nulls 2 ["x"] ["b"]); [reflexivity|cbn; lia]. Defined.

