(* ===== verification/Http.v ===== *)
(** * Signing requests: [SetRequestAuthVia], [dupRequest], [RoundTrip]

    [convenience.go] lines 27-90.  Requests, header maps and the backing
    arrays of header values live in a [Store] (one [heap] per Go type), so
    that the sharing a struct copy creates is explicit: [dupRequest] copies
    the struct and allocates new header and trailer maps whose value slices
    use new arrays.  Go code runs in the monad [M]: a function of the store
    that returns a value and the new store, or a [Panic] (a write to a nil
    map, an index out of range).

    Three facts of the environment are parameters of the Section: the
    growth policy [grow] of [append] (any policy that makes room), the
    iteration order [range] of a Go map (any enumeration of its entries:
    Go randomises it), and the process-wide [Default] authenticator.
    [url.URL] is kept as a value: [rv := *req] shares the [*url.URL]
    pointer, which nothing here writes. *)

From S2P Require Import Prelude GoStrings GoHeap Base64.

Module url.
Record URL := mkURL { Scheme : string; Host : string; Path : string }.
End url.

(** The Go [error] values that reach the code: [cbauth.ErrNotInitialized]
    and whatever an [Authenticator] or a transport returns. *)
Inductive GoError := ErrNotInitialized | ErrOther (msg : string).

#[export] Instance GoError_eq_dec : EqDecision GoError.
Proof. solve_decision. Defined.

Module http.

(** The fields of [http.Request]: the two header maps are references
    ([None] is a nil map); [Body] stands for the [io.ReadCloser] the copy
    shares. *)
Record Request := mkRequest {
  Method : string; URL : url.URL; Header : option loc; Body : nat;
  ContentLength : Z; Host : string; Trailer : option loc }.

(** An [*http.Response], opaque to this code. *)
Record Response := mkResponse { resp_id : nat }.

End http.

(** An [http.Header] is a [map[string][]string]. *)
Abbreviation header := (gmap string (option slice)).

Record Store := mkStore {
  arrays : heap (list string);
  maps : heap header;
  requests : heap http.Request }.

Inductive Panic := NilMapWrite | IndexOutOfRange | NilDeref.

(** ** The monad of Go code: state and panics *)

Definition M (A : Type) : Type := Store → result Panic (A * Store).

#[export] Instance M_ret : MRet M := λ A a st, Ok (a, st).
#[export] Instance M_bind : MBind M :=
  λ A B f m st, match m st with Ok (a, st') => f a st' | Err p => Err p end.

Definition panic {A} (p : Panic) : M A := λ _, Err p.

Definition set_arrays (h : heap (list string)) (st : Store) : Store :=
  mkStore h (maps st) (requests st).
Definition set_maps (h : heap header) (st : Store) : Store :=
  mkStore (arrays st) h (requests st).
Definition set_requests (h : heap http.Request) (st : Store) : Store :=
  mkStore (arrays st) (maps st) h.

(** [*req]. *)
Definition load_req (r : loc) : M http.Request :=
  λ st, match load r (requests st) with Some q => Ok (q, st) | None => Err NilDeref end.

(** [&rv] of a struct value. *)
Definition alloc_req (q : http.Request) : M loc :=
  λ st, let p := alloc q (requests st) in Ok (fst p, set_requests (snd p) st).

Definition load_map (m : loc) : M header :=
  λ st, match load m (maps st) with Some h => Ok (h, st) | None => Err NilDeref end.

(** [make(http.Header)]. *)
Definition make_map : M loc :=
  λ st, let p := alloc ∅ (maps st) in Ok (fst p, set_maps (snd p) st).

(** [m[k] = v]: a panic on a nil map. *)
Definition map_assign (m : option loc) (k : string) (v : option slice) : M unit :=
  match m with
  | None => panic NilMapWrite
  | Some l => λ st, match load l (maps st) with
                    | Some h => Ok (tt, set_maps (write l (<[k := v]> h) (maps st)) st)
                    | None => Err NilDeref
                    end
  end.

(** [m[k]]: the nil slice for a missing key or a nil map. *)
Definition map_index (m : option loc) (k : string) : M (option slice) :=
  match m with
  | None => mret None
  | Some l => h ← load_map l; mret (default None (h !! k))
  end.

(** [delete(m, k)]: nothing on a nil map. *)
Definition map_delete (m : option loc) (k : string) : M unit :=
  match m with
  | None => mret tt
  | Some l => λ st, match load l (maps st) with
                    | Some h => Ok (tt, set_maps (write l (delete k h) (maps st)) st)
                    | None => Err NilDeref
                    end
  end.

(** A new backing array (a composite literal such as [[]string{v}]). *)
Definition alloc_array (v : list string) : M loc :=
  λ st, let p := alloc v (arrays st) in Ok (fst p, set_arrays (snd p) st).

(** The elements of a slice ([in...]). *)
Definition slice_elems (s : option slice) : M (list string) :=
  λ st, match slice_view (arrays st) s with Some v => Ok (v, st) | None => Err NilDeref end.

(** [s[i] = v]: a panic out of range. *)
Definition slice_set (s : option slice) (i : nat) (v : string) : M unit :=
  match s with
  | Some sl =>
    if decide (i < len sl)%nat then
      λ st, match load (arr sl) (arrays st) with
            | Some a => Ok (tt, set_arrays (write (arr sl) (<[(off sl + i)%nat := v]> a) (arrays st)) st)
            | None => Err NilDeref
            end
    else panic IndexOutOfRange
  | None => panic IndexOutOfRange
  end.

(** ** [net/textproto]: canonical header keys *)

(** [validHeaderFieldByte]: an ASCII token character. *)
Definition validHeaderFieldByte (c : Z) : bool :=
  (c <? 128) &&
  (((0x30 <=? c) && (c <=? 0x39)) || unicode.is_upper c || unicode.is_lower c ||
   existsb (Z.eqb c) (bytes "!#$%&'*+-.^_`|~")).

(** The loop of [canonicalMIMEHeaderKey]: upper case after the start and
    after each ['-'], lower case elsewhere. *)
Fixpoint canon_loop (upper : bool) (s : string) : string :=
  match s with
  | EmptyString => EmptyString
  | String c s' =>
    let b := bv c in
    let b := if upper && unicode.is_lower b then b - 32
             else if negb upper && unicode.is_upper b then b + 32 else b in
    String (chr b) (canon_loop (b =? 0x2D) s')
  end.

(** [textproto.CanonicalMIMEHeaderKey]: a key with a byte that is not a
    token character is returned unchanged. *)
Definition CanonicalMIMEHeaderKey (s : string) : string :=
  if forallb validHeaderFieldByte (bytes s) then canon_loop true s else s.

(** ** The cbauth capability and the transport interface *)

(** The method of [cbauth.Authenticator] the code calls: credentials for
    a [host:port], or an error.  The authenticator keeps its state apart
    from the requests, so a call is a function of its argument here; the
    theorems hold for every such function. *)
Record Authenticator := mkAuthenticator {
  GetHTTPServiceAuth : string → result GoError (string * string) }.

(** [http.RoundTripper]: one method over the store, since a transport may
    read and write the request it is given. *)
Record RoundTripper := mkRoundTripper {
  RoundTrip_op : loc → M (result GoError http.Response) }.

(** [cbauthRoundTripper]: the delegate and the authenticator ([None] is a
    nil [Authenticator]: the default one). *)
Record cbauthRoundTripper := mkCbauthRoundTripper {
  slave : RoundTripper; a : option Authenticator }.

Section Client.

(** [append]'s growth policy, Go's iteration order over a map's entries,
    and [cbauth.Default]. *)
Context (grow : nat → nat → nat).
Context (range : header → list (string * option slice)).
Context (Default : option Authenticator).

(** [append(s, xs...)] on header values. *)
Definition append_m (s : option slice) (xs : list string) : M (option slice) :=
  λ st, match append "" grow (arrays st) s xs with
        | Some (h, s') => Ok (s', set_arrays h st)
        | None => Err NilDeref
        end.

(** *** [http.Header] methods *)

(** [Header.Set]: [h[CanonicalMIMEHeaderKey(key)] = []string{value}]. *)
Definition Header_Set (h : option loc) (key value : string) : M unit :=
  l ← alloc_array [value];
  map_assign h (CanonicalMIMEHeaderKey key) (Some (mkSlice l 0 1 1)).

(** [Header.Add]: [h[key] = append(h[key], value)]. *)
Definition Header_Add (h : option loc) (key value : string) : M unit :=
  let k := CanonicalMIMEHeaderKey key in
  v ← map_index h k; v' ← append_m v [value]; map_assign h k v'.

(** [Header.Del]. *)
Definition Header_Del (h : option loc) (key : string) : M unit :=
  map_delete h (CanonicalMIMEHeaderKey key).

(** [Header.Get]: the first value, or [""]. *)
Definition Header_Get (h : option loc) (key : string) : M string :=
  v ← map_index h (CanonicalMIMEHeaderKey key); xs ← slice_elems v;
  mret (default "" (head xs)).

(** *** [Request.SetBasicAuth] *)

(** [basicAuth]: [base64.StdEncoding.EncodeToString([]byte(username + ":" + password))]. *)
Definition basicAuth (username password : string) : string :=
  base64.EncodeToString (bytes (username +:+ ":" +:+ password)).

Definition SetBasicAuth (r : loc) (username password : string) : M unit :=
  q ← load_req r;
  Header_Set (http.Header q) "Authorization" ("Basic " +:+ basicAuth username password).

(** *** cbauth *)

(** [WithAuthenticator]: the given authenticator, else [Default], else
    [ErrNotInitialized]. *)
Definition WithAuthenticator (a : option Authenticator)
    (body : Authenticator → M (option GoError)) : M (option GoError) :=
  match a with
  | Some a => body a
  | None => match Default with Some d => body d | None => mret (Some ErrNotInitialized) end
  end.

(** [SetRequestAuthVia]: credentials for [req.URL.Host], then
    [req.SetBasicAuth]; an error of the authenticator is returned and
    nothing is set. *)
Definition SetRequestAuthVia (req : loc) (a : option Authenticator) : M (option GoError) :=
  WithAuthenticator a (λ a,
    r ← load_req req;
    match GetHTTPServiceAuth a (url.Host (http.URL r)) with
    | Err e => mret (Some e)
    | Ok (user, pwd) => SetBasicAuth req user pwd;; mret None
    end).

Definition SetRequestAuth (req : loc) : M (option GoError) := SetRequestAuthVia req None.

(** [duplicateStringsSlice]: [append([]string{}, in...)]. *)
Definition duplicateStringsSlice (in_ : option slice) : M (option slice) :=
  l ← alloc_array []; xs ← slice_elems in_; append_m (Some (mkSlice l 0 0 0)) xs.

(** The loop of [dupHeaders]: [rv[k] = duplicateStringsSlice(v)] for
    each entry in iteration order. *)
Fixpoint dup_entries (rv : loc) (kvs : list (string * option slice)) : M unit :=
  match kvs with
  | [] => mret tt
  | (k, v) :: kvs' => d ← duplicateStringsSlice v; map_assign (Some rv) k d;; dup_entries rv kvs'
  end.

(** [dupHeaders]: a new map; ranging over a nil map does nothing. *)
Definition dupHeaders (h : option loc) : M (option loc) :=
  rv ← make_map;
  kvs ← (match h with None => mret [] | Some l => m ← load_map l; mret (range m) end);
  dup_entries rv kvs;; mret (Some rv).

(** [dupRequest]: [rv := *req], new header and trailer maps, [&rv]. *)
Definition dupRequest (req : loc) : M loc :=
  r ← load_req req;
  hd ← dupHeaders (http.Header r);
  tr ← dupHeaders (http.Trailer r);
  alloc_req (http.mkRequest (http.Method r) (http.URL r) hd (http.Body r)
                            (http.ContentLength r) (http.Host r) tr).

(** [cbauthRoundTripper.RoundTrip]: duplicate, sign the duplicate, and
    hand it to the delegate; a signing error is returned without calling
    the delegate. *)
Definition RoundTrip (rt : cbauthRoundTripper) (req : loc) : M (result GoError http.Response) :=
  req' ← dupRequest req;
  err ← SetRequestAuthVia req' (a rt);
  match err with
  | Some e => mret (Err e)
  | None => RoundTrip_op (slave rt) req'
  end.

(** [WrapHTTPTransport]. *)
Definition WrapHTTPTransport (transport : RoundTripper) (a : option Authenticator) : RoundTripper :=
  mkRoundTripper (RoundTrip (mkCbauthRoundTripper transport a)).

End Client.

(** ** The server side of Basic authentication *)

(** [strings.Cut(s, ":")]: the text before and after the first [':']. *)
Fixpoint cut_colon (s : string) : option (string * string) :=
  match s with
  | EmptyString => None
  | String c s' =>
    if Ascii.eqb c ":" then Some (EmptyString, s')
    else match cut_colon s' with Some (u, p) => Some (String c u, p) | None => None end
  end.

(** [parseBasicAuth] of [net/http] ([Request.BasicAuth]): the prefix
    ["Basic "] in any ASCII case, the base64 payload, and the user and
    password on either side of its first [':']. *)
Definition parseBasicAuth (auth : string) : option (string * string) :=
  let prefix := "Basic " in
  if (String.length prefix <=? String.length auth)%nat &&
     bool_decide (map strings.lower_ascii_byte (bytes (stake (String.length prefix) auth)) =
                  map strings.lower_ascii_byte (bytes prefix))
  then c ← base64.decode (sdrop (String.length prefix) auth); cut_colon (strings.string_of_bytes c)
  else None.
