(* ===== verification/HttpProofs.v ===== *)
(** * The request-signing theorems

    A total-correctness program logic for [M] ([wp m Q st]: [m] runs from
    [st] without panicking and [Q] holds of its result), the frame of a
    computation ([sframe b st st']: every object older than the snapshot
    [b] is unchanged), the well-formedness of a [Store] (every reference
    is allocated, every header value slice shows its elements), and the
    abstract view of a header map as a [gmap] from keys to the values its
    slices show.  Then the theorems of [SetRequestAuthVia], [dupRequest],
    [RoundTrip] and [WrapHTTPTransport] of [convenience.go]. *)

From S2P Require Import Prelude GoStrings GoHeap Base64 Http.

(** ** Definitions of the logic *)

Definition wp {A} (m : M A) (Q : A → Store → Prop) (st : Store) : Prop :=
  match m st with Ok (x, st') => Q x st' | Err _ => False end.

(** [h'] keeps every object of [h] older than [n] and allocates no lower. *)
Definition hframe {V} (n : loc) (h h' : heap V) : Prop :=
  unchanged_below n h h' ∧ (next h ≤ next h')%positive.

(** [st'] keeps every object of [st] that is older than the snapshot [b]. *)
Definition sframe (b st st' : Store) : Prop :=
  hframe (next (arrays b)) (arrays st) (arrays st') ∧
  hframe (next (maps b)) (maps st) (maps st') ∧
  hframe (next (requests b)) (requests st) (requests st').

(** [st] is not older than [b]. *)
Definition sge (st b : Store) : Prop :=
  (next (arrays b) ≤ next (arrays st))%positive ∧
  (next (maps b) ≤ next (maps st))%positive ∧
  (next (requests b) ≤ next (requests st))%positive.

(** Every value slice of a map shows its elements. *)
Definition slices_ok (ar : heap (list string)) (m : header) : Prop :=
  map_Forall (λ _ s, is_Some (slice_view ar s)) m.

Definition map_ok (ms : heap header) (h : option loc) : Prop :=
  match h with None => True | Some l => is_Some (load l ms) end.

Record store_wf (st : Store) : Prop := {
  wf_arrays : heap_wf (arrays st);
  wf_maps : heap_wf (maps st);
  wf_requests : heap_wf (requests st);
  wf_slices : ∀ l m, load l (maps st) = Some m → slices_ok (arrays st) m;
  wf_headers : ∀ r q, load r (requests st) = Some q →
    map_ok (maps st) (http.Header q) ∧ map_ok (maps st) (http.Trailer q) }.

(** The header a Go program sees: keys to the values their slices show;
    a nil map is empty. *)
Definition header_view (st : Store) (h : option loc) : option (gmap string (list string)) :=
  match h with
  | None => Some ∅
  | Some l => (λ m : header, omap (slice_view (arrays st)) m : gmap string (list string))
                <$> load l (maps st)
  end.

(** [q'] has the fields of [q] other than the two header maps. *)
Definition same_fields (q q' : http.Request) : Prop :=
  http.Method q' = http.Method q ∧ http.URL q' = http.URL q ∧ http.Body q' = http.Body q ∧
  http.ContentLength q' = http.ContentLength q ∧ http.Host q' = http.Host q.

(** The credentials [SetRequestAuthVia] obtains for [host]: from the
    given authenticator, else from the default one, else
    [ErrNotInitialized]. *)
Definition credentials (Default a : option Authenticator) (host : string)
    : result GoError (string * string) :=
  match a with
  | Some au => GetHTTPServiceAuth au host
  | None => match Default with Some d => GetHTTPServiceAuth d host | None => Err ErrNotInitialized end
  end.

(** The header a signing with these credentials leaves: the
    [Authorization] entry of Basic authentication, or no change. *)
Definition signed_view (cred : result GoError (string * string))
    (V : gmap string (list string)) : gmap string (list string) :=
  match cred with
  | Ok (u, p) => <["Authorization" := ["Basic " +:+ basicAuth u p]]> V
  | Err _ => V
  end.

(** The elements a slice shows ([[]] for one that shows none). *)
Definition sview (ar : heap (list string)) (s : option slice) : list string :=
  default [] (slice_view ar s).

(** Objects newer than the snapshot [b]. *)
Definition fresh_slice (b : Store) (s : option slice) : Prop :=
  ∀ l, slice_arr s = Some l → (next (arrays b) ≤ l)%positive.

Definition fresh_map (b st : Store) (h : option loc) : Prop :=
  match h with
  | None => True
  | Some l => (next (maps b) ≤ l)%positive ∧
              ∀ m, load l (maps st) = Some m → map_Forall (λ _ s, fresh_slice b s) m
  end.

Definition fresh_request (b st : Store) (r : loc) : Prop :=
  (next (requests b) ≤ r)%positive ∧
  ∀ q, load r (requests st) = Some q →
    fresh_map b st (http.Header q) ∧ fresh_map b st (http.Trailer q).

(** The contract of an [http.RoundTripper]: given a request all of whose
    objects are newer than [b], it keeps every object older than [b] and
    the store well formed. *)
Definition transport_law (d : RoundTripper) : Prop :=
  ∀ b r st res st', store_wf st → sge st b → fresh_request b st r →
    RoundTrip_op d r st = Ok (res, st') → sframe b st st' ∧ store_wf st'.

(** The promise a wrapper makes beyond that contract: the request it is
    given, and the header and trailer that request shows, are as they
    were when it returns.  A transport that writes into its own request
    keeps [transport_law] but not this. *)
Definition keeps_caller (d : RoundTripper) : Prop :=
  ∀ r q st res st', store_wf st → load r (requests st) = Some q →
    RoundTrip_op d r st = Ok (res, st') →
    load r (requests st') = Some q ∧
    header_view st' (http.Header q) = header_view st (http.Header q) ∧
    header_view st' (http.Trailer q) = header_view st (http.Trailer q).

(** ** A concrete environment

    A runtime that doubles capacities, the sorted iteration order, a
    request to [127.0.0.1:8091] with an [Accept-Encoding] header (and
    one with a nil header), an authenticator that has credentials and one
    that fails, and a delegate that answers without touching the store. *)

Definition grow2 (c n : nat) : nat := Nat.max (2 * c) n.

Definition ex_request (h : option loc) : http.Request :=
  http.mkRequest "GET" (url.mkURL "http" "127.0.0.1:8091" "/pools") h 0 0 "127.0.0.1:8091" None.

Definition ex_store : Store :=
  mkStore (mkHeap {[1%positive := ["gzip"]]} 2)
          (mkHeap {[1%positive := {["Accept-Encoding" := Some (mkSlice 1 0 1 1)]}]} 2)
          (mkHeap {[1%positive := ex_request (Some 1%positive)]} 2).

Definition ex_nil_store : Store :=
  mkStore heap_empty heap_empty (mkHeap {[1%positive := ex_request None]} 2).

Definition ex_auth : Authenticator := mkAuthenticator (λ _, Ok ("Administrator", "password")).

Definition ex_colon_auth : Authenticator := mkAuthenticator (λ _, Ok ("svc:admin", "pw")).

Definition ex_no_auth : Authenticator :=
  mkAuthenticator (λ host, Err (ErrOther ("no credentials for " +:+ host))).

Definition ex_transport : RoundTripper :=
  mkRoundTripper (λ _ st, Ok (Ok (http.mkResponse 200), st)).

(** ** Rules of [wp] *)

Create HintDb wp discriminated.

Section Rules.
Context {A B : Type}.
Implicit Types (Q : A → Store → Prop) (st : Store).

Lemma wp_bind (m : M B) (f : B → M A) Q st :
  wp m (λ x, wp (f x) Q) st → wp (m ≫= f) Q st.
Proof. unfold wp, mbind, M_bind. by destruct (m st) as [[x st']|]. Qed.

Lemma wp_ret (x : A) Q st : Q x st → wp (mret x) Q st.
Proof. done. Qed.

Lemma wp_mono (m : M A) Q Q' st : wp m Q st → (∀ x st', Q x st' → Q' x st') → wp m Q' st.
Proof. unfold wp. destruct (m st) as [[x st']|]; eauto. Qed.

Lemma wp_run (m : M A) Q st x st' : wp m Q st → m st = Ok (x, st') → Q x st'.
Proof. unfold wp. intros H Hm. by rewrite Hm in H. Qed.

Lemma wp_ok (m : M A) Q st : wp m Q st → ∃ x st', m st = Ok (x, st') ∧ Q x st'.
Proof. unfold wp. destruct (m st) as [[x st']|]; [eauto|done]. Qed.

End Rules.

Lemma wp_load_req r q (Q : _ → Store → Prop) st :
  load r (requests st) = Some q → Q q st → wp (load_req r) Q st.
Proof. unfold wp, load_req. by intros ->. Qed.

Lemma wp_alloc_req q (Q : _ → Store → Prop) st :
  Q (next (requests st)) (set_requests (snd (alloc q (requests st))) st) → wp (alloc_req q) Q st.
Proof. done. Qed.

Lemma wp_load_map l m (Q : _ → Store → Prop) st :
  load l (maps st) = Some m → Q m st → wp (load_map l) Q st.
Proof. unfold wp, load_map. by intros ->. Qed.

Lemma wp_make_map (Q : _ → Store → Prop) st :
  Q (next (maps st)) (set_maps (snd (alloc ∅ (maps st))) st) → wp make_map Q st.
Proof. done. Qed.

Lemma wp_map_assign l k v m (Q : _ → Store → Prop) st :
  load l (maps st) = Some m → Q tt (set_maps (write l (<[k := v]> m) (maps st)) st) →
  wp (map_assign (Some l) k v) Q st.
Proof. unfold wp, map_assign. by intros ->. Qed.

Lemma wp_alloc_array v (Q : _ → Store → Prop) st :
  Q (next (arrays st)) (set_arrays (snd (alloc v (arrays st))) st) → wp (alloc_array v) Q st.
Proof. done. Qed.

Lemma wp_slice_elems s v (Q : _ → Store → Prop) st :
  slice_view (arrays st) s = Some v → Q v st → wp (slice_elems s) Q st.
Proof. unfold wp, slice_elems. by intros ->. Qed.

Lemma wp_append_m grow s xs h' s' (Q : _ → Store → Prop) st :
  append "" grow (arrays st) s xs = Some (h', s') → Q s' (set_arrays h' st) →
  wp (append_m grow s xs) Q st.
Proof. unfold wp, append_m. by intros ->. Qed.

(** Unfold the record updates of the store, and nothing else. *)
Ltac store_simpl := cbn [arrays maps requests set_maps set_arrays set_requests] in *.

(** ** Frames *)

Implicit Types (ar : heap (list string)) (st b : Store).

Section Frames.
Context {V : Type}.
Implicit Types (h : heap V).

Lemma hframe_refl n h : hframe n h h.
Proof. split; [apply unchanged_below_refl | lia]. Qed.

Lemma hframe_trans n h1 h2 h3 : hframe n h1 h2 → hframe n h2 h3 → hframe n h1 h3.
Proof. intros [? ?] [? ?]. split; [by eapply unchanged_below_trans | lia]. Qed.

Lemma hframe_mono n n' h h' : (n' ≤ n)%positive → hframe n h h' → hframe n' h h'.
Proof. intros ? [? ?]. split; [by eapply unchanged_below_mono | done]. Qed.

Lemma hframe_alloc n v h : (n ≤ next h)%positive → hframe n h (snd (alloc v h)).
Proof. intros. split; [by apply alloc_unchanged | simpl; lia]. Qed.

Lemma hframe_write n l v h : (n ≤ l)%positive → hframe n h (write l v h).
Proof. intros. split; [by apply write_unchanged | simpl; lia]. Qed.

(** An object older than [n] reads the same after the frame. *)
Lemma hframe_load n h h' l v : hframe n h h' → (l < n)%positive → load l h = Some v → load l h' = Some v.
Proof. intros [Hu _] Hl Hv. by rewrite Hu. Qed.

End Frames.

#[export] Hint Resolve hframe_refl hframe_alloc hframe_write : cbauth.

Lemma sframe_refl b st : sframe b st st.
Proof. split_and!; apply hframe_refl. Qed.

Lemma sframe_trans b st1 st2 st3 : sframe b st1 st2 → sframe b st2 st3 → sframe b st1 st3.
Proof. intros (?&?&?) (?&?&?). split_and!; by eapply hframe_trans. Qed.

Lemma sframe_sge b st st' : sge st b → sframe b st st' → sge st' b.
Proof. intros (?&?&?) ((_&?)&(_&?)&(_&?)). unfold sge. lia. Qed.

(** A computation that keeps everything older than [st] keeps everything
    older than any earlier snapshot. *)
Lemma sframe_weaken b st st' : sge st b → sframe st st st' → sframe b st st'.
Proof. intros (?&?&?) (?&?&?). split_and!; by eapply hframe_mono. Qed.

Lemma sge_refl st : sge st st.
Proof. unfold sge. lia. Qed.

Lemma sge_trans st1 st2 st3 : sge st1 st2 → sge st2 st3 → sge st1 st3.
Proof. unfold sge. lia. Qed.

Lemma sframe_set_arrays b st ar' :
  hframe (next (arrays b)) (arrays st) ar' → sframe b st (set_arrays ar' st).
Proof. intros. split_and!; [done | apply hframe_refl ..]. Qed.

Lemma sframe_set_maps b st ms' :
  hframe (next (maps b)) (maps st) ms' → sframe b st (set_maps ms' st).
Proof. intros. split_and!; [apply hframe_refl | done | apply hframe_refl]. Qed.

Lemma sframe_set_requests b st rs' :
  hframe (next (requests b)) (requests st) rs' → sframe b st (set_requests rs' st).
Proof. intros. split_and!; [apply hframe_refl .. | done]. Qed.

#[export] Hint Resolve sframe_refl sge_refl sframe_set_arrays sframe_set_maps
  sframe_set_requests : cbauth.

(** ** Views *)

(** A slice that shows its elements shows the same ones after a frame of
    its heap. *)
Lemma slice_view_keep ar ar' s v :
  heap_wf ar → hframe (next ar) ar ar' → slice_view ar s = Some v → slice_view ar' s = Some v.
Proof.
  intros Hwf Hf Hv. destruct s as [sl|]; [|done]. simpl in *.
  destruct (load (arr sl) ar) as [a|] eqn:Ea; [|done].
  by rewrite (hframe_load _ _ _ _ _ Hf (load_lt _ _ _ Hwf Ea) Ea).
Qed.

Lemma omap_view_keep ar ar' (m : header) :
  heap_wf ar → hframe (next ar) ar ar' → slices_ok ar m →
  omap (slice_view ar') m = omap (slice_view ar) m.
Proof.
  intros Hwf Hf Hok. apply omap_ext. intros k s Hs.
  destruct (Hok k s Hs) as [v Hv]. rewrite Hv. by eapply slice_view_keep.
Qed.

Lemma slices_ok_keep ar ar' (m : header) :
  heap_wf ar → hframe (next ar) ar ar' → slices_ok ar m → slices_ok ar' m.
Proof.
  intros Hwf Hf Hok k s Hs. destruct (Hok k s Hs) as [v Hv].
  exists v. by eapply slice_view_keep.
Qed.

(** ** Well-formedness of each kind of update *)

Lemma map_ok_alloc (ms : heap header) (w : header) h :
  heap_wf ms → map_ok ms h → map_ok (snd (alloc w ms)) h.
Proof.
  destruct h as [l|]; [|done]. intros Hwf [m Hm]. exists m. by apply load_alloc_old.
Qed.

Lemma map_ok_write (ms : heap header) l (w : header) h :
  map_ok ms h → map_ok (write l w ms) h.
Proof.
  destruct h as [l'|]; [|done]. intros Hm. simpl.
  destruct (decide (l = l')) as [->|Hne]; [rewrite load_write_eq; by eexists|].
  by rewrite load_write_ne.
Qed.

Lemma store_wf_set_arrays st ar' :
  store_wf st → heap_wf ar' → hframe (next (arrays st)) (arrays st) ar' →
  store_wf (set_arrays ar' st).
Proof.
  intros [Ha Hm Hr Hs Hh] Hwf Hf. split; store_simpl; auto.
  intros l m Hl. eapply (slices_ok_keep (arrays st)); eauto.
Qed.

Lemma store_wf_alloc_map st :
  store_wf st → store_wf (set_maps (snd (alloc ∅ (maps st))) st).
Proof.
  intros [Ha Hm Hr Hs Hh]. split; store_simpl; auto using alloc_wf.
  - intros l m. destruct (decide (l = next (maps st))) as [->|Hne].
    + rewrite load_alloc_next. intros [= <-]. apply map_Forall_empty.
    + rewrite load_alloc_ne by done. eauto.
  - intros r q Hq. destruct (Hh r q Hq). split; by apply map_ok_alloc.
Qed.

Lemma store_wf_write_map st l m m' :
  store_wf st → load l (maps st) = Some m → slices_ok (arrays st) m' →
  store_wf (set_maps (write l m' (maps st)) st).
Proof.
  intros [Ha Hm Hr Hs Hh] Hl Hok. split; store_simpl; auto.
  - apply write_wf; [done|]. by eapply load_lt.
  - intros l' m''. destruct (decide (l = l')) as [->|Hne].
    + rewrite load_write_eq. by intros [= <-].
    + rewrite load_write_ne by done. eauto.
  - intros r q Hq. destruct (Hh r q Hq). split; by apply map_ok_write.
Qed.

Lemma store_wf_alloc_req st q :
  store_wf st → map_ok (maps st) (http.Header q) → map_ok (maps st) (http.Trailer q) →
  store_wf (set_requests (snd (alloc q (requests st))) st).
Proof.
  intros [Ha Hm Hr Hs Hh'] Hh Ht. split; store_simpl; auto using alloc_wf.
  intros r q'. destruct (decide (r = next (requests st))) as [->|Hne].
  - rewrite load_alloc_next. by intros [= <-].
  - rewrite load_alloc_ne by done. eauto.
Qed.

#[export] Hint Resolve store_wf_alloc_map store_wf_alloc_req : cbauth.

(** ** Views and freshness under frames *)

Lemma map_ok_keep st st' h :
  store_wf st → sframe st st st' → map_ok (maps st) h → map_ok (maps st') h.
Proof.
  intros Hwf (_ & Hf & _) Hh. destruct h as [l|]; [|done]. destruct Hh as [m Hm].
  exists m. eapply hframe_load; [done | | done]. eapply load_lt; [apply Hwf | done].
Qed.

Lemma header_view_keep st st' h :
  store_wf st → sframe st st st' → map_ok (maps st) h → header_view st' h = header_view st h.
Proof.
  intros Hwf (Ha & Hm & _) Hh. destruct h as [l|]; [|done]. destruct Hh as [m Hl].
  cbn [header_view]. rewrite Hl.
  rewrite (hframe_load _ _ _ _ _ Hm (load_lt _ _ _ (wf_maps _ Hwf) Hl) Hl).
  cbn [fmap option_fmap option_map]. f_equal. apply omap_view_keep; [apply Hwf | done |].
  by eapply wf_slices.
Qed.

Lemma header_view_map_ok st l v : header_view st (Some l) = Some v → map_ok (maps st) (Some l).
Proof. cbn [header_view map_ok]. destruct (load l (maps st)); [by eexists | done]. Qed.

Lemma header_view_some st h : map_ok (maps st) h → is_Some (header_view st h).
Proof. destruct h as [l|]; [|by eexists]. intros [m Hm]. cbn [header_view]. rewrite Hm. by eexists. Qed.

Lemma fresh_map_weaken b b' st h : sge b' b → fresh_map b' st h → fresh_map b st h.
Proof.
  intros (Ha & Hm & _) Hfr. destruct h as [l|]; [|done]. destruct Hfr as [Hl Hs].
  split; [lia|]. intros m Hlm. eapply map_Forall_impl; [by apply Hs|].
  intros k s Hfs a Ha'. specialize (Hfs a Ha'). lia.
Qed.

Lemma fresh_map_keep b st st' h :
  store_wf st → sframe st st st' → map_ok (maps st) h → fresh_map b st h → fresh_map b st' h.
Proof.
  intros Hwf (_ & Hf & _) Hh Hfr. destruct h as [l|]; [|done].
  destruct Hh as [m Hm], Hfr as [Hl Hs]. split; [done|].
  intros m' Hm'. rewrite (hframe_load _ _ _ _ _ Hf (load_lt _ _ _ (wf_maps _ Hwf) Hm) Hm) in Hm'.
  simplify_eq. by apply Hs.
Qed.

Lemma slice_view_new_array ar v :
  slice_view (snd (alloc v ar)) (Some (mkSlice (next ar) 0 (length v) (length v))) = Some v.
Proof.
  cbn [slice_view arr off len cap]. rewrite load_alloc_next. cbn [mbind option_bind].
  rewrite decide_True by lia. by rewrite drop_0, take_ge.
Qed.

Lemma canonical_Authorization : CanonicalMIMEHeaderKey "Authorization" = "Authorization".
Proof. reflexivity. Qed.

Lemma bind_Ok {A B} (m : M A) (f : A → M B) st x st' :
  m st = Ok (x, st') → (m ≫= f) st = f x st'.
Proof. intros H. unfold mbind, M_bind. by rewrite H. Qed.

(** A write to one map leaves the view of another. *)
Lemma header_view_write_other st st' rv x h :
  store_wf st → hframe (next (arrays st)) (arrays st) (arrays st') →
  maps st' = write rv x (maps st) → h ≠ Some rv → header_view st' h = header_view st h.
Proof.
  intros Hwf Hf Hm Hne. destruct h as [l|]; [|done]. cbn [header_view].
  rewrite Hm, load_write_ne by congruence.
  destruct (load l (maps st)) as [m|] eqn:Hl; [|done]. cbn [fmap option_fmap option_map]. f_equal.
  apply (omap_view_keep (arrays st)); [apply Hwf | done |]. by eapply wf_slices.
Qed.

Lemma fresh_map_write b st st' rv x h :
  maps st' = write rv x (maps st) → map_Forall (λ _ s, fresh_slice b s) x →
  fresh_map b st h → fresh_map b st' h.
Proof.
  intros Hm Hx Hfr. destruct h as [l|]; [|done]. destruct Hfr as [Hl Hs]. split; [done|].
  intros m. rewrite Hm. destruct (decide (rv = l)) as [->|Hne].
  - rewrite load_write_eq. by intros [= <-].
  - rewrite load_write_ne by done. apply Hs.
Qed.

Lemma signed_view_err e (X : option (gmap string (list string))) : signed_view (Err e) <$> X = X.
Proof. by destruct X. Qed.

Lemma bind_Err {A B} (m : M A) (f : A → M B) st e : m st = Err e → (m ≫= f) st = Err e.
Proof. intros H. unfold mbind, M_bind. by rewrite H. Qed.

(** ** Basic credentials on the wire *)

Lemma bytes_are_bytes s : Forall base64.is_byte (bytes s).
Proof.
  induction s as [|c s IH]; constructor; [|done]. unfold base64.is_byte. apply bv_range.
Qed.

Lemma cut_colon_app u p :
  (∀ c, c ∈ list_ascii_of_string u → c ≠ ":"%char) → cut_colon (u +:+ ":" +:+ p) = Some (u, p).
Proof.
  induction u as [|c u IH]; intros Hu; [done|]. cbn [String.append cut_colon].
  assert (c ≠ ":"%char) as Hc by (apply Hu; cbn; left).
  change (String c u +:+ ":" +:+ p) with (String c (u +:+ ":" +:+ p)). cbn [cut_colon].
  destruct (Ascii.eqb _ _) eqn:E; [apply Ascii.eqb_eq in E; congruence|].
  rewrite IH; [done|].
  intros c' Hc'. apply Hu. cbn. by right.
Qed.

(** The [Authorization] value [SetBasicAuth] writes decodes, under
    base64, to the bytes of [username:password]. *)
Lemma basicAuth_decode u p :
  base64.decode (basicAuth u p) = Some (bytes (u +:+ ":" +:+ p)).
Proof. apply base64.decode_encode, bytes_are_bytes. Qed.

(** A server reading a Basic value gets the credentials back, when the
    user name has no [':']. *)
Lemma parseBasicAuth_basicAuth u p :
  (∀ c, c ∈ list_ascii_of_string u → c ≠ ":"%char) →
  parseBasicAuth ("Basic " +:+ basicAuth u p) = Some (u, p).
Proof.
  intros Hu. unfold parseBasicAuth.
  change ("Basic " +:+ basicAuth u p) with
    (String "B" (String "a" (String "s" (String "i" (String "c" (String " " (basicAuth u p))))))).
  cbn [String.length stake sdrop].
  rewrite basicAuth_decode. cbn [mbind option_bind].
  rewrite GoStringsFacts.string_of_bytes_bytes. by apply cut_colon_app.
Qed.

(** A user name with a [':'] is cut at its first [':']: the server reads
    the rest of it as the start of the password. *)
Lemma parseBasicAuth_colon u1 u2 p :
  (∀ c, c ∈ list_ascii_of_string u1 → c ≠ ":"%char) →
  parseBasicAuth ("Basic " +:+ basicAuth (u1 +:+ ":" +:+ u2) p) = Some (u1, u2 +:+ ":" +:+ p).
Proof.
  intros Hu. rewrite <- (parseBasicAuth_basicAuth u1 (u2 +:+ ":" +:+ p) Hu).
  unfold parseBasicAuth.
  change ("Basic " +:+ basicAuth (u1 +:+ ":" +:+ u2) p) with
    (String "B" (String "a" (String "s" (String "i" (String "c" (String " " (basicAuth (u1 +:+ ":" +:+ u2) p))))))).
  change ("Basic " +:+ basicAuth u1 (u2 +:+ ":" +:+ p)) with
    (String "B" (String "a" (String "s" (String "i" (String "c" (String " " (basicAuth u1 (u2 +:+ ":" +:+ p)))))))).
  cbn [String.length stake sdrop]. rewrite !basicAuth_decode.
  by rewrite !bytes_app, <- !app_assoc.
Qed.

(** ** Specifications of the code *)

Section Proofs.
Context (grow : nat → nat → nat) (range : header → list (string * option slice)).
Context (Default : option Authenticator).
Hypothesis grow_enough : ∀ c n, (n ≤ grow c n)%nat.
Hypothesis range_perm : ∀ m, range m ≡ₚ map_to_list m.

(** The views of the entries of a list survive a frame of the arrays. *)
Lemma fmap_sview_keep ar ar' (kvs : list (string * option slice)) :
  heap_wf ar → hframe (next ar) ar ar' → Forall (λ kv, is_Some (slice_view ar kv.2)) kvs →
  sview ar' <$> (list_to_map kvs : header) = sview ar <$> list_to_map kvs.
Proof.
  intros Hwf Hf Hall. apply map_fmap_ext. intros k s Hs.
  apply elem_of_list_to_map_2 in Hs.
  rewrite Forall_forall in Hall. destruct (Hall _ Hs) as [v Hv]. simpl in Hv.
  unfold sview. rewrite Hv. by erewrite slice_view_keep.
Qed.

Lemma union_insert_move (A B : gmap string (list string)) k x :
  A !! k = None → A ∪ <[k:=x]> B = <[k:=x]> A ∪ B.
Proof. intros Hk. by rewrite <- insert_union_r, insert_union_l. Qed.

Lemma sview_omap ar (m : header) : slices_ok ar m → sview ar <$> m = omap (slice_view ar) m.
Proof.
  intros Hok. apply map_eq. intros k. rewrite lookup_fmap, lookup_omap.
  destruct (m !! k) as [s|] eqn:Hs; [|done]. destruct (Hok k s Hs) as [v Hv].
  cbn [fmap option_fmap option_map mbind option_bind]. unfold sview. by rewrite Hv.
Qed.

(** [duplicateStringsSlice] touches only arrays: it returns a slice of a
    new array that shows the same elements, and keeps every older array. *)
Lemma duplicateStringsSlice_wp s v Q st :
  store_wf st → slice_view (arrays st) s = Some v →
  (∀ ar' s', heap_wf ar' → hframe (next (arrays st)) (arrays st) ar' →
     slice_view ar' s' = Some v → fresh_slice st s' → Q s' (set_arrays ar' st)) →
  wp (duplicateStringsSlice grow s) Q st.
Proof.
  intros Hwf Hv HQ. unfold duplicateStringsSlice.
  apply wp_bind, wp_alloc_array, wp_bind. store_simpl.
  set (ar1 := snd (alloc [] (arrays st))).
  assert (hframe (next (arrays st)) (arrays st) ar1) as Hf1 by (apply hframe_alloc; lia).
  apply (wp_slice_elems _ v); [store_simpl; eapply slice_view_keep; eauto using wf_arrays|].
  set (e := Some (mkSlice (next (arrays st)) 0 0 0)).
  assert (slice_view ar1 e = Some []) as He.
  { cbn [slice_view e arr off len cap]. unfold ar1. by rewrite load_alloc_next. }
  destruct (append_some "" grow ar1 e v ltac:(by eexists)) as [[h' s'] Ha].
  eapply wp_append_m; [exact Ha|]. store_simpl.
  destruct (append_frame "" grow ar1 e v h' s' Ha) as (Hn & _ & Harr).
  apply HQ.
  - eapply append_wf; [| exact Ha]. apply alloc_wf, (wf_arrays _ Hwf).
  - eapply hframe_trans; [exact Hf1|]. split; [|done].
    eapply append_unchanged; [| | exact Ha]; [simpl; lia | by intros ? [= <-]].
  - by rewrite (append_view "" grow grow_enough ar1 e v [] h' s' He Ha).
  - intros l Hl. unfold ar1, e in *. simpl in Harr.
    destruct Harr as [Harr|Harr]; rewrite Harr in Hl; simplify_eq; lia.
Qed.

(** The loop of [dupHeaders]: from a map [acc] at [rv], the entries of
    [kvs] are added with duplicated slices; the arrays that existed keep
    their contents, and every slice added uses a new array. *)
Lemma dup_entries_wp rv kvs acc Q st :
  store_wf st → load rv (maps st) = Some acc →
  NoDup kvs.*1 → Forall (λ kv, is_Some (slice_view (arrays st) kv.2)) kvs →
  (∀ ar' acc', heap_wf ar' → hframe (next (arrays st)) (arrays st) ar' →
     slices_ok ar' acc' →
     omap (slice_view ar') acc' =
       (sview (arrays st) <$> list_to_map kvs) ∪ omap (slice_view (arrays st)) acc →
     map_Forall (λ k s, acc !! k = Some s ∨ fresh_slice st s) acc' →
     Q tt (mkStore ar' (write rv acc' (maps st)) (requests st))) →
  wp (dup_entries grow rv kvs) Q st.
Proof.
  revert acc Q st. induction kvs as [|[k v] kvs' IH]; intros acc Q st Hwf Hrv Hnd Hall HQ.
  - apply wp_ret. destruct st as [ar ms rs]. store_simpl.
    rewrite <- (write_id rv acc ms) at 1 by done.
    destruct Hwf as [Ha ? ? Hsl ?]. apply HQ; [done | apply hframe_refl | by eapply Hsl | |].
    + by rewrite list_to_map_nil, fmap_empty, (left_id_L ∅ _).
    + intros k s Hs. by left.
  - apply NoDup_cons in Hnd as [Hk Hnd]. apply Forall_cons in Hall as [[x Hx] Hall].
    simpl in Hx. cbn [dup_entries]. apply wp_bind.
    apply (duplicateStringsSlice_wp _ x); [done..|].
    intros ar1 s' Hwf1 Hf1 Hs' Hfr. apply wp_bind.
    apply (wp_map_assign _ _ _ acc); [done|]. store_simpl.
    pose proof (wf_arrays _ Hwf) as Ha.
    assert (slices_ok ar1 (<[k:=s']> acc)) as Hok.
    { apply map_Forall_insert_2; [by eexists|].
      eapply slices_ok_keep; [done..|]. by eapply wf_slices. }
    apply (IH (<[k:=s']> acc)).
    + apply (store_wf_write_map (set_arrays ar1 st) rv acc); [by apply store_wf_set_arrays | done..].
    + apply load_write_eq.
    + done.
    + eapply Forall_impl; [done|]. intros kv [y Hy]. exists y. by eapply slice_view_keep.
    + intros ar' acc' Hwf' Hf' Hok' Hview Hnew. store_simpl. rewrite write_write.
      apply HQ; [done | | done | | ].
      * eapply hframe_trans; [done|]. eapply hframe_mono; [|done]. apply Hf1.
      * rewrite Hview, omap_insert_Some with (y := x) by done.
        rewrite (omap_view_keep (arrays st)), (fmap_sview_keep (arrays st)) by eauto using wf_slices.
        cbn [list_to_map foldr fst snd]. rewrite fmap_insert.
        unfold sview at 2. rewrite Hx. apply union_insert_move.
        rewrite lookup_fmap, not_elem_of_list_to_map_1 by done. done.
      * eapply map_Forall_impl; [done|]. intros k' s [Hs|Hs].
        -- destruct (decide (k = k')) as [->|Hne].
           ++ rewrite lookup_insert_eq in Hs. simplify_eq. by right.
           ++ rewrite lookup_insert_ne in Hs by done. by left.
        -- right. intros l Hl. specialize (Hs l Hl). store_simpl. destruct Hf1 as [_ ?]. lia.
Qed.

(** The entries [range] gives are the map's, without repetition. *)
Lemma range_entries (m : header) :
  NoDup (range m).*1 ∧ (∀ k v, (k, v) ∈ range m ↔ m !! k = Some v) ∧
  list_to_map (range m) = m.
Proof.
  split_and!.
  - rewrite (range_perm m). apply NoDup_fst_map_to_list.
  - intros k v. rewrite (range_perm m). apply elem_of_map_to_list.
  - rewrite (list_to_map_proper (range m) (map_to_list m)), list_to_map_to_list; [done| |done].
    rewrite (range_perm m). apply NoDup_fst_map_to_list.
Qed.

(** [dupHeaders]: a new map, showing what the given one shows, whose
    slices all use new arrays; nothing older changes. *)
Lemma dupHeaders_wp h Q st :
  store_wf st → map_ok (maps st) h →
  (∀ st' rv, store_wf st' → sframe st st st' → requests st' = requests st →
     fresh_map st st' (Some rv) → header_view st' (Some rv) = header_view st h →
     Q (Some rv) st') →
  wp (dupHeaders grow range h) Q st.
Proof.
  intros Hwf Hh HQ. unfold dupHeaders. apply wp_bind, wp_make_map, wp_bind.
  set (st1 := set_maps (snd (alloc ∅ (maps st))) st).
  assert (store_wf st1) as Hwf1 by (by apply store_wf_alloc_map).
  assert (∀ kvs, NoDup kvs.*1 → Forall (λ kv, is_Some (slice_view (arrays st) kv.2)) kvs →
      header_view st h = Some (sview (arrays st) <$> list_to_map kvs) →
      wp (dup_entries grow (next (maps st)) kvs;; mret (Some (next (maps st)))) Q st1) as Hrest.
  { intros kvs Hnd Hall Hv. apply wp_bind. apply (dup_entries_wp _ _ ∅); [done | apply load_alloc_next | done..|].
    intros ar' acc' Hwa Hfa Hok Hview Hnew. apply wp_ret. store_simpl. apply HQ.
    - apply (store_wf_write_map (set_arrays ar' st1) _ ∅); [|apply load_alloc_next|done].
      by apply store_wf_set_arrays.
    - split_and!; [done | | apply hframe_refl].
      eapply hframe_trans; [apply hframe_alloc; lia | apply hframe_write; simpl; lia].
    - done.
    - split; [done|]. store_simpl. rewrite load_write_eq. intros m [= <-].
      eapply map_Forall_impl; [done|]. intros k s [Hs|Hs]; [by rewrite lookup_empty in Hs | done].
    - rewrite Hv. cbn [header_view]. store_simpl. rewrite load_write_eq. cbn [fmap option_fmap option_map].
      by rewrite Hview, omap_empty, (right_id_L ∅ _). }
  destruct h as [l|].
  - destruct Hh as [m Hm]. destruct (range_entries m) as (Hnd & Hin & Hl).
    apply wp_bind, (wp_load_map _ m); [by apply load_alloc_old; [apply wf_maps|]|].
    apply wp_ret, Hrest; [done| |].
    + apply Forall_forall. intros [k v] Hkv%Hin. by eapply (wf_slices _ Hwf).
    + cbn [header_view]. rewrite Hm, Hl, sview_omap; [done|]. by eapply wf_slices.
  - apply wp_ret, (Hrest []); [constructor | constructor |].
    by rewrite list_to_map_nil, fmap_empty.
Qed.

(** [dupRequest]: a new request with the fields of the old one and new
    header and trailer maps showing what the old ones show. *)
Lemma dupRequest_wp req q Q st :
  store_wf st → load req (requests st) = Some q →
  (∀ st' req' q', store_wf st' → sframe st st st' → fresh_request st st' req' →
     load req' (requests st') = Some q' → same_fields q q' → http.Header q' ≠ None →
     http.Trailer q' ≠ http.Header q' →
     header_view st' (http.Header q') = header_view st (http.Header q) →
     header_view st' (http.Trailer q') = header_view st (http.Trailer q) → Q req' st') →
  wp (dupRequest grow range req) Q st.
Proof.
  intros Hwf Hq HQ. destruct (wf_headers _ Hwf _ _ Hq) as [Hh Ht].
  unfold dupRequest. apply wp_bind, (wp_load_req _ q); [done|].
  apply wp_bind, dupHeaders_wp; [done..|].
  intros st1 rv1 Hwf1 Hf1 Hr1 Hfr1 Hv1. apply wp_bind, dupHeaders_wp; [done | by apply (map_ok_keep st)|].
  intros st2 rv2 Hwf2 Hf2 Hr2 Hfr2 Hv2. apply wp_alloc_req.
  assert (sge st1 st) as Hge1 by (eapply sframe_sge; [apply sge_refl | done]).
  assert (map_ok (maps st1) (Some rv1)) as Hok1.
  { destruct (header_view_some st _ Hh) as [v0 Hv0]. apply (header_view_map_ok _ _ v0). by rewrite Hv1. }
  pose proof (header_view_keep _ _ _ Hwf1 Hf2 Hok1) as Hk1.
  assert (map_ok (maps st2) (Some rv1)) as Hok1' by (by apply (map_ok_keep st1)).
  match goal with |- context [alloc ?q0 _] => apply (HQ _ _ q0) end.
  - apply store_wf_alloc_req; [done | done |].
    destruct (header_view_some st1 _ (map_ok_keep st st1 _ Hwf Hf1 Ht)) as [v0 Hv0].
    apply (header_view_map_ok _ _ v0). by rewrite Hv2.
  - eapply sframe_trans; [done|]. eapply sframe_trans; [by apply sframe_weaken|].
    apply sframe_set_requests, hframe_alloc. rewrite Hr2, Hr1. lia.
  - split; [store_simpl; rewrite Hr2, Hr1; lia|]. store_simpl. rewrite load_alloc_next.
    intros ? [= <-]. cbn [http.Header http.Trailer]. split.
    + change (fresh_map st st2 (Some rv1)). exact (fresh_map_keep st st1 st2 _ Hwf1 Hf2 Hok1 Hfr1).
    + change (fresh_map st st2 (Some rv2)). exact (fresh_map_weaken st st1 st2 _ Hge1 Hfr2).
  - apply load_alloc_next.
  - done.
  - done.
  - cbn [http.Header http.Trailer]. intros [= <-]. destruct Hok1 as [m1 Hm1].
    pose proof (load_lt _ _ _ (wf_maps _ Hwf1) Hm1). destruct Hfr2 as [? _]. lia.
  - cbn [http.Header]. store_simpl. rewrite <- Hv1. exact Hk1.
  - change (header_view st2 (Some rv2) = header_view st (http.Trailer q)).
    rewrite Hv2. by apply header_view_keep.
Qed.

(** [Header.Set] on a non-nil map: a new one-element array, and the map
    at [l] shows [[value]] under the canonical key. *)
Lemma Header_Set_wp l m key value Q st :
  store_wf st → load l (maps st) = Some m →
  (∀ st', store_wf st' → hframe (next (arrays st)) (arrays st) (arrays st') →
     maps st' = write l (<[CanonicalMIMEHeaderKey key := Some (mkSlice (next (arrays st)) 0 1 1)]> m) (maps st) →
     requests st' = requests st →
     header_view st' (Some l) = Some (<[CanonicalMIMEHeaderKey key := [value]]> (omap (slice_view (arrays st)) m)) →
     Q tt st') →
  wp (Header_Set (Some l) key value) Q st.
Proof.
  intros Hwf Hl HQ. unfold Header_Set. apply wp_bind, wp_alloc_array.
  apply (wp_map_assign _ _ _ m); [done|]. store_simpl.
  pose proof (wf_arrays _ Hwf) as Ha.
  assert (hframe (next (arrays st)) (arrays st) (snd (alloc [value] (arrays st)))) as Hf
    by (apply hframe_alloc; lia).
  pose proof (slice_view_new_array (arrays st) [value]) as Hnew. simpl length in Hnew.
  apply HQ; [| done | done | done |].
  - apply (store_wf_write_map (set_arrays (snd (alloc [value] (arrays st))) st) l m);
      [apply store_wf_set_arrays; [done | by apply alloc_wf | done] | done |].
    apply map_Forall_insert_2; [by eexists|]. eapply slices_ok_keep; [done..|]. by eapply wf_slices.
  - cbn [header_view]. store_simpl. rewrite load_write_eq. cbn [fmap option_fmap option_map].
    rewrite omap_insert_Some with (y := [value]) by done.
    rewrite (omap_view_keep (arrays st)); [done..|]. by eapply wf_slices.
Qed.

(** A write to a nil map panics. *)
Lemma Header_Set_nil key value st : Header_Set None key value st = Err NilMapWrite.
Proof. reflexivity. Qed.


Lemma bind_load_req {A} r q (f : http.Request → M A) st :
  load r (requests st) = Some q → (load_req r ≫= f) st = f q st.
Proof. intros Hq. unfold mbind, M_bind, load_req. by rewrite Hq. Qed.

Lemma SetRequestAuthVia_unfold req a q st :
  load req (requests st) = Some q →
  SetRequestAuthVia Default req a st =
    match credentials Default a (url.Host (http.URL q)) with
    | Err e => Ok (Some e, st)
    | Ok (u, p) => (Header_Set (http.Header q) "Authorization" ("Basic " +:+ basicAuth u p);;
                    mret None) st
    end.
Proof.
  intros Hq. unfold SetRequestAuthVia, WithAuthenticator, credentials.
  assert (∀ au, (load_req req ≫= λ r, match GetHTTPServiceAuth au (url.Host (http.URL r)) with
      | Ok (user, pwd) => SetBasicAuth req user pwd;; mret None
      | Err e => mret (Some e) end) st =
    match GetHTTPServiceAuth au (url.Host (http.URL q)) with
    | Err e => Ok (Some e, st)
    | Ok (u, p) => (Header_Set (http.Header q) "Authorization" ("Basic " +:+ basicAuth u p);;
                    mret None) st
    end) as Hau.
  { intros au. rewrite (bind_load_req _ q) by done.
    destruct (GetHTTPServiceAuth au _) as [[u p]|e]; [|done].
    unfold SetBasicAuth. unfold mbind at 1 3, M_bind at 1 3. by rewrite (bind_load_req _ q). }
  destruct a as [au|]; [apply Hau|]. destruct Default as [d|]; [apply Hau | done].
Qed.

(** Signing the duplicate: [Header.Set] on its fresh header map keeps
    everything older than [st], and the duplicate stays fresh. *)
Lemma sign_dup req' q' rv u p st st1 Q :
  store_wf st1 → sframe st st st1 → fresh_request st st1 req' →
  load req' (requests st1) = Some q' → http.Header q' = Some rv → http.Trailer q' ≠ Some rv →
  (∀ st2 m, store_wf st2 → sframe st st st2 → fresh_request st st2 req' →
     requests st2 = requests st1 → load rv (maps st1) = Some m →
     header_view st2 (Some rv) =
       Some (<["Authorization" := ["Basic " +:+ basicAuth u p]]> (omap (slice_view (arrays st1)) m)) →
     header_view st2 (http.Trailer q') = header_view st1 (http.Trailer q') → Q tt st2) →
  wp (Header_Set (Some rv) "Authorization" ("Basic " +:+ basicAuth u p)) Q st1.
Proof.
  intros Hwf1 Hf1 [Hr Hfr] Hq' Hh Ht HQ.
  destruct (Hfr q' Hq') as [Hfh Hft]. rewrite Hh in Hfh. destruct Hfh as [Hrv Hfm].
  destruct (wf_headers _ Hwf1 _ _ Hq') as [Hok _]. rewrite Hh in Hok. destruct Hok as [m Hm].
  apply (Header_Set_wp _ m); [done..|].
  intros st2 Hwf2 Ha2 Hm2 Hr2 Hv2. rewrite canonical_Authorization in *.
  assert (map_Forall (λ _ s, fresh_slice st s)
    (<["Authorization" := Some (mkSlice (next (arrays st1)) 0 1 1)]> m)) as Hx.
  { apply map_Forall_insert_2; [|by apply Hfm]. intros l [= <-].
    destruct Hf1 as ((_ & ?) & _). lia. }
  apply (HQ st2 m); [done | | | done..|].
  3: { apply (header_view_write_other st1 st2 rv _ _ Hwf1 Ha2 Hm2). congruence. }
  - eapply sframe_trans; [done|]. split_and!.
    + eapply hframe_mono; [|done]. destruct Hf1 as ((_ & ?) & _). done.
    + rewrite Hm2. by apply hframe_write.
    + rewrite Hr2. apply hframe_refl.
  - split; [done|]. rewrite Hr2. intros q0 Hq0. rewrite Hq' in Hq0. simplify_eq.
    split; eapply fresh_map_write; [done | done | rewrite Hh; by split | done | done | done].
Qed.

(** [RoundTrip] on a request of a well-formed store: it makes a duplicate
    [req'] in a store [st1] that keeps every older object, whose header
    shows the original's signed with the credentials and whose other
    fields are the original's; then it returns the error of the
    credentials, or hands [req'] to the delegate. *)
Lemma RoundTrip_run d auth req q st :
  store_wf st → load req (requests st) = Some q →
  let cred := credentials Default auth (url.Host (http.URL q)) in
  ∃ req' q' st1, store_wf st1 ∧ sframe st st st1 ∧ fresh_request st st1 req' ∧
    load req' (requests st1) = Some q' ∧ same_fields q q' ∧
    header_view st1 (http.Header q') = signed_view cred <$> header_view st (http.Header q) ∧
    header_view st1 (http.Trailer q') = header_view st (http.Trailer q) ∧
    RoundTrip grow range Default (mkCbauthRoundTripper d auth) req st =
      match cred with Err e => Ok (Err e, st1) | Ok _ => RoundTrip_op d req' st1 end.
Proof.
  intros Hwf Hq cred.
  assert (wp (dupRequest grow range req) (λ req' st1, ∃ q', store_wf st1 ∧ sframe st st st1 ∧
    fresh_request st st1 req' ∧ load req' (requests st1) = Some q' ∧ same_fields q q' ∧
    http.Header q' ≠ None ∧ http.Trailer q' ≠ http.Header q' ∧
    header_view st1 (http.Header q') = header_view st (http.Header q) ∧
    header_view st1 (http.Trailer q') = header_view st (http.Trailer q)) st) as Hdup
    by (apply (dupRequest_wp _ q); [done..|]; intros; eexists; eauto 10).
  destruct (wp_ok _ _ _ Hdup) as (req' & st1 & Hrun & q' & Hwf1 & Hf1 & Hfr1 & Hq' & Hsame & Hnn
    & Hdist & Hhv & Htv).
  unfold RoundTrip. rewrite (bind_Ok _ _ _ _ _ Hrun). cbn [Http.a Http.slave].
  pose proof (SetRequestAuthVia_unfold req' auth q' st1 Hq') as Hs.
  destruct Hsame as (Hm & Hurl & Hrest). rewrite Hurl in Hs. fold cred in Hs.
  destruct cred as [[u p]|e] eqn:Hc.
  - destruct (http.Header q') as [rv|] eqn:Hh; [|done].
    assert (wp (Header_Set (Some rv) "Authorization" ("Basic " +:+ basicAuth u p))
      (λ _ st2, ∃ m, store_wf st2 ∧ sframe st st st2 ∧ fresh_request st st2 req' ∧
         requests st2 = requests st1 ∧ load rv (maps st1) = Some m ∧
         header_view st2 (Some rv) =
           Some (<["Authorization" := ["Basic " +:+ basicAuth u p]]> (omap (slice_view (arrays st1)) m)) ∧
         header_view st2 (http.Trailer q') = header_view st1 (http.Trailer q')) st1) as Hset
      by (eapply sign_dup; [done.. | congruence |]; intros; eexists; eauto 10).
    destruct (wp_ok _ _ _ Hset) as ([] & st2 & Hrun2 & m & Hwf2 & Hf2 & Hfr2 & Hr2 & Hm1 & Hv2 & Ht2).
    rewrite (bind_Ok _ _ _ _ _ Hrun2) in Hs. rewrite (bind_Ok _ _ _ _ _ Hs).
    exists req', q', st2. split_and!; try done.
    + by rewrite Hr2.
    + rewrite Hh, Hv2. try rewrite Hh in Hhv. rewrite <- Hhv. cbn [header_view]. by rewrite Hm1.
    + by rewrite Ht2.
  - rewrite (bind_Ok _ _ _ _ _ Hs). exists req', q', st1. split_and!; try done.
    by rewrite signed_view_err.
Qed.

(** A dangling request pointer panics before anything is done. *)
Lemma RoundTrip_dangling d auth req st :
  load req (requests st) = None →
  RoundTrip grow range Default (mkCbauthRoundTripper d auth) req st = Err NilDeref.
Proof.
  intros Hq. unfold RoundTrip. apply bind_Err. unfold dupRequest. apply bind_Err.
  unfold load_req. by rewrite Hq.
Qed.

(** The frame of [RoundTrip] over a lawful delegate. *)
Lemma RoundTrip_frame d auth req st res st' :
  transport_law d → store_wf st →
  RoundTrip grow range Default (mkCbauthRoundTripper d auth) req st = Ok (res, st') →
  sframe st st st' ∧ store_wf st'.
Proof.
  intros Hd Hwf Hrt. destruct (load req (requests st)) as [q|] eqn:Hq;
    [|by rewrite RoundTrip_dangling in Hrt].
  destruct (RoundTrip_run d auth req q st Hwf Hq)
    as (req' & q' & st1 & Hwf1 & Hf1 & Hfr & _ & _ & _ & _ & Heq).
  rewrite Heq in Hrt. destruct (credentials _ _ _) as [cr|e].
  - destruct (Hd st req' st1 res st' Hwf1 (sframe_sge _ _ _ (sge_refl st) Hf1) Hfr Hrt) as [Hf2 Hwf2].
    split; [by eapply sframe_trans | done].
  - by injection Hrt as <- <-.
Qed.

(** What the caller of [RoundTrip] sees afterwards, over a lawful delegate. *)
Lemma RoundTrip_caller_view d auth req q st res st' :
  transport_law d → store_wf st → load req (requests st) = Some q →
  RoundTrip grow range Default (mkCbauthRoundTripper d auth) req st = Ok (res, st') →
  load req (requests st') = Some q ∧
  header_view st' (http.Header q) = header_view st (http.Header q) ∧
  header_view st' (http.Trailer q) = header_view st (http.Trailer q) ∧
  sframe st st st' ∧ store_wf st'.
Proof.
  intros Hd Hwf Hq Hrt. destruct (RoundTrip_frame d auth req st res st' Hd Hwf Hrt) as [Hf Hwf'].
  destruct (wf_headers _ Hwf _ _ Hq). split_and!; try by apply header_view_keep.
  - destruct Hf as (_ & _ & Hr). eapply hframe_load; [done | | done]. exact (load_lt _ _ _ (wf_requests _ Hwf) Hq).
  - done.
  - done.
Qed.

(** C1: [RoundTrip] never changes the caller's request: over a delegate
    that keeps the transport contract, the request, the header and the
    trailer it shows, and every object that existed before the call are
    as they were, and the store stays well formed. *)
Theorem RoundTrip_keeps_caller d auth req q st res st' :
  transport_law d → store_wf st → load req (requests st) = Some q →
  RoundTrip grow range Default (mkCbauthRoundTripper d auth) req st = Ok (res, st') →
  load req (requests st') = Some q ∧
  header_view st' (http.Header q) = header_view st (http.Header q) ∧
  header_view st' (http.Trailer q) = header_view st (http.Trailer q) ∧
  sframe st st st' ∧ store_wf st'.
Proof. apply RoundTrip_caller_view. Qed.

(** C2: When the credentials are found, [RoundTrip] hands the delegate a
    new request with the caller's method, URL, body, length and host,
    whose header is the caller's with [Authorization: Basic ...] set and
    whose trailer is the caller's; the store it is given keeps every
    older object and the new request reaches only new objects. *)
Theorem RoundTrip_signs d auth req q st u p :
  store_wf st → load req (requests st) = Some q →
  credentials Default auth (url.Host (http.URL q)) = Ok (u, p) →
  ∃ req' q' st1,
    RoundTrip grow range Default (mkCbauthRoundTripper d auth) req st = RoundTrip_op d req' st1 ∧
    load req' (requests st1) = Some q' ∧ same_fields q q' ∧
    header_view st1 (http.Header q') =
      <["Authorization" := ["Basic " +:+ basicAuth u p]]> <$> header_view st (http.Header q) ∧
    header_view st1 (http.Trailer q') = header_view st (http.Trailer q) ∧
    sframe st st st1 ∧ fresh_request st st1 req' ∧ store_wf st1.
Proof.
  intros Hwf Hq Hc. destruct (RoundTrip_run d auth req q st Hwf Hq)
    as (req' & q' & st1 & Hwf1 & Hf1 & Hfr & Hq' & Hs & Hh & Ht & Heq).
  cbn zeta in *. rewrite Hc in Heq, Hh. exists req', q', st1. done.
Qed.

(** C3: When the credentials cannot be had (the authenticator's error, or
    [ErrNotInitialized] without any authenticator), [RoundTrip] returns
    that error and never calls the delegate, whatever it is. *)
Theorem RoundTrip_auth_error d auth req q st e :
  store_wf st → load req (requests st) = Some q →
  credentials Default auth (url.Host (http.URL q)) = Err e →
  ∃ st1, RoundTrip grow range Default (mkCbauthRoundTripper d auth) req st = Ok (Err e, st1) ∧
    sframe st st st1 ∧ store_wf st1.
Proof.
  intros Hwf Hq Hc. destruct (RoundTrip_run d auth req q st Hwf Hq)
    as (req' & q' & st1 & Hwf1 & Hf1 & _ & _ & _ & _ & _ & Heq).
  cbn zeta in Heq. rewrite Hc in Heq. by exists st1.
Qed.


(** C7: [SetRequestAuthVia] itself signs the request it is given in
    place: its header map shows [Authorization: Basic ...] afterwards. *)
Theorem SetRequestAuthVia_in_place req q auth l u p st :
  store_wf st → load req (requests st) = Some q → http.Header q = Some l →
  credentials Default auth (url.Host (http.URL q)) = Ok (u, p) →
  ∃ st', SetRequestAuthVia Default req auth st = Ok (None, st') ∧
    header_view st' (Some l) =
      <["Authorization" := ["Basic " +:+ basicAuth u p]]> <$> header_view st (Some l) ∧
    requests st' = requests st ∧ store_wf st'.
Proof.
  intros Hwf Hq Hh Hc. rewrite (SetRequestAuthVia_unfold req auth q st Hq), Hc, Hh.
  destruct (wf_headers _ Hwf _ _ Hq) as [Hok _]. rewrite Hh in Hok. destruct Hok as [m Hm].
  assert (wp (Header_Set (Some l) "Authorization" ("Basic " +:+ basicAuth u p))
    (λ _ st', header_view st' (Some l) =
      <["Authorization" := ["Basic " +:+ basicAuth u p]]> <$> header_view st (Some l) ∧
      requests st' = requests st ∧ store_wf st') st) as Hset.
  { apply (Header_Set_wp _ m); [done..|]. intros st' Hwf' _ _ Hr Hv.
    rewrite canonical_Authorization in Hv. split_and!; [|done..].
    rewrite Hv. cbn [header_view]. by rewrite Hm. }
  destruct (wp_ok _ _ _ Hset) as ([] & st' & Hrun & Hpost). exists st'.
  split; [by rewrite (bind_Ok _ _ _ _ _ Hrun) | done].
Qed.

(** C8: When the credentials cannot be had, [SetRequestAuthVia] returns
    the error and changes nothing. *)
Theorem SetRequestAuthVia_error req q auth e st :
  load req (requests st) = Some q →
  credentials Default auth (url.Host (http.URL q)) = Err e →
  SetRequestAuthVia Default req auth st = Ok (Some e, st).
Proof. intros Hq Hc. by rewrite (SetRequestAuthVia_unfold req auth q st Hq), Hc. Qed.

(** C9: On a request whose [Header] is a nil map, [SetRequestAuthVia]
    panics (an assignment to an entry of a nil map), where [RoundTrip]
    signs the duplicate's new map. *)
Theorem SetRequestAuthVia_nil_header req q auth u p st :
  load req (requests st) = Some q → http.Header q = None →
  credentials Default auth (url.Host (http.URL q)) = Ok (u, p) →
  SetRequestAuthVia Default req auth st = Err NilMapWrite.
Proof. intros Hq Hh Hc. by rewrite (SetRequestAuthVia_unfold req auth q st Hq), Hc, Hh. Qed.

(** The [Authorization] value on the request [RoundTrip] hands the
    delegate. *)
Lemma RoundTrip_auth_header d auth req q st u p :
  store_wf st → load req (requests st) = Some q →
  credentials Default auth (url.Host (http.URL q)) = Ok (u, p) →
  ∃ req' q' st1 V,
    RoundTrip grow range Default (mkCbauthRoundTripper d auth) req st = RoundTrip_op d req' st1 ∧
    load req' (requests st1) = Some q' ∧ header_view st1 (http.Header q') = Some V ∧
    V !! "Authorization" = Some ["Basic " +:+ basicAuth u p].
Proof.
  intros Hwf Hq Hc. destruct (RoundTrip_run d auth req q st Hwf Hq)
    as (req' & q' & st1 & _ & _ & _ & Hq' & _ & Hh & _ & Heq).
  cbn zeta in *. rewrite Hc in Heq, Hh.
  destruct (header_view_some st (http.Header q) (proj1 (wf_headers _ Hwf _ _ Hq))) as [V0 HV0].
  rewrite HV0 in Hh. cbn [fmap option_fmap option_map signed_view] in Hh.
  eexists req', q', st1, _. split_and!; [done | done | exact Hh | apply lookup_insert_eq].
Qed.

(** C10: The request [RoundTrip] hands the delegate carries one
    [Authorization] value, from which a server's [parseBasicAuth] reads
    back the credentials, when the user name has no [':']. *)
Theorem RoundTrip_basic_auth_parses d auth req q st u p :
  store_wf st → load req (requests st) = Some q →
  credentials Default auth (url.Host (http.URL q)) = Ok (u, p) →
  (∀ c, c ∈ list_ascii_of_string u → c ≠ ":"%char) →
  ∃ req' q' st1 V v,
    RoundTrip grow range Default (mkCbauthRoundTripper d auth) req st = RoundTrip_op d req' st1 ∧
    load req' (requests st1) = Some q' ∧ header_view st1 (http.Header q') = Some V ∧
    V !! "Authorization" = Some [v] ∧ parseBasicAuth v = Some (u, p).
Proof.
  intros Hwf Hq Hc Hu.
  destruct (RoundTrip_auth_header d auth req q st u p Hwf Hq Hc) as (req' & q' & st1 & V & H1 & H2 & H3 & H4).
  exists req', q', st1, V, ("Basic " +:+ basicAuth u p). split_and!; try done. by apply parseBasicAuth_basicAuth.
Qed.

(** C11: A user name with a [':'] does not survive: when the
    authenticator returns the user [u1:u2] ([u1] without [':']) and the
    password [p], the delegate receives an [Authorization] value that a
    server reads as the user [u1] with the password [u2:p]. *)
Theorem RoundTrip_colon_user d auth req q st u1 u2 p :
  store_wf st → load req (requests st) = Some q →
  credentials Default auth (url.Host (http.URL q)) = Ok (u1 +:+ ":" +:+ u2, p) →
  (∀ c, c ∈ list_ascii_of_string u1 → c ≠ ":"%char) →
  ∃ req' q' st1 V v,
    RoundTrip grow range Default (mkCbauthRoundTripper d auth) req st = RoundTrip_op d req' st1 ∧
    load req' (requests st1) = Some q' ∧ header_view st1 (http.Header q') = Some V ∧
    V !! "Authorization" = Some [v] ∧ parseBasicAuth v = Some (u1, u2 +:+ ":" +:+ p).
Proof.
  intros Hwf Hq Hc Hu.
  destruct (RoundTrip_auth_header d auth req q st _ p Hwf Hq Hc) as (req' & q' & st1 & V & H1 & H2 & H3 & H4).
  exists req', q', st1, V, ("Basic " +:+ basicAuth (u1 +:+ ":" +:+ u2) p). split_and!; try done.
  by apply parseBasicAuth_colon.
Qed.

End Proofs.



(** ** Witnesses in the concrete environment *)

Lemma grow2_enough c n : (n ≤ grow2 c n)%nat.
Proof. unfold grow2. lia. Qed.

Lemma map_to_list_perm (m : header) : map_to_list m ≡ₚ map_to_list m.
Proof. done. Qed.

Lemma heap_wf_single {V} (v : V) : heap_wf (mkHeap {[1%positive := v]} 2).
Proof. intros l [x Hx]. simpl in Hx. apply lookup_singleton_Some in Hx as [<- _]. simpl. lia. Qed.

Lemma heap_wf_empty {V} : heap_wf (@heap_empty V).
Proof. intros l [x Hx]. simpl in Hx. by rewrite lookup_empty in Hx. Qed.

Lemma ex_store_wf : store_wf ex_store.
Proof.
  split; try apply heap_wf_single.
  - intros l m Hm. unfold load in Hm. simpl in Hm. apply lookup_singleton_Some in Hm as [<- <-].
    apply map_Forall_singleton. by eexists.
  - intros r q Hq. unfold load in Hq. simpl in Hq. apply lookup_singleton_Some in Hq as [<- <-].
    split; [by eexists | done].
Qed.

Lemma ex_nil_store_wf : store_wf ex_nil_store.
Proof.
  split; try apply heap_wf_empty; try apply heap_wf_single.
  - intros l m Hm. unfold load in Hm. simpl in Hm. by rewrite lookup_empty in Hm.
  - intros r q Hq. unfold load in Hq. simpl in Hq. by apply lookup_singleton_Some in Hq as [<- <-].
Qed.

Lemma ex_transport_law : transport_law ex_transport.
Proof. intros b r st res st' Hwf _ _ [= <- <-]. split; [apply sframe_refl | done]. Qed.

Lemma RoundTrip_keeps_caller_witness :
  ∃ res st', RoundTrip grow2 map_to_list None (mkCbauthRoundTripper ex_transport (Some ex_auth))
               1 ex_store = Ok (res, st') ∧
    header_view st' (Some 1%positive) = header_view ex_store (Some 1%positive) ∧
    sframe ex_store ex_store st'.
Proof.
  destruct (RoundTrip grow2 map_to_list None (mkCbauthRoundTripper ex_transport (Some ex_auth))
              1 ex_store) as [[res st']|pn] eqn:E; [|vm_compute in E; discriminate].
  exists res, st'. split; [reflexivity|].
  destruct (RoundTrip_keeps_caller grow2 map_to_list None grow2_enough map_to_list_perm
    ex_transport (Some ex_auth) 1 (ex_request (Some 1%positive)) ex_store res st'
    ex_transport_law ex_store_wf eq_refl E) as (_ & Hh & _ & Hf & _).
  split; [exact Hh | exact Hf].
Defined.

Lemma RoundTrip_signs_witness :
  ∃ req' q' st1,
    RoundTrip grow2 map_to_list None (mkCbauthRoundTripper ex_transport (Some ex_auth)) 1 ex_nil_store =
      RoundTrip_op ex_transport req' st1 ∧
    load req' (requests st1) = Some q' ∧
    header_view st1 (http.Header q') =
      Some {["Authorization" := ["Basic " +:+ basicAuth "Administrator" "password"]]}.
Proof.
  destruct (RoundTrip_signs grow2 map_to_list None grow2_enough map_to_list_perm ex_transport
    (Some ex_auth) 1 (ex_request None) ex_nil_store "Administrator" "password"
    ex_nil_store_wf eq_refl eq_refl) as (req' & q' & st1 & Heq & Hq' & _ & Hh & _).
  exists req', q', st1. split_and!; [exact Heq | exact Hq' |]. rewrite Hh. reflexivity.
Defined.

Lemma RoundTrip_auth_error_witness :
  ∃ st1, RoundTrip grow2 map_to_list None (mkCbauthRoundTripper ex_transport (Some ex_no_auth))
           1 ex_store = Ok (Err (ErrOther "no credentials for 127.0.0.1:8091"), st1) ∧
         sframe ex_store ex_store st1.
Proof.
  destruct (RoundTrip_auth_error grow2 map_to_list None grow2_enough map_to_list_perm ex_transport
    (Some ex_no_auth) 1 (ex_request (Some 1%positive)) ex_store _ ex_store_wf eq_refl eq_refl)
    as (st1 & Heq & Hf & _).
  exists st1. split; [exact Heq | exact Hf].
Defined.


(** [keeps_caller] is a real constraint: a wrapper that signs the request
    it is given in place, without [dupRequest], keeps the transport
    contract over [ex_transport] but not [keeps_caller]. *)
Definition sign_in_place (d : RoundTripper) (a : option Authenticator) : RoundTripper :=
  mkRoundTripper (λ req,
    err ← SetRequestAuthVia None req a;
    match err with
    | Some e => mret (Err e)
    | None => RoundTrip_op d req
    end).

Lemma sign_in_place_breaks_caller : ¬ keeps_caller (sign_in_place ex_transport (Some ex_auth)).
Proof.
  intros H. destruct (RoundTrip_op (sign_in_place ex_transport (Some ex_auth)) 1 ex_store)
    as [[res st']|pn] eqn:E; [|vm_compute in E; discriminate].
  destruct (H 1%positive (ex_request (Some 1%positive)) ex_store res st' ex_store_wf eq_refl E) as (_ & Hh & _).
  vm_compute in E. injection E as <- <-. vm_compute in Hh. discriminate.
Qed.

Lemma SetRequestAuthVia_in_place_witness :
  ∃ st', SetRequestAuthVia None 1 (Some ex_auth) ex_store = Ok (None, st') ∧
    header_view st' (Some 1%positive) =
      <["Authorization" := ["Basic " +:+ basicAuth "Administrator" "password"]]>
        <$> header_view ex_store (Some 1%positive).
Proof.
  destruct (SetRequestAuthVia_in_place None 1 (ex_request (Some 1%positive)) (Some ex_auth) 1
    "Administrator" "password" ex_store ex_store_wf eq_refl eq_refl eq_refl) as (st' & Heq & Hv & _).
  exists st'. split; [exact Heq | exact Hv].
Defined.

Lemma SetRequestAuthVia_error_witness :
  SetRequestAuthVia None 1 None ex_store = Ok (Some ErrNotInitialized, ex_store).
Proof.
  exact (SetRequestAuthVia_error None 1 (ex_request (Some 1%positive)) None ErrNotInitialized
    ex_store eq_refl eq_refl).
Defined.

Lemma SetRequestAuthVia_nil_header_witness :
  SetRequestAuthVia None 1 (Some ex_auth) ex_nil_store = Err NilMapWrite.
Proof.
  exact (SetRequestAuthVia_nil_header None 1 (ex_request None) (Some ex_auth) "Administrator"
    "password" ex_nil_store eq_refl eq_refl eq_refl).
Defined.

Lemma RoundTrip_colon_user_witness :
  ∃ req' q' st1 V v,
    RoundTrip grow2 map_to_list None (mkCbauthRoundTripper ex_transport (Some ex_colon_auth)) 1 ex_store =
      RoundTrip_op ex_transport req' st1 ∧
    load req' (requests st1) = Some q' ∧ header_view st1 (http.Header q') = Some V ∧
    V !! "Authorization" = Some [v] ∧ parseBasicAuth v = Some ("svc"%string, "admin:pw"%string).
Proof.
  apply (RoundTrip_colon_user grow2 map_to_list None grow2_enough map_to_list_perm ex_transport
    (Some ex_colon_auth) 1 (ex_request (Some 1%positive)) ex_store "svc" "admin" "pw"
    ex_store_wf eq_refl eq_refl).
  intros c Hc. repeat (apply elem_of_cons in Hc as [->|Hc]; [done|]). by apply not_elem_of_nil in Hc.
Defined.

Lemma RoundTrip_basic_auth_parses_witness :
  ∃ req' q' st1 V v,
    RoundTrip grow2 map_to_list None (mkCbauthRoundTripper ex_transport (Some ex_auth)) 1 ex_store =
      RoundTrip_op ex_transport req' st1 ∧
    load req' (requests st1) = Some q' ∧ header_view st1 (http.Header q') = Some V ∧
    V !! "Authorization" = Some [v] ∧ parseBasicAuth v = Some ("Administrator"%string, "password"%string).
Proof.
  apply (RoundTrip_basic_auth_parses grow2 map_to_list None grow2_enough map_to_list_perm ex_transport
    (Some ex_auth) 1 (ex_request (Some 1%positive)) ex_store "Administrator" "password"
    ex_store_wf eq_refl eq_refl).
  intros c Hc. repeat (apply elem_of_cons in Hc as [->|Hc]; [done|]). by apply not_elem_of_nil in Hc.
Defined.

