(* ===== verification/Responders.v ===== *)
(** * The challenge responders: [SendUnauthorized], [ForbiddenJSON], [SendForbidden]

    [convenience.go] lines 92-118.  The code writes to an
    [http.ResponseWriter], an interface: here a record of its operations
    over any state [S] ([ResponseWriter]), with [http.Error] and the
    three responders written once against it.  Two implementations:

    - [server]: the [*response] of Go 1.23's [net/http] server.  Its state
      is the handler's header map, whether the header was written, the
      status, the header snapshot taken by [WriteHeader] (what goes on the
      wire), the 1xx interim responses, and the body bytes.
      [WriteHeader] panics on a code outside [[100, 999]], writes 1xx
      codes (other than 101) as interim responses, and ignores a second
      call; [Write] calls [WriteHeader(200)] first when needed and drops
      a body the status does not allow.
    - [trace]: a recorder of the calls, which shows their order.

    Not modelled: hijacked connections, the automatic [100 Continue], and
    the byte count against a declared [Content-Length] ([http.Error]
    deletes that header; [SendForbidden] ignores what [Write] returns). *)

From S2P Require Import Prelude GoStrings GoHeap Base64 Json JsonDecode JsonRoundTrip Http.

(** ** Status codes of [net/http] *)

Definition StatusOK : Z := 200.
Definition StatusSwitchingProtocols : Z := 101.
Definition StatusNoContent : Z := 204.
Definition StatusNotModified : Z := 304.
Definition StatusUnauthorized : Z := 401.
Definition StatusForbidden : Z := 403.

Inductive RWError := ErrBodyNotAllowed.

Inductive RWPanic := InvalidWriteHeaderCode (code : Z).

(** ** The interface *)

(** [w.Header().Set], [w.Header().Del], [w.WriteHeader], [w.Write]. *)
Record ResponseWriter (S : Type) := mkResponseWriter {
  HeaderSet : string → string → S → S;
  HeaderDel : string → S → S;
  WriteHeader : Z → S → result RWPanic S;
  Write : list Z → S → (Z * option RWError) * S }.

Arguments HeaderSet {S} _ _ _ _.
Arguments HeaderDel {S} _ _ _.
Arguments WriteHeader {S} _ _ _.
Arguments Write {S} _ _ _.

(** ** The code, against any [ResponseWriter] *)

(** [ForbiddenJSON]: [json.Marshal] of the map with the message and a
    [[1]string] holding the permission. *)
Definition ForbiddenJSON (permission : string) : result json.MarshalError string :=
  json.Marshal (json.GMap [("message", json.GString "Forbidden. User needs one of the following permissions");
                           ("permissions", json.GArray [json.GString permission])]).

Section Responders.
Context {S : Type} (w : ResponseWriter S).

Definition newline : string := String (ascii_of_nat 10) EmptyString.

(** [fmt.Fprintln(w, s)]: one [Write] of [s] and a newline; its result
    is dropped. *)
Definition Fprintln (s : string) (st : S) : S := snd (Write w (bytes (s +:+ newline)) st).

(** [http.Error] of Go 1.23. *)
Definition Error (error : string) (code : Z) (st : S) : result RWPanic S :=
  let st := HeaderDel w "Content-Length" st in
  let st := HeaderSet w "Content-Type" "text/plain; charset=utf-8" st in
  let st := HeaderSet w "X-Content-Type-Options" "nosniff" st in
  st ← WriteHeader w code st;
  Ok (Fprintln error st).

(** The challenge: [Basic realm=] and the quoted [Couchbase]. *)
Definition realm : string :=
  "Basic realm=" +:+ json.str1 json.dq +:+ "Couchbase" +:+ json.str1 json.dq.

(** [SendUnauthorized]. *)
Definition SendUnauthorized (st : S) : result RWPanic S :=
  Error "Authentication Failure." StatusUnauthorized (HeaderSet w "WWW-Authenticate" realm st).

(** [SendForbidden]: the error of [ForbiddenJSON] is returned and nothing
    is written; else the JSON body with status 403.  The result of
    [w.Write(b)] is dropped. *)
Definition SendForbidden (permission : string) (st : S)
    : result RWPanic (option json.MarshalError * S) :=
  match ForbiddenJSON permission with
  | Err e => Ok (Some e, st)
  | Ok b =>
    let st := HeaderSet w "Content-Type" "application/json" st in
    st ← WriteHeader w StatusForbidden st;
    Ok (None, snd (Write w (bytes b) st))
  end.

End Responders.

(** ** The server's [*response] *)

Module server.

Abbreviation wire_header := (gmap string (list string)).

Record response := mkResponse {
  handlerHeader : wire_header;
  wroteHeader : bool;
  status : Z;
  sentHeader : wire_header;
  interim : list (Z * wire_header);
  body : list Z }.

(** The state of a response before the handler runs. *)
Definition fresh : response := mkResponse ∅ false 0 ∅ [] [].

Definition set_handlerHeader (h : wire_header) (r : response) : response :=
  mkResponse h (wroteHeader r) (status r) (sentHeader r) (interim r) (body r).

(** [Header().Set]: one value under the canonical key. *)
Definition header_set (k v : string) (r : response) : response :=
  set_handlerHeader (<[CanonicalMIMEHeaderKey k := [v]]> (handlerHeader r)) r.

Definition header_del (k : string) (r : response) : response :=
  set_handlerHeader (delete (CanonicalMIMEHeaderKey k) (handlerHeader r)) r.

(** [checkWriteHeaderCode]. *)
Definition valid_code (code : Z) : bool := (100 <=? code) && (code <=? 999).

Definition informational (code : Z) : bool :=
  (100 <=? code) && (code <=? 199) && negb (code =? StatusSwitchingProtocols).

(** [response.WriteHeader]. *)
Definition write_header (code : Z) (r : response) : result RWPanic response :=
  if negb (valid_code code) then Err (InvalidWriteHeaderCode code)
  else if informational code then
    Ok (mkResponse (handlerHeader r) (wroteHeader r) (status r) (sentHeader r)
                   (interim r ++ [(code, handlerHeader r)]) (body r))
  else if wroteHeader r then Ok r
  else Ok (mkResponse (handlerHeader r) true code (handlerHeader r) (interim r) (body r)).

(** [bodyAllowedForStatus]. *)
Definition bodyAllowedForStatus (code : Z) : bool :=
  negb ((100 <=? code) && (code <=? 199)) && negb (code =? StatusNoContent) &&
  negb (code =? StatusNotModified).

(** The header written for the implicit [WriteHeader(StatusOK)]. *)
Definition ensure_header (r : response) : response :=
  if wroteHeader r then r
  else mkResponse (handlerHeader r) true StatusOK (handlerHeader r) (interim r) (body r).

(** [response.Write]. *)
Definition write (data : list Z) (r : response) : (Z * option RWError) * response :=
  let r := ensure_header r in
  match data with
  | [] => ((0, None), r)
  | _ =>
    if bodyAllowedForStatus (status r) then
      ((Z.of_nat (length data), None),
       mkResponse (handlerHeader r) (wroteHeader r) (status r) (sentHeader r) (interim r) (body r ++ data))
    else ((0, Some ErrBodyNotAllowed), r)
  end.

Definition writer : ResponseWriter response :=
  mkResponseWriter response header_set header_del write_header write.

(** What the client receives when the handler returns: [finishRequest]
    writes [200] if no header was written. *)
Definition wire (r : response) : Z * wire_header * list Z :=
  let r := ensure_header r in (status r, sentHeader r, body r).

End server.

(** ** A recorder of the calls *)

Module trace.

Inductive call :=
  | CSet (k v : string)
  | CDel (k : string)
  | CWriteHeader (code : Z)
  | CWrite (data : list Z).

Definition writer : ResponseWriter (list call) :=
  mkResponseWriter (list call)
    (λ k v t, t ++ [CSet k v]) (λ k t, t ++ [CDel k])
    (λ code t, Ok (t ++ [CWriteHeader code]))
    (λ data t, ((Z.of_nat (length data), None), t ++ [CWrite data])).

End trace.

(** ** What the theorems are stated with *)

(** The bytes of the 403 body before the escaped permission. *)
Definition forbidden_prefix : string :=
  "{" +:+ json.appendString "message" +:+ ":" +:+
  json.appendString "Forbidden. User needs one of the following permissions" +:+ "," +:+
  json.appendString "permissions" +:+ ":[".

(** The message of the 403 body. *)
Definition forbidden_message : string := "Forbidden. User needs one of the following permissions".

(** The operations a handler performs on the server's writer. *)
Inductive op :=
  | OpSet (k v : string)
  | OpDel (k : string)
  | OpWriteHeader (code : Z)
  | OpWrite (data : list Z).

Definition apply_op (o : op) (r : server.response) : result RWPanic server.response :=
  match o with
  | OpSet k v => Ok (server.header_set k v r)
  | OpDel k => Ok (server.header_del k r)
  | OpWriteHeader code => server.write_header code r
  | OpWrite data => Ok (snd (server.write data r))
  end.

Fixpoint run_ops (os : list op) (r : server.response) : result RWPanic server.response :=
  match os with
  | [] => Ok r
  | o :: os' => r' ← apply_op o r; run_ops os' r'
  end.

(** The calls [http.Error] makes after the header changes of its caller. *)
Definition error_ops (error : string) (code : Z) : list op :=
  [OpDel "Content-Length"; OpSet "Content-Type" "text/plain; charset=utf-8";
   OpSet "X-Content-Type-Options" "nosniff"; OpWriteHeader code; OpWrite (bytes (error +:+ newline))].

(** ** The body of [SendForbidden] *)

(** [Marshal] never fails on the map: the body, keys in byte order. *)
Lemma ForbiddenJSON_ok p :
  ForbiddenJSON p = Ok ("{" +:+ ((json.appendString "message" +:+ ":" +:+
      json.appendString "Forbidden. User needs one of the following permissions") +:+ "," +:+
      (json.appendString "permissions" +:+ ":" +:+ ("[" +:+ json.appendString p +:+ "]"))) +:+ "}").
Proof. reflexivity. Qed.

(** The 403 body is the object with the key message first and the
    key permissions second, holding the one-element array of the
    escaped permission: a fixed prefix, [appendString p], and the two
    closing brackets. *)
Lemma ForbiddenJSON_shape p :
  ∃ b, ForbiddenJSON p = Ok b ∧
    bytes b = bytes forbidden_prefix ++ bytes (json.appendString p) ++ bytes "]}".
Proof.
  eexists. split; [apply ForbiddenJSON_ok|]. rewrite !bytes_app. cbn [bytes]. by rewrite <- !app_assoc.
Qed.

(** C26: Whatever the permission string, invalid UTF-8 included, the 403
    body holds no control byte and no ['<'], ['>'] or ['&']: a
    permission cannot inject markup into the JSON. *)
Theorem ForbiddenJSON_html_safe p :
  ∃ b, ForbiddenJSON p = Ok b ∧ Forall json.html_safe_byte (bytes b).
Proof.
  eexists. split; [apply ForbiddenJSON_ok|]. rewrite !bytes_app.
  repeat apply Forall_app_2; try apply json.appendString_safe;
    cbn [bytes]; repeat (apply Forall_cons_2; [json.safe_lit|]); apply Forall_nil_2.
Qed.

(** C27: Against any [ResponseWriter], the [Marshal] error branch of
    [SendForbidden] is dead: it sets [Content-Type: application/json],
    calls [WriteHeader(403)] and, unless that panics, writes the whole
    JSON body (the fixed prefix, the escaped permission, the closing
    brackets) and returns a nil error. *)
Theorem SendForbidden_no_marshal_error {S} (w : ResponseWriter S) p st :
  SendForbidden w p st =
    (st1 ← WriteHeader w StatusForbidden (HeaderSet w "Content-Type" "application/json" st);
     Ok (None, snd (Write w (bytes forbidden_prefix ++ bytes (json.appendString p) ++ bytes "]}") st1))).
Proof.
  destruct (ForbiddenJSON_shape p) as (b & Hb & Hbytes).
  unfold SendForbidden. rewrite Hb, Hbytes. done.
Qed.

(** C32: For every ASCII permission, the 403 body is well-formed JSON and
    decodes to the object whose message is the fixed text and whose
    permissions are the one-element array of the permission itself:
    escaping loses nothing. *)
Theorem ForbiddenJSON_roundtrip p :
  Forall (λ b, b < 0x80) (bytes p) →
  ∃ b, ForbiddenJSON p = Ok b ∧ scanner.checkValid (bytes b) = None ∧
    decode.document (bytes b) =
      Some (decode.JObject [(bytes "message", decode.JString (bytes forbidden_message));
                            (bytes "permissions", decode.JArray [decode.JString (bytes p)])]).
Proof.
  intros Hp. apply ascii_str_Forall in Hp.
  assert (Hm : ascii_str forbidden_message = true) by reflexivity.
  destruct (Marshal_roundtrip (json.GMap [("message", json.GString forbidden_message);
                                          ("permissions", json.GArray [json.GString p])]))
    as (b & Hb & Hcv & Hdoc).
  - cbn -[ascii_str]. by rewrite Hm, Hp.
  - unfold scanner.maxNestingDepth. cbn. lia.
  - exists b. split_and!; [exact Hb | exact Hcv |]. rewrite Hdoc. reflexivity.
Qed.

(** ** The order of the calls *)

(** [SendUnauthorized] sets the challenge header first, then
    [http.Error] deletes Content-Length, sets the two headers, writes
    the status 401 and then the message with a newline: every header
    change comes before [WriteHeader]. *)
Lemma SendUnauthorized_order t :
  SendUnauthorized trace.writer t =
    Ok (t ++ [trace.CSet "WWW-Authenticate" realm; trace.CDel "Content-Length";
              trace.CSet "Content-Type" "text/plain; charset=utf-8";
              trace.CSet "X-Content-Type-Options" "nosniff";
              trace.CWriteHeader StatusUnauthorized;
              trace.CWrite (bytes ("Authentication Failure." +:+ newline))]).
Proof. cbn. by rewrite <- !app_assoc. Qed.

Lemma SendForbidden_order p t :
  ∃ b, ForbiddenJSON p = Ok b ∧
    SendForbidden trace.writer p t =
      Ok (None, t ++ [trace.CSet "Content-Type" "application/json";
                      trace.CWriteHeader StatusForbidden; trace.CWrite (bytes b)]).
Proof.
  eexists. split; [apply ForbiddenJSON_ok|]. unfold SendForbidden. rewrite ForbiddenJSON_ok.
  cbn. by rewrite <- !app_assoc.
Qed.

(** ** What the client receives from the server *)

(** C23: On a response whose header is not written yet, [SendUnauthorized]
    does not panic and the client gets the status 401 with the handler's
    header plus the challenge under the canonical key Www-Authenticate,
    Content-Length removed, the plain-text type and nosniff, and the
    body [Authentication Failure.] with a trailing newline. *)
Theorem SendUnauthorized_wire r :
  server.wroteHeader r = false →
  ∃ r', SendUnauthorized server.writer r = Ok r' ∧
    server.wire r' = (StatusUnauthorized,
       <["X-Content-Type-Options" := ["nosniff"]]> (<["Content-Type" := ["text/plain; charset=utf-8"]]>
         (delete "Content-Length" (<["Www-Authenticate" := [realm]]> (server.handlerHeader r)))),
       server.body r ++ bytes ("Authentication Failure." +:+ newline)).
Proof. destruct r as [h w st sh im b]; cbn. intros ->. eexists. split; reflexivity. Qed.

(** C28: On a response whose header was already written, [SendUnauthorized]
    changes neither the status nor the header the client gets: no 401
    and no challenge reach the client; the message is appended to the
    body only when the earlier status allows a body. *)
Theorem SendUnauthorized_committed r :
  server.wroteHeader r = true →
  ∃ r', SendUnauthorized server.writer r = Ok r' ∧
    server.wire r' = (server.status r, server.sentHeader r,
       server.body r ++ (if server.bodyAllowedForStatus (server.status r)
                         then bytes ("Authentication Failure." +:+ newline) else [])).
Proof.
  destruct r as [h w st sh im b]; cbn. intros ->. eexists. split; [reflexivity|].
  unfold Fprintln. simpl. destruct (server.bodyAllowedForStatus st); simpl; by rewrite ?app_nil_r.
Qed.

(** C24: On a response whose header is not written yet, [SendForbidden]
    does not panic and returns no error, and the client gets the status
    403 with the handler's header plus Content-Type application/json,
    and the JSON body. *)
Theorem SendForbidden_wire p r :
  server.wroteHeader r = false →
  ∃ b r', ForbiddenJSON p = Ok b ∧ SendForbidden server.writer p r = Ok (None, r') ∧
    server.wire r' = (StatusForbidden, <["Content-Type" := ["application/json"]]> (server.handlerHeader r),
                      server.body r ++ bytes b).
Proof.
  destruct r as [h w st sh im b]; cbn [server.wroteHeader server.handlerHeader server.body]. intros ->.
  do 2 eexists. split; [apply ForbiddenJSON_ok|].
  unfold SendForbidden. rewrite ForbiddenJSON_ok. split; reflexivity.
Qed.

(** On the server, the responders are sequences of operations. *)
Lemma SendUnauthorized_ops r :
  SendUnauthorized server.writer r =
    run_ops (OpSet "WWW-Authenticate" realm :: error_ops "Authentication Failure." StatusUnauthorized) r.
Proof. cbn. by repeat case_match. Qed.

Lemma SendForbidden_ops p r :
  ∃ b, ForbiddenJSON p = Ok b ∧
    (r' ← SendForbidden server.writer p r; Ok r'.2) =
      run_ops [OpSet "Content-Type" "application/json"; OpWriteHeader StatusForbidden; OpWrite (bytes b)] r.
Proof.
  eexists. split; [apply ForbiddenJSON_ok|]. unfold SendForbidden. rewrite ForbiddenJSON_ok. cbn.
  by repeat case_match.
Qed.

(** Once the header is written, the status and the header sent are
    fixed and the body only grows. *)
Lemma apply_op_committed o r r' :
  server.wroteHeader r = true → apply_op o r = Ok r' →
  server.wroteHeader r' = true ∧ server.status r' = server.status r ∧
  server.sentHeader r' = server.sentHeader r ∧ server.body r `prefix_of` server.body r'.
Proof.
  destruct r as [h w st sh im b]; cbn. intros ->.
  destruct o as [k v|k|code|data]; cbn.
  - by intros [= <-].
  - by intros [= <-].
  - unfold server.write_header. cbn. intros Ho. repeat case_match; simplify_eq/=; done.
  - unfold server.write, server.ensure_header. cbn. intros [= <-].
    repeat case_match; simplify_eq/=; split_and!; try done; by eexists.
Qed.

Lemma run_ops_committed os r r' :
  server.wroteHeader r = true → run_ops os r = Ok r' →
  server.wroteHeader r' = true ∧ server.status r' = server.status r ∧
  server.sentHeader r' = server.sentHeader r ∧ server.body r `prefix_of` server.body r'.
Proof.
  revert r. induction os as [|o os IH]; intros r Hw; cbn; [by intros [= <-]|].
  destruct (apply_op o r) as [r1|] eqn:Ho; cbn; [|done]. intros Hr.
  destruct (apply_op_committed _ _ _ Hw Ho) as (Hw1 & Hs1 & Hh1 & Hb1).
  destruct (IH _ Hw1 Hr) as (? & ? & ? & ?). split_and!; try congruence. by etrans.
Qed.

(** C25: Once [SendUnauthorized] ran on a response whose header was not
    written, nothing the handler does afterwards changes what the client
    gets: status 401 with the challenge, and the message at the start of
    what the handler appended to the body. *)
Theorem SendUnauthorized_final r r' os r'' :
  server.wroteHeader r = false →
  SendUnauthorized server.writer r = Ok r' → run_ops os r' = Ok r'' →
  (server.wire r'').1.1 = StatusUnauthorized ∧
  (server.wire r'').1.2 !! "Www-Authenticate" = Some [realm] ∧
  server.body r ++ bytes ("Authentication Failure." +:+ newline) `prefix_of` (server.wire r'').2.
Proof.
  destruct r as [h w st sh im b]; cbn [server.wroteHeader]. intros -> Hs Hr.
  cbn in Hs. injection Hs as <-.
  eapply run_ops_committed in Hr as (Hw & Hst & Hsh & Hb); [|reflexivity].
  unfold server.wire, server.ensure_header. rewrite Hw, Hst, Hsh. cbn in *. split_and!; [done| |done].
  by simplify_map_eq.
Qed.

(** ** Witnesses *)

Lemma SendUnauthorized_wire_witness :
  ∃ r', SendUnauthorized server.writer server.fresh = Ok r' ∧ server.wire r' =
    (StatusUnauthorized,
     <["X-Content-Type-Options" := ["nosniff"]]> (<["Content-Type" := ["text/plain; charset=utf-8"]]>
       (delete "Content-Length" (<["Www-Authenticate" := [realm]]> ∅))),
     bytes ("Authentication Failure." +:+ newline)).
Proof. apply (SendUnauthorized_wire server.fresh). reflexivity. Defined.

Lemma SendUnauthorized_committed_witness :
  ∃ r', SendUnauthorized server.writer (server.mkResponse ∅ true StatusNoContent ∅ [] []) = Ok r' ∧
    server.wire r' = (StatusNoContent, ∅, []).
Proof. apply (SendUnauthorized_committed (server.mkResponse ∅ true StatusNoContent ∅ [] [])). reflexivity. Defined.

Lemma SendForbidden_wire_witness :
  ∃ b r', ForbiddenJSON "views" = Ok b ∧ SendForbidden server.writer "views" server.fresh = Ok (None, r') ∧
    server.wire r' = (StatusForbidden, <["Content-Type" := ["application/json"]]> ∅, bytes b).
Proof. apply (SendForbidden_wire "views" server.fresh). reflexivity. Defined.

Lemma SendUnauthorized_final_witness :
  ∃ r' r'', SendUnauthorized server.writer server.fresh = Ok r' ∧
    run_ops [OpSet "Content-Type" "text/html"; OpWriteHeader StatusOK; OpWrite [0x41]] r' = Ok r'' ∧
    (server.wire r'').1.1 = StatusUnauthorized.
Proof.
  do 2 eexists. split; [reflexivity|]. split; [reflexivity|].
  eapply (SendUnauthorized_final server.fresh _ [OpSet "Content-Type" "text/html"; OpWriteHeader StatusOK; OpWrite [0x41]]);
    reflexivity.
Defined.

Lemma ForbiddenJSON_roundtrip_witness :
  ∃ b, ForbiddenJSON "views" = Ok b ∧ scanner.checkValid (bytes b) = None ∧
    decode.document (bytes b) =
      Some (decode.JObject [(bytes "message", decode.JString (bytes forbidden_message));
                            (bytes "permissions", decode.JArray [decode.JString (bytes "views")])]).
Proof. apply ForbiddenJSON_roundtrip. repeat constructor. Defined.

