(* ===== verification/Concurrent.v ===== *)
(** * Concurrent [RoundTrip]s: Go code cut at its atomic steps

    The spec (sections 5 and 8) asks that many goroutines may call the
    same [cbauthRoundTripper] at once, on requests that share one
    template, without one request's credentials or headers reaching
    another.  [Http.v] runs each call as one function of the store; here
    the same code is cut at its memory operations so that the calls of
    several goroutines interleave.

    - [prog A]: a program that returns an [A]; [Act m k] runs one
      primitive operation [m] of [Http.v] (a load, an allocation, a map
      or array write) atomically, [Call d r k] hands request [r] to the
      delegate transport [d] (one atomic step, observable as an event).
    - [SetRequestAuthVia_p], [duplicateStringsSlice_p], [dup_entries_p],
      [dupHeaders_p], [dupRequest_p] and [RoundTrip_p] are the functions
      of [convenience.go] lines 32-80 written over [prog], statement for
      statement as in [Http.v]; [run] executes a [prog] in the monad [M],
      and [RoundTrip_p_run] shows that run alone it is [RoundTrip].
    - A configuration is a pool of goroutines over one shared [Store];
      [cstep] runs one step of any goroutine (the scheduler's choice), an
      unrecovered panic stops the process ([Crashed]), and [steps]
      collects the events of the transport calls.  [run_sched] runs a
      given schedule.

    Every interleaving ends ([cnext_wf]): a goroutine's program is
    finite, each step consumes one of its constructors. *)

From S2P Require Import Prelude GoStrings GoHeap Base64 Http HttpProofs.

(** ** Programs cut at their atomic steps *)

Inductive prog (A : Type) : Type :=
| Ret (a : A)
| Act {B : Type} (m : M B) (k : B → prog A)
| Call (d : RoundTripper) (r : loc) (k : result GoError http.Response → prog A).
Arguments Ret {A} a.
Arguments Act {A B} m k.
Arguments Call {A} d r k.

Fixpoint prog_bind {A B} (f : A → prog B) (p : prog A) : prog B :=
  match p with
  | Ret a => f a
  | Act m k => Act m (λ x, prog_bind f (k x))
  | Call d r k => Call d r (λ x, prog_bind f (k x))
  end.

#[export] Instance prog_ret : MRet prog := λ A a, Ret a.
#[export] Instance prog_mbind : MBind prog := λ A B f p, prog_bind f p.

(** One primitive operation as one atomic step. *)
Definition atom {A} (m : M A) : prog A := Act m Ret.

(** A program run without interference: [Call] is the delegate's method. *)
Fixpoint run {A} (p : prog A) : M A :=
  match p with
  | Ret a => mret a
  | Act m k => x ← m; run (k x)
  | Call d r k => x ← RoundTrip_op d r; run (k x)
  end.

(** ** [convenience.go] over [prog] *)

Section Client.
Context (grow : nat → nat → nat).
Context (range : header → list (string * option slice)).
Context (Default : option Authenticator).

(** [Header.Set]: the new array, then the map write. *)
Definition Header_Set_p (h : option loc) (key value : string) : prog unit :=
  l ← atom (alloc_array [value]);
  atom (map_assign h (CanonicalMIMEHeaderKey key) (Some (mkSlice l 0 1 1))).

Definition SetBasicAuth_p (r : loc) (username password : string) : prog unit :=
  q ← atom (load_req r);
  Header_Set_p (http.Header q) "Authorization" ("Basic " +:+ basicAuth username password).

Definition WithAuthenticator_p (a : option Authenticator)
    (body : Authenticator → prog (option GoError)) : prog (option GoError) :=
  match a with
  | Some a => body a
  | None => match Default with Some d => body d | None => mret (Some ErrNotInitialized) end
  end.

Definition SetRequestAuthVia_p (req : loc) (a : option Authenticator) : prog (option GoError) :=
  WithAuthenticator_p a (λ a,
    r ← atom (load_req req);
    match GetHTTPServiceAuth a (url.Host (http.URL r)) with
    | Err e => mret (Some e)
    | Ok (user, pwd) => SetBasicAuth_p req user pwd;; mret None
    end).

Definition duplicateStringsSlice_p (in_ : option slice) : prog (option slice) :=
  l ← atom (alloc_array []);
  xs ← atom (slice_elems in_);
  atom (append_m grow (Some (mkSlice l 0 0 0)) xs).

Fixpoint dup_entries_p (rv : loc) (kvs : list (string * option slice)) : prog unit :=
  match kvs with
  | [] => mret tt
  | (k, v) :: kvs' =>
    d ← duplicateStringsSlice_p v; atom (map_assign (Some rv) k d);; dup_entries_p rv kvs'
  end.

Definition dupHeaders_p (h : option loc) : prog (option loc) :=
  rv ← atom make_map;
  kvs ← (match h with None => mret [] | Some l => m ← atom (load_map l); mret (range m) end);
  dup_entries_p rv kvs;; mret (Some rv).

Definition dupRequest_p (req : loc) : prog loc :=
  r ← atom (load_req req);
  hd ← dupHeaders_p (http.Header r);
  tr ← dupHeaders_p (http.Trailer r);
  atom (alloc_req (http.mkRequest (http.Method r) (http.URL r) hd (http.Body r)
                                  (http.ContentLength r) (http.Host r) tr)).

Definition RoundTrip_p (rt : cbauthRoundTripper) (req : loc) : prog (result GoError http.Response) :=
  req' ← dupRequest_p req;
  err ← SetRequestAuthVia_p req' (a rt);
  match err with
  | Some e => mret (Err e)
  | None => Call (slave rt) req' Ret
  end.

(** Goroutine [i] calls [rt.RoundTrip(req)] for the [i]th job. *)
Definition RoundTrips_p (jobs : list (cbauthRoundTripper * loc)) : list (prog (result GoError http.Response)) :=
  (λ job, RoundTrip_p job.1 job.2) <$> jobs.

End Client.

(** ** Goroutines over a shared store *)

(** What the delegate is handed: the request and the views of its
    header and trailer maps at the time of the call. *)
Record sent := mkSent {
  sent_req : http.Request;
  sent_header : gmap string (list string);
  sent_trailer : gmap string (list string) }.

Definition sent_view (st : Store) (r : loc) : option sent :=
  q ← load r (requests st);
  h ← header_view st (http.Header q);
  t ← header_view st (http.Trailer q);
  Some (mkSent q h t).

(** Goroutine [tid] calls its delegate with what [sent_view] shows. *)
Record event := mkEvent { ev_tid : nat; ev_sent : option sent }.

Inductive config (A : Type) : Type :=
| Live (ts : list (prog A)) (st : Store)
| Crashed (p : Panic).
Arguments Live {A} ts st.
Arguments Crashed {A} p.

(** Goroutine [i] takes one step, if it has not returned. *)
Definition step_thread {A} (ts : list (prog A)) (st : Store) (i : nat)
    : option (option event * config A) :=
  let cont {B} (r : result Panic (B * Store)) (k : B → prog A) :=
    match r with
    | Ok (x, st') => Live (<[i := k x]> ts) st'
    | Err p => Crashed p
    end in
  match ts !! i with
  | Some (Act m k) => Some (None, cont (m st) k)
  | Some (Call d r k) => Some (Some (mkEvent i (sent_view st r)), cont (RoundTrip_op d r st) k)
  | _ => None
  end.

Definition cstep {A} (c : config A) (e : option event) (c' : config A) : Prop :=
  match c with
  | Live ts st => ∃ i, step_thread ts st i = Some (e, c')
  | Crashed _ => False
  end.

Definition opt_list {E} (o : option E) : list E := match o with Some e => [e] | None => [] end.

(** A run and the transport calls it makes, in order. *)
Inductive steps {A} : config A → list event → config A → Prop :=
| steps_refl c : steps c [] c
| steps_step c e c' tr c'' : cstep c e c' → steps c' tr c'' → steps c (opt_list e ++ tr) c''.

(** Every goroutine has returned. *)
Definition returned {A} (p : prog A) : bool := match p with Ret _ => true | _ => false end.

Definition all_returned {A} (ts : list (prog A)) : Prop := Forall (λ p, returned p = true) ts.

(** A given schedule: the goroutine to step next, skipped when returned. *)
Fixpoint run_sched {A} (c : config A) (sched : list nat) : list event * config A :=
  match sched, c with
  | i :: sched', Live ts st =>
    match step_thread ts st i with
    | Some (e, c') => let '(tr, c'') := run_sched c' sched' in (opt_list e ++ tr, c'')
    | None => run_sched c sched'
    end
  | _, _ => ([], c)
  end.

(** [q] is what [p] continues with after its first step. *)
Definition prog_lt {A} (q p : prog A) : Prop :=
  match p with
  | Ret _ => False
  | Act m k => ∃ x, q = k x
  | Call d r k => ∃ x, q = k x
  end.

(** One goroutine of the pool has taken a step. *)
Definition pool_lt {A} (ts' ts : list (prog A)) : Prop :=
  ∃ i p q, ts !! i = Some p ∧ prog_lt q p ∧ ts' = <[i := q]> ts.

(** [c'] follows [c] by one step of some goroutine. *)
Definition cnext {A} (c' c : config A) : Prop := ∃ e, cstep c e c'.

(** ** Running a program alone *)

(** Two Go computations are equivalent when they agree on every store. *)
#[export] Instance M_equiv {A} : Equiv (M A) := λ m1 m2, ∀ st, m1 st = m2 st.

#[export] Instance M_equiv_equivalence {A} : Equivalence (≡@{M A}).
Proof. split; repeat intro; congruence. Qed.

#[export] Instance M_bind_proper {A B} :
  Proper (pointwise_relation A (≡) ==> (≡) ==> (≡)) (@mbind M _ A B).
Proof. intros f g Hfg m1 m2 Hm st. unfold mbind, M_bind. rewrite Hm. destruct (m2 st) as [[x st']|]; [apply Hfg|done]. Qed.

Lemma M_bind_assoc {A B C} (m : M A) (f : A → M B) (g : B → M C) :
  (y ← (x ← m; f x); g y) ≡ (x ← m; y ← f x; g y).
Proof. intros st. unfold mbind, M_bind. by destruct (m st) as [[x st']|]. Qed.

Lemma M_bind_ret_r {A} (m : M A) : (x ← m; mret x) ≡ m.
Proof. intros st. unfold mbind, M_bind. by destruct (m st) as [[x st']|]. Qed.

Lemma M_bind_ret_l {A B} (x : A) (f : A → M B) : (y ← mret x; f y) ≡ f x.
Proof. done. Qed.

Lemma run_bind {A B} (p : prog A) (f : A → prog B) : run (p ≫= f) ≡ (x ← run p; run (f x)).
Proof.
  induction p as [a|C m k IH|d r k IH]; cbn [mbind prog_mbind prog_bind run].
  - by rewrite M_bind_ret_l.
  - rewrite M_bind_assoc. by setoid_rewrite IH.
  - rewrite M_bind_assoc. by setoid_rewrite IH.
Qed.

Lemma run_atom {A} (m : M A) : run (atom m) ≡ m.
Proof. apply M_bind_ret_r. Qed.

Lemma run_ret {A} (a : A) : run (mret a) ≡ mret a.
Proof. done. Qed.

Ltac run_simpl := rewrite ?run_bind; setoid_rewrite run_bind; setoid_rewrite run_atom.

Section Equivalence.
Context (grow : nat → nat → nat) (range : header → list (string * option slice)).
Context (Default : option Authenticator).

Lemma Header_Set_p_run h key value : run (Header_Set_p h key value) ≡ Header_Set h key value.
Proof. unfold Header_Set_p, Header_Set. rewrite run_bind. by setoid_rewrite run_atom. Qed.

Lemma SetBasicAuth_p_run r u p : run (SetBasicAuth_p r u p) ≡ SetBasicAuth r u p.
Proof. unfold SetBasicAuth_p, SetBasicAuth. rewrite run_bind, run_atom. by setoid_rewrite Header_Set_p_run. Qed.

Lemma SetRequestAuthVia_p_run req a :
  run (SetRequestAuthVia_p Default req a) ≡ SetRequestAuthVia Default req a.
Proof.
  assert (Hbody : ∀ au, run (r ← atom (load_req req);
      match GetHTTPServiceAuth au (url.Host (http.URL r)) with
      | Err e => mret (Some e) | Ok (user, pwd) => SetBasicAuth_p req user pwd;; mret None end) ≡
    (r ← load_req req; match GetHTTPServiceAuth au (url.Host (http.URL r)) with
      | Err e => mret (Some e) | Ok (user, pwd) => SetBasicAuth req user pwd;; mret None end)).
  { intros au. rewrite run_bind, run_atom. apply M_bind_proper; [|done]. intros r.
    destruct (GetHTTPServiceAuth _ _) as [[u p]|e]; [|done].
    rewrite run_bind. setoid_rewrite run_ret. by rewrite SetBasicAuth_p_run. }
  unfold SetRequestAuthVia_p, SetRequestAuthVia, WithAuthenticator_p, WithAuthenticator.
  destruct a as [au|]; [apply Hbody|]. destruct Default; [apply Hbody|done].
Qed.

Lemma duplicateStringsSlice_p_run s :
  run (duplicateStringsSlice_p grow s) ≡ duplicateStringsSlice grow s.
Proof. unfold duplicateStringsSlice_p, duplicateStringsSlice. run_simpl. done. Qed.

Lemma dup_entries_p_run rv kvs : run (dup_entries_p grow rv kvs) ≡ dup_entries grow rv kvs.
Proof.
  induction kvs as [|[k v] kvs IH]; [done|]. cbn [dup_entries_p dup_entries].
  rewrite run_bind, duplicateStringsSlice_p_run. apply M_bind_proper; [|done]. intros d.
  rewrite run_bind, run_atom. by setoid_rewrite IH.
Qed.

Lemma dupHeaders_p_run h : run (dupHeaders_p grow range h) ≡ dupHeaders grow range h.
Proof.
  unfold dupHeaders_p, dupHeaders. rewrite run_bind, run_atom. apply M_bind_proper; [|done]. intros rv.
  rewrite run_bind. apply M_bind_proper.
  - intros kvs. rewrite run_bind, dup_entries_p_run. done.
  - destruct h; [|done]. rewrite run_bind, run_atom. done.
Qed.

Lemma dupRequest_p_run req : run (dupRequest_p grow range req) ≡ dupRequest grow range req.
Proof.
  unfold dupRequest_p, dupRequest. rewrite run_bind, run_atom. apply M_bind_proper; [|done]. intros r.
  rewrite run_bind, dupHeaders_p_run. apply M_bind_proper; [|done]. intros hd.
  rewrite run_bind, dupHeaders_p_run. apply M_bind_proper; [|done]. intros tr. apply run_atom.
Qed.

(** Cut at its atomic steps and run alone, [RoundTrip] is the
    [RoundTrip] of [Http.v]: [RoundTrip_p] performs the same operations
    in the same order, on every store. *)
Theorem RoundTrip_p_run rt req :
  run (RoundTrip_p grow range Default rt req) ≡ RoundTrip grow range Default rt req.
Proof.
  unfold RoundTrip_p, RoundTrip. rewrite run_bind, dupRequest_p_run. apply M_bind_proper; [|done].
  intros req'. rewrite run_bind, SetRequestAuthVia_p_run. apply M_bind_proper; [|done].
  intros [e|]; [done|]. apply M_bind_ret_r.
Qed.

End Equivalence.

(** ** Every interleaving ends *)

Lemma prog_lt_wf {A} : well_founded (@prog_lt A).
Proof.
  intros p. induction p as [a|B m k IH|d r k IH]; constructor; intros q Hq; cbn in Hq;
    [done| |]; destruct Hq as [x ->]; apply IH.
Qed.

Lemma pool_lt_cons {A} (x : prog A) ts : Acc prog_lt x → Acc pool_lt ts → Acc pool_lt (x :: ts).
Proof.
  intros Hx. revert ts. induction Hx as [x _ IHx]. intros ts Hts.
  induction Hts as [ts Hacc IHts].
  constructor. intros ts' (i & p & q & Hi & Hlt & ->). destruct i as [|j]; cbn in Hi |- *.
  - injection Hi as <-. apply IHx; [done|]. by constructor.
  - apply IHts. by exists j, p, q.
Qed.

Lemma pool_lt_wf {A} : well_founded (@pool_lt A).
Proof.
  intros ts. induction ts as [|x ts IH].
  - constructor. intros ? (i & p & ? & Hi & _). by rewrite lookup_nil in Hi.
  - apply pool_lt_cons; [apply prog_lt_wf|done].
Qed.

Lemma step_thread_next {A} (ts : list (prog A)) st i e ts' st' :
  step_thread ts st i = Some (e, Live ts' st') → pool_lt ts' ts.
Proof.
  unfold step_thread. destruct (ts !! i) as [[a|B m k|d r k]|] eqn:Hi; try done;
    [destruct (m st) as [[x st1]|]|destruct (RoundTrip_op d r st) as [[x st1]|]];
    intros [= _ <- _]; exists i; eexists; exists (k x); split_and!; try done; cbn; by exists x.
Qed.

(** No run of goroutines is infinite. *)
Lemma cnext_wf {A} : well_founded (@cnext A).
Proof.
  intros [ts st|p]; [|constructor; by intros ? [? []]].
  revert st. induction (pool_lt_wf ts) as [ts _ IH]. intros st.
  constructor. intros [ts' st'|p'] [e [i Hs]]; [|constructor; by intros ? [? []]].
  eapply IH, step_thread_next, Hs.
Qed.

(** A goroutine that has not returned can always take a step. *)
Lemma cstep_progress {A} (ts : list (prog A)) st :
  ¬ all_returned ts → ∃ e c', cstep (Live ts st) e c'.
Proof.
  intros Hn. apply not_Forall_Exists in Hn; [|apply _].
  apply Exists_exists in Hn as (p & Hp & Hr). apply list_elem_of_lookup_1 in Hp as [i Hi].
  destruct p as [a|B m k|d r k]; [exfalso; apply Hr; reflexivity| |]; do 2 eexists; exists i;
    unfold step_thread; rewrite Hi; reflexivity.
Qed.

Lemma all_returned_stuck {A} (ts : list (prog A)) st e c : all_returned ts → ¬ cstep (Live ts st) e c.
Proof.
  intros Hr [i Hs]. unfold step_thread in Hs. destruct (ts !! i) as [p|] eqn:Hi; [|done].
  pose proof (Forall_lookup_1 _ _ _ _ Hr Hi) as Hp. by destruct p.
Qed.

(** From any configuration some run reaches one that cannot step: every
    goroutine has returned, or the process has crashed. *)
Lemma steps_to_final {A} (c : config A) :
  ∃ tr c', steps c tr c' ∧ match c' with Live ts _ => all_returned ts | Crashed _ => True end.
Proof.
  induction (cnext_wf c) as [c _ IH]. destruct c as [ts st|p]; [|exists [], (Crashed p); split; [constructor|done]].
  destruct (decide (all_returned ts)) as [Hr|Hr]; [exists [], (Live ts st); split; [constructor|done]|].
  destruct (cstep_progress ts st Hr) as (e & c' & Hs).
  destruct (IH c' (ex_intro _ e Hs)) as (tr & c'' & Hss & Hf).
  exists (opt_list e ++ tr), c''. split; [by econstructor|done].
Qed.

Lemma steps_app {A} (c1 c2 c3 : config A) tr1 tr2 :
  steps c1 tr1 c2 → steps c2 tr2 c3 → steps c1 (tr1 ++ tr2) c3.
Proof.
  induction 1 as [|c e c' tr c'' Hs Hss IH]; intros H2; [done|].
  rewrite <- app_assoc. econstructor; [done|]. by apply IH.
Qed.

Lemma run_sched_steps {A} (c : config A) sched : steps c (run_sched c sched).1 (run_sched c sched).2.
Proof.
  revert c. induction sched as [|i sched IH]; intros [ts st|p]; cbn; try constructor.
  destruct (step_thread ts st i) as [[e c']|] eqn:Hs; [|apply IH].
  specialize (IH c'). destruct (run_sched c' sched) as [tr c''] eqn:E. cbn in *.
  econstructor; [by exists i | done].
Qed.
