(* ===== verification/Interference.v ===== *)
(** * Rely and guarantee: reasoning about one goroutine among others

    A goroutine of [Concurrent.v] owns the objects it has allocated (its
    footprint [fp]: sets of locations in the three heaps of the [Store]).
    Between two of its steps the others may run: they allocate, they
    write only objects they own, and they never write an object that
    existed when the goroutines started (the snapshot [b]).  That is the
    [rely] of a goroutine; its own steps must keep the [guar]antee:
    change only objects it owns, or new ones.

    [wpr Ev p Q O st]: from [st], owning [O], the program [p] runs to a
    result [a] with [Q a] whatever the others do in between, never
    panics, and every time it calls its transport the request it hands
    over satisfies [Ev].  [pool_inv] combines one such judgment per
    goroutine with disjoint footprints; [pool_steps_inv] shows that it
    holds along every interleaving ([cstep]) and that every transport
    call of the run satisfies its goroutine's [Ev]: the rely-guarantee
    argument, once for any pool of goroutines. *)

From S2P Require Import Prelude GoStrings GoHeap Base64 Http HttpProofs Concurrent.

(** ** Footprints *)

Record fp := mkFp { fa : loc → Prop; fm : loc → Prop; fr : loc → Prop }.

Definition fp_empty : fp := mkFp (λ _, False) (λ _, False) (λ _, False).

Definition fp_union (X Y : fp) : fp :=
  mkFp (λ l, fa X l ∨ fa Y l) (λ l, fm X l ∨ fm Y l) (λ l, fr X l ∨ fr Y l).

(** The objects allocated from [st] to [st']. *)
Definition fp_new (st st' : Store) : fp :=
  mkFp (λ l, next (arrays st) ≤ l < next (arrays st'))%positive
       (λ l, next (maps st) ≤ l < next (maps st'))%positive
       (λ l, next (requests st) ≤ l < next (requests st'))%positive.

Definition fp_disj (X Y : fp) : Prop :=
  (∀ l, fa X l → fa Y l → False) ∧ (∀ l, fm X l → fm Y l → False) ∧ (∀ l, fr X l → fr Y l → False).

(** Every object of [X] was allocated after [b], and before [st]. *)
Definition fp_within (b st : Store) (X : fp) : Prop :=
  (∀ l, fa X l → next (arrays b) ≤ l < next (arrays st))%positive ∧
  (∀ l, fm X l → next (maps b) ≤ l < next (maps st))%positive ∧
  (∀ l, fr X l → next (requests b) ≤ l < next (requests st))%positive.

(** The objects of [X] are as they were. *)
Definition keeps (X : fp) (st st' : Store) : Prop :=
  (∀ l, fa X l → load l (arrays st') = load l (arrays st)) ∧
  (∀ l, fm X l → load l (maps st') = load l (maps st)) ∧
  (∀ l, fr X l → load l (requests st') = load l (requests st)).

(** Only objects of [X], or new ones, have changed. *)
Definition writes_in (X : fp) (st st' : Store) : Prop :=
  sge st' st ∧
  (∀ l, ¬ fa X l → (l < next (arrays st))%positive → load l (arrays st') = load l (arrays st)) ∧
  (∀ l, ¬ fm X l → (l < next (maps st))%positive → load l (maps st') = load l (maps st)) ∧
  (∀ l, ¬ fr X l → (l < next (requests st))%positive → load l (requests st') = load l (requests st)).

(** ** The judgment *)

Section Logic.
(** The store when the goroutines start. *)
Context (b : Store).

(** What the other goroutines may do while one owns [O]. *)
Definition rely (O : fp) (st st' : Store) : Prop :=
  store_wf st' ∧ sframe b st st' ∧ keeps O st st'.

(** What each step of a goroutine that owns [O] must keep. *)
Definition guar (O : fp) (st st' : Store) : Prop := store_wf st' ∧ writes_in O st st'.

Context {A : Type} (Ev : sent → Prop).

Fixpoint wpr (p : prog A) (Q : A → fp → Store → Prop) (O : fp) (st : Store) : Prop :=
  match p with
  | Ret a => ∀ st', rely O st st' → Q a O st'
  | Act m k => ∀ st0, rely O st st0 →
      ∃ x st1, m st0 = Ok (x, st1) ∧ guar O st0 st1 ∧ wpr (k x) Q (fp_union O (fp_new st0 st1)) st1
  | Call d r k => ∀ st0, rely O st st0 →
      (∃ sv, sent_view st0 r = Some sv ∧ Ev sv) ∧
      ∃ x st1, RoundTrip_op d r st0 = Ok (x, st1) ∧ guar O st0 st1 ∧
               wpr (k x) Q (fp_union O (fp_new st0 st1)) st1
  end.

End Logic.

(** ** Goroutines with disjoint footprints *)

Definition pool_inv {A} (b : Store) (Evs : nat → sent → Prop) (Qs : nat → A → fp → Store → Prop)
    (ts : list (prog A)) (st : Store) : Prop :=
  store_wf st ∧ sge st b ∧ ∃ Os : list fp, length Os = length ts ∧
    (∀ i O, Os !! i = Some O → fp_within b st O) ∧
    (∀ i j O O', i ≠ j → Os !! i = Some O → Os !! j = Some O' → fp_disj O O') ∧
    (∀ i p O, ts !! i = Some p → Os !! i = Some O → wpr b (Evs i) p (Qs i) O st).

(** A transport call of the run was handed what its goroutine promised. *)
Definition event_ok (Evs : nat → sent → Prop) (ev : event) : Prop :=
  ∃ sv, ev_sent ev = Some sv ∧ Evs (ev_tid ev) sv.

(** ** Rely and guarantee *)

Section Rules.
Context (b : Store).

Lemma rely_refl O st : store_wf st → rely b O st st.
Proof. intros Hwf. split_and!; [done | apply sframe_refl | done..]. Qed.

Lemma rely_trans O st1 st2 st3 : rely b O st1 st2 → rely b O st2 st3 → rely b O st1 st3.
Proof.
  intros (_ & Hf12 & Ha & Hm & Hr) (Hwf & Hf23 & Ha' & Hm' & Hr').
  split; [done|]. split; [by eapply sframe_trans|]. split_and!; intros l Hl.
  - by rewrite Ha', Ha.
  - by rewrite Hm', Hm.
  - by rewrite Hr', Hr.
Qed.

Lemma within_sge st st' O : fp_within b st O → sge st' st → fp_within b st' O.
Proof. intros (Ha & Hm & Hr) (? & ? & ?). split_and!; intros l Hl; [apply Ha in Hl|apply Hm in Hl|apply Hr in Hl]; lia. Qed.

(** The step of one goroutine is, for another, a step of the others. *)
Lemma guar_rely Oi Oj st st' :
  sge st b → fp_within b st Oi → fp_within b st Oj → fp_disj Oi Oj → guar Oj st st' → rely b Oi st st'.
Proof.
  intros (Ba & Bm & Br) (Hia & Him & Hir) (Hja & Hjm & Hjr) (Da & Dm & Dr)
         (Hwf & (Ga & Gm & Gr) & Wa & Wm & Wr).
  split; [done|]. split; [split_and!; split; try lia|split_and!].
  - intros l Hl. apply Wa; [intros Hj%Hja|]; lia.
  - intros l Hl. apply Wm; [intros Hj%Hjm|]; lia.
  - intros l Hl. apply Wr; [intros Hj%Hjr|]; lia.
  - intros l Hl. apply Wa; [by intros Hj; apply (Da l)|]. apply Hia in Hl. lia.
  - intros l Hl. apply Wm; [by intros Hj; apply (Dm l)|]. apply Him in Hl. lia.
  - intros l Hl. apply Wr; [by intros Hj; apply (Dr l)|]. apply Hir in Hl. lia.
Qed.

Lemma within_step O st st' :
  sge st b → fp_within b st O → guar O st st' → fp_within b st' (fp_union O (fp_new st st')).
Proof.
  intros (Ba & Bm & Br) (Ha & Hm & Hr) (_ & (Ga & Gm & Gr) & _).
  split_and!; intros l [Hl|Hl]; cbn in *; try (apply Ha in Hl || apply Hm in Hl || apply Hr in Hl); lia.
Qed.

Lemma fp_disj_sym X Y : fp_disj X Y → fp_disj Y X.
Proof. intros (Da & Dm & Dr). split_and!; intros l ??; eauto. Qed.

(** What one goroutine allocates is disjoint from what another owns. *)
Lemma disj_step Oi Oj st st' :
  fp_within b st Oi → fp_disj Oi Oj → fp_disj Oi (fp_union Oj (fp_new st st')).
Proof.
  intros (Ha & Hm & Hr) (Da & Dm & Dr).
  split_and!; intros l Hl [Hj|Hj]; cbn in *; eauto;
    [apply Ha in Hl|apply Hm in Hl|apply Hr in Hl]; lia.
Qed.

Lemma wpr_stable {A} Ev (p : prog A) Q O st st' :
  wpr b Ev p Q O st → rely b O st st' → wpr b Ev p Q O st'.
Proof. destruct p; cbn; intros Hw Hr st0 Hr0; apply Hw; by eapply rely_trans. Qed.

(** The guarantee keeps every object older than [b]. *)
Lemma guar_sframe O st st' : sge st b → fp_within b st O → guar O st st' → sframe b st st'.
Proof.
  intros Hb Hw Hg. assert (fp_within b st fp_empty) as He by (split_and!; done).
  apply (guar_rely fp_empty O st st') in Hg as (_ & Hf & _); [done..|].
  split_and!; by intros l [].
Qed.
End Rules.

(** ** The pool *)

Section Pool.
Context (b : Store) {A : Type} (Evs : nat → sent → Prop) (Qs : nat → A → fp → Store → Prop).

(** After a step of goroutine [i], which owned [O], the invariant holds
    again with [i] owning what it allocated too. *)
Lemma pool_own_step Os (ts : list (prog A)) st st1 i O p :
  store_wf st → sge st b → length Os = length ts →
  (∀ i O, Os !! i = Some O → fp_within b st O) →
  (∀ i j O O', i ≠ j → Os !! i = Some O → Os !! j = Some O' → fp_disj O O') →
  (∀ i p O, ts !! i = Some p → Os !! i = Some O → wpr b (Evs i) p (Qs i) O st) →
  Os !! i = Some O → guar O st st1 → wpr b (Evs i) p (Qs i) (fp_union O (fp_new st st1)) st1 →
  pool_inv b Evs Qs (<[i := p]> ts) st1 ∧ sframe b st st1.
Proof.
  intros Hwf Hb Hlen Hin Hdisj Hwp HO Hg Hw.
  pose proof (Hin i O HO) as HinO.
  assert (sge st1 st) as Hge by apply Hg.
  split; [|by eapply guar_sframe].
  split; [apply Hg|]. split; [by eapply sge_trans|].
  exists (<[i := fp_union O (fp_new st st1)]> Os). split_and!.
  - by rewrite !length_insert.
  - intros j Oj Hj. destruct (decide (i = j)) as [<-|Hne].
    + rewrite list_lookup_insert_eq in Hj by (eapply lookup_lt_Some; done). injection Hj as <-.
      by apply within_step.
    + rewrite list_lookup_insert_ne in Hj by done. apply (within_sge b st); [by eauto|done].
  - intros j1 j2 O1 O2 Hne H1 H2.
    destruct (decide (i = j1)) as [<-|Hne1]; [|destruct (decide (i = j2)) as [<-|Hne2]].
    + rewrite list_lookup_insert_eq in H1 by (eapply lookup_lt_Some; done).
      rewrite list_lookup_insert_ne in H2 by done. injection H1 as <-.
      apply fp_disj_sym, (disj_step b _ _ st); [by eapply Hin|]. by apply (Hdisj j2 i).
    + rewrite list_lookup_insert_eq in H2 by (eapply lookup_lt_Some; done).
      rewrite list_lookup_insert_ne in H1 by done. injection H2 as <-.
      apply (disj_step b _ _ st); [by eapply Hin|]. by apply (Hdisj j1 i).
    + rewrite list_lookup_insert_ne in H1, H2 by done. by apply (Hdisj j1 j2).
  - intros j q Oj Hq Hj. destruct (decide (i = j)) as [<-|Hne].
    + rewrite list_lookup_insert_eq in Hq by (rewrite <- Hlen; eapply lookup_lt_Some; done).
      rewrite list_lookup_insert_eq in Hj by (eapply lookup_lt_Some; done).
      by injection Hq as <-; injection Hj as <-.
    + rewrite list_lookup_insert_ne in Hq by done. rewrite list_lookup_insert_ne in Hj by done.
      eapply wpr_stable; [by eapply Hwp|]. apply (guar_rely b Oj O st st1); [done | by eapply Hin | by eapply Hin | | done].
      by apply (Hdisj j i).
Qed.

(** One step of any goroutine keeps the invariant, keeps every object
    older than [b], and a transport call is handed what its goroutine
    promised. *)
Lemma pool_inv_step (ts : list (prog A)) st e c' :
  pool_inv b Evs Qs ts st → cstep (Live ts st) e c' →
  ∃ ts' st', c' = Live ts' st' ∧ pool_inv b Evs Qs ts' st' ∧ sframe b st st' ∧
             Forall (event_ok Evs) (opt_list e).
Proof.
  intros (Hwf & Hb & Os & Hlen & Hin & Hdisj & Hwp) [i Hs]. unfold step_thread in Hs.
  destruct (ts !! i) as [p|] eqn:Hi; [|done].
  destruct (lookup_lt_is_Some_2 Os i) as [O HO]; [rewrite Hlen; by eapply lookup_lt_Some|].
  pose proof (Hwp i p O Hi HO) as Hw.
  destruct p as [a|B m k|d r k]; [done| |].
  - destruct (Hw st (rely_refl b O st Hwf)) as (x & st1 & Hm & Hg & Hk).
    rewrite Hm in Hs. injection Hs as <- <-.
    edestruct pool_own_step as [Hinv Hf]; [exact Hwf | done..|].
    do 2 eexists. split_and!; [done | exact Hinv | done | constructor].
  - destruct (Hw st (rely_refl b O st Hwf)) as ((sv & Hsv & Hev) & x & st1 & Hm & Hg & Hk).
    rewrite Hm in Hs. injection Hs as <- <-.
    edestruct pool_own_step as [Hinv Hf]; [exact Hwf | done..|].
    do 2 eexists. split_and!; [done | exact Hinv | done |].
    constructor; [|constructor]. by exists sv.
Qed.

(** Along every run: no panic, every object older than [b] kept, and
    every transport call handed what its goroutine promised. *)
Lemma pool_steps_inv (ts : list (prog A)) st tr c :
  pool_inv b Evs Qs ts st → steps (Live ts st) tr c →
  ∃ ts' st', c = Live ts' st' ∧ pool_inv b Evs Qs ts' st' ∧ sframe b st st' ∧ Forall (event_ok Evs) tr.
Proof.
  intros Hinv Hs. remember (Live ts st) as c0 eqn:Hc0. revert ts st Hinv Hc0.
  induction Hs as [c|c e c' tr c'' Hstep Hs IH]; intros ts st Hinv ->.
  - do 2 eexists. split_and!; [done | done | apply sframe_refl | constructor].
  - destruct (pool_inv_step ts st e c' Hinv Hstep) as (ts1 & st1 & -> & Hinv1 & Hf1 & He).
    destruct (IH ts1 st1 Hinv1 eq_refl) as (ts2 & st2 & -> & Hinv2 & Hf2 & Htr).
    do 2 eexists. split_and!; [done | done | by eapply sframe_trans | by apply Forall_app].
Qed.

(** A goroutine that has returned [a] has [Q a]. *)
Lemma pool_inv_returned (ts : list (prog A)) st i a :
  pool_inv b Evs Qs ts st → ts !! i = Some (Ret a) → ∃ O, Qs i a O st.
Proof.
  intros (Hwf & Hb & Os & Hlen & Hin & Hdisj & Hwp) Hi.
  destruct (lookup_lt_is_Some_2 Os i) as [O HO]; [rewrite Hlen; by eapply lookup_lt_Some|].
  exists O. apply (Hwp i _ O Hi HO). by apply rely_refl.
Qed.

End Pool.

(** ** Rules of [wpr] *)

Section WprRules.
Context (b : Store) {A : Type} (Ev : sent → Prop).

Lemma wpr_bind {B} (p : prog B) (f : B → prog A) Q O st :
  store_wf st → wpr b Ev p (λ x O' st', wpr b Ev (f x) Q O' st') O st → wpr b Ev (p ≫= f) Q O st.
Proof.
  revert O st. induction p as [a|C m k IH|d r k IH]; intros O st Hwf H; cbn in H |- *.
  - apply H. by apply rely_refl.
  - intros st0 Hr. destruct (H st0 Hr) as (x & st1 & Hm & Hg & Hw).
    exists x, st1. split_and!; [done | done |]. apply IH; [apply Hg | done].
  - intros st0 Hr. destruct (H st0 Hr) as (Hev & x & st1 & Hm & Hg & Hw).
    split; [done|]. exists x, st1. split_and!; [done | done |]. apply IH; [apply Hg | done].
Qed.

End WprRules.

Lemma wpr_mono b {A} (Ev Ev' : sent → Prop) (p : prog A) Q Q' O st :
  wpr b Ev p Q O st → (∀ sv, Ev sv → Ev' sv) → (∀ a O' st', Q a O' st' → Q' a O' st') →
  wpr b Ev' p Q' O st.
Proof.
  revert O st. induction p as [a|C m k IH|d r k IH]; intros O st H HE HQ; cbn in H |- *.
  - intros st' Hr. by apply HQ, H.
  - intros st0 Hr. destruct (H st0 Hr) as (x & st1 & Hm & Hg & Hw). eauto 10.
  - intros st0 Hr. destruct (H st0 Hr) as ((sv & Hsv & Hev) & x & st1 & Hm & Hg & Hw). split; [eauto|]. eauto 10.
Qed.

Section WprFrame.
(** A step that only allocates, or only reads, keeps the guarantee. *)
Lemma guar_alloc O st st' : store_wf st' → sframe st st st' → guar O st st'.
Proof.
  intros Hwf ((Ua & Na) & (Um & Nm) & (Ur & Nr)). split; [done|].
  split_and!; [split_and!; lia | ..]; intros l _ Hl; [by apply Ua|by apply Um|by apply Ur].
Qed.

(** Writing only within a footprint is writing within any larger one. *)
Lemma writes_in_mono (X Y : fp) st st' :
  (∀ l, fa X l → fa Y l) → (∀ l, fm X l → fm Y l) → (∀ l, fr X l → fr Y l) →
  writes_in X st st' → writes_in Y st st'.
Proof. intros Ha Hm Hr (Hge & Wa & Wm & Wr). split_and!; [done | ..]; intros l Hl; eauto. Qed.

End WprFrame.

Section WprAtom.
Context (b : Store) {A : Type} (Ev : sent → Prop).

(** One primitive operation, then the rest. *)
Lemma wpr_atom_bind {B} (m : M B) (k : B → prog A) Q O st :
  (∀ st0, rely b O st st0 → ∃ x st1, m st0 = Ok (x, st1) ∧ guar O st0 st1 ∧
     wpr b Ev (k x) Q (fp_union O (fp_new st0 st1)) st1) →
  wpr b Ev (atom m ≫= k) Q O st.
Proof. intros H. exact H. Qed.

Lemma wpr_bind_assoc {B C} (p : prog C) (f : C → prog B) (g : B → prog A) Q O st :
  wpr b Ev (p ≫= (λ x, f x ≫= g)) Q O st → wpr b Ev ((p ≫= f) ≫= g) Q O st.
Proof.
  revert O st. induction p as [a|D m k IH|d r k IH]; intros O st H; [exact H| |]; cbn in H |- *.
  - intros st0 Hr. destruct (H st0 Hr) as (x & st1 & Hm & Hg & Hw). eauto 10.
  - intros st0 Hr. destruct (H st0 Hr) as (Hev & x & st1 & Hm & Hg & Hw). eauto 10.
Qed.

End WprAtom.
